(** * The virtual file system of the viewer (llvfs.cpp)

    A shallow embedding of [LLVFS]: the asset directory, the two free-block
    indexes, the index-file persistence and the LRU eviction, followed by the
    properties of the design document proved about the embedded code.

    Conventions.  C integers are [Z] with their wrap-around written out
    ([wrapU32], [wrapS32], ...); a byte is a [Z] in [0, 256); the index file
    is a list of bytes and the data file a sparse map from offsets to bytes.
    The model is the release build: [llassert] and the [#if LL_DEBUG] block
    of [addFreeBlock] compile to nothing and [llverify] only evaluates its
    argument.  A pointer to a [LLVFSFileBlock] is modelled by passing the
    object in and handing it back (the directory owns one object per key);
    the [LLVFSBlock] objects of the free lists are shared between two
    indexes and live in an explicit heap.  The data mutex and the elapsed
    time warning of [findFreeBlock] are not modelled; host-file reads and
    writes are assumed to succeed. *)

From Stdlib Require Import ZArith Lia List Bool String.
From stdpp Require Import base gmap list sorting.
Import ListNotations.
Local Open Scope Z_scope.

(** ** Machine integers *)

Definition wrapU (bits : Z) (x : Z) : Z := x mod 2 ^ bits.

Definition wrapS (bits : Z) (x : Z) : Z :=
  (x + 2 ^ (bits - 1)) mod 2 ^ bits - 2 ^ (bits - 1).

Definition wrapU32 := wrapU 32.
Definition wrapU16 := wrapU 16.
Definition wrapS32 := wrapS 32.
Definition wrapS16 := wrapS 16.

Definition inU32 (x : Z) : Prop := 0 <= x < 2 ^ 32.
Definition inS32 (x : Z) : Prop := - 2 ^ 31 <= x < 2 ^ 31.
Definition inS16 (x : Z) : Prop := - 2 ^ 15 <= x < 2 ^ 15.
Definition isByte (x : Z) : Prop := 0 <= x < 256.

(** ** Integers in memory *)

(** [n] bytes of [x], least significant first (two's complement for a
    negative [x]). *)
Fixpoint bytes_le (n : nat) (x : Z) : list Z :=
  match n with
  | O => []
  | S n' => x mod 256 :: bytes_le n' (x / 256)
  end.

(** The unsigned integer whose least-significant-first bytes are [bs]. *)
Fixpoint le_value (bs : list Z) : Z :=
  match bs with
  | [] => 0
  | b :: r => b + 256 * le_value r
  end.

(** An integer object of [n] bytes as it lies in the memory of the host. *)
Definition host_store (little_endian : bool) (n : nat) (x : Z) : list Z :=
  if little_endian then bytes_le n x else rev (bytes_le n x).

(** Reading [bs] in host memory as an unsigned integer object. *)
Definition host_load (little_endian : bool) (bs : list Z) : Z :=
  if little_endian then le_value bs else le_value (rev bs).

(** ** Constants of llvfs.cpp *)

Definition FILE_BLOCK_MASK : Z := 0x000003FF.
Definition VFS_CLEANUP_SIZE : Z := 5242880.
Definition BLOCK_LENGTH_INVALID : Z := -1.
Definition SERIAL_SIZE : Z := 34.
Definition AT_NONE : Z := -1.

(** ** The classes of llvfs.cpp *)

Inductive EVFSLock := VFSLOCK_OPEN | VFSLOCK_READ | VFSLOCK_APPEND.

Inductive EVFSValid :=
| VFSVALID_UNKNOWN
| VFSVALID_OK
| VFSVALID_BAD_CORRUPT
| VFSVALID_BAD_CANNOT_OPEN_READONLY
| VFSVALID_BAD_CANNOT_CREATE.

(** [LLUUID::mData], sixteen bytes. *)
Definition LLUUID := list Z.

Definition LLUUID_null : LLUUID := repeat 0 16.

Record LLVFSBlock := mkBlock {
  mLocation : Z;   (* U32 *)
  mLength : Z      (* S32, allocated block size *)
}.

Record LLVFSFileSpecifier := mkSpec {
  mFileID : LLUUID;
  mFileType : Z    (* LLAssetType::EType *)
}.

(** An array indexed by [EVFSLock]. *)
Record LockArray := mkLocks {
  lkOpen : Z;
  lkRead : Z;
  lkAppend : Z
}.

Definition lock_get (a : LockArray) (l : EVFSLock) : Z :=
  match l with
  | VFSLOCK_OPEN => lkOpen a
  | VFSLOCK_READ => lkRead a
  | VFSLOCK_APPEND => lkAppend a
  end.

Definition lock_set (a : LockArray) (l : EVFSLock) (v : Z) : LockArray :=
  match l with
  | VFSLOCK_OPEN => mkLocks v (lkRead a) (lkAppend a)
  | VFSLOCK_READ => mkLocks (lkOpen a) v (lkAppend a)
  | VFSLOCK_APPEND => mkLocks (lkOpen a) (lkRead a) v
  end.

Definition no_locks : LockArray := mkLocks 0 0 0.

(** [class LLVFSFileBlock : public LLVFSBlock, public LLVFSFileSpecifier]:
    the two base classes are the first two fields. *)
Record LLVFSFileBlock := mkFileBlock {
  fbBlock :> LLVFSBlock;
  fbSpec :> LLVFSFileSpecifier;
  mSize : Z;            (* S32 *)
  mIndexLocation : Z;   (* S32, location of index entry *)
  mAccessTime : Z;      (* U32 *)
  mLocks : LockArray    (* number of outstanding locks of each type *)
}.

Definition set_mLocation (v : Z) (b : LLVFSFileBlock) : LLVFSFileBlock :=
  mkFileBlock (mkBlock v (mLength b)) b (mSize b) (mIndexLocation b)
              (mAccessTime b) (mLocks b).
Definition set_mLength (v : Z) (b : LLVFSFileBlock) : LLVFSFileBlock :=
  mkFileBlock (mkBlock (mLocation b) v) b (mSize b) (mIndexLocation b)
              (mAccessTime b) (mLocks b).
Definition set_mSize (v : Z) (b : LLVFSFileBlock) : LLVFSFileBlock :=
  mkFileBlock b b v (mIndexLocation b) (mAccessTime b) (mLocks b).
Definition set_mIndexLocation (v : Z) (b : LLVFSFileBlock) : LLVFSFileBlock :=
  mkFileBlock b b (mSize b) v (mAccessTime b) (mLocks b).
Definition set_mAccessTime (v : Z) (b : LLVFSFileBlock) : LLVFSFileBlock :=
  mkFileBlock b b (mSize b) (mIndexLocation b) v (mLocks b).
Definition set_mLocks (v : LockArray) (b : LLVFSFileBlock) : LLVFSFileBlock :=
  mkFileBlock b b (mSize b) (mIndexLocation b) (mAccessTime b) v.
Definition set_fbSpec (v : LLVFSFileSpecifier) (b : LLVFSFileBlock) : LLVFSFileBlock :=
  mkFileBlock b v (mSize b) (mIndexLocation b) (mAccessTime b) (mLocks b).

(** [LLVFSFileBlock(file_id, file_type, loc, size)] followed by [init()];
    [now] is the value of [time(NULL)]. *)
Definition new_LLVFSFileBlock (file_id : LLUUID) (file_type : Z) (loc size : Z)
    (now : Z) : LLVFSFileBlock :=
  mkFileBlock (mkBlock loc size) (mkSpec file_id file_type) 0 (-1) now no_locks.

(** The default constructor [LLVFSFileBlock()]. *)
Definition default_LLVFSFileBlock (now : Z) : LLVFSFileBlock :=
  new_LLVFSFileBlock LLUUID_null AT_NONE 0 0 now.

Global Instance LLVFSFileSpecifier_eq_dec : EqDecision LLVFSFileSpecifier.
Proof. solve_decision. Defined.

Global Instance LLVFSFileSpecifier_countable : Countable LLVFSFileSpecifier :=
  inj_countable' (fun s => (mFileID s, mFileType s))
                 (fun p => mkSpec (fst p) (snd p))
                 (fun s => match s with mkSpec _ _ => eq_refl end).

(** Modelled from the spec: [LLUUID::operator<] (lluuid.h is not among the
    sources); keys are compared lexicographically, byte by byte. *)
Fixpoint uuid_ltb (a b : LLUUID) : bool :=
  match a, b with
  | x :: a', y :: b' => if x =? y then uuid_ltb a' b' else x <? y
  | [], _ :: _ => true
  | _, [] => false
  end.

Definition uuid_eqb (a b : LLUUID) : bool := bool_decide (a = b).

(** [LLVFSFileSpecifier::operator<]. *)
Definition spec_ltb (lhs rhs : LLVFSFileSpecifier) : bool :=
  if uuid_eqb (mFileID lhs) (mFileID rhs)
  then mFileType lhs <? mFileType rhs
  else uuid_ltb (mFileID lhs) (mFileID rhs).

(** [LLVFSFileBlock::insertLRU]. *)
Definition insertLRU (first second : LLVFSFileBlock) : bool :=
  if mAccessTime first =? mAccessTime second
  then spec_ltb first second
  else mAccessTime first <? mAccessTime second.

(** [LLVFSBlock::insertFirstLL]. *)
Definition insertFirstLL (first second : LLVFSBlock) : bool :=
  if negb (mLocation first =? mLocation second)
  then mLocation first <? mLocation second
  else mLength first <? mLength second.

Section VFS.

(** Build settings and declarations that live outside llvfs.cpp. *)

(** [LL_LITTLE_ENDIAN]: whether the host stores integers least significant
    byte first. *)
Variable LL_LITTLE_ENDIAN : bool.

(** [LLAssetType::AT_COUNT] (llassettype.h). *)
Variable AT_COUNT : Z.

(** Whether control comes back from [llerrs << ... << llendl].  The macro
    hands the message to the fatal-error sink of llerror.h, which is not
    among the sources; the statements that follow an [llerrs] in llvfs.cpp
    run only when the sink returns. *)
Variable llerrs_returns : bool.

(** ** Serialization of a file block *)

Definition swizzle32 (x : Z) : Z :=
  Z.lor (Z.lor (Z.lor (Z.land (Z.shiftr x 24) 0x000000FF)
                      (Z.land (Z.shiftr x 8) 0x0000FF00))
               (Z.land (wrapU32 (Z.shiftl x 8)) 0x00FF0000))
        (Z.land (wrapU32 (Z.shiftl x 24)) 0xFF000000).

Definition swizzle16 (x : Z) : Z :=
  wrapU16 (Z.lor (Z.land (Z.shiftr x 8) 0x000000FF)
                 (Z.land (Z.shiftl x 8) 0x0000FF00)).

(** [swizzleCopy(dst, src, size)]: the [size] bytes stored at [dst], given
    the bytes found at [src]. *)
Definition swizzleCopy (src : list Z) (size : Z) : list Z :=
  if LL_LITTLE_ENDIAN then take (Z.to_nat size) src
  else if size =? 4 then
    host_store false 4 (swizzle32 (host_load false (take 4 src)))
  else if size =? 2 then
    host_store false 2 (swizzle16 (host_load false (take 2 src)))
  else take (Z.to_nat size) src.

(** The bytes of a field of the object, as the host holds them. *)
Definition field32 (x : Z) : list Z := host_store LL_LITTLE_ENDIAN 4 x.
Definition field16 (x : Z) : list Z := host_store LL_LITTLE_ENDIAN 2 x.

(** [LLVFSFileBlock::serialize]: the 34 bytes written to [buffer]. *)
Definition serialize (this : LLVFSFileBlock) : list Z :=
  swizzleCopy (field32 (mLocation this)) 4
  ++ swizzleCopy (field32 (mLength this)) 4
  ++ swizzleCopy (field32 (mAccessTime this)) 4
  ++ take 16 (mFileID this)
  ++ (let temp_type := wrapS16 (mFileType this) in
      swizzleCopy (field16 temp_type) 2)
  ++ swizzleCopy (field32 (mSize this)) 4.

(** [LLVFSFileBlock::deserialize]: the object after the call. *)
Definition deserialize (this : LLVFSFileBlock) (buffer : list Z)
    (index_loc : Z) : LLVFSFileBlock :=
  let loc := host_load LL_LITTLE_ENDIAN (swizzleCopy buffer 4) in
  let buffer := drop 4 buffer in
  let len := wrapS32 (host_load LL_LITTLE_ENDIAN (swizzleCopy buffer 4)) in
  let buffer := drop 4 buffer in
  let atime := host_load LL_LITTLE_ENDIAN (swizzleCopy buffer 4) in
  let buffer := drop 4 buffer in
  let id := take 16 buffer in
  let buffer := drop 16 buffer in
  let temp_type := wrapS16 (host_load LL_LITTLE_ENDIAN (swizzleCopy buffer 2)) in
  let buffer := drop 2 buffer in
  let size := wrapS32 (host_load LL_LITTLE_ENDIAN (swizzleCopy buffer 4)) in
  mkFileBlock (mkBlock loc len) (mkSpec id temp_type) size index_loc atime
              (mLocks this).

(** ** The state of a [LLVFS] object *)

Inductive LLLevel := LLINFOS | LLWARNS | LLERRS.

Definition ptr := positive.

Record LLVFS := mkVFS {
  mValid : EVFSValid;
  mReadOnly : bool;
  mFileBlocks : gmap LLVFSFileSpecifier LLVFSFileBlock;
  (* the LLVFSBlock objects that the two free lists point to *)
  blocks : gmap ptr LLVFSBlock;
  (* std::map keyed by location, in ascending key order *)
  mFreeBlocksByLocation : list (Z * ptr);
  (* std::multimap keyed by length, in ascending key order *)
  mFreeBlocksByLength : list (Z * ptr);
  mIndexHoles : list Z;       (* std::deque<S32> *)
  mLockCounts : LockArray;
  mIndexFP : list Z;          (* contents of the index file *)
  mDataFP : gmap Z Z;         (* contents of the data file, by offset *)
  llog : list (LLLevel * string)   (* what went to the log streams *)
}.

Definition isValid (s : LLVFS) : bool :=
  match mValid s with VFSVALID_OK => true | _ => false end.

Definition set_mFileBlocks (v : gmap LLVFSFileSpecifier LLVFSFileBlock)
    (s : LLVFS) : LLVFS :=
  mkVFS (mValid s) (mReadOnly s) v (blocks s) (mFreeBlocksByLocation s)
        (mFreeBlocksByLength s) (mIndexHoles s) (mLockCounts s) (mIndexFP s)
        (mDataFP s) (llog s).
Definition set_blocks (v : gmap ptr LLVFSBlock) (s : LLVFS) : LLVFS :=
  mkVFS (mValid s) (mReadOnly s) (mFileBlocks s) v (mFreeBlocksByLocation s)
        (mFreeBlocksByLength s) (mIndexHoles s) (mLockCounts s) (mIndexFP s)
        (mDataFP s) (llog s).
Definition set_mFreeBlocksByLocation (v : list (Z * ptr)) (s : LLVFS) : LLVFS :=
  mkVFS (mValid s) (mReadOnly s) (mFileBlocks s) (blocks s) v
        (mFreeBlocksByLength s) (mIndexHoles s) (mLockCounts s) (mIndexFP s)
        (mDataFP s) (llog s).
Definition set_mFreeBlocksByLength (v : list (Z * ptr)) (s : LLVFS) : LLVFS :=
  mkVFS (mValid s) (mReadOnly s) (mFileBlocks s) (blocks s)
        (mFreeBlocksByLocation s) v (mIndexHoles s) (mLockCounts s)
        (mIndexFP s) (mDataFP s) (llog s).
Definition set_mIndexHoles (v : list Z) (s : LLVFS) : LLVFS :=
  mkVFS (mValid s) (mReadOnly s) (mFileBlocks s) (blocks s)
        (mFreeBlocksByLocation s) (mFreeBlocksByLength s) v (mLockCounts s)
        (mIndexFP s) (mDataFP s) (llog s).
Definition set_mLockCounts (v : LockArray) (s : LLVFS) : LLVFS :=
  mkVFS (mValid s) (mReadOnly s) (mFileBlocks s) (blocks s)
        (mFreeBlocksByLocation s) (mFreeBlocksByLength s) (mIndexHoles s) v
        (mIndexFP s) (mDataFP s) (llog s).
Definition set_mIndexFP (v : list Z) (s : LLVFS) : LLVFS :=
  mkVFS (mValid s) (mReadOnly s) (mFileBlocks s) (blocks s)
        (mFreeBlocksByLocation s) (mFreeBlocksByLength s) (mIndexHoles s)
        (mLockCounts s) v (mDataFP s) (llog s).
Definition set_mDataFP (v : gmap Z Z) (s : LLVFS) : LLVFS :=
  mkVFS (mValid s) (mReadOnly s) (mFileBlocks s) (blocks s)
        (mFreeBlocksByLocation s) (mFreeBlocksByLength s) (mIndexHoles s)
        (mLockCounts s) (mIndexFP s) v (llog s).
Definition set_llog (v : list (LLLevel * string)) (s : LLVFS) : LLVFS :=
  mkVFS (mValid s) (mReadOnly s) (mFileBlocks s) (blocks s)
        (mFreeBlocksByLocation s) (mFreeBlocksByLength s) (mIndexHoles s)
        (mLockCounts s) (mIndexFP s) (mDataFP s) v.

(** ** Member functions as state transformers

    A member function either returns a value and leaves a state, or the
    process stops in the fatal-error sink. *)

Inductive outcome (A : Type) :=
| Returned (a : A) (s : LLVFS)
| Crashed (s : LLVFS).
Arguments Returned {A} a s.
Arguments Crashed {A} s.

Definition M (A : Type) := LLVFS -> outcome A.

Definition ret {A} (a : A) : M A := fun s => Returned a s.

Definition bind {A B} (m : M A) (k : A -> M B) : M B :=
  fun s => match m s with
           | Returned a s' => k a s'
           | Crashed s' => Crashed s'
           end.

Notation "x <- m ;; k" := (bind m (fun x => k))
  (at level 100, m at next level, right associativity).
Notation "m ;;; k" := (bind m (fun _ => k))
  (at level 100, right associativity).

Definition get : M LLVFS := fun s => Returned s s.
Definition modify (f : LLVFS -> LLVFS) : M unit := fun s => Returned tt (f s).

Definition lllog (lvl : LLLevel) (msg : string) : M unit :=
  modify (fun s => set_llog (llog s ++ [(lvl, msg)]) s).

Definition llinfos := lllog LLINFOS.
Definition llwarns := lllog LLWARNS.

(** [llerrs << msg << llendl]. *)
Definition llerrs (msg : string) : M unit :=
  fun s =>
    let s' := set_llog (llog s ++ [(LLERRS, msg)]) s in
    if llerrs_returns then Returned tt s' else Crashed s'.

(** Using a pointer to an object that is not there is undefined in the
    source; the model stops. *)
Definition stuck {A} : M A := fun s => Crashed s.

(** The guard that opens most member functions. *)
Definition check_valid : M unit :=
  s <- get ;;
  if isValid s then ret tt else llerrs "Attempting to use invalid VFS!".

(** ** Files *)

(** [fseek(fp, pos, SEEK_SET); fwrite(buf, ...)] on a file held as a list of
    bytes.  A gap between the end of the file and [pos] reads as zeros. *)
Definition pwrite (pos : Z) (buf : list Z) (file : list Z) : list Z :=
  let n := Z.to_nat pos in
  take n (file ++ repeat 0 (n - length file)%nat)
  ++ buf ++ drop (n + length buf)%nat file.

(** The same on the sparse data file. *)
Fixpoint dwrite (pos : Z) (buf : list Z) (file : gmap Z Z) : gmap Z Z :=
  match buf with
  | [] => file
  | b :: r => dwrite (pos + 1) r (<[pos := b]> file)
  end.

(** The [n] bytes of the data file from [pos] on; a byte inside the file
    that was never written (a gap left by a write behind the end) is
    zero. *)
Fixpoint dread (pos : Z) (n : nat) (file : gmap Z Z) : list Z :=
  match n with
  | O => []
  | S n' => default 0 (file !! pos) :: dread (pos + 1) n' file
  end.

(** The size of the data file, as [fseek(fp, 0, SEEK_END); ftell(fp)]
    gives it: the file ends behind the last byte written. *)
Definition data_end (file : gmap Z Z) : Z :=
  map_fold (fun pos _ size => Z.max (pos + 1) size) 0 file.

(** [fseek(fp, pos, SEEK_SET); fread(buf, 1, n, fp)]: the bytes that
    arrive in the buffer.  The read is short where the file ends before
    [pos + n], and empty where [pos] lies at or behind the end. *)
Definition fread (pos : Z) (n : nat) (file : gmap Z Z) : list Z :=
  dread pos (Nat.min n (Z.to_nat (data_end file - pos))) file.

(** ** The free lists *)

(** [lower_bound(k)] on a container kept in ascending key order: the
    entries before the iterator and the entries from the iterator on. *)
Fixpoint lower_bound (k : Z) (l : list (Z * ptr)) : list (Z * ptr) * list (Z * ptr) :=
  match l with
  | [] => ([], [])
  | (k', p) :: r =>
      if k' <? k
      then let '(a, b) := lower_bound k r in ((k', p) :: a, b)
      else ([], l)
  end.

(** [upper_bound(k)], likewise. *)
Fixpoint upper_bound (k : Z) (l : list (Z * ptr)) : list (Z * ptr) * list (Z * ptr) :=
  match l with
  | [] => ([], [])
  | (k', p) :: r =>
      if k' <=? k
      then let '(a, b) := upper_bound k r in ((k', p) :: a, b)
      else ([], l)
  end.

(** [std::multimap::insert(value_type(k, p))]: after the entries whose key
    is not greater. *)
Definition multimap_insert (k : Z) (p : ptr) (l : list (Z * ptr)) : list (Z * ptr) :=
  let '(a, b) := upper_bound k l in a ++ (k, p) :: b.

(** Modelled from the spec: the container type of [mFreeBlocksByLocation]
    (declared in llvfs.h, which is not among the sources) is a map with
    unique keys; [insert] leaves the map alone when the key is present. *)
Definition map_insert (k : Z) (p : ptr) (l : list (Z * ptr)) : list (Z * ptr) :=
  let '(a, b) := lower_bound k l in
  match b with
  | (k', _) :: _ => if k' =? k then l else a ++ (k, p) :: b
  | [] => a ++ [(k, p)]
  end.

(** [erase(key)]. *)
Definition map_erase (k : Z) (l : list (Z * ptr)) : list (Z * ptr) :=
  filter (fun e => fst e <> k) l.

(** The scan of [eraseBlockLength]: drop the first entry that points to
    [block]; [None] when the scan reaches [end()]. *)
Fixpoint erase_first (block : ptr) (l : list (Z * ptr)) : option (list (Z * ptr)) :=
  match l with
  | [] => None
  | (k, q) :: r =>
      if decide (q = block) then Some r
      else match erase_first block r with
           | Some r' => Some ((k, q) :: r')
           | None => None
           end
  end.

(** [*p]. *)
Definition deref (p : ptr) : M LLVFSBlock :=
  s <- get ;;
  match blocks s !! p with
  | Some b => ret b
  | None => stuck
  end.

(** [*p = b]. *)
Definition store (p : ptr) (b : LLVFSBlock) : M unit :=
  modify (fun s => set_blocks (<[p := b]> (blocks s)) s).

(** [new LLVFSBlock(loc, size)]. *)
Definition new_LLVFSBlock (loc size : Z) : M ptr :=
  s <- get ;;
  let p := fresh (dom (blocks s)) in
  store p (mkBlock loc size) ;;;
  ret p.

(** [delete p]. *)
Definition delete_block (p : ptr) : M unit :=
  modify (fun s => set_blocks (delete p (blocks s)) s).

(** [LLVFS::eraseBlockLength]. *)
Definition eraseBlockLength (block : ptr) : M unit :=
  b <- deref block ;;
  s <- get ;;
  let length := mLength b in
  let '(before, from_iter) := lower_bound length (mFreeBlocksByLength s) in
  match erase_first block from_iter with
  | Some rest => modify (set_mFreeBlocksByLength (before ++ rest))
  | None => llerrs "eraseBlock could not find block"
  end.

(** [LLVFS::eraseBlock]: remove block from both free lists. *)
Definition eraseBlock (block : ptr) : M unit :=
  eraseBlockLength block ;;;
  b <- deref block ;;
  let location := mLocation b in
  modify (fun s => set_mFreeBlocksByLocation
                     (map_erase location (mFreeBlocksByLocation s)) s).

(** The first step of [addFreeBlock]: [prev_block] and [merge_prev], from
    the entries in front of [next_free_it].  We can merge with previous if
    it ends at our requested location. *)
Definition find_merge_prev (before : list (Z * ptr)) (b : LLVFSBlock)
    : M (option ptr * bool) :=
  match last before with
  | Some (_, prev_block) =>
      pb <- deref prev_block ;;
      ret (Some prev_block,
           wrapU32 (mLocation pb + mLength pb) =? mLocation b)
  | None => ret (None, false)
  end.

(** The second step: [next_block] and [merge_next].  We can merge with
    next if our block ends at the next block's location. *)
Definition find_merge_next (next_free_it : list (Z * ptr)) (b : LLVFSBlock)
    : M (option ptr * bool) :=
  match next_free_it with
  | (_, next_block) :: _ =>
      nb <- deref next_block ;;
      ret (Some next_block,
           wrapU32 (mLocation b + mLength b) =? mLocation nb)
  | [] => ret (None, false)
  end.

(** [LLVFS::addFreeBlock]: add the region to the free lists, merging with
    the previous and the next free block. *)
Definition addFreeBlock (block : ptr) : M unit :=
  b <- deref block ;;
  s <- get ;;
  (* Get a pointer to the next free block (by location). *)
  let '(before, next_free_it) :=
    lower_bound (mLocation b) (mFreeBlocksByLocation s) in
  prev <- find_merge_prev before b ;;
  next <- find_merge_next next_free_it b ;;
  let '(prev_block, merge_prev) := prev in
  let '(next_block, merge_next) := next in
  if merge_prev && merge_next then
    (* Previous block is changing length (a lot), so only need to update
       length map.  Next block is going away completely. *)
    match prev_block, next_block with
    | Some prev_block, Some next_block =>
        eraseBlockLength prev_block ;;;
        eraseBlock next_block ;;;
        pb <- deref prev_block ;;
        nb <- deref next_block ;;
        let len := wrapS32 (mLength pb + wrapS32 (mLength b + mLength nb)) in
        store prev_block (mkBlock (mLocation pb) len) ;;;
        modify (fun s => set_mFreeBlocksByLength
                           (multimap_insert len prev_block (mFreeBlocksByLength s)) s) ;;;
        delete_block block ;;;
        delete_block next_block
    | _, _ => stuck
    end
  else if merge_prev then
    (* Previous block is maintaining location, only changing length,
       therefore only need to update the length map. *)
    match prev_block with
    | Some prev_block =>
        eraseBlockLength prev_block ;;;
        pb <- deref prev_block ;;
        let len := wrapS32 (mLength pb + mLength b) in
        store prev_block (mkBlock (mLocation pb) len) ;;;
        modify (fun s => set_mFreeBlocksByLength
                           (multimap_insert len prev_block (mFreeBlocksByLength s)) s) ;;;
        delete_block block
    | None => stuck
    end
  else if merge_next then
    (* Next block is changing both location and length, so both free
       lists must update. *)
    match next_block with
    | Some next_block =>
        eraseBlock next_block ;;;
        nb <- deref next_block ;;
        let len := wrapS32 (mLength nb + mLength b) in
        store next_block (mkBlock (mLocation b) len) ;;;
        modify (fun s => set_mFreeBlocksByLocation
                           (map_insert (mLocation b) next_block (mFreeBlocksByLocation s)) s) ;;;
        modify (fun s => set_mFreeBlocksByLength
                           (multimap_insert len next_block (mFreeBlocksByLength s)) s) ;;;
        delete_block block
    | None => stuck
    end
  else
    (* Can't merge with other free blocks. *)
    modify (fun s => set_mFreeBlocksByLocation
                       (map_insert (mLocation b) block (mFreeBlocksByLocation s)) s) ;;;
    modify (fun s => set_mFreeBlocksByLength
                       (multimap_insert (mLength b) block (mFreeBlocksByLength s)) s).

(** [LLVFS::useFreeSpace]. *)
Definition useFreeSpace (free_block : ptr) (length : Z) : M unit :=
  fb <- deref free_block ;;
  if mLength fb =? length then
    eraseBlock free_block ;;;
    delete_block free_block
  else
    eraseBlock free_block ;;;
    fb <- deref free_block ;;
    store free_block (mkBlock (wrapU32 (mLocation fb + length))
                              (wrapS32 (mLength fb - length))) ;;;
    addFreeBlock free_block.

(** [LLVFS::checkAvailable]. *)
Definition checkAvailable (max_size : Z) (s : LLVFS) : bool :=
  match snd (lower_bound max_size (mFreeBlocksByLength s)) with
  | [] => false
  | _ :: _ => true
  end.

(** ** Index persistence *)

(** [LLVFS::sync]: write the index entry of [block] to the index file;
    the result is the object after the call. *)
Definition sync (block : LLVFSFileBlock) (remove : bool) : M LLVFSFileBlock :=
  check_valid ;;;
  s <- get ;;
  if mReadOnly s then
    llwarns "Attempt to sync read-only VFS" ;;;
    ret block
  else if mLength block =? BLOCK_LENGTH_INVALID then
    (* This is a dummy file, don't save *)
    ret block
  else
    (if mLength block =? 0 then llerrs "VFS syncing zero-length block"
     else ret tt) ;;;
    s <- get ;;
    let seek_pos := mIndexLocation block in
    found <-
      (if -1 =? seek_pos then
         match mIndexHoles s with
         | front :: rest =>
             modify (set_mIndexHoles rest) ;;;
             ret (front, false)
         | [] => ret (seek_pos, true)
         end
       else ret (seek_pos, false)) ;;
    let '(seek_pos, set_index_to_end) := found in
    s <- get ;;
    (* fseek(mIndexFP, 0, SEEK_END); seek_pos = ftell(mIndexFP); *)
    let seek_pos :=
      if set_index_to_end : bool
      then wrapS32 (Z.of_nat (length (mIndexFP s)))
      else seek_pos in
    let block := set_mIndexLocation seek_pos block in
    (if remove then
       modify (fun s => set_mIndexHoles (mIndexHoles s ++ [seek_pos]) s)
     else ret tt) ;;;
    let buffer :=
      if remove then repeat 0 (Z.to_nat SERIAL_SIZE) else serialize block in
    modify (fun s =>
      set_mIndexFP
        (pwrite (if set_index_to_end
                 then Z.of_nat (length (mIndexFP s)) else seek_pos)
                buffer (mIndexFP s)) s) ;;;
    ret block.

(** ** The asset directory *)

Definition find_block (spec : LLVFSFileSpecifier) : M (option LLVFSFileBlock) :=
  s <- get ;; ret (mFileBlocks s !! spec).

(** Write the object back under its key. *)
Definition put_block (spec : LLVFSFileSpecifier) (b : LLVFSFileBlock) : M unit :=
  modify (fun s => set_mFileBlocks (<[spec := b]> (mFileBlocks s)) s).

(** [LLVFS::removeFileBlock]: convert the block into an unsaved dummy that
    keeps its locks; the result is the object after the call. *)
Definition removeFileBlock (fileblock : LLVFSFileBlock) : M LLVFSFileBlock :=
  fileblock <- sync fileblock true ;;
  (if mLength fileblock >? 0 then
     (* turn this file into an empty block *)
     free_block <- new_LLVFSBlock (mLocation fileblock) (mLength fileblock) ;;
     addFreeBlock free_block
   else ret tt) ;;;
  ret (set_mIndexLocation (-1)
        (set_mLength BLOCK_LENGTH_INVALID
          (set_mSize 0
            (set_mLocation 0 fileblock)))).

(** [LLVFS::removeFile]. *)
Definition removeFile (file_id : LLUUID) (file_type : Z) : M unit :=
  check_valid ;;;
  s <- get ;;
  (if mReadOnly s then llerrs "Attempt to write to read-only VFS" else ret tt) ;;;
  let spec := mkSpec file_id file_type in
  it <- find_block spec ;;
  match it with
  | Some block =>
      block <- removeFileBlock block ;;
      put_block spec block
  | None => llwarns "VFS: attempting to remove nonexistent file"
  end.

(** ** LRU eviction *)

(** [std::set<LLVFSFileBlock*, LLVFSFileBlock_less>::insert]; an element
    equivalent to one of the set is not inserted.  A pointer to a file
    block is its key in [mFileBlocks] together with the object. *)
Fixpoint lru_insert (x : LLVFSFileSpecifier * LLVFSFileBlock)
    (l : list (LLVFSFileSpecifier * LLVFSFileBlock))
    : list (LLVFSFileSpecifier * LLVFSFileBlock) :=
  match l with
  | [] => [x]
  | y :: r =>
      if insertLRU (snd x) (snd y) then x :: l
      else if insertLRU (snd y) (snd x) then y :: lru_insert x r
      else l
  end.

(** The test that lets a file block into the LRU list; [immune] is the key
    of the block the caller protects, if any. *)
Definition lru_candidate (immune : option LLVFSFileSpecifier)
    (tmp : LLVFSFileSpecifier * LLVFSFileBlock) : bool :=
  negb (bool_decide (Some (fst tmp) = immune))
  && (mLength (snd tmp) >? 0)
  && (lock_get (mLocks (snd tmp)) VFSLOCK_READ =? 0)
  && (lock_get (mLocks (snd tmp)) VFSLOCK_APPEND =? 0)
  && (lock_get (mLocks (snd tmp)) VFSLOCK_OPEN =? 0).

(** The list of files sorted by usage time that [findFreeBlock] builds
    from [mFileBlocks]. *)
Definition build_lru_list (immune : option LLVFSFileSpecifier) (s : LLVFS)
    : list LLVFSFileSpecifier :=
  map fst
    (foldr (fun tmp acc =>
              if lru_candidate immune tmp then lru_insert tmp acc else acc)
           [] (map_to_list (mFileBlocks s))).

(** The block an element of the LRU list points to. *)
Definition lru_deref (k : LLVFSFileSpecifier) : M LLVFSFileBlock :=
  it <- find_block k ;;
  match it with
  | Some b => ret b
  | None => stuck
  end.

(** The aggressive [for] loop of [findFreeBlock]: remove files from the
    head of the list while [cleaned_up < cleanup_target]; the result is
    what remains of the list. *)
Fixpoint lru_cleanup (cleanup_target cleaned_up : Z)
    (lru_list : list LLVFSFileSpecifier) : M (list LLVFSFileSpecifier) :=
  match lru_list with
  | [] => ret []
  | it :: rest =>
      if cleaned_up <? cleanup_target then
        file_block <- lru_deref it ;;
        let cleaned_up := wrapU32 (cleaned_up + mLength file_block) in
        file_block <- removeFileBlock file_block ;;
        put_block it file_block ;;;
        lru_cleanup cleanup_target cleaned_up rest
      else ret lru_list
  end.

(** [mFreeBlocksByLength.lower_bound(size)]: first entry >= size. *)
Definition find_by_length (size : Z) (s : LLVFS) : option ptr :=
  match snd (lower_bound size (mFreeBlocksByLength s)) with
  | (_, block) :: _ => Some block
  | [] => None
  end.

(** One pass through the body of the [while] loop of [findFreeBlock] from
    the test of [lru_list.size()] on, once the search for a free block has
    failed: [None] for the [break], otherwise the list that remains. *)
Definition lru_evict (size : Z) (immune : option LLVFSFileSpecifier)
    (lru_list : list LLVFSFileSpecifier) : M (option (list LLVFSFileSpecifier)) :=
  match lru_list with
  | [] =>
      (* No more files to delete, and still not enough room! *)
      llwarns "VFS: Can't make bytes of free space in VFS, giving up" ;;;
      ret None
  | it :: rest =>
      file_block <- lru_deref it ;;
      if (mLength file_block >=? size)
         && negb (bool_decide (Some it = immune)) then
        (* ditch this file and look again for a free block *)
        llinfos "LRU: Removing" ;;;
        file_block <- removeFileBlock file_block ;;
        put_block it file_block ;;;
        ret (Some rest)
      else
        llinfos "VFS: LRU: Aggressive" ;;;
        llinfos "dumpLockCounts" ;;;
        let cleanup_target :=
          wrapU32 (if size >? VFS_CLEANUP_SIZE then size else VFS_CLEANUP_SIZE) in
        remaining <- lru_cleanup cleanup_target 0 lru_list ;;
        ret (Some remaining)
  end.

(** The [while (! block)] loop once the LRU list exists.  Every pass that
    does not leave the loop takes at least one element off the list, so
    [fuel] above the length of the list is never used up. *)
Fixpoint findFreeBlock_loop (fuel : nat) (size : Z)
    (immune : option LLVFSFileSpecifier)
    (lru_list : list LLVFSFileSpecifier) : M (option ptr) :=
  s <- get ;;
  match find_by_length size s with
  | Some block => ret (Some block)
  | None =>
      match fuel with
      | O => stuck
      | S fuel' =>
          r <- lru_evict size immune lru_list ;;
          match r with
          | None => ret None
          | Some remaining => findFreeBlock_loop fuel' size immune remaining
          end
      end
  end.

(** [LLVFS::findFreeBlock]; can initiate LRU-based file removal to make
    space, and the immune file block will not be removed.  [None] is the
    NULL result. *)
Definition findFreeBlock (size : Z) (immune : option LLVFSFileSpecifier)
    : M (option ptr) :=
  check_valid ;;;
  s <- get ;;
  match find_by_length size s with
  | Some block => ret (Some block)
  | None =>
      let lru_list := build_lru_list immune s in
      findFreeBlock_loop (S (length lru_list)) size immune lru_list
  end.

(** ** Public operations

    [now] stands for the value of [(U32)time(NULL)] during the call. *)

(** [LLVFS::getExists]. *)
Definition getExists (file_id : LLUUID) (file_type : Z) (now : Z) : M bool :=
  check_valid ;;;
  let spec := mkSpec file_id file_type in
  it <- find_block spec ;;
  match it with
  | Some block =>
      put_block spec (set_mAccessTime now block) ;;;
      ret (mLength block >? 0)
  | None => ret false
  end.

(** [LLVFS::getSize]. *)
Definition getSize (file_id : LLUUID) (file_type : Z) (now : Z) : M Z :=
  check_valid ;;;
  let spec := mkSpec file_id file_type in
  it <- find_block spec ;;
  match it with
  | Some block =>
      put_block spec (set_mAccessTime now block) ;;;
      ret (mSize block)
  | None => ret 0
  end.

(** [LLVFS::getMaxSize]. *)
Definition getMaxSize (file_id : LLUUID) (file_type : Z) (now : Z) : M Z :=
  check_valid ;;;
  let spec := mkSpec file_id file_type in
  it <- find_block spec ;;
  match it with
  | Some block =>
      put_block spec (set_mAccessTime now block) ;;;
      ret (mLength block)
  | None => ret 0
  end.

(** The rounding of [setMaxSize]: all sizes upward to KB increments. *)
Definition round_to_block (max_size : Z) : Z :=
  if Z.land max_size FILE_BLOCK_MASK =? 0 then max_size
  else Z.land (wrapS32 (max_size + FILE_BLOCK_MASK)) (Z.lnot FILE_BLOCK_MASK).

(** What [new U8[n]] holds before anything is stored in it: the byte at
    each index is whatever the allocator left there. *)
Variable uninitialized : nat -> Z.

(** The copy of the used bytes when [setMaxSize] moves a file:
    [fread(buffer, size, 1, mDataFP)] into a fresh buffer of [size] bytes,
    then [fwrite(buffer, size, 1, mDataFP)] at the new place.  The result
    of [fread] is not looked at: where the data file ends before
    [from + size] the rest of the buffer is as it was allocated, and all
    [size] bytes are written. *)
Definition move_file_data (from to size : Z) : M unit :=
  modify (fun s =>
    let n := Z.to_nat size in
    let read := fread from n (mDataFP s) in
    let buffer :=
      read ++ map uninitialized (seq (length read) (n - length read)) in
    set_mDataFP (dwrite to buffer (mDataFP s)) s).

(** [LLVFS::setMaxSize]. *)
Definition setMaxSize (file_id : LLUUID) (file_type : Z) (max_size : Z)
    (now : Z) : M bool :=
  check_valid ;;;
  s <- get ;;
  (if mReadOnly s then llerrs "Attempt to write to read-only VFS" else ret tt) ;;;
  if max_size <=? 0 then
    llwarns "VFS: Attempt to assign size to vfile" ;;;
    ret false
  else
    let spec := mkSpec file_id file_type in
    it <- find_block spec ;;
    (* round all sizes upward to KB increments *)
    let max_size := round_to_block max_size in
    match it with
    | Some block =>
        if mLength block >? 0 then
          let block := set_mAccessTime now block in
          put_block spec block ;;;
          if max_size =? mLength block then ret true
          else if max_size <? mLength block then
            (* this file is shrinking *)
            free_block <- new_LLVFSBlock (wrapU32 (mLocation block + max_size))
                                         (wrapS32 (mLength block - max_size)) ;;
            addFreeBlock free_block ;;;
            let block := set_mLength max_size block in
            put_block spec block ;;;
            block <- (if mLength block <? mSize block then
                        (* JC: Was a warning, but Ian says it's bad. *)
                        llerrs "Truncating virtual file" ;;;
                        ret (set_mSize (mLength block) block)
                      else ret block) ;;
            put_block spec block ;;;
            block <- sync block false ;;
            put_block spec block ;;;
            ret true
          else
            (* this file is growing;
               first check for an adjacent free block to grow into *)
            let size_increase := wrapS32 (max_size - mLength block) in
            s <- get ;;
            grown <-
              match snd (upper_bound (mLocation block) (mFreeBlocksByLocation s)) with
              | (_, free_block) :: _ =>
                  fb <- deref free_block ;;
                  if (mLocation fb =? wrapU32 (mLocation block + mLength block))
                     && (mLength fb >=? size_increase) then
                    (* this free block is at the end of the file and is
                       large enough *)
                    useFreeSpace free_block size_increase ;;;
                    let block := set_mLength (wrapS32 (mLength block + size_increase)) block in
                    put_block spec block ;;;
                    block <- sync block false ;;
                    put_block spec block ;;;
                    ret true
                  else ret false
              | [] => ret false
              end ;;
            if grown : bool then ret true
            else
              (* no adjacent free block, find one in the list *)
              found <- findFreeBlock max_size (Some spec) ;;
              match found with
              | Some free_block =>
                  block <- lru_deref spec ;;
                  (if mLength block >? 0 then
                     (* create a new free block where this file used to be *)
                     new_free_block <- new_LLVFSBlock (mLocation block) (mLength block) ;;
                     addFreeBlock new_free_block ;;;
                     if mSize block >? 0 then
                       (* move the file into the new block *)
                       fb <- deref free_block ;;
                       move_file_data (mLocation block) (mLocation fb) (mSize block)
                     else ret tt
                   else ret tt) ;;;
                  fb <- deref free_block ;;
                  let block := set_mLength max_size (set_mLocation (mLocation fb) block) in
                  put_block spec block ;;;
                  useFreeSpace free_block max_size ;;;
                  block <- sync block false ;;
                  put_block spec block ;;;
                  ret true
              | None =>
                  llwarns "VFS: No space to resize existing vfile" ;;;
                  llinfos "dumpStatistics" ;;;
                  ret false
              end
        else
          (* the record is a dummy: find a free block in the list *)
          found <- findFreeBlock max_size None ;;
          match found with
          | Some free_block =>
              block <- lru_deref spec ;;
              fb <- deref free_block ;;
              let block := set_mLength max_size (set_mLocation (mLocation fb) block) in
              put_block spec block ;;;
              useFreeSpace free_block max_size ;;;
              let block := set_mAccessTime now block in
              put_block spec block ;;;
              block <- sync block false ;;
              put_block spec block ;;;
              ret true
          | None =>
              llwarns "VFS: No space for new virtual file" ;;;
              llinfos "dumpStatistics" ;;;
              ret false
          end
    | None =>
        (* find a free block in the list *)
        found <- findFreeBlock max_size None ;;
        match found with
        | Some free_block =>
            (* this file doesn't exist, create it *)
            fb <- deref free_block ;;
            let block := new_LLVFSFileBlock file_id file_type (mLocation fb) max_size now in
            s <- get ;;
            (* std::map::insert keeps an entry that is already there *)
            let inserted := bool_decide (mFileBlocks s !! spec = None) in
            (if inserted then put_block spec block else ret tt) ;;;
            useFreeSpace free_block max_size ;;;
            let block := set_mAccessTime now block in
            (if inserted then put_block spec block else ret tt) ;;;
            block <- sync block false ;;
            (if inserted then put_block spec block else ret tt) ;;;
            ret true
        | None =>
            llwarns "VFS: No space for new virtual file" ;;;
            llinfos "dumpStatistics" ;;;
            ret false
        end
    end.

(** [LLVFS::storeData]; [buffer] holds the bytes the caller passes. *)
Definition storeData (file_id : LLUUID) (file_type : Z) (buffer : list Z)
    (location length : Z) (now : Z) : M Z :=
  check_valid ;;;
  s <- get ;;
  (if mReadOnly s then llerrs "Attempt to write to read-only VFS" else ret tt) ;;;
  let spec := mkSpec file_id file_type in
  it <- find_block spec ;;
  match it with
  | Some block =>
      let location := if location =? -1 then mSize block else location in
      let block := set_mAccessTime now block in
      put_block spec block ;;;
      if mLength block =? BLOCK_LENGTH_INVALID then
        (* Block was removed, ignore write *)
        llwarns "VFS: Attempt to write to invalid block" ;;;
        ret length
      else if location >? mLength block then
        llwarns "VFS: Attempt to write to location" ;;;
        ret length
      else
        length <- (if length >? wrapS32 (mLength block - location) then
                     llwarns "VFS: Truncating write to virtual file" ;;;
                     ret (wrapS32 (mLength block - location))
                   else ret length) ;;
        let file_location := wrapU32 (location + mLocation block) in
        let written := take (Z.to_nat length) buffer in
        modify (fun s => set_mDataFP (dwrite file_location written (mDataFP s)) s) ;;;
        let write_len := Z.of_nat (List.length written) in
        (if negb (write_len =? length) then llwarns "VFS Write Error" else ret tt) ;;;
        block <- lru_deref spec ;;
        if wrapS32 (location + length) >? mSize block then
          let block := set_mSize (wrapS32 (location + write_len)) block in
          put_block spec block ;;;
          block <- sync block false ;;
          put_block spec block ;;;
          ret write_len
        else ret write_len
  | None => ret 0
  end.

(** [LLVFS::incLock]. *)
Definition incLock (file_id : LLUUID) (file_type : Z) (lock : EVFSLock)
    (now : Z) : M unit :=
  let spec := mkSpec file_id file_type in
  it <- find_block spec ;;
  let block :=
    match it with
    | Some block => block
    | None =>
        (* Create a dummy block which isn't saved *)
        set_mAccessTime now
          (new_LLVFSFileBlock file_id file_type 0 BLOCK_LENGTH_INVALID now)
    end in
  put_block spec
    (set_mLocks (lock_set (mLocks block) lock
                   (wrapS32 (lock_get (mLocks block) lock + 1))) block) ;;;
  modify (fun s =>
    set_mLockCounts (lock_set (mLockCounts s) lock
                       (wrapS32 (lock_get (mLockCounts s) lock + 1))) s).

(** [LLVFS::decLock]. *)
Definition decLock (file_id : LLUUID) (file_type : Z) (lock : EVFSLock) : M unit :=
  let spec := mkSpec file_id file_type in
  it <- find_block spec ;;
  match it with
  | Some block =>
      (if lock_get (mLocks block) lock >? 0 then
         put_block spec
           (set_mLocks (lock_set (mLocks block) lock
                          (wrapS32 (lock_get (mLocks block) lock - 1))) block)
       else
         llwarns "VFS: Decrementing zero-value lock") ;;;
      modify (fun s =>
        set_mLockCounts (lock_set (mLockCounts s) lock
                           (wrapS32 (lock_get (mLockCounts s) lock - 1))) s)
  | None => ret tt
  end.

(** [LLVFS::isLocked]. *)
Definition isLocked (file_id : LLUUID) (file_type : Z) (lock : EVFSLock)
    (s : LLVFS) : bool :=
  match mFileBlocks s !! mkSpec file_id file_type with
  | Some block => lock_get (mLocks block) lock >? 0
  | None => false
  end.

(** ** Reading the index file when the VFS is opened

    The part of the constructor [LLVFS::LLVFS] that parses the index file:
    [buffer] is the contents of the file, [data_size] the size of the data
    file. *)

Record index_replay := mkReplay {
  rFileBlocks : gmap LLVFSFileSpecifier LLVFSFileBlock;   (* mFileBlocks *)
  files_by_loc : list LLVFSFileBlock;
  rIndexHoles : list Z                                    (* mIndexHoles *)
}.

(** How the constructor leaves the loop. *)
Inductive replay_outcome :=
| ReplayDone (st : index_replay)
  (* the corrupt exit: which files were closed and removed, and mValid *)
| ReplayRemoved (index_removed data_removed : bool) (valid : EVFSValid).

(** The sanity check on a block read from the index. *)
Definition sane_block (data_size : Z) (block : LLVFSFileBlock) : bool :=
  (mLength block >? 0)
  && (wrapU32 (mLength block) <=? data_size)
  && (mLocation block >=? 0)
  && (mLocation block <? data_size)
  && (mSize block >? 0)
  && (mSize block <=? mLength block)
  && (mFileType block >=? AT_NONE)
  && (mFileType block <? AT_COUNT).

(** Modelled from the spec: [LLLinkedList::addDataSorted] (linked_lists.h
    is not among the sources) keeps the scratch list sorted with the
    insert-before predicate it was given, here [insertFirstLL]. *)
Fixpoint addDataSorted (block : LLVFSFileBlock) (l : list LLVFSFileBlock)
    : list LLVFSFileBlock :=
  match l with
  | [] => [block]
  | e :: r =>
      if insertFirstLL block e then block :: l
      else e :: addDataSorted block r
  end.

(** The three ways the loop body treats a record. *)
Inductive record_class := RecordFile | RecordCorrupt | RecordHole.

Definition classify_record (data_size : Z) (block : LLVFSFileBlock) : record_class :=
  if sane_block data_size block then RecordFile
  else if negb (mLength block =? 0) && (mSize block >? 0) then
    (* this is corrupt, not empty *)
    RecordCorrupt
  else
    (* this is a null or bad entry, skip it *)
    RecordHole.

(** One pass through the body of the [while] loop, for the record at
    offset [off] of the buffer. *)
Definition replay_record (data_size now : Z) (buffer : list Z) (off : Z)
    (st : index_replay) : replay_outcome :=
  let block :=
    deserialize (default_LLVFSFileBlock now) (drop (Z.to_nat off) buffer)
                (wrapS32 off) in
  match classify_record data_size block with
  | RecordFile =>
      ReplayDone
        (mkReplay (match rFileBlocks st !! fbSpec block with
                   | Some _ => rFileBlocks st
                   | None => <[fbSpec block := block]> (rFileBlocks st)
                   end)
                  (addDataSorted block (files_by_loc st))
                  (rIndexHoles st))
  | RecordCorrupt =>
      ReplayRemoved true true VFSVALID_BAD_CORRUPT
  | RecordHole =>
      ReplayDone
        (mkReplay (rFileBlocks st) (files_by_loc st)
                  (rIndexHoles st ++ [wrapS32 off]))
  end.

(** The [while (tmp_ptr < buffer + fbuf.st_size)] loop; [n] is the number
    of passes still to run. *)
Fixpoint replay_loop (n : nat) (data_size now : Z) (buffer : list Z)
    (off : Z) (st : index_replay) : replay_outcome :=
  match n with
  | O => ReplayDone st
  | S n' =>
      match replay_record data_size now buffer off st with
      | ReplayDone st' =>
          replay_loop n' data_size now buffer (off + SERIAL_SIZE) st'
      | ReplayRemoved i d v => ReplayRemoved i d v
      end
  end.



(** ** Predicates used in the statements *)

(** The fields of a file block hold values of their C types. *)
Definition block_fields_ok (b : LLVFSFileBlock) : Prop :=
  inU32 (mLocation b) /\ inS32 (mLength b) /\ inU32 (mAccessTime b)
  /\ length (mFileID b) = 16%nat /\ inS16 (mFileType b) /\ inS32 (mSize b).

(** The fixed layout of the index record. *)
Definition record_layout (b : LLVFSFileBlock) : list Z :=
  bytes_le 4 (mLocation b) ++ bytes_le 4 (mLength b)
  ++ bytes_le 4 (mAccessTime b) ++ mFileID b
  ++ bytes_le 2 (mFileType b) ++ bytes_le 4 (mSize b).

(** The sum over the directory of the per-block counters of one kind. *)
Definition sum_locks (lock : EVFSLock) (s : LLVFS) : Z :=
  map_fold (fun _ block acc => lock_get (mLocks block) lock + acc) 0
           (mFileBlocks s).


(** What [sync] puts in the buffer, and what it adds to [mIndexHoles]. *)
Definition sync_buffer (remove : bool) (block : LLVFSFileBlock) : list Z :=
  if remove then repeat 0 34%nat else serialize block.
Definition sync_pushed (remove : bool) (slot : Z) : list Z :=
  if remove then [slot] else [].


(** An entry of the location index points to a block that lies at the key,
    has positive length and ends inside the range of an S32. *)
Definition entry_ok (h : gmap ptr LLVFSBlock) (e : Z * ptr) : Prop :=
  exists b, h !! snd e = Some b /\ mLocation b = fst e /\ 0 <= fst e
            /\ 0 < mLength b /\ fst e + mLength b < 2 ^ 31.

(** The block of [e1] ends strictly before the key of [e2]: the two free
    extents neither overlap nor touch. *)
Definition ends_before (h : gmap ptr LLVFSBlock) (e1 e2 : Z * ptr) : Prop :=
  forall b, h !! snd e1 = Some b -> mLocation b + mLength b < fst e2.

(** An entry of the length index is keyed by the length of its block. *)
Definition length_entry_ok (h : gmap ptr LLVFSBlock) (e : Z * ptr) : Prop :=
  exists b, h !! snd e = Some b /\ mLength b = fst e.

Definition key_le (e1 e2 : Z * ptr) : Prop := fst e1 <= fst e2.

(** The invariant of the free lists, for a heap [h], a location index [L]
    and a length index [N]. *)
Record lists_ok (h : gmap ptr LLVFSBlock) (L N : list (Z * ptr)) : Prop :=
  mk_lists_ok {
  fl_entries : Forall (entry_ok h) L;
  fl_gaps : StronglySorted (ends_before h) L;
  fl_lengths : Forall (length_entry_ok h) N;
  fl_sorted : StronglySorted key_le N;
  fl_nodup : NoDup (map snd N);
  fl_same : forall p, (p ∈ map snd L) <-> (p ∈ map snd N)
}.

Definition free_lists_ok (s : LLVFS) : Prop :=
  lists_ok (blocks s) (mFreeBlocksByLocation s) (mFreeBlocksByLength s).



(** What [addFreeBlock] expects of the block it is given: a new object,
    with positive length, that overlaps no free extent. *)
Definition free_block_fits (s : LLVFS) (p : ptr) : Prop :=
  exists b,
    blocks s !! p = Some b
    /\ (p ∉ map snd (mFreeBlocksByLocation s))
    /\ 0 <= mLocation b /\ 0 < mLength b
    /\ mLocation b + mLength b < 2 ^ 31
    /\ forall e fb,
         e ∈ mFreeBlocksByLocation s -> blocks s !! snd e = Some fb ->
         mLocation fb + mLength fb <= mLocation b
         \/ mLocation b + mLength b <= mLocation fb.

(** The extents that a list of entries of the location index denotes, as
    (location, length) pairs. *)
Definition extents_of (h : gmap ptr LLVFSBlock) (l : list (Z * ptr)) : list (Z * Z) :=
  map (fun e => match h !! snd e with
                | Some b => (mLocation b, mLength b)
                | None => (fst e, 0)
                end) l.

(** The free extents, in the order of the location index. *)
Definition free_extents (s : LLVFS) : list (Z * Z) :=
  extents_of (blocks s) (mFreeBlocksByLocation s).

(** Dropping the entries that point to [p]. *)
Definition remove_ptr (p : ptr) (l : list (Z * ptr)) : list (Z * ptr) :=
  filter (fun e => snd e <> p) l.

(** An extent lies strictly apart from every extent of the list. *)
Definition apart (h : gmap ptr LLVFSBlock) (L : list (Z * ptr)) (k len : Z) : Prop :=
  forall e fb, e ∈ L -> h !! snd e = Some fb ->
    mLocation fb + mLength fb < k \/ k + len < mLocation fb.


(** Everything outside the free lists is the same in the two states. *)
Definition same_outside_free_lists (s s' : LLVFS) : Prop :=
  mValid s' = mValid s /\ mReadOnly s' = mReadOnly s
  /\ mFileBlocks s' = mFileBlocks s /\ mIndexHoles s' = mIndexHoles s
  /\ mLockCounts s' = mLockCounts s /\ mIndexFP s' = mIndexFP s
  /\ mDataFP s' = mDataFP s /\ llog s' = llog s.

(** The extent of a file block overlaps no free extent. *)
Definition clear_of_free (s : LLVFS) (block : LLVFSBlock) : Prop :=
  forall e fb,
    e ∈ mFreeBlocksByLocation s -> blocks s !! snd e = Some fb ->
    mLocation fb + mLength fb <= mLocation block
    \/ mLocation block + mLength block <= mLocation fb.

(** The directory is consistent with the free lists: a record is stored
    under its own key, its length is positive or the invalid length, and
    the extents of the records with positive length lie in the range of an
    S32, overlap no free extent and do not overlap one another. *)
Definition dir_ok (s : LLVFS) : Prop :=
  forall k (b : LLVFSFileBlock),
    mFileBlocks s !! k = Some b ->
    fbSpec b = k
    /\ (0 < mLength b \/ mLength b = BLOCK_LENGTH_INVALID)
    /\ (0 < mLength b ->
        0 <= mLocation b /\ mLocation b + mLength b < 2 ^ 31
        /\ clear_of_free s b)
    /\ (forall k' (b' : LLVFSFileBlock),
          k' <> k -> mFileBlocks s !! k' = Some b' ->
          0 < mLength b -> 0 < mLength b' ->
          mLocation b + mLength b <= mLocation b'
          \/ mLocation b' + mLength b' <= mLocation b).

(** A valid, writable VFS whose directory and free lists are consistent. *)
Definition vfs_ok (s : LLVFS) : Prop :=
  isValid s = true /\ mReadOnly s = false /\ free_lists_ok s /\ dir_ok s.

(** The order of the LRU list on the keys of the directory:
    earlier access time first, and the smaller key first among records
    with the same access time. *)
Definition lru_before (s : LLVFS) (k1 k2 : LLVFSFileSpecifier) : Prop :=
  exists b1 b2 : LLVFSFileBlock,
    mFileBlocks s !! k1 = Some b1 /\ mFileBlocks s !! k2 = Some b2
    /\ (mAccessTime b1 < mAccessTime b2
        \/ (mAccessTime b1 = mAccessTime b2 /\ spec_ltb k1 k2 = true)).

(** The record of [k] is a live record that nobody holds a lock on and
    that is not the immune one. *)
Definition evictable (s : LLVFS) (immune : option LLVFSFileSpecifier)
    (k : LLVFSFileSpecifier) : Prop :=
  exists b : LLVFSFileBlock,
    mFileBlocks s !! k = Some b
    /\ 0 < mLength b
    /\ lock_get (mLocks b) VFSLOCK_READ = 0
    /\ lock_get (mLocks b) VFSLOCK_APPEND = 0
    /\ lock_get (mLocks b) VFSLOCK_OPEN = 0
    /\ Some k <> immune.

(** The reserved length of the record of a key. *)
Definition length_of (s : LLVFS) (k : LLVFSFileSpecifier) : Z :=
  match mFileBlocks s !! k with
  | Some b => mLength (fbBlock b)
  | None => 0
  end.

Definition sum_lengths (s : LLVFS) (l : list LLVFSFileSpecifier) : Z :=
  foldr (fun k acc => length_of s k + acc) 0 l.

(** The record of [k] in [s'] is what [removeFileBlock] leaves of its
    record in [s]: a dummy that keeps the key and the locks. *)
Definition evicted (s s' : LLVFS) (k : LLVFSFileSpecifier) : Prop :=
  exists b b' : LLVFSFileBlock,
    mFileBlocks s !! k = Some b /\ mFileBlocks s' !! k = Some b'
    /\ mLength b' = BLOCK_LENGTH_INVALID /\ mSize b' = 0
    /\ mLocks b' = mLocks b /\ fbSpec b' = fbSpec b
    /\ mAccessTime b' = mAccessTime b.

(** The order of the elements of the LRU list. *)
Definition lru_lt (x y : LLVFSFileSpecifier * LLVFSFileBlock) : Prop :=
  insertLRU (snd x) (snd y) = true.


(** The test of [setMaxSize] for growing in place: the first free block
    behind the location of the file begins where the file ends and is
    large enough. *)
Definition can_grow_in_place (s : LLVFS) (block : LLVFSBlock)
    (size_increase : Z) : bool :=
  match snd (upper_bound (mLocation block) (mFreeBlocksByLocation s)) with
  | (_, free_block) :: _ =>
      match blocks s !! free_block with
      | Some fb =>
          (mLocation fb =? wrapU32 (mLocation block + mLength block))
          && (mLength fb >=? size_increase)
      | None => false
      end
  | [] => false
  end.

(** ** Concrete states

    Small file systems on which the model can be run.  Asset [n] has the
    UUID whose sixteen bytes are all [n], and asset type 0. *)
Definition asset_id (n : Z) : LLUUID := repeat n 16.
Definition asset_key (n : Z) : LLVFSFileSpecifier := mkSpec (asset_id n) 0.

Definition file_at (n location length size time index_loc : Z) : LLVFSFileBlock :=
  mkFileBlock (mkBlock location length) (asset_key n) size index_loc time no_locks.

(** The data file after [presizeDataFile n]: one zero byte, written at
    [n - 1]. *)
Definition sized_data_file (n : Z) : gmap Z Z := {[n - 1 := 0]}.

(** A new VFS whose data file was presized to [n] bytes: no files, and one
    free block that covers the data file. *)
Definition presized (n : Z) : LLVFS :=
  mkVFS VFSVALID_OK false ∅ {[1%positive := mkBlock 0 n]}
        [(0, 1%positive)] [(n, 1%positive)] [] no_locks []
        (sized_data_file n) [].

(** Four files of 4 KiB that fill a data file of 16 KiB, last used at the
    times 1, 2, 3 and 4. *)
Definition four_files : list LLVFSFileBlock :=
  [file_at 1 0 4096 0 1 0; file_at 2 4096 4096 0 2 34;
   file_at 3 8192 4096 0 3 68; file_at 4 12288 4096 0 4 102].

Definition four_assets : LLVFS :=
  mkVFS VFSVALID_OK false
        (<[asset_key 4 := file_at 4 12288 4096 0 4 102]>
         (<[asset_key 3 := file_at 3 8192 4096 0 3 68]>
          (<[asset_key 2 := file_at 2 4096 4096 0 2 34]>
           (<[asset_key 1 := file_at 1 0 4096 0 1 0]> ∅))))
        ∅ [] [] [] no_locks (flat_map record_layout four_files)
        (sized_data_file 16384) [].


(** One file at the start of a data file of 1 MiB, with 8 KiB reserved and
    6000 bytes used; the rest of the data file is one free block. *)
Definition one_asset : LLVFS :=
  mkVFS VFSVALID_OK false
        (<[asset_key 1 := file_at 1 0 8192 6000 1 0]> ∅)
        {[1%positive := mkBlock 8192 1040384]}
        [(8192, 1%positive)] [(1040384, 1%positive)] [] no_locks
        (record_layout (file_at 1 0 8192 6000 1 0))
        (sized_data_file 1048576) [].


(** An empty VFS after [incLock] on asset 1 at time 7: the directory holds
    a dummy record for asset 1. *)
Definition dummy_of_asset_1 : LLVFSFileBlock :=
  mkFileBlock (mkBlock 0 BLOCK_LENGTH_INVALID) (asset_key 1) 0 (-1) 7
              (mkLocks 0 1 0).

Definition locked_dummy : LLVFS :=
  mkVFS VFSVALID_OK false (<[asset_key 1 := dummy_of_asset_1]> ∅)
        {[1%positive := mkBlock 0 16384]}
        [(0, 1%positive)] [(16384, 1%positive)] [] (mkLocks 0 1 0) []
        (sized_data_file 16384) [].

(** An index record whose length is 1024 and whose size is 0, and the
    empty replay state. *)
Definition record_without_size : list Z :=
  record_layout (file_at 1 0 1024 0 1 0).

Definition replay_start : index_replay := mkReplay ∅ [] [].

(** An allocator whose fresh buffers hold zeros. *)
Definition zero_filled : nat -> Z := fun _ => 0.

(** ** Reading and renaming *)

(** [LLVFS::getData]: the count that [fread] returns and the bytes that
    arrive in the buffer of the caller.  A negative count reaches [fread]
    as a huge [size_t], which reads past the buffer, and with a negative
    position [fseek] fails and the read starts wherever the file position
    was; the model stops in both cases. *)
Definition getData (file_id : LLUUID) (file_type : Z) (location length : Z)
    (now : Z) : M (Z * list Z) :=
  check_valid ;;;
  let spec := mkSpec file_id file_type in
  it <- find_block spec ;;
  match it with
  | Some block =>
      let block := set_mAccessTime now block in
      put_block spec block ;;;
      if location >? mSize block then
        llwarns "VFS: Attempt to read location" ;;;
        ret (0, [])
      else
        let length :=
          if length >? wrapS32 (mSize block - location)
          then wrapS32 (mSize block - location) else length in
        let location := wrapS32 (location + mLocation block) in
        if (length <? 0) || (location <? 0) then stuck
        else
          s <- get ;;
          let bytes := fread location (Z.to_nat length) (mDataFP s) in
          ret (wrapS32 (Z.of_nat (List.length bytes)), bytes)
  | None => ret (0, [])
  end.

(** One pass through the [for] loop of [renameFile] over the kinds of
    lock. *)
Definition rename_lock (src_block : LLVFSFileBlock) (i : EVFSLock)
    (dest_block : LLVFSFileBlock) : M LLVFSFileBlock :=
  (if negb (lock_get (mLocks dest_block) i =? 0)
   then llerrs "Renaming VFS block to a locked file." else ret tt) ;;;
  ret (set_mLocks (lock_set (mLocks dest_block) i
                     (lock_get (mLocks src_block) i)) dest_block).

(** [LLVFS::renameFile].  [src_block] points to the object that the
    directory holds under the old key, so it is read from there whenever
    the source uses it; once that object is deleted the model stops. *)
Definition renameFile (file_id : LLUUID) (file_type : Z) (new_id : LLUUID)
    (new_type : Z) (now : Z) : M unit :=
  check_valid ;;;
  s <- get ;;
  (if mReadOnly s then llerrs "Attempt to write to read-only VFS" else ret tt) ;;;
  let new_spec := mkSpec new_id new_type in
  let old_spec := mkSpec file_id file_type in
  it <- find_block old_spec ;;
  match it with
  | Some _ =>
      (* this will purge the data but leave the file block in place,
         w/ locks, if any *)
      new_it <- find_block new_spec ;;
      (match new_it with
       | Some new_block =>
           new_block <- removeFileBlock new_block ;;
           put_block new_spec new_block
       | None => ret tt
       end) ;;;
      (* if there's something in the target location, remove it but
         inherit its locks *)
      it <- find_block new_spec ;;
      (match it with
       | Some dest_block =>
           src_block <- lru_deref old_spec ;;
           dest_block <- rename_lock src_block VFSLOCK_OPEN dest_block ;;
           dest_block <- rename_lock src_block VFSLOCK_READ dest_block ;;
           dest_block <- rename_lock src_block VFSLOCK_APPEND dest_block ;;
           put_block new_spec dest_block ;;;
           modify (fun s => set_mFileBlocks (delete new_spec (mFileBlocks s)) s)
       | None => ret tt
       end) ;;;
      src_block <- lru_deref old_spec ;;
      let src_block := set_mAccessTime now (set_fbSpec new_spec src_block) in
      modify (fun s => set_mFileBlocks (delete old_spec (mFileBlocks s)) s) ;;;
      s <- get ;;
      (* std::map::insert keeps an entry that is already there *)
      let inserted := bool_decide (mFileBlocks s !! new_spec = None) in
      (if inserted then put_block new_spec src_block else ret tt) ;;;
      src_block <- sync src_block false ;;
      (if inserted then put_block new_spec src_block else ret tt)
  | None =>
      llwarns "VFS: Attempt to rename nonexistent vfile"
  end.

(** ** Further predicates *)

(** The position at which [storeData] writes: the end of the used bytes
    when the caller passes -1. *)
Definition store_position (block : LLVFSFileBlock) (location : Z) : Z :=
  if location =? -1 then mSize block else location.

(** The number of free bytes: the lengths of the free extents added up. *)
Definition free_space (s : LLVFS) : Z :=
  foldr (fun e acc => snd e + acc) 0 (free_extents s).

(** The byte at [off] of the data file lies in the extent of [block]. *)
Definition in_extent (block : LLVFSBlock) (off : Z) : Prop :=
  mLocation block <= off < mLocation block + mLength block.

(** The global counter of a kind of lock equals the sum of the counters
    of the blocks. *)
Definition lock_counts_agree (lock : EVFSLock) (s : LLVFS) : Prop :=
  lock_get (mLockCounts s) lock = sum_locks lock s.

(** [four_assets] opened read-only. *)
Definition read_only_assets : LLVFS :=
  mkVFS VFSVALID_OK true (mFileBlocks four_assets) ∅ [] [] [] no_locks
        (mIndexFP four_assets) (mDataFP four_assets) [].

(** Two files of 4 KiB at the start of a data file of 1 MiB; the free
    block starts behind the second file.  The first file has four bytes
    in use, and the data file holds them. *)
Definition two_assets : LLVFS :=
  mkVFS VFSVALID_OK false
        (<[asset_key 1 := file_at 1 0 4096 4 1 0]>
           (<[asset_key 2 := file_at 2 4096 4096 1000 2 34]> ∅))
        {[1%positive := mkBlock 8192 1040384]}
        [(8192, 1%positive)] [(1040384, 1%positive)] [] no_locks
        (record_layout (file_at 1 0 4096 4 1 0)
         ++ record_layout (file_at 2 4096 4096 1000 2 34))
        (dwrite 0 [11; 22; 33; 44] (sized_data_file 1048576)) [].

(** A file whose extent runs past the end of the data file: the data
    file has 4480 bytes, and the file lies at 4096 with 4 KiB reserved and
    in use.  The constructor takes such a record for a file, since its
    location and its length are both below the size of the data file. *)
Definition past_the_end : LLVFS :=
  mkVFS VFSVALID_OK false
        (<[asset_key 1 := file_at 1 4096 4096 4096 1 0]> ∅)
        {[1%positive := mkBlock 0 4096]}
        [(0, 1%positive)] [(4096, 1%positive)] [] no_locks
        (record_layout (file_at 1 4096 4096 4096 1 0))
        (dwrite 4477 [7; 8; 9] ∅) [].

(** ** The records of an index file *)




#[global] Instance record_class_eq_dec : EqDecision record_class.
Proof. solve_decision. Defined.

(** * Properties *)

(** ** Machine integers and bytes *)

Lemma wrapU32_id x : inU32 x -> wrapU32 x = x.
Proof. unfold inU32, wrapU32, wrapU. intros. apply Z.mod_small. lia. Qed.

Lemma wrapS32_id x : inS32 x -> wrapS32 x = x.
Proof.
  unfold inS32, wrapS32, wrapS. intros.
  change (2 ^ (32 - 1)) with 2147483648 in *. change (2 ^ 31) with 2147483648 in *.
  rewrite Z.mod_small; lia.
Qed.

Lemma wrapS16_id x : inS16 x -> wrapS16 x = x.
Proof.
  unfold inS16, wrapS16, wrapS. intros.
  change (2 ^ (16 - 1)) with 32768 in *. change (2 ^ 15) with 32768 in *.
  rewrite Z.mod_small; lia.
Qed.

Lemma wrapS_wrapU bits x : wrapS bits (wrapU bits x) = wrapS bits x.
Proof. unfold wrapS, wrapU. rewrite Zplus_mod_idemp_l. reflexivity. Qed.

Lemma wrapU32_range x : inU32 (wrapU32 x).
Proof. unfold inU32, wrapU32, wrapU. apply Z.mod_pos_bound. lia. Qed.

Lemma bytes_le_length n x : length (bytes_le n x) = n.
Proof. revert x; induction n; intros; simpl; auto. Qed.

Lemma bytes_le_isByte n x : Forall isByte (bytes_le n x).
Proof.
  revert x; induction n; intros; simpl; constructor; auto.
  unfold isByte. apply Z.mod_pos_bound. lia.
Qed.

Lemma le_value_bytes_le n x :
  le_value (bytes_le n x) = x mod 256 ^ Z.of_nat n.
Proof.
  revert x; induction n; intros x.
  - simpl. rewrite Z.mod_1_r. reflexivity.
  - cbn [bytes_le le_value]. rewrite IHn.
    rewrite Nat2Z.inj_succ, Z.pow_succ_r by lia.
    rewrite Z.rem_mul_r by lia. lia.
Qed.

Lemma bytes_le_le_value bs :
  Forall isByte bs -> bytes_le (length bs) (le_value bs) = bs.
Proof.
  induction 1 as [|b r Hb Hr IH]; [reflexivity|].
  cbn [length bytes_le le_value]. unfold isByte in Hb.
  replace ((b + 256 * le_value r) mod 256) with b
    by (Z.div_mod_to_equations; lia).
  replace ((b + 256 * le_value r) / 256) with (le_value r)
    by (Z.div_mod_to_equations; lia).
  now rewrite IH.
Qed.

Lemma bytes_le_mod n x :
  bytes_le n (x mod 256 ^ Z.of_nat n) = bytes_le n x.
Proof.
  rewrite <- le_value_bytes_le.
  rewrite <- (bytes_le_length n x) at 1.
  apply bytes_le_le_value, bytes_le_isByte.
Qed.

(** ** The byte swap of big-endian hosts *)

Lemma land_shifted_ones y k n :
  0 <= k -> 0 <= n ->
  Z.land y (Z.shiftl (Z.ones n) k) = ((y / 2 ^ k) mod 2 ^ n) * 2 ^ k.
Proof.
  intros Hk Hn. apply Z.bits_inj'. intros i Hi.
  rewrite Z.land_spec, Z.shiftl_spec, Z.mul_pow2_bits by lia.
  destruct (Z.ltb_spec i k) as [Hlt|Hge].
  - rewrite (Z.testbit_neg_r _ (i - k)) by lia.
    rewrite (Z.testbit_neg_r _ (i - k)) by lia. apply andb_false_r.
  - rewrite Z.testbit_mod_pow2 by lia.
    rewrite Z.div_pow2_bits by lia.
    replace (i - k + k) with i by lia.
    destruct (Z.ltb_spec (i - k) n) as [Hin|Hout].
    + rewrite Z.ones_spec_low by lia. rewrite andb_true_r. reflexivity.
    + rewrite Z.ones_spec_high by lia. rewrite andb_false_r. reflexivity.
Qed.

Lemma lor_low_high lo hi k :
  0 <= k -> 0 <= lo < 2 ^ k -> Z.lor lo (hi * 2 ^ k) = lo + hi * 2 ^ k.
Proof.
  intros Hk Hlo.
  assert (Hdisj : Z.land lo (hi * 2 ^ k) = 0).
  { apply Z.bits_inj'. intros i Hi.
    rewrite Z.land_spec, Z.bits_0.
    destruct (Z.ltb_spec i k) as [Hlt|Hge].
    - rewrite Z.mul_pow2_bits_low by lia. apply andb_false_r.
    - rewrite <- (Z.mod_small lo (2 ^ k)) by lia.
      rewrite Z.mod_pow2_bits_high by lia. reflexivity. }
  rewrite <- Z.lxor_lor by exact Hdisj.
  symmetry. apply Z.add_nocarry_lxor. exact Hdisj.
Qed.

Lemma swizzle32_bytes a b c d :
  isByte a -> isByte b -> isByte c -> isByte d ->
  swizzle32 (le_value [a; b; c; d]) = le_value [d; c; b; a].
Proof.
  unfold isByte. intros Ha Hb Hc Hd.
  unfold swizzle32, wrapU32, wrapU. cbn [le_value].
  set (x := a + 256 * (b + 256 * (c + 256 * (d + 256 * 0)))).
  rewrite !Z.shiftr_div_pow2, !Z.shiftl_mul_pow2 by lia.
  change 0x000000FF with (Z.ones 8).
  change 0x0000FF00 with (Z.shiftl (Z.ones 8) 8).
  change 0x00FF0000 with (Z.shiftl (Z.ones 8) 16).
  change 0xFF000000 with (Z.shiftl (Z.ones 8) 24).
  rewrite Z.land_ones by lia.
  rewrite !land_shifted_ones by lia.
  change (2 ^ 8) with 256. change (2 ^ 16) with 65536.
  change (2 ^ 24) with 16777216. change (2 ^ 32) with 4294967296.
  assert (E1 : (x / 16777216) mod 256 = d)
    by (subst x; Z.div_mod_to_equations; lia).
  assert (E2 : (x / 256 / 256) mod 256 = c)
    by (subst x; Z.div_mod_to_equations; lia).
  assert (E3 : ((x * 256) mod 4294967296 / 65536) mod 256 = b)
    by (subst x; Z.div_mod_to_equations; lia).
  assert (E4 : ((x * 16777216) mod 4294967296 / 16777216) mod 256 = a)
    by (subst x; Z.div_mod_to_equations; lia).
  rewrite E1, E2, E3, E4.
  change (c * 256) with (c * 2 ^ 8). rewrite (lor_low_high d c 8) by lia.
  change (b * 65536) with (b * 2 ^ 16). rewrite (lor_low_high _ b 16) by lia.
  change (a * 16777216) with (a * 2 ^ 24). rewrite (lor_low_high _ a 24) by lia.
  lia.
Qed.

Lemma swizzle16_bytes a b :
  isByte a -> isByte b -> swizzle16 (le_value [a; b]) = le_value [b; a].
Proof.
  unfold isByte. intros Ha Hb.
  unfold swizzle16, wrapU16, wrapU. cbn [le_value].
  set (x := a + 256 * (b + 256 * 0)).
  rewrite !Z.shiftr_div_pow2, !Z.shiftl_mul_pow2 by lia.
  change 0x000000FF with (Z.ones 8).
  change 0x0000FF00 with (Z.shiftl (Z.ones 8) 8).
  rewrite Z.land_ones by lia.
  rewrite !land_shifted_ones by lia.
  change (2 ^ 8) with 256. change (2 ^ 16) with 65536.
  assert (E1 : (x / 256) mod 256 = b)
    by (subst x; Z.div_mod_to_equations; lia).
  assert (E2 : (x * 256 / 256) mod 256 = a)
    by (subst x; Z.div_mod_to_equations; lia).
  rewrite E1, E2.
  change (a * 256) with (a * 2 ^ 8). rewrite (lor_low_high b a 8) by lia.
  rewrite Z.mod_small by lia. lia.
Qed.

(** ** Serialization *)

Lemma be_swizzle32 a b c d :
  isByte a -> isByte b -> isByte c -> isByte d ->
  host_store false 4 (swizzle32 (host_load false [d; c; b; a])) = [a; b; c; d].
Proof.
  intros Ha Hb Hc Hd. unfold host_store, host_load.
  change (rev [d; c; b; a]) with [a; b; c; d].
  rewrite swizzle32_bytes by assumption.
  change 4%nat with (length [d; c; b; a]).
  rewrite (bytes_le_le_value [d; c; b; a]) by (repeat (apply Forall_cons_2; [assumption|]); apply Forall_nil_2).
  reflexivity.
Qed.

Lemma be_swizzle16 a b :
  isByte a -> isByte b ->
  host_store false 2 (swizzle16 (host_load false [b; a])) = [a; b].
Proof.
  intros Ha Hb. unfold host_store, host_load.
  change (rev [b; a]) with [a; b].
  rewrite swizzle16_bytes by assumption.
  change 2%nat with (length [b; a]).
  rewrite (bytes_le_le_value [b; a]) by (repeat (apply Forall_cons_2; [assumption|]); apply Forall_nil_2).
  reflexivity.
Qed.

Ltac split_bytes H :=
  repeat match type of H with
         | Forall _ (_ :: _) =>
             let H1 := fresh "Hbyte" in
             let H2 := fresh "Hrest" in
             apply Forall_cons in H; destruct H as [H1 H2]; split_bytes H2
         end.

Lemma swizzleCopy_field32 x : swizzleCopy (field32 x) 4 = bytes_le 4 x.
Proof.
  unfold swizzleCopy, field32.
  destruct LL_LITTLE_ENDIAN; [reflexivity|].
  change (4 =? 4) with true. cbv iota.
  pose proof (bytes_le_isByte 4 x) as Hb.
  unfold host_store at 2.
  cbn [bytes_le] in Hb |- *. split_bytes Hb.
  cbn [rev app take Z.to_nat Pos.to_nat Pos.iter_op Nat.add].
  apply be_swizzle32; assumption.
Qed.

Lemma swizzleCopy_field16 x : swizzleCopy (field16 x) 2 = bytes_le 2 x.
Proof.
  unfold swizzleCopy, field16.
  destruct LL_LITTLE_ENDIAN; [reflexivity|].
  change (2 =? 4) with false. change (2 =? 2) with true. cbv iota.
  pose proof (bytes_le_isByte 2 x) as Hb.
  unfold host_store at 2.
  cbn [bytes_le] in Hb |- *. split_bytes Hb.
  cbn [rev app take].
  apply be_swizzle16; assumption.
Qed.

(** Reading a 32-bit field back from a buffer that starts with its
    little-endian bytes. *)
Lemma load_swizzleCopy32 a b c d rest :
  isByte a -> isByte b -> isByte c -> isByte d ->
  host_load LL_LITTLE_ENDIAN (swizzleCopy (a :: b :: c :: d :: rest) 4)
  = le_value [a; b; c; d].
Proof.
  intros Ha Hb Hc Hd. unfold swizzleCopy.
  destruct LL_LITTLE_ENDIAN; [reflexivity|].
  change (4 =? 4) with true. cbv iota.
  change (take 4 (a :: b :: c :: d :: rest)) with [a; b; c; d].
  rewrite be_swizzle32 by assumption.
  reflexivity.
Qed.

Lemma load_swizzleCopy16 a b rest :
  isByte a -> isByte b ->
  host_load LL_LITTLE_ENDIAN (swizzleCopy (a :: b :: rest) 2)
  = le_value [a; b].
Proof.
  intros Ha Hb. unfold swizzleCopy.
  destruct LL_LITTLE_ENDIAN; [reflexivity|].
  change (2 =? 4) with false. change (2 =? 2) with true. cbv iota.
  change (take 2 (a :: b :: rest)) with [a; b].
  rewrite be_swizzle16 by assumption.
  reflexivity.
Qed.

Lemma load_bytes_le32 x rest :
  host_load LL_LITTLE_ENDIAN (swizzleCopy (bytes_le 4 x ++ rest) 4) = wrapU32 x.
Proof.
  pose proof (bytes_le_isByte 4 x) as Hb.
  pose proof (le_value_bytes_le 4 x) as Hv.
  cbn [bytes_le app] in *. split_bytes Hb.
  rewrite load_swizzleCopy32 by assumption.
  exact Hv.
Qed.

Lemma load_bytes_le16 x rest :
  host_load LL_LITTLE_ENDIAN (swizzleCopy (bytes_le 2 x ++ rest) 2) = wrapU16 x.
Proof.
  pose proof (bytes_le_isByte 2 x) as Hb.
  pose proof (le_value_bytes_le 2 x) as Hv.
  cbn [bytes_le app] in *. split_bytes Hb.
  rewrite load_swizzleCopy16 by assumption.
  exact Hv.
Qed.

Lemma serialize_layout (b : LLVFSFileBlock) :
  block_fields_ok b -> serialize b = record_layout b.
Proof.
  intros (_ & _ & _ & Hid & Hty & _).
  unfold serialize, record_layout.
  rewrite !swizzleCopy_field32, swizzleCopy_field16.
  rewrite wrapS16_id by assumption.
  rewrite firstn_all2 by lia. reflexivity.
Qed.

Lemma record_layout_length (b : LLVFSFileBlock) :
  length (mFileID b) = 16%nat -> length (record_layout b) = 34%nat.
Proof.
  intros Hid. unfold record_layout.
  rewrite !length_app, !bytes_le_length, Hid. reflexivity.
Qed.

Lemma deserialize_layout (this b : LLVFSFileBlock) index_loc rest :
  block_fields_ok b ->
  deserialize this (record_layout b ++ rest) index_loc
  = mkFileBlock (mkBlock (mLocation b) (mLength b))
                (mkSpec (mFileID b) (mFileType b))
                (mSize b) index_loc (mAccessTime b) (mLocks this).
Proof.
  intros (Hloc & Hlen & Hat & Hid & Hty & Hsz).
  unfold deserialize, record_layout.
  rewrite <- !app_assoc.
  rewrite load_bytes_le32.
  rewrite (drop_app_length' (bytes_le 4 _)) by (symmetry; apply bytes_le_length).
  rewrite load_bytes_le32.
  rewrite (drop_app_length' (bytes_le 4 _)) by (symmetry; apply bytes_le_length).
  rewrite load_bytes_le32.
  rewrite (drop_app_length' (bytes_le 4 _)) by (symmetry; apply bytes_le_length).
  rewrite (take_app_length' (mFileID b)) by (symmetry; exact Hid).
  rewrite (drop_app_length' (mFileID b)) by (symmetry; exact Hid).
  rewrite load_bytes_le16.
  rewrite (drop_app_length' (bytes_le 2 _)) by (symmetry; apply bytes_le_length).
  rewrite load_bytes_le32.
  unfold wrapU32, wrapU16, wrapS32, wrapS16.
  rewrite !wrapS_wrapU.
  fold wrapU32 wrapS32 wrapS16.
  rewrite !wrapU32_id, !wrapS32_id, wrapS16_id by assumption.
  reflexivity.
Qed.

(** C7: writing a file block with [serialize] gives the fixed 34-byte
    little-endian record (location at 0, length at 4, access time at 8,
    the sixteen bytes of the id at 12, the asset type at 28, the size at
    30) on either kind of host, and [deserialize] reads these six fields
    back unchanged. *)
Theorem serialize_deserialize_roundtrip (b this : LLVFSFileBlock) (index_loc : Z) :
  block_fields_ok b ->
  serialize b = record_layout b
  /\ length (serialize b) = 34%nat
  /\ let d := deserialize this (serialize b) index_loc in
     mLocation d = mLocation b /\ mLength d = mLength b
     /\ mAccessTime d = mAccessTime b /\ mFileID d = mFileID b
     /\ mFileType d = mFileType b /\ mSize d = mSize b.
Proof.
  intros Hok. pose proof Hok as (_ & _ & _ & Hid & _).
  rewrite serialize_layout by assumption.
  split; [reflexivity|]. split; [apply record_layout_length; assumption|].
  rewrite <- (app_nil_r (record_layout b)).
  rewrite deserialize_layout by assumption.
  cbn. repeat split; reflexivity.
Qed.

(** ** Reading the index file *)

(** C2 (as the code has it): a record that fails the sanity check is a
    reusable index hole exactly when its length is zero or its size is not
    positive: its offset goes to the back of [mIndexHoles] and the
    directory is left alone.  It is corrupt exactly when its length is not
    zero and its size is positive: both files are removed and the VFS is
    marked [VFSVALID_BAD_CORRUPT]. *)
Theorem replay_record_failed_check (data_size now : Z) (buffer : list Z)
    (off : Z) (st : index_replay) :
  let block := deserialize (default_LLVFSFileBlock now)
                 (drop (Z.to_nat off) buffer) (wrapS32 off) in
  sane_block data_size block = false ->
  (mLength block = 0 \/ mSize block <= 0 <->
   replay_record data_size now buffer off st
   = ReplayDone (mkReplay (rFileBlocks st) (files_by_loc st)
                          (rIndexHoles st ++ [wrapS32 off])))
  /\ (mLength block <> 0 /\ 0 < mSize block <->
      replay_record data_size now buffer off st
      = ReplayRemoved true true VFSVALID_BAD_CORRUPT).
Proof.
  intros block Hbad. unfold replay_record. fold block.
  clearbody block.
  unfold classify_record. rewrite Hbad.
  destruct (Z.eqb_spec (mLength block) 0) as [Hz|Hnz];
    destruct (Z.gtb_spec (mSize block) 0) as [Hpos|Hnpos]; cbn [negb andb];
    (split; split; intros H; try reflexivity; try discriminate; try lia;
     try (destruct H; lia)).
Qed.

(** The loop stops at the first corrupt record. *)
Lemma replay_loop_corrupt n data_size now buffer off st :
  replay_record data_size now buffer off st
  = ReplayRemoved true true VFSVALID_BAD_CORRUPT ->
  replay_loop (S n) data_size now buffer off st
  = ReplayRemoved true true VFSVALID_BAD_CORRUPT.
Proof. intros H. cbn [replay_loop]. rewrite H. reflexivity. Qed.

(** ** Stepping through member functions *)

Lemma check_valid_ok s : isValid s = true -> check_valid s = Returned tt s.
Proof. intros H. unfold check_valid, bind, get. rewrite H. reflexivity. Qed.

Lemma bind_returned {A B} (m : M A) (k : A -> M B) s a s' :
  m s = Returned a s' -> bind m k s = k a s'.
Proof. intros H. unfold bind. rewrite H. reflexivity. Qed.

Lemma bind_crashed {A B} (m : M A) (k : A -> M B) s s' :
  m s = Crashed s' -> bind m k s = Crashed s'.
Proof. intros H. unfold bind. rewrite H. reflexivity. Qed.

Lemma set_mIndexLocation_same (b : LLVFSFileBlock) :
  set_mIndexLocation (mIndexLocation b) b = b.
Proof. destruct b as [[] [] ? ? ? ?]. reflexivity. Qed.

(** ** Queries and locks *)

(** C9 (as the code has it): [getMaxSize] returns the length field of the
    record when the key has one, whatever its sign, and stamps its access
    time; it returns 0 and changes nothing when the key has none.  For a
    dummy record the result is the invalid-length sentinel -1. *)
Theorem getMaxSize_returns_length (s : LLVFS) (file_id : LLUUID)
    (file_type now : Z) :
  isValid s = true ->
  (forall block : LLVFSFileBlock,
     mFileBlocks s !! mkSpec file_id file_type = Some block ->
     getMaxSize file_id file_type now s
     = Returned (mLength block)
         (set_mFileBlocks
            (<[mkSpec file_id file_type := set_mAccessTime now block]>
               (mFileBlocks s)) s)
     /\ (mLength block = BLOCK_LENGTH_INVALID ->
         getMaxSize file_id file_type now s
         = Returned (-1)
             (set_mFileBlocks
                (<[mkSpec file_id file_type := set_mAccessTime now block]>
                   (mFileBlocks s)) s)))
  /\ (mFileBlocks s !! mkSpec file_id file_type = None ->
      getMaxSize file_id file_type now s = Returned 0 s).
Proof.
  intros Hv. unfold getMaxSize.
  rewrite (bind_returned _ _ _ _ _ (check_valid_ok s Hv)).
  unfold find_block, put_block, bind, get, ret, modify.
  split.
  - intros block Hl. rewrite Hl.
    split; [reflexivity|]. intros ->. reflexivity.
  - intros Hl. rewrite Hl. reflexivity.
Qed.

(** C10: [decLock] on a key that is not in the directory changes nothing.
    On a key whose counter of that kind is zero it leaves the directory as
    it is (the counter stays zero) and still decrements the global count
    of that kind; a global count that was equal to the sum of the
    per-block counters is below it afterwards. *)
Theorem decLock_absent_or_zero (s : LLVFS) (file_id : LLUUID)
    (file_type : Z) (lock : EVFSLock) :
  (mFileBlocks s !! mkSpec file_id file_type = None ->
   decLock file_id file_type lock s = Returned tt s)
  /\ (forall block : LLVFSFileBlock,
        mFileBlocks s !! mkSpec file_id file_type = Some block ->
        lock_get (mLocks block) lock = 0 ->
        exists s',
          decLock file_id file_type lock s = Returned tt s'
          /\ mFileBlocks s' = mFileBlocks s
          /\ mFileBlocks s' !! mkSpec file_id file_type = Some block
          /\ lock_get (mLockCounts s') lock
             = wrapS32 (lock_get (mLockCounts s) lock - 1)
          /\ llog s' = llog s ++ [(LLWARNS, "VFS: Decrementing zero-value lock"%string)]
          /\ (inS32 (lock_get (mLockCounts s) lock - 1) ->
              lock_get (mLockCounts s) lock = sum_locks lock s ->
              lock_get (mLockCounts s') lock < sum_locks lock s')).
Proof.
  split.
  - intros Hn. unfold decLock, find_block, bind, get, ret. rewrite Hn. reflexivity.
  - intros block Hl H0.
    unfold decLock, find_block, bind, get, ret, llwarns, lllog, modify.
    rewrite Hl, H0. cbn.
    eexists. split; [reflexivity|].
    cbn. split; [reflexivity|]. split; [assumption|].
    assert (Hget : forall a v, lock_get (lock_set a lock v) lock = v)
      by (intros [] v; destruct lock; reflexivity).
    rewrite Hget. split; [reflexivity|]. split; [reflexivity|].
    intros Hr Hs. rewrite wrapS32_id by assumption.
    unfold sum_locks in *. cbn. lia.
Qed.

(** ** Writing to a dummy record *)

(** C8: [storeData] on a key whose record has the invalid length writes
    nothing to the data file, changes nothing in the VFS but the access
    time of that record (a warning goes to the log), and returns the
    requested length. *)
Theorem storeData_dummy_ignored (s : LLVFS) (file_id : LLUUID)
    (file_type : Z) (buffer : list Z) (location length now : Z)
    (block : LLVFSFileBlock) :
  isValid s = true ->
  mReadOnly s = false ->
  mFileBlocks s !! mkSpec file_id file_type = Some block ->
  mLength block = BLOCK_LENGTH_INVALID ->
  exists s',
    storeData file_id file_type buffer location length now s
    = Returned length s'
    /\ mDataFP s' = mDataFP s
    /\ mFileBlocks s'
       = <[mkSpec file_id file_type := set_mAccessTime now block]> (mFileBlocks s)
    /\ mIndexFP s' = mIndexFP s
    /\ mIndexHoles s' = mIndexHoles s
    /\ blocks s' = blocks s
    /\ mFreeBlocksByLocation s' = mFreeBlocksByLocation s
    /\ mFreeBlocksByLength s' = mFreeBlocksByLength s
    /\ mLockCounts s' = mLockCounts s
    /\ mValid s' = mValid s
    /\ mReadOnly s' = mReadOnly s
    /\ llog s' = llog s ++ [(LLWARNS, "VFS: Attempt to write to invalid block"%string)].
Proof.
  intros Hv Hro Hl Hlen. unfold storeData.
  rewrite (bind_returned _ _ _ _ _ (check_valid_ok s Hv)).
  unfold find_block, put_block, bind, get, ret, llwarns, lllog, modify.
  rewrite Hro, Hl. cbn. rewrite Hlen. cbn.
  eexists. split; [reflexivity|]. cbn.
  repeat split; try reflexivity. assumption.
Qed.

(** ** Index persistence *)

Arguments pwrite : simpl never.
Arguments serialize : simpl never.

Lemma pwrite_at_end (buf file : list Z) :
  pwrite (Z.of_nat (length file)) buf file = file ++ buf.
Proof.
  unfold pwrite. rewrite Nat2Z.id, Nat.sub_diag. cbn [repeat].
  rewrite app_nil_r, firstn_all.
  rewrite skipn_all2 by lia. rewrite app_nil_r. reflexivity.
Qed.

Lemma sync_dummy s (block : LLVFSFileBlock) remove :
  isValid s = true -> mReadOnly s = false ->
  mLength block = BLOCK_LENGTH_INVALID ->
  sync block remove s = Returned block s.
Proof.
  intros Hv Hro Hlen. unfold sync.
  rewrite (bind_returned _ _ _ _ _ (check_valid_ok s Hv)).
  unfold bind, get, ret. rewrite Hro, Hlen. reflexivity.
Qed.

(** C6: where [sync] writes a record that is not a dummy.  A record that
    has an index location is overwritten in place; otherwise the front of
    [mIndexHoles] is taken off and used; otherwise the record is appended
    to the index file and that offset becomes its index location.  With
    [remove] the 34 bytes written at the slot are zero and the slot goes to
    the back of [mIndexHoles].  For a dummy record (invalid length) nothing
    is written and nothing changes. *)
Theorem sync_slot_allocation (s : LLVFS) (block : LLVFSFileBlock) (remove : bool) :
  isValid s = true ->
  mReadOnly s = false ->
  (mLength block = BLOCK_LENGTH_INVALID ->
   sync block remove s = Returned block s)
  /\ (mLength block <> BLOCK_LENGTH_INVALID -> mLength block <> 0 ->
      (mIndexLocation block <> -1 ->
       sync block remove s
       = Returned block
           (set_mIndexFP
              (pwrite (mIndexLocation block) (sync_buffer remove block) (mIndexFP s))
              (set_mIndexHoles
                 (mIndexHoles s ++ sync_pushed remove (mIndexLocation block)) s)))
      /\ (forall hole rest,
            mIndexLocation block = -1 -> mIndexHoles s = hole :: rest ->
            sync block remove s
            = Returned (set_mIndexLocation hole block)
                (set_mIndexFP
                   (pwrite hole
                      (sync_buffer remove (set_mIndexLocation hole block))
                      (mIndexFP s))
                   (set_mIndexHoles (rest ++ sync_pushed remove hole) s)))
      /\ (mIndexLocation block = -1 -> mIndexHoles s = [] ->
          let slot := wrapS32 (Z.of_nat (length (mIndexFP s))) in
          sync block remove s
          = Returned (set_mIndexLocation slot block)
              (set_mIndexFP
                 (mIndexFP s
                  ++ sync_buffer remove (set_mIndexLocation slot block))
                 (set_mIndexHoles (sync_pushed remove slot) s)))).
Proof.
  intros Hv Hro. split; [apply sync_dummy; assumption|].
  intros Hlen H0.
  assert (Hstart : forall k : M LLVFSFileBlock,
            (check_valid ;;;
             s0 <- get ;;
             if mReadOnly s0 then
               llwarns "Attempt to sync read-only VFS" ;;; ret block
             else if mLength block =? BLOCK_LENGTH_INVALID then ret block
             else
               (if mLength block =? 0
                then llerrs "VFS syncing zero-length block" else ret tt) ;;; k) s
            = k s).
  { intros k. rewrite (bind_returned _ _ _ _ _ (check_valid_ok s Hv)).
    unfold bind at 1. unfold get. rewrite Hro.
    destruct (Z.eqb_spec (mLength block) BLOCK_LENGTH_INVALID); [contradiction|].
    destruct (Z.eqb_spec (mLength block) 0); [contradiction|].
    reflexivity. }
  unfold sync. rewrite Hstart. clear Hstart.
  unfold sync_buffer, sync_pushed.
  split; [|split].
  - intros Hidx. unfold bind, get, ret, modify.
    destruct (Z.eqb_spec (-1) (mIndexLocation block)) as [E|_]; [congruence|].
    rewrite set_mIndexLocation_same.
    destruct remove; cbn; rewrite ?app_nil_r; destruct s; reflexivity.
  - intros hole rest Hidx Hholes. unfold bind, get, ret, modify.
    rewrite Hidx, Hholes. cbn.
    destruct remove; cbn; rewrite ?app_nil_r; reflexivity.
  - intros Hidx Hholes. unfold bind, get, ret, modify.
    rewrite Hidx, Hholes. cbn.
    destruct remove; cbn; rewrite pwrite_at_end;
      destruct s; cbn in *; subst; reflexivity.
Qed.

(** ** The ordered containers *)

Lemma lower_bound_spec k l a b :
  lower_bound k l = (a, b) ->
  l = a ++ b /\ Forall (fun e => fst e < k) a
  /\ match b with [] => True | e :: _ => k <= fst e end.
Proof.
  revert a b. induction l as [|[k' p] r IH]; intros a b H; cbn in H.
  - inversion H; subst. split; [reflexivity|]. split; constructor.
  - destruct (Z.ltb_spec k' k) as [Hlt|Hge].
    + destruct (lower_bound k r) as [a' b'] eqn:E. inversion H; subst.
      destruct (IH a' b eq_refl) as (-> & Ha & Hb).
      split; [reflexivity|]. split; [constructor; auto|exact Hb].
    + inversion H; subst. split; [reflexivity|]. split; [constructor|cbn; lia].
Qed.

Lemma upper_bound_spec k l a b :
  upper_bound k l = (a, b) ->
  l = a ++ b /\ Forall (fun e => fst e <= k) a
  /\ match b with [] => True | e :: _ => k < fst e end.
Proof.
  revert a b. induction l as [|[k' p] r IH]; intros a b H; cbn in H.
  - inversion H; subst. split; [reflexivity|]. split; constructor.
  - destruct (Z.leb_spec k' k) as [Hle|Hgt].
    + destruct (upper_bound k r) as [a' b'] eqn:E. inversion H; subst.
      destruct (IH a' b eq_refl) as (-> & Ha & Hb).
      split; [reflexivity|]. split; [constructor; auto|exact Hb].
    + inversion H; subst. split; [reflexivity|]. split; [constructor|cbn; lia].
Qed.

(** Splitting at a position where the keys on the left are smaller and the
    key at the position is not. *)
Lemma lower_bound_app k a b :
  Forall (fun e => fst e < k) a ->
  match b with [] => True | e :: _ => k <= fst e end ->
  lower_bound k (a ++ b) = (a, b).
Proof.
  intros Ha Hb. induction Ha as [|[k' p] a Hk Ha IH]; cbn.
  - destruct b as [|[k' p] b]; [reflexivity|]. cbn in *.
    destruct (Z.ltb_spec k' k); [lia|reflexivity].
  - cbn in Hk. destruct (Z.ltb_spec k' k); [|lia]. rewrite IH. reflexivity.
Qed.

Lemma upper_bound_app k a b :
  Forall (fun e => fst e <= k) a ->
  match b with [] => True | e :: _ => k < fst e end ->
  upper_bound k (a ++ b) = (a, b).
Proof.
  intros Ha Hb. induction Ha as [|[k' p] a Hk Ha IH]; cbn.
  - destruct b as [|[k' p] b]; [reflexivity|]. cbn in *.
    destruct (Z.leb_spec k' k); [lia|reflexivity].
  - cbn in Hk. destruct (Z.leb_spec k' k); [|lia]. rewrite IH. reflexivity.
Qed.

Lemma elem_of_remove_ptr p l e :
  (e ∈ remove_ptr p l) <-> (e ∈ l) /\ snd e <> p.
Proof. unfold remove_ptr. rewrite list_elem_of_filter. tauto. Qed.

Lemma elem_of_snd_remove_ptr p l q :
  (q ∈ map snd (remove_ptr p l)) <-> (q ∈ map snd l) /\ q <> p.
Proof.
  change (map snd) with (fmap (M:=list) (@snd Z ptr)).
  rewrite !list_elem_of_fmap. split.
  - intros (e & -> & He). apply elem_of_remove_ptr in He as [He Hne].
    split; [exists e; auto|exact Hne].
  - intros [(e & -> & He) Hne]. exists e. split; [reflexivity|].
    apply elem_of_remove_ptr. auto.
Qed.

Lemma remove_ptr_absent p l :
  p ∉ map snd l -> remove_ptr p l = l.
Proof.
  intros Hn. unfold remove_ptr. induction l as [|e r IH]; [reflexivity|].
  rewrite filter_cons. destruct (decide (snd e <> p)) as [Hne|Heq].
  - f_equal. apply IH. intros Hin. apply Hn. cbn. right. exact Hin.
  - exfalso. apply Hn. cbn. apply dec_stable in Heq. rewrite Heq. left.
Qed.

Lemma remove_ptr_app p a b :
  remove_ptr p (a ++ b) = remove_ptr p a ++ remove_ptr p b.
Proof. apply filter_app. Qed.

Lemma erase_first_remove_ptr p l :
  NoDup (map snd l) -> p ∈ map snd l ->
  erase_first p l = Some (remove_ptr p l).
Proof.
  induction l as [|[k q] r IH]; intros Hnd Hin.
  - inversion Hin.
  - cbn in Hnd. apply NoDup_cons in Hnd as [Hq Hnd].
    cbn [erase_first]. unfold remove_ptr. rewrite filter_cons. cbn [snd].
    destruct (decide (q = p)) as [->|Hne].
    + destruct (decide (p <> p)) as [Hc|_]; [congruence|].
      f_equal. symmetry. apply remove_ptr_absent. exact Hq.
    + destruct (decide (q <> p)) as [_|Hc]; [|contradiction].
      cbn in Hin. apply elem_of_cons in Hin as [Heq|Hin]; [congruence|].
      fold (remove_ptr p r). rewrite IH by assumption. reflexivity.
Qed.

Lemma NoDup_snd_remove_ptr p l :
  NoDup (map snd l) -> NoDup (map snd (remove_ptr p l)).
Proof.
  induction l as [|e r IH]; intros Hnd; [constructor|].
  cbn in Hnd. apply NoDup_cons in Hnd as [Hq Hnd].
  unfold remove_ptr. rewrite filter_cons.
  destruct (decide (snd e <> p)); [|apply IH; assumption].
  cbn. apply NoDup_cons. split; [|apply IH; assumption].
  intros Hin. apply Hq. apply elem_of_snd_remove_ptr in Hin as [Hin _]. exact Hin.
Qed.

Lemma StronglySorted_remove_ptr R p l :
  StronglySorted R l -> StronglySorted R (remove_ptr p l).
Proof.
  induction 1 as [|e r Hs IH Hall]; [constructor|].
  unfold remove_ptr. rewrite filter_cons.
  destruct (decide (snd e <> p)); [|exact IH].
  constructor; [exact IH|].
  apply Forall_forall. intros x Hx.
  apply elem_of_remove_ptr in Hx as [Hx _].
  rewrite Forall_forall in Hall. apply Hall. exact Hx.
Qed.

Lemma multimap_insert_spec k p l :
  StronglySorted key_le l ->
  exists a b, l = a ++ b /\ multimap_insert k p l = a ++ (k, p) :: b
              /\ StronglySorted key_le (a ++ (k, p) :: b).
Proof.
  intros Hs. unfold multimap_insert.
  destruct (upper_bound k l) as [a b] eqn:E.
  destruct (upper_bound_spec _ _ _ _ E) as (-> & Ha & Hb).
  exists a, b. split; [reflexivity|]. split; [reflexivity|].
  apply StronglySorted_app in Hs as (Hab & Hsa & Hsb).
  apply StronglySorted_app_2; [|exact Hsa|].
  - intros x y Hx Hy. apply elem_of_cons in Hy as [->|Hy].
    + rewrite Forall_forall in Ha. unfold key_le. cbn.
      apply Ha. exact Hx.
    + apply Hab; assumption.
  - constructor; [exact Hsb|].
    destruct b as [|e b']; [constructor|].
    apply StronglySorted_inv in Hsb as [_ Hall].
    constructor; [unfold key_le; cbn; lia|].
    eapply Forall_impl; [exact Hall|].
    intros y Hy. unfold key_le in *. cbn in *. lia.
Qed.

Lemma elem_of_multimap_insert k p l e :
  (e ∈ multimap_insert k p l) <-> e = (k, p) \/ (e ∈ l).
Proof.
  unfold multimap_insert.
  destruct (upper_bound k l) as [a b] eqn:E.
  destruct (upper_bound_spec _ _ _ _ E) as (-> & _ & _).
  rewrite !elem_of_app, elem_of_cons. tauto.
Qed.

Lemma snd_multimap_insert k p l :
  map snd (multimap_insert k p l) ≡ₚ p :: map snd l.
Proof.
  unfold multimap_insert.
  destruct (upper_bound k l) as [a b] eqn:E.
  destruct (upper_bound_spec _ _ _ _ E) as (-> & _ & _).
  rewrite !map_app. cbn. symmetry. apply Permutation_middle.
Qed.

(** [erase(key)] on a map whose keys are all different takes out one entry. *)
Lemma map_erase_middle k p a b :
  Forall (fun e => fst e <> k) a -> Forall (fun e => fst e <> k) b ->
  map_erase k (a ++ (k, p) :: b) = a ++ b.
Proof.
  intros Ha Hb. unfold map_erase.
  rewrite filter_app, filter_cons. cbn [fst].
  destruct (decide (k <> k)) as [Hc|_]; [congruence|].
  f_equal; apply list_filter_iff_true || idtac.
  - clear Hb. induction Ha as [|e a He Ha IH]; [reflexivity|].
    rewrite filter_cons. destruct (decide (fst e <> k)); [|contradiction].
    f_equal. exact IH.
  - clear Ha. induction Hb as [|e b He Hb IH]; [reflexivity|].
    rewrite filter_cons. destruct (decide (fst e <> k)); [|contradiction].
    f_equal. exact IH.
Qed.

(** ** The invariant of the free lists *)

Lemma StronglySorted_impl_elem {A} (R R' : relation A) l :
  (forall x y, x ∈ l -> y ∈ l -> R x y -> R' x y) ->
  StronglySorted R l -> StronglySorted R' l.
Proof.
  intros Himp Hs. induction Hs as [|a l Hs IH Hall]; [constructor|].
  constructor.
  - apply IH. intros x y Hx Hy. apply Himp; apply elem_of_cons; auto.
  - rewrite Forall_forall in *. intros y Hy.
    apply Himp; [apply elem_of_cons; auto|apply elem_of_cons; auto|auto].
Qed.

Lemma StronglySorted_trichotomy {A} (R : relation A) l x y :
  StronglySorted R l -> x ∈ l -> y ∈ l ->
  x = y \/ R x y \/ R y x.
Proof.
  induction 1 as [|a l Hs IH Hall]; intros Hx Hy; [inversion Hx|].
  rewrite Forall_forall in Hall.
  apply elem_of_cons in Hx as [->|Hx]; apply elem_of_cons in Hy as [->|Hy]; auto.
Qed.

Lemma elem_of_snd (l : list (Z * ptr)) e : e ∈ l -> snd e ∈ map snd l.
Proof.
  intros He. change (map snd l) with (snd <$> l).
  apply list_elem_of_fmap. exists e. auto.
Qed.

Lemma elem_of_snd_inv (l : list (Z * ptr)) q :
  q ∈ map snd l -> exists k, (k, q) ∈ l.
Proof.
  change (map snd l) with (snd <$> l).
  intros He. apply list_elem_of_fmap in He as ([k q'] & -> & He). eauto.
Qed.

(** In a well-formed location index an entry is determined by its key and
    by its pointer. *)
Lemma entries_key_ptr h L e1 e2 :
  Forall (entry_ok h) L -> StronglySorted (ends_before h) L ->
  e1 ∈ L -> e2 ∈ L -> fst e1 = fst e2 \/ snd e1 = snd e2 -> e1 = e2.
Proof.
  intros Hok Hs H1 H2 Heq.
  rewrite Forall_forall in Hok.
  destruct (Hok _ H1) as (b1 & Hb1 & Hl1 & ? & ? & ?).
  destruct (Hok _ H2) as (b2 & Hb2 & Hl2 & ? & ? & ?).
  destruct (StronglySorted_trichotomy _ _ _ _ Hs H1 H2) as [E|[Hlt|Hlt]]; [exact E| |].
  - specialize (Hlt _ Hb1). exfalso.
    destruct Heq as [Heq|Heq]; [lia|].
    rewrite Heq in Hb1. rewrite Hb1 in Hb2. inversion Hb2; subst. lia.
  - specialize (Hlt _ Hb2). exfalso.
    destruct Heq as [Heq|Heq]; [lia|].
    rewrite Heq in Hb1. rewrite Hb1 in Hb2. inversion Hb2; subst. lia.
Qed.

Lemma filter_ext_elem {A} (P Q : A -> Prop)
    `{!forall x, Decision (P x)} `{!forall x, Decision (Q x)} (l : list A) :
  (forall x, x ∈ l -> P x <-> Q x) -> filter P l = filter Q l.
Proof.
  induction l as [|a l IH]; intros Hext; [reflexivity|].
  rewrite !filter_cons.
  assert (Ha : P a <-> Q a) by (apply Hext; left).
  rewrite IH by (intros x Hx; apply Hext; right; exact Hx).
  destruct (decide (P a)), (decide (Q a)); tauto || reflexivity.
Qed.

Lemma map_erase_remove_ptr h L k p :
  Forall (entry_ok h) L -> StronglySorted (ends_before h) L ->
  (k, p) ∈ L -> map_erase k L = remove_ptr p L.
Proof.
  intros Hok Hs Hin. unfold map_erase, remove_ptr.
  apply filter_ext_elem. intros e He. split; intros Hne Heq; apply Hne.
  - assert (E : e = (k, p)) by (eapply entries_key_ptr; eauto). rewrite E. reflexivity.
  - assert (E : e = (k, p)) by (eapply entries_key_ptr; eauto). rewrite E. reflexivity.
Qed.

(** The lists depend on the heap only through the blocks they point to. *)
Lemma lists_ok_heap h h' L N :
  lists_ok h L N ->
  (forall q, q ∈ map snd L -> h' !! q = h !! q) ->
  lists_ok h' L N.
Proof.
  intros [He Hg Hl Hs Hn Hsame] Hagree.
  constructor; auto.
  - rewrite Forall_forall in *. intros e Hin.
    destruct (He _ Hin) as (b & Hb & Hrest).
    exists b. split; [rewrite Hagree by (apply elem_of_snd; exact Hin); exact Hb|exact Hrest].
  - eapply StronglySorted_impl_elem; [|exact Hg].
    intros x y Hx Hy Hxy b Hb. apply Hxy.
    rewrite <- Hagree by (apply elem_of_snd; exact Hx). exact Hb.
  - rewrite Forall_forall in *. intros e Hin.
    destruct (Hl _ Hin) as (b & Hb & Hrest).
    exists b. split; [|exact Hrest].
    rewrite Hagree; [exact Hb|]. apply Hsame, elem_of_snd. exact Hin.
Qed.

Lemma Forall_remove_ptr (P : Z * ptr -> Prop) p l :
  Forall P l -> Forall P (remove_ptr p l).
Proof.
  rewrite !Forall_forall. intros H e He.
  apply elem_of_remove_ptr in He as [He _]. auto.
Qed.

(** Taking a block out of both lists. *)
Lemma lists_ok_remove h L N p :
  lists_ok h L N -> lists_ok h (remove_ptr p L) (remove_ptr p N).
Proof.
  intros [He Hg Hl Hs Hn Hsame].
  constructor.
  - apply Forall_remove_ptr. exact He.
  - apply StronglySorted_remove_ptr. exact Hg.
  - apply Forall_remove_ptr. exact Hl.
  - apply StronglySorted_remove_ptr. exact Hs.
  - apply NoDup_snd_remove_ptr. exact Hn.
  - intros q. rewrite !elem_of_snd_remove_ptr, Hsame. tauto.
Qed.

(** Putting a block that lies apart from the others into both lists. *)
Lemma lists_ok_insert h L N q k len :
  lists_ok h L N ->
  q ∉ map snd L ->
  h !! q = Some (mkBlock k len) ->
  0 <= k -> 0 < len -> k + len < 2 ^ 31 ->
  apart h L k len ->
  lists_ok h (map_insert k q L) (multimap_insert len q N)
  /\ exists a b, L = a ++ b /\ map_insert k q L = a ++ (k, q) :: b
                 /\ Forall (fun e => fst e < k) a
                 /\ Forall (fun e => k < fst e) b.
Proof.
  intros [He Hg Hl Hs Hn Hsame] Hq Hhq Hk Hlen Hend Hap.
  unfold map_insert.
  destruct (lower_bound k L) as [a b] eqn:E.
  destruct (lower_bound_spec _ _ _ _ E) as (-> & Ha & Hb).
  pose proof He as He'. rewrite Forall_forall in He'.
  apply StronglySorted_app in Hg as (Hab & Hsa & Hsb).
  (* every key of [b] is above [k] *)
  assert (Hbk : Forall (fun e => k < fst e) b).
  { apply Forall_forall. intros e Hin.
    destruct (He' e) as (fb & Hfb & Hloc & _ & Hpos & _);
      [apply elem_of_app; auto|].
    destruct (Hap e fb) as [Hlt|Hgt]; [apply elem_of_app; auto|exact Hfb| |lia].
    exfalso. destruct b as [|e0 b']; [inversion Hin|].
    apply elem_of_cons in Hin as [->|Hin]; [lia|].
    apply StronglySorted_inv in Hsb as [_ Hall]. rewrite Forall_forall in Hall.
    destruct (He' e0) as (fb0 & Hfb0 & Hloc0 & _ & Hpos0 & _);
      [apply elem_of_app; right; left|].
    specialize (Hall _ Hin _ Hfb0). lia. }
  assert (Hins : match b with
                 | [] => a ++ [(k, q)]
                 | (k', _) :: _ => if k' =? k then a ++ b else a ++ (k, q) :: b
                 end = a ++ (k, q) :: b).
  { destruct b as [|[k' p'] b']; [reflexivity|].
    apply Forall_cons in Hbk as [Hk' _]. cbn in Hk'.
    destruct (Z.eqb_spec k' k); [lia|reflexivity]. }
  rewrite Hins. split; [|exists a, b; auto].
  constructor.
  - apply Forall_app in He as [Hea Heb].
    apply Forall_app. split; [exact Hea|]. constructor; [|exact Heb].
    exists (mkBlock k len). cbn. auto.
  - apply StronglySorted_app_2; [|exact Hsa|].
    + intros x y Hx Hy fb Hfb. apply elem_of_cons in Hy as [->|Hy].
      * cbn. destruct (Hap x fb) as [Hlt|Hgt]; [apply elem_of_app; auto|exact Hfb|exact Hlt|].
        exfalso. rewrite Forall_forall in Ha. specialize (Ha _ Hx).
        destruct (He' x) as (fb' & Hfb' & Hloc & _); [apply elem_of_app; auto|].
        rewrite Hfb in Hfb'. inversion Hfb'; subst. lia.
      * apply (Hab x y Hx Hy). exact Hfb.
    + constructor; [exact Hsb|].
      apply Forall_forall. intros y Hy fb Hfb. cbn in Hfb.
      rewrite Hhq in Hfb. inversion Hfb; subst. cbn.
      destruct (He' y) as (fy & Hfy & Hloc & _ & Hpos & _); [apply elem_of_app; auto|].
      destruct (Hap y fy) as [Hlt|Hgt]; [apply elem_of_app; auto|exact Hfy| |lia].
      exfalso. rewrite Forall_forall in Hbk. specialize (Hbk _ Hy). lia.
  - apply Forall_forall. intros e Hin.
    apply elem_of_multimap_insert in Hin as [->|Hin].
    + exists (mkBlock k len). cbn. auto.
    + rewrite Forall_forall in Hl. apply Hl. exact Hin.
  - destruct (multimap_insert_spec len q N Hs) as (a' & b' & _ & -> & Hs'). exact Hs'.
  - rewrite snd_multimap_insert. apply NoDup_cons. split; [|exact Hn].
    intros Hin. apply Hq. apply Hsame. exact Hin.
  - intros p. rewrite map_app. cbn [map snd].
    rewrite (snd_multimap_insert len q N).
    rewrite elem_of_app, !elem_of_cons, <- Hsame, map_app, elem_of_app. tauto.
Qed.

(** ** Erasing from the free lists *)

Lemma deref_some s p b : blocks s !! p = Some b -> deref p s = Returned b s.
Proof. intros H. unfold deref, bind, get, ret. rewrite H. reflexivity. Qed.

Lemma eraseBlockLength_ok s p b :
  blocks s !! p = Some b ->
  NoDup (map snd (mFreeBlocksByLength s)) ->
  (mLength b, p) ∈ mFreeBlocksByLength s ->
  eraseBlockLength p s
  = Returned tt (set_mFreeBlocksByLength
                   (remove_ptr p (mFreeBlocksByLength s)) s).
Proof.
  intros Hp Hnd Hin. unfold eraseBlockLength.
  rewrite (bind_returned _ _ _ _ _ (deref_some _ _ _ Hp)).
  unfold bind at 1. unfold get.
  destruct (lower_bound (mLength b) (mFreeBlocksByLength s)) as [before from_iter] eqn:E.
  destruct (lower_bound_spec _ _ _ _ E) as (Hl & Hb & _).
  rewrite Hl in Hin, Hnd |- *.
  rewrite map_app in Hnd. apply NoDup_app in Hnd as (Hnb & Hdisj & Hna).
  apply elem_of_app in Hin as [Hin|Hin].
  { rewrite Forall_forall in Hb. specialize (Hb _ Hin). cbn in Hb. lia. }
  assert (Hpa : p ∈ map snd from_iter) by (apply (elem_of_snd _ _ Hin)).
  rewrite (erase_first_remove_ptr p from_iter Hna Hpa).
  unfold modify. rewrite remove_ptr_app.
  rewrite (remove_ptr_absent p before); [reflexivity|].
  intros Hpb. exact (Hdisj _ Hpb Hpa).
Qed.

Lemma eraseBlock_ok s p b :
  blocks s !! p = Some b ->
  NoDup (map snd (mFreeBlocksByLength s)) ->
  (mLength b, p) ∈ mFreeBlocksByLength s ->
  eraseBlock p s
  = Returned tt
      (set_mFreeBlocksByLocation
         (map_erase (mLocation b) (mFreeBlocksByLocation s))
         (set_mFreeBlocksByLength (remove_ptr p (mFreeBlocksByLength s)) s)).
Proof.
  intros Hp Hnd Hin. unfold eraseBlock.
  rewrite (bind_returned _ _ _ _ _ (eraseBlockLength_ok _ _ _ Hp Hnd Hin)).
  assert (Hp' : blocks (set_mFreeBlocksByLength
                           (remove_ptr p (mFreeBlocksByLength s)) s) !! p = Some b)
    by exact Hp.
  rewrite (bind_returned _ _ _ _ _ (deref_some _ _ _ Hp')).
  reflexivity.
Qed.

(** A block of the location index is in the length index under its
    length. *)
Lemma length_entry_of_location h L N k p b :
  lists_ok h L N -> (k, p) ∈ L -> h !! p = Some b -> (mLength b, p) ∈ N.
Proof.
  intros [He Hg Hl Hs Hn Hsame] Hin Hb.
  assert (Hp : p ∈ map snd N) by (apply Hsame; apply (elem_of_snd _ _ Hin)).
  apply elem_of_snd_inv in Hp as [k' Hk'].
  rewrite Forall_forall in Hl. destruct (Hl _ Hk') as (b' & Hb' & Hlen).
  cbn in *. rewrite Hb in Hb'. inversion Hb'; subst. exact Hk'.
Qed.

Lemma keys_increasing h L :
  Forall (entry_ok h) L -> StronglySorted (ends_before h) L ->
  StronglySorted (fun e1 e2 => fst e1 < fst e2) L.
Proof.
  intros He Hg. eapply StronglySorted_impl_elem; [|exact Hg].
  intros x y Hx Hy Hxy. rewrite Forall_forall in He.
  destruct (He _ Hx) as (b & Hb & Hloc & _ & Hpos & _).
  specialize (Hxy _ Hb). lia.
Qed.

Lemma NoDup_location_ptrs h L :
  Forall (entry_ok h) L -> StronglySorted (ends_before h) L ->
  NoDup (map snd L).
Proof.
  intros He Hg. induction Hg as [|e l Hg IH Hall]; [constructor|].
  apply Forall_cons in He as [Hee Hel].
  cbn. apply NoDup_cons. split; [|apply IH; exact Hel].
  intros Hin. apply elem_of_snd_inv in Hin as [k Hk].
  rewrite Forall_forall in Hall, Hel.
  destruct Hee as (b & Hb & Hloc & _ & Hpos & _).
  destruct (Hel _ Hk) as (b' & Hb' & Hloc' & _). cbn in *.
  rewrite Hb in Hb'. inversion Hb'; subst b'.
  specialize (Hall _ Hk _ Hb). cbn in Hall. lia.
Qed.

Lemma remove_ptr_middle p k a b :
  NoDup (map snd (a ++ (k, p) :: b)) ->
  remove_ptr p (a ++ (k, p) :: b) = a ++ b.
Proof.
  intros Hnd. rewrite map_app in Hnd. cbn in Hnd.
  apply NoDup_app in Hnd as (_ & Hdisj & Hnb).
  apply NoDup_cons in Hnb as [Hpb _].
  rewrite remove_ptr_app. unfold remove_ptr at 2. rewrite filter_cons. cbn [snd].
  destruct (decide (p <> p)) as [Hc|_]; [congruence|].
  fold (remove_ptr p b).
  rewrite (remove_ptr_absent p a), (remove_ptr_absent p b); auto.
  intros Hpa. apply (Hdisj _ Hpa). left.
Qed.

Lemma map_insert_app k q a b :
  Forall (fun e => fst e < k) a -> Forall (fun e => k < fst e) b ->
  map_insert k q (a ++ b) = a ++ (k, q) :: b.
Proof.
  intros Ha Hb. unfold map_insert.
  rewrite (lower_bound_app k a b Ha).
  - destruct b as [|[k' p'] b']; [reflexivity|].
    apply Forall_cons in Hb as [Hk' _]. cbn in Hk'.
    destruct (Z.eqb_spec k' k); [lia|reflexivity].
  - destruct b as [|e b']; [exact I|].
    apply Forall_cons in Hb as [Hk' _]. lia.
Qed.

(** The decomposition of a well-formed location index around one of its
    entries. *)
Lemma location_split h L N k p :
  lists_ok h L N -> (k, p) ∈ L ->
  exists a b, L = a ++ (k, p) :: b
              /\ Forall (fun e => fst e < k) a
              /\ Forall (fun e => k < fst e) b
              /\ remove_ptr p L = a ++ b.
Proof.
  intros Hok Hin. pose proof Hok as [He Hg _ _ _ _].
  apply list_elem_of_split in Hin as (a & b & ->).
  exists a, b. split; [reflexivity|].
  pose proof (keys_increasing _ _ He Hg) as Hinc.
  apply StronglySorted_app in Hinc as (Hab & _ & Hsb).
  apply StronglySorted_inv in Hsb as [_ Hall].
  split; [|split].
  - apply Forall_forall. intros e Hea. apply (Hab e (k, p) Hea). left.
  - exact Hall.
  - apply remove_ptr_middle. eapply NoDup_location_ptrs; eauto.
Qed.

Lemma map_insert_remove_same h L N k p :
  lists_ok h L N -> (k, p) ∈ L -> map_insert k p (remove_ptr p L) = L.
Proof.
  intros Hok Hin.
  destruct (location_split _ _ _ _ _ Hok Hin) as (a & b & -> & Ha & Hb & ->).
  apply map_insert_app; assumption.
Qed.

Lemma remove_ptr_comm p q l :
  remove_ptr p (remove_ptr q l) = remove_ptr q (remove_ptr p l).
Proof.
  unfold remove_ptr. induction l as [|e l IH]; [reflexivity|].
  rewrite !filter_cons.
  destruct (decide (snd e <> q)), (decide (snd e <> p));
    rewrite ?filter_cons; repeat case_decide; try contradiction; congruence.
Qed.

(** ** Adding a free block *)

Lemma wrapU32_small x : 0 <= x < 2 ^ 31 -> wrapU32 x = x.
Proof. intros H. apply wrapU32_id. unfold inU32. lia. Qed.

Lemma wrapS32_small x : 0 <= x < 2 ^ 31 -> wrapS32 x = x.
Proof. intros H. apply wrapS32_id. unfold inS32. lia. Qed.

Lemma last_snoc_inv {A} (l : list A) x :
  last l = Some x -> exists l', l = l' ++ [x].
Proof. intros H. apply last_Some in H. exact H. Qed.

(** What [find_merge_prev] finds for a block that overlaps no free
    extent. *)
Lemma find_merge_prev_ok s b before after :
  free_lists_ok s ->
  mFreeBlocksByLocation s = before ++ after ->
  Forall (fun e => fst e < mLocation b) before ->
  0 <= mLocation b -> 0 < mLength b ->
  (forall e fb,
     e ∈ mFreeBlocksByLocation s -> blocks s !! snd e = Some fb ->
     mLocation fb + mLength fb <= mLocation b
     \/ mLocation b + mLength b <= mLocation fb) ->
  exists po flag,
    find_merge_prev before b s = Returned (po, flag) s
    /\ (flag = true ->
        exists before' k1 pp pb,
          before = before' ++ [(k1, pp)] /\ po = Some pp
          /\ blocks s !! pp = Some pb /\ mLocation pb = k1
          /\ k1 + mLength pb = mLocation b)
    /\ (flag = false ->
        forall e fb, e ∈ before -> blocks s !! snd e = Some fb ->
                     mLocation fb + mLength fb < mLocation b).
Proof.
  intros Hok HL Hb Hloc0 Hlen Hfit. pose proof Hok as [He Hg _ _ _ _].
  rewrite Forall_forall in He, Hb.
  (* every block in front ends at or before our location *)
  assert (Hle : forall e fb, e ∈ before -> blocks s !! snd e = Some fb ->
                             mLocation fb + mLength fb <= mLocation b).
  { intros e fb Hin Hfb.
    assert (HinL : e ∈ mFreeBlocksByLocation s) by (rewrite HL, elem_of_app; auto).
    destruct (Hfit _ _ HinL Hfb) as [H|H]; [exact H|].
    destruct (He _ HinL) as (fb' & Hfb' & Hk & _).
    rewrite Hfb in Hfb'. inversion Hfb'; subst fb'.
    specialize (Hb _ Hin). lia. }
  unfold find_merge_prev.
  destruct (last before) as [[k1 pp]|] eqn:El.
  - apply last_snoc_inv in El as [before' ->].
    assert (Hin : (k1, pp) ∈ before' ++ [(k1, pp)])
      by (rewrite elem_of_app; right; left).
    assert (HinL : (k1, pp) ∈ mFreeBlocksByLocation s) by (rewrite HL, elem_of_app; auto).
    destruct (He _ HinL) as (pb & Hpb & Hk & H0 & Hpos & Hend). cbn in *.
    rewrite (bind_returned _ _ _ _ _ (deref_some _ _ _ Hpb)).
    pose proof (Hle _ _ Hin Hpb) as Hple.
    exists (Some pp), (mLocation pb + mLength pb =? mLocation b).
    unfold ret. rewrite wrapU32_small by lia.
    split; [reflexivity|]. split.
    + intros Hf. apply Z.eqb_eq in Hf.
      exists before', k1, pp, pb. repeat split; auto. lia.
    + intros Hf. apply Z.eqb_neq in Hf.
      intros e fb Hine Hfb.
      apply elem_of_app in Hine as [Hine|Hine].
      * rewrite HL in Hg. apply StronglySorted_app_1_l in Hg.
        pose proof (StronglySorted_app_1_elem_of _ _ _ e (k1, pp) Hg Hine
                      ltac:(left) _ Hfb) as Hlt.
        cbn in Hlt. lia.
      * apply list_elem_of_singleton in Hine. subst e. cbn in Hfb.
        rewrite Hpb in Hfb. inversion Hfb; subst fb. lia.
  - exists None, false. split; [reflexivity|]. split; [discriminate|].
    intros _ e fb Hine. apply last_None in El. subst before. inversion Hine.
Qed.

(** What [find_merge_next] finds for a block that overlaps no free
    extent. *)
Lemma find_merge_next_ok s b before after :
  free_lists_ok s ->
  mFreeBlocksByLocation s = before ++ after ->
  match after with [] => True | e :: _ => mLocation b <= fst e end ->
  0 <= mLocation b -> 0 < mLength b ->
  mLocation b + mLength b < 2 ^ 31 ->
  (forall e fb,
     e ∈ mFreeBlocksByLocation s -> blocks s !! snd e = Some fb ->
     mLocation fb + mLength fb <= mLocation b
     \/ mLocation b + mLength b <= mLocation fb) ->
  exists no flag,
    find_merge_next after b s = Returned (no, flag) s
    /\ (flag = true ->
        exists after' k2 np nb,
          after = (k2, np) :: after' /\ no = Some np
          /\ blocks s !! np = Some nb /\ mLocation nb = k2
          /\ mLocation b + mLength b = k2)
    /\ (flag = false ->
        forall e fb, e ∈ after -> blocks s !! snd e = Some fb ->
                     mLocation b + mLength b < mLocation fb).
Proof.
  intros Hok HL Ha Hloc0 Hlen Hend Hfit. pose proof Hok as [He Hg _ _ _ _].
  rewrite Forall_forall in He.
  unfold find_merge_next.
  destruct after as [|[k2 np] after'].
  - exists None, false. split; [reflexivity|]. split; [discriminate|].
    intros _ e fb Hine. inversion Hine.
  - cbn in Ha.
    assert (HinL : (k2, np) ∈ mFreeBlocksByLocation s)
      by (rewrite HL, elem_of_app; right; left).
    destruct (He _ HinL) as (nb & Hnb & Hk & H0 & Hpos & Hendn). cbn in *.
    rewrite (bind_returned _ _ _ _ _ (deref_some _ _ _ Hnb)).
    assert (Hge : mLocation b + mLength b <= k2).
    { destruct (Hfit _ _ HinL Hnb) as [H|H]; lia. }
    exists (Some np), (mLocation b + mLength b =? mLocation nb).
    unfold ret. rewrite wrapU32_small by lia.
    split; [reflexivity|]. split.
    + intros Hf. apply Z.eqb_eq in Hf.
      exists after', k2, np, nb. repeat split; auto. lia.
    + intros Hf. apply Z.eqb_neq in Hf.
      intros e fb Hine Hfb.
      apply elem_of_cons in Hine as [->|Hine].
      * cbn in Hfb. rewrite Hnb in Hfb. inversion Hfb; subst fb. lia.
      * rewrite HL in Hg. apply StronglySorted_app_1_r in Hg.
        apply StronglySorted_inv in Hg as [_ Hall].
        rewrite Forall_forall in Hall. specialize (Hall _ Hine _ Hnb).
        assert (HineL : e ∈ mFreeBlocksByLocation s)
          by (rewrite HL, elem_of_app; right; right; exact Hine).
        destruct (He _ HineL) as (fb' & Hfb' & Hk' & _).
        rewrite Hfb in Hfb'. inversion Hfb'; subst fb'. lia.
Qed.

(** A block that lies apart from every free extent is put into both lists
    as it is. *)
Lemma addFreeBlock_apart s p loc len :
  free_lists_ok s ->
  blocks s !! p = Some (mkBlock loc len) ->
  apart (blocks s) (mFreeBlocksByLocation s) loc len ->
  0 <= loc -> 0 < len -> loc + len < 2 ^ 31 ->
  addFreeBlock p s
  = Returned tt
      (set_mFreeBlocksByLength
         (multimap_insert len p (mFreeBlocksByLength s))
         (set_mFreeBlocksByLocation
            (map_insert loc p (mFreeBlocksByLocation s)) s)).
Proof.
  intros Hok Hp Hap Hloc0 Hlen Hend. pose proof Hok as [He Hg _ _ _ _].
  rewrite Forall_forall in He.
  assert (Hfit : forall e fb,
            e ∈ mFreeBlocksByLocation s -> blocks s !! snd e = Some fb ->
            mLocation fb + mLength fb <= loc \/ loc + len <= mLocation fb).
  { intros e fb Hin Hfb. destruct (Hap _ _ Hin Hfb); lia. }
  unfold addFreeBlock.
  rewrite (bind_returned _ _ _ _ _ (deref_some _ _ _ Hp)).
  unfold bind at 1. unfold get. cbn [mLocation mLength].
  destruct (lower_bound loc (mFreeBlocksByLocation s)) as [before after] eqn:E.
  destruct (lower_bound_spec _ _ _ _ E) as (HL & Hb & Ha).
  destruct (find_merge_prev_ok s (mkBlock loc len) before after Hok HL Hb Hloc0 Hlen Hfit)
    as (po & fp & Hprev & Hpt & _).
  destruct (find_merge_next_ok s (mkBlock loc len) before after Hok HL Ha Hloc0 Hlen Hend Hfit)
    as (no & fn & Hnext & Hnt & _).
  rewrite (bind_returned _ _ _ _ _ Hprev), (bind_returned _ _ _ _ _ Hnext).
  destruct fp.
  { exfalso. destruct (Hpt eq_refl) as (before' & k1 & pp & pb & -> & _ & Hpb & Hk & Hadj).
    cbn in Hadj.
    destruct (Hap (k1, pp) pb) as [H|H]; [|exact Hpb|lia|].
    - rewrite HL, !elem_of_app. left. right. left.
    - rewrite Forall_forall in Hb. specialize (Hb (k1, pp)). cbn in Hb.
      rewrite elem_of_app in Hb. specialize (Hb (or_intror (list_elem_of_here _ _))). lia. }
  destruct fn.
  { exfalso. destruct (Hnt eq_refl) as (after' & k2 & np & nb & -> & _ & Hnb & Hk & Hadj).
    cbn in Hadj, Ha.
    destruct (Hap (k2, np) nb) as [H|H]; [|exact Hnb| |lia].
    - rewrite HL, !elem_of_app. right. left.
    - assert (Hin : (k2, np) ∈ mFreeBlocksByLocation s)
        by (rewrite HL, !elem_of_app; right; left).
      destruct (He _ Hin) as (nb' & Hnb' & _ & _ & Hpos & _). cbn in Hnb'.
      rewrite Hnb in Hnb'. inversion Hnb'; subst. lia. }
  reflexivity.
Qed.

Lemma lists_ok_replace h h' L0 N0 q k len :
  lists_ok h L0 N0 ->
  q ∉ map snd L0 ->
  (forall r, r ∈ map snd L0 -> h' !! r = h !! r) ->
  h' !! q = Some (mkBlock k len) ->
  0 <= k -> 0 < len -> k + len < 2 ^ 31 ->
  apart h L0 k len ->
  lists_ok h' (map_insert k q L0) (multimap_insert len q N0).
Proof.
  intros Hok Hq Hagree Hhq Hk Hlen Hend Hap.
  apply (lists_ok_heap h h') in Hok; [|exact Hagree].
  apply lists_ok_insert; auto.
  intros e fb Hin Hfb. apply (Hap e fb Hin).
  rewrite <- Hagree by (apply elem_of_snd; exact Hin). exact Hfb.
Qed.

Lemma same_outside_refl s : same_outside_free_lists s s.
Proof. unfold same_outside_free_lists. repeat split; reflexivity. Qed.

Ltac mstep H := rewrite (bind_returned _ _ _ _ _ H).

Arguments remove_ptr : simpl never.
Arguments map_erase : simpl never.
Arguments map_insert : simpl never.
Arguments multimap_insert : simpl never.
Arguments wrapS32 : simpl never.
Arguments wrapU32 : simpl never.

Lemma elem_of_map_insert k q l e :
  e ∈ map_insert k q l -> e = (k, q) \/ e ∈ l.
Proof.
  unfold map_insert. destruct (lower_bound k l) as [a b] eqn:E.
  destruct (lower_bound_spec _ _ _ _ E) as (-> & _ & _).
  destruct b as [|[k' p'] b'].
  - rewrite !elem_of_app, list_elem_of_singleton. tauto.
  - destruct (k' =? k); [auto|].
    rewrite !elem_of_app, !elem_of_cons. tauto.
Qed.

(** An extent that overlaps neither the old free extents nor the merged
    block overlaps no free extent afterwards. *)
Lemma clear_after_merge (h h' : gmap ptr LLVFSBlock) (L L0 : list (Z * ptr))
    (F : LLVFSBlock) (K LEN : Z) (Q : ptr) :
  (forall e, e ∈ L0 -> e ∈ L) ->
  (forall r, r ∈ map snd L0 -> h' !! r = h !! r) ->
  h' !! Q = Some (mkBlock K LEN) ->
  (forall e fb, e ∈ L -> h !! snd e = Some fb ->
     mLocation fb + mLength fb <= mLocation F
     \/ mLocation F + mLength F <= mLocation fb) ->
  (K + LEN <= mLocation F \/ mLocation F + mLength F <= K) ->
  forall e fb, e ∈ map_insert K Q L0 -> h' !! snd e = Some fb ->
    mLocation fb + mLength fb <= mLocation F
    \/ mLocation F + mLength F <= mLocation fb.
Proof.
  intros Hsub Hagree HQ Hold Hnew e fb Hin Hfb.
  apply elem_of_map_insert in Hin as [->|Hin].
  - cbn in Hfb. rewrite HQ in Hfb. inversion Hfb; subst fb. exact Hnew.
  - apply (Hold e fb (Hsub _ Hin)).
    rewrite <- Hagree by (apply elem_of_snd; exact Hin). exact Hfb.
Qed.

(** [addFreeBlock] keeps the invariant of the free lists, and an extent
    that overlapped neither a free extent nor the new block overlaps no
    free extent afterwards. *)
Lemma addFreeBlock_ok s p :
  free_lists_ok s -> free_block_fits s p ->
  exists s',
    addFreeBlock p s = Returned tt s'
    /\ free_lists_ok s'
    /\ same_outside_free_lists s s'
    /\ forall (b F : LLVFSBlock),
         blocks s !! p = Some b -> 0 < mLength F ->
         clear_of_free s F ->
         (mLocation F + mLength F <= mLocation b
          \/ mLocation b + mLength b <= mLocation F) ->
         clear_of_free s' F.
Proof.
  intros Hok (b & Hp & Hnotin & Hloc0 & Hlen & Hend & Hfit).
  pose proof Hok as [He Hg Hl Hs Hn Hsame].
  pose proof He as HeF. rewrite Forall_forall in He.
  unfold addFreeBlock.
  mstep (deref_some _ _ _ Hp).
  unfold bind at 1. unfold get.
  destruct (lower_bound (mLocation b) (mFreeBlocksByLocation s)) as [before after] eqn:E.
  destruct (lower_bound_spec _ _ _ _ E) as (HL & Hb & Ha).
  destruct (find_merge_prev_ok s b before after Hok HL Hb Hloc0 Hlen Hfit)
    as (po & fp & Hprev & Hpt & Hpf).
  destruct (find_merge_next_ok s b before after Hok HL Ha Hloc0 Hlen Hend Hfit)
    as (no & fn & Hnext & Hnt & Hnf).
  mstep Hprev. mstep Hnext.
  destruct fp, fn.
  - (* merge with both *)
    destruct (Hpt eq_refl) as (before' & k1 & pp & pb & -> & -> & Hpb & Hk1 & Hadj1).
    destruct (Hnt eq_refl) as (after' & k2 & np & nb & -> & -> & Hnb & Hk2 & Hadj2).
    clear Hpt Hpf Hnt Hnf.
    assert (Hinp : (k1, pp) ∈ mFreeBlocksByLocation s)
      by (rewrite HL, !elem_of_app; left; right; left).
    assert (Hinn : (k2, np) ∈ mFreeBlocksByLocation s)
      by (rewrite HL, !elem_of_app; right; left).
    destruct (He _ Hinp) as (pb' & Hpb' & _ & Hk10 & Hpposl & Hpend). cbn in Hpb'.
    rewrite Hpb in Hpb'. inversion Hpb'; subst pb'. clear Hpb'.
    destruct (He _ Hinn) as (nb' & Hnb' & _ & Hk20 & Hnposl & Hnend). cbn in Hnb'.
    rewrite Hnb in Hnb'. inversion Hnb'; subst nb'. clear Hnb'.
    cbn [fst snd] in *.
    assert (Hne : pp <> np).
    { intros ->. rewrite Hpb in Hnb. inversion Hnb; subst. lia. }
    assert (Hppp : pp <> p).
    { intros ->. apply Hnotin. apply (elem_of_snd _ _ Hinp). }
    assert (Hnpp : np <> p).
    { intros ->. apply Hnotin. apply (elem_of_snd _ _ Hinn). }
    cbn [andb].
    mstep (eraseBlockLength_ok s pp pb Hpb Hn
             (length_entry_of_location _ _ _ _ _ _ Hok Hinp Hpb)).
    set (s1 := set_mFreeBlocksByLength (remove_ptr pp (mFreeBlocksByLength s)) s).
    assert (Hin1 : (mLength nb, np) ∈ mFreeBlocksByLength s1).
    { cbn. apply elem_of_remove_ptr. split; [|cbn; congruence].
      apply (length_entry_of_location _ _ _ _ _ _ Hok Hinn Hnb). }
    assert (Hn1 : NoDup (map snd (mFreeBlocksByLength s1)))
      by (cbn; apply NoDup_snd_remove_ptr; exact Hn).
    mstep (eraseBlock_ok s1 np nb Hnb Hn1 Hin1).
    unfold deref, store, delete_block, modify, bind, get, ret. cbn.
    rewrite Hpb. cbn. rewrite Hnb. cbn.
    rewrite (wrapS32_small (mLength b + mLength nb)) by lia.
    rewrite wrapS32_small by lia.
    eexists. split; [reflexivity|].
    set (len' := mLength pb + (mLength b + mLength nb)).
    pose proof (lists_ok_remove _ _ _ np Hok) as Hok1.
    assert (Hinp1 : (k1, pp) ∈ remove_ptr np (mFreeBlocksByLocation s))
      by (apply elem_of_remove_ptr; split; [exact Hinp|cbn; congruence]).
    assert (Hagree : forall r,
              r ∈ map snd (remove_ptr pp (remove_ptr np (mFreeBlocksByLocation s))) ->
              delete np (delete p (<[pp:=mkBlock (mLocation pb) len']> (blocks s))) !! r
              = blocks s !! r).
    { intros r Hr. apply elem_of_snd_remove_ptr in Hr as [Hr Hrp].
      apply elem_of_snd_remove_ptr in Hr as [Hr Hrn].
      rewrite !lookup_delete_ne, lookup_insert_ne; auto.
      intros ->. contradiction. }
    assert (HQ : delete np (delete p (<[pp:=mkBlock (mLocation pb) len']> (blocks s))) !! pp
                 = Some (mkBlock (mLocation pb) len'))
      by (rewrite !lookup_delete_ne, lookup_insert_eq; auto).
    rewrite Hk1 in Hagree, HQ.
    split; [|split; [repeat split; reflexivity|]];
      [unfold free_lists_ok|intros b0 F Hb0 HF Hclear HFb; unfold clear_of_free];
      cbn; rewrite Hk2;
      rewrite (map_erase_remove_ptr _ _ _ _ HeF Hg Hinn);
      rewrite <- (map_insert_remove_same _ _ _ _ _ Hok1 Hinp1);
      rewrite ?(remove_ptr_comm np pp); rewrite Hk1; cycle 1.
    { rewrite Hp in Hb0. inversion Hb0; subst b0.
      eapply (clear_after_merge (blocks s)); [|exact Hagree|exact HQ|exact Hclear|].
      - intros e Hin. apply elem_of_remove_ptr in Hin as [Hin _].
        apply elem_of_remove_ptr in Hin as [Hin _]. exact Hin.
      - pose proof (Hclear _ _ Hinp Hpb) as H1. pose proof (Hclear _ _ Hinn Hnb) as H2.
        cbn in H1, H2. unfold len'. lia. }
    apply (lists_ok_replace (blocks s)).
    + apply lists_ok_remove. exact Hok1.
    + rewrite elem_of_snd_remove_ptr. tauto.
    + exact Hagree.
    + exact HQ.
    + lia.
    + unfold len'. lia.
    + unfold len'. lia.
    + intros e fb Hin Hfb.
      apply elem_of_remove_ptr in Hin as [Hin Hep].
      apply elem_of_remove_ptr in Hin as [Hin Hen].
      rewrite HL in Hin, Hg. rewrite <- app_assoc in Hin, Hg. cbn in Hin, Hg.
      apply elem_of_app in Hin as [Hin|Hin].
      * left. pose proof (StronglySorted_app_1_elem_of _ _ _ e (k1, pp) Hg Hin
                            ltac:(left) _ Hfb) as Hlt. cbn in Hlt. lia.
      * apply elem_of_cons in Hin as [->|Hin]; [cbn in Hep; congruence|].
        apply elem_of_cons in Hin as [->|Hin]; [cbn in Hen; congruence|].
        right. apply StronglySorted_app_1_r in Hg.
        apply StronglySorted_inv in Hg as [Hg _].
        apply StronglySorted_inv in Hg as [_ Hall].
        rewrite Forall_forall in Hall. specialize (Hall _ Hin _ Hnb).
        assert (HineL : e ∈ mFreeBlocksByLocation s).
        { rewrite HL, <- app_assoc. cbn. rewrite elem_of_app. right. right. right. exact Hin. }
        destruct (He _ HineL) as (fb' & Hfb' & Hk' & _).
        rewrite Hfb in Hfb'. inversion Hfb'; subst fb'. unfold len'. lia.
  - (* merge with the previous block only *)
    destruct (Hpt eq_refl) as (before' & k1 & pp & pb & -> & -> & Hpb & Hk1 & Hadj1).
    specialize (Hnf eq_refl). clear Hpt Hpf Hnt.
    assert (Hinp : (k1, pp) ∈ mFreeBlocksByLocation s)
      by (rewrite HL, !elem_of_app; left; right; left).
    destruct (He _ Hinp) as (pb' & Hpb' & _ & Hk10 & Hpposl & Hpend). cbn in Hpb'.
    rewrite Hpb in Hpb'. inversion Hpb'; subst pb'. clear Hpb'.
    cbn [fst snd] in *.
    assert (Hppp : pp <> p).
    { intros ->. apply Hnotin. apply (elem_of_snd _ _ Hinp). }
    cbn [andb].
    mstep (eraseBlockLength_ok s pp pb Hpb Hn
             (length_entry_of_location _ _ _ _ _ _ Hok Hinp Hpb)).
    unfold deref, store, delete_block, modify, bind, get, ret. cbn.
    rewrite Hpb. cbn.
    rewrite wrapS32_small by lia.
    eexists. split; [reflexivity|].
    set (len' := mLength pb + mLength b).
    assert (Hagree : forall r,
              r ∈ map snd (remove_ptr pp (mFreeBlocksByLocation s)) ->
              delete p (<[pp:=mkBlock (mLocation pb) len']> (blocks s)) !! r
              = blocks s !! r).
    { intros r Hr. apply elem_of_snd_remove_ptr in Hr as [Hr Hrp].
      rewrite lookup_delete_ne, lookup_insert_ne; auto.
      intros ->. contradiction. }
    assert (HQ : delete p (<[pp:=mkBlock (mLocation pb) len']> (blocks s)) !! pp
                 = Some (mkBlock (mLocation pb) len'))
      by (rewrite lookup_delete_ne, lookup_insert_eq; auto).
    rewrite Hk1 in Hagree, HQ.
    split; [|split; [repeat split; reflexivity|]]; cycle 1.
    { intros b0 F Hb0 HF Hclear HFb. unfold clear_of_free. cbn.
      rewrite Hk1. intros e fb Hin Hfb.
      rewrite <- (map_insert_remove_same _ _ _ _ _ Hok Hinp) in Hin.
      revert e fb Hin Hfb.
      rewrite Hp in Hb0. inversion Hb0; subst b0.
      eapply (clear_after_merge (blocks s)); [|exact Hagree|exact HQ|exact Hclear|].
      - intros e Hin. apply elem_of_remove_ptr in Hin as [Hin _]. exact Hin.
      - pose proof (Hclear _ _ Hinp Hpb) as H1. cbn in H1. unfold len'. lia. }
    unfold free_lists_ok. cbn.
    rewrite <- (map_insert_remove_same _ _ _ _ _ Hok Hinp) at 1.
    rewrite Hk1.
    apply (lists_ok_replace (blocks s)).
    + apply lists_ok_remove. exact Hok.
    + rewrite elem_of_snd_remove_ptr. tauto.
    + exact Hagree.
    + exact HQ.
    + lia.
    + unfold len'. lia.
    + unfold len'. lia.
    + intros e fb Hin Hfb.
      apply elem_of_remove_ptr in Hin as [Hin Hep].
      rewrite HL in Hin, Hg. rewrite <- app_assoc in Hin, Hg. cbn in Hin, Hg.
      apply elem_of_app in Hin as [Hin|Hin].
      * left. pose proof (StronglySorted_app_1_elem_of _ _ _ e (k1, pp) Hg Hin
                            ltac:(left) _ Hfb) as Hlt. cbn in Hlt. lia.
      * apply elem_of_cons in Hin as [->|Hin]; [cbn in Hep; congruence|].
        right. specialize (Hnf _ _ Hin Hfb). unfold len'. lia.
  - (* merge with the next block only *)
    destruct (Hnt eq_refl) as (after' & k2 & np & nb & -> & -> & Hnb & Hk2 & Hadj2).
    specialize (Hpf eq_refl). clear Hpt Hnt Hnf.
    assert (Hinn : (k2, np) ∈ mFreeBlocksByLocation s)
      by (rewrite HL, !elem_of_app; right; left).
    destruct (He _ Hinn) as (nb' & Hnb' & _ & Hk20 & Hnposl & Hnend). cbn in Hnb'.
    rewrite Hnb in Hnb'. inversion Hnb'; subst nb'. clear Hnb'.
    cbn [fst snd] in *.
    assert (Hnpp : np <> p).
    { intros ->. apply Hnotin. apply (elem_of_snd _ _ Hinn). }
    cbn [andb].
    mstep (eraseBlock_ok s np nb Hnb Hn
             (length_entry_of_location _ _ _ _ _ _ Hok Hinn Hnb)).
    unfold deref, store, delete_block, modify, bind, get, ret. cbn.
    rewrite Hnb. cbn.
    rewrite wrapS32_small by lia.
    eexists. split; [reflexivity|].
    set (len' := mLength nb + mLength b).
    assert (Hagree : forall r,
              r ∈ map snd (remove_ptr np (mFreeBlocksByLocation s)) ->
              delete p (<[np:=mkBlock (mLocation b) len']> (blocks s)) !! r
              = blocks s !! r).
    { intros r Hr. apply elem_of_snd_remove_ptr in Hr as [Hr Hrp].
      rewrite lookup_delete_ne, lookup_insert_ne; auto.
      intros ->. contradiction. }
    assert (HQ : delete p (<[np:=mkBlock (mLocation b) len']> (blocks s)) !! np
                 = Some (mkBlock (mLocation b) len'))
      by (rewrite lookup_delete_ne, lookup_insert_eq; auto).
    split; [|split; [repeat split; reflexivity|]];
      [unfold free_lists_ok|intros b0 F Hb0 HF Hclear HFb; unfold clear_of_free];
      cbn; rewrite Hk2;
      rewrite (map_erase_remove_ptr _ _ _ _ HeF Hg Hinn); cycle 1.
    { rewrite Hp in Hb0. inversion Hb0; subst b0.
      eapply (clear_after_merge (blocks s)); [|exact Hagree|exact HQ|exact Hclear|].
      - intros e Hin. apply elem_of_remove_ptr in Hin as [Hin _]. exact Hin.
      - pose proof (Hclear _ _ Hinn Hnb) as H2. cbn in H2. unfold len'. lia. }
    apply (lists_ok_replace (blocks s)).
    + apply lists_ok_remove. exact Hok.
    + rewrite elem_of_snd_remove_ptr. tauto.
    + exact Hagree.
    + exact HQ.
    + lia.
    + unfold len'. lia.
    + unfold len'. lia.
    + intros e fb Hin Hfb.
      apply elem_of_remove_ptr in Hin as [Hin Hen].
      rewrite HL in Hin, Hg.
      apply elem_of_app in Hin as [Hin|Hin].
      * left. apply (Hpf _ _ Hin Hfb).
      * apply elem_of_cons in Hin as [->|Hin]; [cbn in Hen; congruence|].
        right. apply StronglySorted_app_1_r in Hg.
        apply StronglySorted_inv in Hg as [_ Hall].
        rewrite Forall_forall in Hall. specialize (Hall _ Hin _ Hnb).
        assert (HineL : e ∈ mFreeBlocksByLocation s).
        { rewrite HL, elem_of_app. right. right. exact Hin. }
        destruct (He _ HineL) as (fb' & Hfb' & Hk' & _).
        rewrite Hfb in Hfb'. inversion Hfb'; subst fb'. unfold len'. lia.
  - (* no merge *)
    specialize (Hpf eq_refl). specialize (Hnf eq_refl). clear Hpt Hnt.
    unfold modify, bind. cbn.
    eexists. split; [reflexivity|].
    assert (Hpb : blocks s !! p = Some (mkBlock (mLocation b) (mLength b)))
      by (destruct b; exact Hp).
    split; [|split; [repeat split; reflexivity|]].
    + unfold free_lists_ok. cbn.
      apply lists_ok_insert; auto.
      intros e fb Hin Hfb. rewrite HL in Hin.
      apply elem_of_app in Hin as [Hin|Hin].
      * left. apply (Hpf _ _ Hin Hfb).
      * right. apply (Hnf _ _ Hin Hfb).
    + intros b0 F Hb0 HF Hclear HFb. unfold clear_of_free. cbn.
      rewrite Hp in Hb0. inversion Hb0; subst b0.
      eapply (clear_after_merge (blocks s)); [|reflexivity|exact Hpb|exact Hclear|lia].
      intros e Hin. exact Hin.
Qed.




(** ** Using free space *)

Lemma extents_of_agree h h' l :
  (forall q, q ∈ map snd l -> h' !! q = h !! q) ->
  extents_of h' l = extents_of h l.
Proof.
  intros Hagree. unfold extents_of. apply map_ext_in.
  intros e Hin. rewrite Hagree; [reflexivity|].
  apply elem_of_snd. apply list_elem_of_In. exact Hin.
Qed.

Arguments extents_of : simpl never.

Lemma extents_of_cons h e l :
  extents_of h (e :: l)
  = match h !! snd e with
    | Some b => (mLocation b, mLength b)
    | None => (fst e, 0)
    end :: extents_of h l.
Proof. reflexivity. Qed.

Lemma extents_of_app h a b :
  extents_of h (a ++ b) = extents_of h a ++ extents_of h b.
Proof. unfold extents_of. apply map_app. Qed.

(** [useFreeSpace] takes the leading [length] bytes off a free block: the
    block goes away when it is used up, and otherwise begins [length]
    bytes later; the other free extents stay as they are. *)
Lemma useFreeSpace_ok s fp k fb length a b :
  free_lists_ok s ->
  mFreeBlocksByLocation s = a ++ (k, fp) :: b ->
  blocks s !! fp = Some fb ->
  0 < length <= mLength fb ->
  exists s',
    useFreeSpace fp length s = Returned tt s'
    /\ free_lists_ok s'
    /\ same_outside_free_lists s s'
    /\ free_extents s'
       = extents_of (blocks s) a
         ++ (if mLength fb =? length then []
             else [(k + length, mLength fb - length)])
         ++ extents_of (blocks s) b.
Proof.
  intros Hok HL Hfb Hlen.
  pose proof Hok as [He Hg Hl Hs Hn Hsame].
  pose proof He as HeF. rewrite Forall_forall in He.
  assert (Hin : (k, fp) ∈ mFreeBlocksByLocation s)
    by (rewrite HL, elem_of_app; right; left).
  destruct (He _ Hin) as (fb' & Hfb' & Hk & Hk0 & Hpos & Hend). cbn in Hfb', Hk, Hk0, Hend.
  rewrite Hfb in Hfb'. inversion Hfb'; subst fb'. clear Hfb'.
  pose proof (NoDup_location_ptrs _ _ HeF Hg) as HndL.
  assert (Hrm : remove_ptr fp (mFreeBlocksByLocation s) = a ++ b)
    by (rewrite HL; apply remove_ptr_middle; rewrite <- HL; exact HndL).
  assert (Hfa : fp ∉ map snd (a ++ b)).
  { rewrite <- Hrm, elem_of_snd_remove_ptr. tauto. }
  unfold useFreeSpace.
  mstep (deref_some _ _ _ Hfb).
  pose proof (eraseBlock_ok s fp fb Hfb Hn
                (length_entry_of_location _ _ _ _ _ _ Hok Hin Hfb)) as Herase.
  rewrite (map_erase_remove_ptr _ _ _ _ HeF Hg) in Herase by (rewrite Hk; exact Hin).
  rewrite Hrm in Herase.
  pose proof (lists_ok_remove _ _ _ fp Hok) as Hok1. rewrite Hrm in Hok1.
  destruct (Z.eqb_spec (mLength fb) length) as [Heq|Hneq].
  - (* the block is used up *)
    mstep Herase. unfold delete_block, modify. cbn.
    eexists. split; [reflexivity|].
    split; [|split; [repeat split; reflexivity|]].
    + unfold free_lists_ok. cbn.
      eapply lists_ok_heap; [exact Hok1|].
      intros q Hq. apply lookup_delete_ne. intros ->. contradiction.
    + unfold free_extents. cbn.
      rewrite (extents_of_agree (blocks s)).
      * apply extents_of_app.
      * intros q Hq. apply lookup_delete_ne. intros ->. contradiction.
  - (* the rest of the block is put back *)
    mstep Herase.
    match goal with |- context [bind (deref fp) ?k ?s1] =>
      assert (Hfb1 : blocks s1 !! fp = Some fb) by exact Hfb;
      mstep (deref_some _ _ _ Hfb1) end.
    unfold store. unfold bind at 1. unfold modify. cbn [blocks set_blocks set_mFreeBlocksByLocation set_mFreeBlocksByLength].
    rewrite wrapU32_small by lia. rewrite wrapS32_small by lia.
    match goal with |- context [addFreeBlock fp ?s2] => set (s2' := s2) end.
    assert (Hok2 : free_lists_ok s2').
    { unfold free_lists_ok, s2'. cbn.
      eapply lists_ok_heap; [exact Hok1|].
      intros q Hq. apply lookup_insert_ne. intros ->. contradiction. }
    assert (Hap : apart (blocks s2') (mFreeBlocksByLocation s2')
                        (mLocation fb + length) (mLength fb - length)).
    { unfold s2'. cbn. intros e fe Hine Hfe.
      assert (Hq : snd e <> fp).
      { intros Heq. apply Hfa. rewrite <- Heq. apply elem_of_snd. exact Hine. }
      rewrite lookup_insert_ne in Hfe by congruence.
      rewrite HL in Hg.
      apply elem_of_app in Hine as [Hine|Hine].
      - left. pose proof (StronglySorted_app_1_elem_of _ _ _ e (k, fp) Hg Hine
                            ltac:(left) _ Hfe) as Hlt. cbn in Hlt. lia.
      - right. apply StronglySorted_app_1_r in Hg.
        apply StronglySorted_inv in Hg as [_ Hall].
        rewrite Forall_forall in Hall. specialize (Hall _ Hine _ Hfb).
        assert (HineL : e ∈ mFreeBlocksByLocation s)
          by (rewrite HL, elem_of_app; right; right; exact Hine).
        destruct (He _ HineL) as (fe' & Hfe' & Hke & _).
        rewrite Hfe in Hfe'. inversion Hfe'; subst fe'. lia. }
    assert (Hp2 : blocks s2' !! fp
                  = Some (mkBlock (mLocation fb + length) (mLength fb - length)))
      by (unfold s2'; cbn; apply lookup_insert_eq).
    rewrite (addFreeBlock_apart s2' fp _ _ Hok2 Hp2 Hap) by lia.
    eexists. split; [reflexivity|].
    destruct (lists_ok_insert _ _ _ fp _ _ Hok2 Hfa Hp2 ltac:(lia) ltac:(lia) ltac:(lia) Hap)
      as (Hok3 & a' & b' & Hab & Hins & Ha' & Hb').
    split; [exact Hok3|]. split; [repeat split; reflexivity|].
    unfold free_extents. cbn [blocks mFreeBlocksByLocation set_blocks
      set_mFreeBlocksByLocation set_mFreeBlocksByLength].
    (* the block goes back to the place it came from *)
    pose proof (keys_increasing _ _ HeF Hg) as Hinc. rewrite HL in Hinc.
    apply StronglySorted_app in Hinc as (Hcross & _ & Hsb).
    apply StronglySorted_inv in Hsb as [_ Hkb].
    assert (Hka : Forall (fun e => fst e < mLocation fb + length) a).
    { apply Forall_forall. intros e Hea.
      specialize (Hcross e (k, fp) Hea ltac:(left)). cbn in Hcross. lia. }
    assert (Hkb' : Forall (fun e => mLocation fb + length < fst e) b).
    { apply Forall_forall. intros e Heb.
      assert (HineL : e ∈ mFreeBlocksByLocation s)
        by (rewrite HL, elem_of_app; right; right; exact Heb).
      destruct (He _ HineL) as (fe & Hfe & Hke & _).
      rewrite HL in Hg. apply StronglySorted_app_1_r in Hg.
      apply StronglySorted_inv in Hg as [_ Hall].
      rewrite Forall_forall in Hall. specialize (Hall _ Heb _ Hfb). lia. }
    unfold s2'. cbn [blocks mFreeBlocksByLocation set_blocks
      set_mFreeBlocksByLocation set_mFreeBlocksByLength].
    rewrite (map_insert_app _ fp a b Hka Hkb').
    rewrite extents_of_app, extents_of_cons. cbn [snd].
    rewrite lookup_insert_eq. cbn [mLocation mLength].
    assert (Hagree : forall l, (forall q, q ∈ map snd l -> q <> fp) ->
              extents_of (<[fp:=mkBlock (mLocation fb + length) (mLength fb - length)]> (blocks s)) l
              = extents_of (blocks s) l).
    { intros l Hl'. apply extents_of_agree. intros q Hq.
      apply lookup_insert_ne. intros ->. exact (Hl' _ Hq eq_refl). }
    rewrite !Hagree.
    + rewrite Hk. reflexivity.
    + intros q Hq ->. apply Hfa. rewrite map_app, elem_of_app. auto.
    + intros q Hq ->. apply Hfa. rewrite map_app, elem_of_app. auto.
Qed.

(** ** Growing and shrinking an asset *)

(** [sync] returns whenever the VFS is valid and writable and the length of
    the block is not zero; it changes the index location of the block, the
    index file and the index holes, and nothing else. *)
Lemma sync_runs s (block : LLVFSFileBlock) remove :
  isValid s = true -> mReadOnly s = false -> mLength block <> 0 ->
  exists slot holes file,
    sync block remove s
    = Returned (set_mIndexLocation slot block)
               (set_mIndexFP file (set_mIndexHoles holes s)).
Proof.
  intros Hv Hro H0. unfold sync.
  mstep (check_valid_ok s Hv).
  unfold bind at 1. unfold get. rewrite Hro.
  destruct (Z.eqb_spec (mLength block) BLOCK_LENGTH_INVALID) as [Hd|Hd].
  { exists (mIndexLocation block), (mIndexHoles s), (mIndexFP s).
    rewrite set_mIndexLocation_same. destruct s; reflexivity. }
  destruct (Z.eqb_spec (mLength block) 0); [contradiction|].
  unfold bind, get, ret, modify.
  destruct (-1 =? mIndexLocation block);
    [destruct (mIndexHoles s) as [|hole rest]|];
    destruct remove; cbn; eexists _, _, _; reflexivity.
Qed.

(** Freeing an extent that overlaps no free extent: [new LLVFSBlock]
    followed by [addFreeBlock]. *)
Lemma free_extent_ok s loc len :
  free_lists_ok s ->
  0 <= loc -> 0 < len -> loc + len < 2 ^ 31 ->
  (forall e fb,
     e ∈ mFreeBlocksByLocation s -> blocks s !! snd e = Some fb ->
     mLocation fb + mLength fb <= loc \/ loc + len <= mLocation fb) ->
  exists s',
    (free_block <- new_LLVFSBlock loc len ;; addFreeBlock free_block) s
    = Returned tt s'
    /\ free_lists_ok s'
    /\ same_outside_free_lists s s'
    /\ (forall B (k : M B),
          (free_block <- new_LLVFSBlock loc len ;;
           addFreeBlock free_block ;;; k) s = k s')
    /\ (forall F : LLVFSBlock,
          0 < mLength F -> clear_of_free s F ->
          (mLocation F + mLength F <= loc \/ loc + len <= mLocation F) ->
          clear_of_free s' F).
Proof.
  intros Hok Hloc Hlen Hend Hfit.
  unfold new_LLVFSBlock, store, modify, bind, get, ret. cbn.
  set (p := fresh (dom (blocks s))).
  assert (Hfresh : blocks s !! p = None).
  { apply not_elem_of_dom. apply is_fresh. }
  assert (Hnotin : p ∉ map snd (mFreeBlocksByLocation s)).
  { intros Hin. apply elem_of_snd_inv in Hin as [k Hk].
    destruct Hok as [He _ _ _ _ _]. rewrite Forall_forall in He.
    destruct (He _ Hk) as (b & Hb & _). cbn in Hb. congruence. }
  set (s1 := set_blocks (<[p:=mkBlock loc len]> (blocks s)) s).
  assert (Hok1 : free_lists_ok s1).
  { unfold free_lists_ok, s1. cbn. eapply lists_ok_heap; [exact Hok|].
    intros q Hq. apply lookup_insert_ne. intros ->. contradiction. }
  assert (Hfits : free_block_fits s1 p).
  { exists (mkBlock loc len). unfold s1. cbn.
    split; [apply lookup_insert_eq|]. split; [exact Hnotin|].
    repeat split; auto.
    intros e fb Hin Hfb.
    rewrite lookup_insert_ne in Hfb.
    - apply (Hfit e fb Hin Hfb).
    - intros Heq. apply Hnotin. rewrite Heq. apply elem_of_snd. exact Hin. }
  destruct (addFreeBlock_ok s1 p Hok1 Hfits) as (s' & Hrun & Hok' & Hsame & Hcov).
  exists s'. split; [exact Hrun|]. split; [exact Hok'|].
  split; [exact Hsame|]. split.
  - intros B k. fold s1. rewrite Hrun. reflexivity.
  - intros F HF Hclear Hdis.
    apply (Hcov (mkBlock loc len) F); [apply lookup_insert_eq|exact HF| |exact Hdis].
    intros e fb Hin Hfb. unfold s1 in Hin, Hfb. cbn in Hin, Hfb.
    rewrite lookup_insert_ne in Hfb; [exact (Hclear e fb Hin Hfb)|].
    intros Heq. apply Hnotin. rewrite Heq. apply elem_of_snd. exact Hin.
Qed.

Lemma round_to_block_cases m :
  round_to_block m = m
  \/ round_to_block m
     = Z.land (wrapS32 (m + FILE_BLOCK_MASK)) (Z.lnot FILE_BLOCK_MASK).
Proof. unfold round_to_block. destruct (_ =? _); auto. Qed.

Lemma bind_put_block {B} spec b (k : M B) s :
  (put_block spec b ;;; k) s
  = k (set_mFileBlocks (<[spec := b]> (mFileBlocks s)) s).
Proof. reflexivity. Qed.

Lemma bind_ret {A B} (a : A) (k : A -> M B) s : (x <- ret a ;; k x) s = k a s.
Proof. reflexivity. Qed.

Lemma bind_bind {A B C} (m : M A) (f : A -> M B) (g : B -> M C) s :
  (y <- (x <- m ;; f x) ;; g y) s = (x <- m ;; y <- f x ;; g y) s.
Proof. unfold bind. destruct (m s); reflexivity. Qed.

Lemma bind_llerrs {B} msg (k : M B) s :
  (llerrs msg ;;; k) s
  = if llerrs_returns
    then k (set_llog (llog s ++ [(LLERRS, msg)]) s)
    else Crashed (set_llog (llog s ++ [(LLERRS, msg)]) s).
Proof. unfold bind, llerrs. destruct llerrs_returns; reflexivity. Qed.

Lemma isValid_same s s' : mValid s' = mValid s -> isValid s' = isValid s.
Proof. unfold isValid. intros ->. reflexivity. Qed.

(** C5 (as the code has it): shrinking an asset.  The tail of the extent
    is handed to [addFreeBlock] and the length of the record becomes the
    rounded size.  When the used size fits, the record is written to the
    index and the call returns true.  When the used size is larger, the
    call reports it on the fatal error stream ([llerrs], not a warning);
    where that stream hands control back the size is clamped to the new
    length, the record is written and the call returns true, and
    otherwise the call does not return. *)
Theorem setMaxSize_shrink (s : LLVFS) (file_id : LLUUID)
    (file_type max_size now : Z) (block : LLVFSFileBlock) :
  let spec := mkSpec file_id file_type in
  let new_length := round_to_block max_size in
  let stamped :=
    set_mFileBlocks (<[spec := set_mAccessTime now block]> (mFileBlocks s)) s in
  isValid s = true ->
  mReadOnly s = false ->
  0 < max_size ->
  mFileBlocks s !! spec = Some block ->
  0 < new_length < mLength block ->
  free_lists_ok s ->
  0 <= mLocation block ->
  mLocation block + mLength block < 2 ^ 31 ->
  clear_of_free s block ->
  exists freed,
    (free_block <- new_LLVFSBlock (mLocation block + new_length)
                                  (mLength block - new_length) ;;
     addFreeBlock free_block) stamped = Returned tt freed
    /\ free_lists_ok freed
    /\ (mSize block <= new_length ->
        exists s' (block' : LLVFSFileBlock),
          setMaxSize file_id file_type max_size now s = Returned true s'
          /\ mFileBlocks s' !! spec = Some block'
          /\ mLocation block' = mLocation block
          /\ mLength block' = new_length
          /\ mSize block' = mSize block
          /\ blocks s' = blocks freed
          /\ mFreeBlocksByLocation s' = mFreeBlocksByLocation freed
          /\ mFreeBlocksByLength s' = mFreeBlocksByLength freed
          /\ llog s' = llog s)
    /\ (new_length < mSize block ->
        if llerrs_returns then
          exists s' (block' : LLVFSFileBlock),
            setMaxSize file_id file_type max_size now s = Returned true s'
            /\ mFileBlocks s' !! spec = Some block'
            /\ mLocation block' = mLocation block
            /\ mLength block' = new_length
            /\ mSize block' = new_length
            /\ blocks s' = blocks freed
            /\ mFreeBlocksByLocation s' = mFreeBlocksByLocation freed
            /\ mFreeBlocksByLength s' = mFreeBlocksByLength freed
            /\ llog s' = llog s ++ [(LLERRS, "Truncating virtual file"%string)]
        else
          exists s',
            setMaxSize file_id file_type max_size now s = Crashed s'
            /\ llog s' = llog s ++ [(LLERRS, "Truncating virtual file"%string)]).
Proof.
  intros spec new_length stamped Hv Hro Hmax Hl Hnew Hok Hloc0 Hend Hclear.
  assert (Hoka : free_lists_ok stamped) by exact Hok.
  destruct (free_extent_ok stamped (mLocation block + new_length)
              (mLength block - new_length) Hoka) as (freed & Hrun & Hokf & Hsame & Hk & _);
    [lia|lia|lia| |].
  { intros e fb Hin Hfb. destruct (Hclear e fb Hin Hfb); lia. }
  exists freed. split; [exact Hrun|]. split; [exact Hokf|].
  destruct Hsame as (Hsv & Hsro & Hsfb & Hsh & Hslc & Hsif & Hsdf & Hslog).
  (* the common start of the call *)
  assert (Hstart : forall k : M bool,
    setMaxSize file_id file_type max_size now s
    = (let block := set_mLength new_length (set_mAccessTime now block) in
       put_block spec block ;;;
       block <- (if mLength block <? mSize block then
                   llerrs "Truncating virtual file" ;;;
                   ret (set_mSize (mLength block) block)
                 else ret block) ;;
       put_block spec block ;;;
       block <- sync block false ;;
       put_block spec block ;;;
       ret true) freed).
  { intros _. unfold setMaxSize.
    mstep (check_valid_ok s Hv).
    unfold bind at 1. unfold get. rewrite Hro.
    unfold bind at 1. unfold ret at 1.
    destruct (Z.leb_spec max_size 0); [lia|].
    unfold find_block. unfold bind at 1. unfold bind at 1. unfold get, ret at 1.
    fold spec. rewrite Hl. fold new_length.
    destruct (Z.gtb_spec (mLength block) 0); [|lia].
    unfold put_block at 1. unfold bind at 1. unfold modify at 1.
    fold stamped. cbn [mLength set_mAccessTime fbBlock mLocation].
    destruct (Z.eqb_spec new_length (mLength block)); [lia|].
    destruct (Z.ltb_spec new_length (mLength block)); [|lia].
    rewrite wrapU32_small by lia. rewrite wrapS32_small by lia.
    rewrite Hk. reflexivity. }
  rewrite (Hstart (ret true)). clear Hstart Hk.
  cbv zeta. cbn [mLength mSize set_mLength set_mAccessTime fbBlock].
  set (block1 := set_mLength new_length (set_mAccessTime now block)).
  rewrite bind_put_block.
  set (s2 := set_mFileBlocks (<[spec:=block1]> (mFileBlocks freed)) freed).
  assert (Hfin : forall (b2 : LLVFSFileBlock) s3,
            isValid s3 = true -> mReadOnly s3 = false -> mLength b2 = new_length ->
            exists slot holes file,
              (put_block spec b2 ;;;
               block <- sync b2 false ;;
               put_block spec block ;;;
               ret true) s3
              = Returned true
                  (set_mFileBlocks
                     (<[spec := set_mIndexLocation slot b2]>
                        (<[spec := b2]> (mFileBlocks s3)))
                     (set_mIndexFP file (set_mIndexHoles holes s3)))).
  { intros b2 s3 Hv3 Hro3 Hlen3.
    rewrite bind_put_block.
    destruct (sync_runs (set_mFileBlocks (<[spec:=b2]> (mFileBlocks s3)) s3) b2 false)
      as (slot & holes & file & Hsync); [exact Hv3|exact Hro3|lia|].
    mstep Hsync. exists slot, holes, file. reflexivity. }
  assert (Hv2 : isValid s2 = true).
  { unfold s2. change (isValid freed = true). rewrite (isValid_same _ _ Hsv). exact Hv. }
  assert (Hro2 : mReadOnly s2 = false).
  { unfold s2. change (mReadOnly freed = false). rewrite Hsro. exact Hro. }
  split.
  - intros Hfits.
    destruct (Z.ltb_spec new_length (mSize block)); [lia|].
    rewrite bind_ret.
    destruct (Hfin block1 s2 Hv2 Hro2 eq_refl) as (slot & holes & file & Hrun2).
    rewrite Hrun2.
    eexists _, _. split; [reflexivity|]. cbn.
    rewrite lookup_insert_eq. split; [reflexivity|].
    cbn. repeat split; try reflexivity. exact Hslog.
  - intros Hbig.
    destruct (Z.ltb_spec new_length (mSize block)); [|lia].
    rewrite bind_bind, bind_llerrs.
    destruct llerrs_returns.
    + rewrite bind_ret.
      match goal with |- context [bind _ _ ?s3] => set (s3' := s3) end.
      destruct (Hfin (set_mSize new_length block1) s3') as (slot & holes & file & Hrun2);
        [exact Hv2|exact Hro2|reflexivity|].
      rewrite Hrun2.
      eexists _, _. split; [reflexivity|]. cbn.
      rewrite lookup_insert_eq. split; [reflexivity|].
      cbn. repeat split; try reflexivity. rewrite Hslog. reflexivity.
    + eexists. split; [reflexivity|]. cbn. rewrite Hslog. reflexivity.
Qed.

(** C4: growing an asset in place.  When the first free block behind the
    location of the asset begins exactly where the asset ends and is at
    least as long as the increase, [setMaxSize] returns true, the record
    keeps its location and gets the rounded size as its length, the
    leading bytes of that free block are used up (the block goes away
    when nothing is left of it) and every other free extent, and the data
    file, stay as they are. *)
Theorem setMaxSize_grow_in_place (s : LLVFS) (file_id : LLUUID)
    (file_type max_size now : Z) (block : LLVFSFileBlock)
    (before rest : list (Z * ptr)) (k : Z) (free_block : ptr) (fb : LLVFSBlock) :
  let spec := mkSpec file_id file_type in
  let new_length := round_to_block max_size in
  let size_increase := new_length - mLength block in
  isValid s = true ->
  mReadOnly s = false ->
  0 < max_size ->
  mFileBlocks s !! spec = Some block ->
  0 < mLength block < new_length ->
  free_lists_ok s ->
  0 <= mLocation block ->
  upper_bound (mLocation block) (mFreeBlocksByLocation s)
  = (before, (k, free_block) :: rest) ->
  blocks s !! free_block = Some fb ->
  mLocation fb = mLocation block + mLength block ->
  size_increase <= mLength fb ->
  exists s' (block' : LLVFSFileBlock),
    setMaxSize file_id file_type max_size now s = Returned true s'
    /\ mFileBlocks s' !! spec = Some block'
    /\ mLocation block' = mLocation block
    /\ mLength block' = new_length
    /\ mSize block' = mSize block
    /\ free_extents s'
       = extents_of (blocks s) before
         ++ (if mLength fb =? size_increase then []
             else [(mLocation fb + size_increase, mLength fb - size_increase)])
         ++ extents_of (blocks s) rest
    /\ free_lists_ok s'
    /\ mDataFP s' = mDataFP s.
Proof.
  intros spec new_length size_increase Hv Hro Hmax Hl Hnew Hok Hloc0 Hub Hfb Hadj Hfit.
  destruct (upper_bound_spec _ _ _ _ Hub) as (HL & _ & _).
  pose proof Hok as [He _ _ _ _ _]. rewrite Forall_forall in He.
  assert (Hin : (k, free_block) ∈ mFreeBlocksByLocation s)
    by (rewrite HL, elem_of_app; right; left).
  destruct (He _ Hin) as (fb' & Hfb' & Hk & Hk0 & Hpos & Hend).
  cbn in Hfb', Hk, Hk0, Hend.
  rewrite Hfb in Hfb'. inversion Hfb'; subst fb'. clear Hfb'.
  set (stamped :=
    set_mFileBlocks (<[spec := set_mAccessTime now block]> (mFileBlocks s)) s).
  assert (Hoka : free_lists_ok stamped) by exact Hok.
  destruct (useFreeSpace_ok stamped free_block k fb size_increase before rest
              Hoka HL Hfb ltac:(unfold size_increase; lia))
    as (used & Hrun & Hoku & Hsame & Hext).
  destruct Hsame as (Hsv & Hsro & Hsfb & Hsh & Hslc & Hsif & Hsdf & Hslog).
  set (block1 := set_mLength new_length (set_mAccessTime now block)).
  set (s2 := set_mFileBlocks (<[spec:=block1]> (mFileBlocks used)) used).
  destruct (sync_runs s2 block1 false) as (slot & holes & file & Hsync).
  { unfold s2. change (isValid used = true). rewrite (isValid_same _ _ Hsv). exact Hv. }
  { unfold s2. change (mReadOnly used = false). rewrite Hsro. exact Hro. }
  { cbn. lia. }
  exists (set_mFileBlocks
            (<[spec := set_mIndexLocation slot block1]> (mFileBlocks s2))
            (set_mIndexFP file (set_mIndexHoles holes s2))),
         (set_mIndexLocation slot block1).
  split.
  - unfold setMaxSize.
    mstep (check_valid_ok s Hv).
    unfold bind at 1. unfold get at 1. rewrite Hro.
    rewrite bind_ret.
    destruct (Z.leb_spec max_size 0); [lia|].
    unfold find_block. rewrite bind_bind. unfold bind at 1. unfold get at 1.
    rewrite bind_ret.
    fold spec. rewrite Hl. fold new_length.
    destruct (Z.gtb_spec (mLength block) 0); [|lia].
    rewrite bind_put_block. fold stamped.
    cbn [mLength set_mAccessTime fbBlock mLocation].
    destruct (Z.eqb_spec new_length (mLength block)); [lia|].
    destruct (Z.ltb_spec new_length (mLength block)); [lia|].
    fold size_increase.
    rewrite (wrapS32_small size_increase) by (unfold size_increase; lia).
    unfold bind at 1. unfold get at 1.
    change (mFreeBlocksByLocation stamped) with (mFreeBlocksByLocation s).
    rewrite Hub. cbn [snd].
    rewrite bind_bind.
    assert (Hfbs : blocks stamped !! free_block = Some fb) by exact Hfb.
    mstep (deref_some _ _ _ Hfbs).
    rewrite wrapU32_small by lia.
    destruct (Z.eqb_spec (mLocation fb) (mLocation block + mLength block)); [|lia].
    destruct (Z.geb_spec (mLength fb) size_increase); [|lia].
    cbn [andb].
    rewrite bind_bind. mstep Hrun.
    replace (wrapS32 (mLength block + size_increase)) with new_length
      by (unfold size_increase; rewrite wrapS32_small; lia).
    fold block1.
    rewrite bind_bind, bind_put_block. fold s2.
    rewrite bind_bind. mstep Hsync.
    rewrite bind_bind, bind_put_block, bind_ret.
    reflexivity.
  - cbn. rewrite lookup_insert_eq.
    split; [reflexivity|]. split; [reflexivity|]. split; [reflexivity|].
    split; [reflexivity|].
    split; [unfold free_extents in *; cbn; rewrite Hk; exact Hext|].
    split; [exact Hoku|exact Hsdf].
Qed.

(** ** The order of the LRU list *)

Lemma uuid_ltb_irrefl a : uuid_ltb a a = false.
Proof.
  induction a as [|x a IH]; [reflexivity|].
  cbn. rewrite Z.eqb_refl. exact IH.
Qed.

Lemma uuid_ltb_trans a b c :
  uuid_ltb a b = true -> uuid_ltb b c = true -> uuid_ltb a c = true.
Proof.
  revert b c. induction a as [|x a IH]; intros [|y b] [|z c]; cbn; try discriminate; auto.
  destruct (Z.eqb_spec x y) as [->|Hxy]; destruct (Z.eqb_spec y z) as [->|Hyz].
  - apply IH.
  - intros _ H. exact H.
  - intros H _. destruct (Z.eqb_spec x z); [congruence|exact H].
  - intros H1 H2. apply Z.ltb_lt in H1, H2.
    destruct (Z.eqb_spec x z); [lia|]. apply Z.ltb_lt. lia.
Qed.

Lemma uuid_ltb_total a b :
  a <> b -> uuid_ltb a b = true \/ uuid_ltb b a = true.
Proof.
  revert b. induction a as [|x a IH]; intros [|y b] Hne; cbn; auto.
  - destruct (Z.eqb_spec x y) as [->|Hxy].
    + rewrite Z.eqb_refl. apply IH. congruence.
    + destruct (Z.eqb_spec y x); [congruence|].
      destruct (Z.ltb_spec x y), (Z.ltb_spec y x); auto; lia.
Qed.

Lemma uuid_eqb_eq a b : uuid_eqb a b = true <-> a = b.
Proof. unfold uuid_eqb. apply bool_decide_eq_true. Qed.

Lemma spec_ltb_cases (a b : LLVFSFileSpecifier) :
  spec_ltb a b = true <->
  (mFileID a = mFileID b /\ mFileType a < mFileType b)
  \/ (mFileID a <> mFileID b /\ uuid_ltb (mFileID a) (mFileID b) = true).
Proof.
  unfold spec_ltb, uuid_eqb. case_bool_decide as Hid.
  - rewrite Z.ltb_lt. tauto.
  - tauto.
Qed.

Lemma spec_ltb_trans a b c :
  spec_ltb a b = true -> spec_ltb b c = true -> spec_ltb a c = true.
Proof.
  rewrite !spec_ltb_cases.
  intros [[Eab Lab]|[Nab Lab]] [[Ebc Lbc]|[Nbc Lbc]].
  - left. split; [congruence|lia].
  - right. rewrite Eab. auto.
  - right. rewrite <- Ebc. auto.
  - right. pose proof (uuid_ltb_trans _ _ _ Lab Lbc) as Lac.
    split; [|exact Lac]. intros E. rewrite E in Lab.
    pose proof (uuid_ltb_trans _ _ _ Lab Lbc) as Lcc.
    rewrite uuid_ltb_irrefl in Lcc. discriminate.
Qed.

Lemma spec_ltb_total (a b : LLVFSFileSpecifier) :
  a <> b -> spec_ltb a b = true \/ spec_ltb b a = true.
Proof.
  rewrite !spec_ltb_cases. intros Hne.
  destruct (decide (mFileID a = mFileID b)) as [E|N].
  - assert (mFileType a <> mFileType b).
    { intros Et. apply Hne. destruct a, b. cbn in *. congruence. }
    destruct (Z.lt_trichotomy (mFileType a) (mFileType b)) as [H1|[H1|H1]];
      [left; left; auto|contradiction|right; left; auto].
  - destruct (uuid_ltb_total _ _ N); [left; right; auto|right; right; auto].
Qed.

Lemma insertLRU_trans (a b c : LLVFSFileBlock) :
  insertLRU a b = true -> insertLRU b c = true -> insertLRU a c = true.
Proof.
  unfold insertLRU.
  destruct (Z.eqb_spec (mAccessTime a) (mAccessTime b)) as [E1|N1];
    destruct (Z.eqb_spec (mAccessTime b) (mAccessTime c)) as [E2|N2];
    destruct (Z.eqb_spec (mAccessTime a) (mAccessTime c)) as [E3|N3];
    intros H1 H2; try lia;
    rewrite ?Z.ltb_lt in *; try lia.
  eapply spec_ltb_trans; eauto.
Qed.

Lemma insertLRU_total (a b : LLVFSFileBlock) :
  fbSpec a <> fbSpec b -> insertLRU a b = true \/ insertLRU b a = true.
Proof.
  intros Hne. unfold insertLRU.
  destruct (Z.eqb_spec (mAccessTime a) (mAccessTime b)) as [E|N].
  - rewrite E, Z.eqb_refl. apply spec_ltb_total. exact Hne.
  - destruct (Z.eqb_spec (mAccessTime b) (mAccessTime a)); [lia|].
    destruct (Z.ltb_spec (mAccessTime a) (mAccessTime b)),
             (Z.ltb_spec (mAccessTime b) (mAccessTime a)); auto; lia.
Qed.

Lemma elem_of_lru_insert x l z :
  Forall (fun y => fbSpec (snd y) <> fbSpec (snd x)) l ->
  (z ∈ lru_insert x l) <-> z = x \/ (z ∈ l).
Proof.
  induction 1 as [|y r Hy Hr IH]; cbn.
  - rewrite list_elem_of_singleton. rewrite elem_of_nil. tauto.
  - destruct (insertLRU (snd x) (snd y)) eqn:E1.
    + rewrite !elem_of_cons. tauto.
    + destruct (insertLRU (snd y) (snd x)) eqn:E2.
      * rewrite !elem_of_cons, IH. tauto.
      * exfalso. destruct (insertLRU_total (snd y) (snd x) Hy); congruence.
Qed.

Lemma lru_insert_sorted x l :
  Forall (fun y => fbSpec (snd y) <> fbSpec (snd x)) l ->
  StronglySorted lru_lt l -> StronglySorted lru_lt (lru_insert x l).
Proof.
  intros Hne Hs. induction Hs as [|y r Hs IH Hall]; cbn.
  - repeat constructor.
  - apply Forall_cons in Hne as [Hy Hr].
    destruct (insertLRU (snd x) (snd y)) eqn:E1.
    + constructor; [constructor; assumption|].
      constructor; [exact E1|].
      eapply Forall_impl; [exact Hall|].
      intros z Hz. unfold lru_lt in *. eapply insertLRU_trans; eauto.
    + destruct (insertLRU (snd y) (snd x)) eqn:E2.
      * constructor; [apply IH; exact Hr|].
        apply Forall_forall. intros z Hz.
        apply (elem_of_lru_insert x r z Hr) in Hz as [->|Hz]; [exact E2|].
        rewrite Forall_forall in Hall. apply Hall. exact Hz.
      * constructor; assumption.
Qed.

Lemma insertLRU_cases (a b : LLVFSFileBlock) :
  insertLRU a b = true <->
  mAccessTime a < mAccessTime b
  \/ (mAccessTime a = mAccessTime b /\ spec_ltb a b = true).
Proof.
  unfold insertLRU. destruct (Z.eqb_spec (mAccessTime a) (mAccessTime b)).
  - split; [auto|]. intros [?|[_ ?]]; [lia|assumption].
  - rewrite Z.ltb_lt. split; [auto|]. intros [?|[? _]]; [assumption|lia].
Qed.

Lemma spec_ltb_irrefl (a : LLVFSFileSpecifier) : spec_ltb a a = false.
Proof.
  destruct (spec_ltb a a) eqn:E; [|reflexivity].
  apply spec_ltb_cases in E as [[_ ?]|[? _]]; [lia|congruence].
Qed.

Lemma StronglySorted_irrefl_NoDup {A} (R : relation A) l :
  (forall x, ~ R x x) -> StronglySorted R l -> NoDup l.
Proof.
  intros Hirr. induction 1 as [|a l Hs IH Hall]; [constructor|].
  apply NoDup_cons. split; [|exact IH].
  intros Hin. rewrite Forall_forall in Hall. exact (Hirr _ (Hall _ Hin)).
Qed.

(** The list under construction in [build_lru_list]. *)
Lemma lru_fold_spec immune (kvs : list (LLVFSFileSpecifier * LLVFSFileBlock)) :
  NoDup (map fst kvs) ->
  (forall kv, kv ∈ kvs -> fbSpec (snd kv) = fst kv) ->
  let acc := foldr (fun tmp acc =>
                      if lru_candidate immune tmp then lru_insert tmp acc else acc)
                   [] kvs in
  (forall z, (z ∈ acc) <-> (z ∈ kvs) /\ lru_candidate immune z = true)
  /\ StronglySorted lru_lt acc.
Proof.
  induction kvs as [|x r IH]; intros Hnd Hkey; cbn.
  - split; [|constructor]. intros z. rewrite elem_of_nil. tauto.
  - cbn in Hnd. apply NoDup_cons in Hnd as [Hx Hnd].
    destruct IH as [IHm IHs]; [exact Hnd|intros kv Hkv; apply Hkey; right; exact Hkv|].
    set (acc := foldr _ [] r) in *.
    assert (Hne : Forall (fun y => fbSpec (snd y) <> fbSpec (snd x)) acc).
    { apply Forall_forall. intros y Hy. apply IHm in Hy as [Hy _].
      rewrite (Hkey y) by (right; exact Hy). rewrite (Hkey x) by left.
      intros E. apply Hx. rewrite <- E.
      change (map fst r) with (fst <$> r). apply list_elem_of_fmap. eauto. }
    destruct (lru_candidate immune x) eqn:Ec.
    + split; [|apply lru_insert_sorted; assumption].
      intros z. rewrite (elem_of_lru_insert x acc z Hne), IHm, elem_of_cons.
      split; [intros [->|[? ?]]; auto|intros [[->|?] ?]; auto].
    + split; [|exact IHs].
      intros z. rewrite IHm, elem_of_cons.
      split; [intros [? ?]; auto|intros [[->|?] ?]; [congruence|auto]].
Qed.

Lemma lru_candidate_spec immune k (b : LLVFSFileBlock) :
  lru_candidate immune (k, b) = true <->
  0 < mLength b
  /\ lock_get (mLocks b) VFSLOCK_READ = 0
  /\ lock_get (mLocks b) VFSLOCK_APPEND = 0
  /\ lock_get (mLocks b) VFSLOCK_OPEN = 0
  /\ Some k <> immune.
Proof.
  unfold lru_candidate. cbn [fst snd].
  rewrite !andb_true_iff, negb_true_iff, bool_decide_eq_false.
  rewrite (Z.eqb_eq (lock_get (mLocks b) VFSLOCK_READ)).
  rewrite (Z.eqb_eq (lock_get (mLocks b) VFSLOCK_APPEND)).
  rewrite (Z.eqb_eq (lock_get (mLocks b) VFSLOCK_OPEN)).
  rewrite Z.gtb_gt.
  split; [intros ((((? & ?) & ?) & ?) & ?)|intros (? & ? & ? & ? & ?)];
    repeat split; auto; lia.
Qed.

(** The LRU list holds the evictable records, in the order of the LRU
    list, each once. *)
Lemma build_lru_list_spec immune s :
  (forall k (b : LLVFSFileBlock), mFileBlocks s !! k = Some b -> fbSpec b = k) ->
  (forall k, (k ∈ build_lru_list immune s) <-> evictable s immune k)
  /\ StronglySorted (lru_before s) (build_lru_list immune s)
  /\ NoDup (build_lru_list immune s).
Proof.
  intros Hkey. unfold build_lru_list.
  pose proof (NoDup_fst_map_to_list (mFileBlocks s)) as Hnd.
  destruct (lru_fold_spec immune (map_to_list (mFileBlocks s)) Hnd) as [Hm Hs].
  { intros [k b] Hkv. apply elem_of_map_to_list in Hkv. cbn. auto. }
  set (acc := foldr _ [] _) in *.
  assert (Hsorted : StronglySorted (lru_before s) (map fst acc)).
  { change (map fst acc) with (fst <$> acc).
    apply (StronglySorted_fmap fst (fun x y => lru_before s (fst x) (fst y))); [auto|].
    eapply StronglySorted_impl_elem; [|exact Hs].
    intros [k1 b1] [k2 b2] H1 H2 Hlt.
    apply Hm in H1 as [H1 _]. apply Hm in H2 as [H2 _].
    apply elem_of_map_to_list in H1, H2.
    exists b1, b2. cbn. split; [exact H1|]. split; [exact H2|].
    unfold lru_lt in Hlt. cbn in Hlt. apply insertLRU_cases in Hlt.
    rewrite (Hkey _ _ H1), (Hkey _ _ H2) in Hlt. exact Hlt. }
  split; [|split; [exact Hsorted|]].
  - intros k. change (map fst acc) with (fst <$> acc).
    rewrite list_elem_of_fmap. split.
    + intros ([k' b] & -> & Hin). apply Hm in Hin as [Hin Hc].
      apply elem_of_map_to_list in Hin. cbn.
      apply lru_candidate_spec in Hc. exists b. tauto.
    + intros (b & Hl & Hrest). exists (k, b). split; [reflexivity|].
      apply Hm. split; [apply elem_of_map_to_list; exact Hl|].
      apply lru_candidate_spec. tauto.
  - eapply StronglySorted_irrefl_NoDup; [|exact Hsorted].
    intros k (b1 & b2 & H1 & H2 & Hlt).
    rewrite H1 in H2. inversion H2; subst b2.
    rewrite spec_ltb_irrefl in Hlt. destruct Hlt as [?|[_ ?]]; [lia|discriminate].
Qed.

(** ** Removing a file block *)

(** [removeFileBlock] on a record of a consistent VFS returns; the record
    it hands back is a dummy that keeps key, locks and access time, and
    the VFS with that record stored under the key is consistent again. *)
Lemma removeFileBlock_ok s k (b : LLVFSFileBlock) :
  vfs_ok s -> mFileBlocks s !! k = Some b ->
  exists (b' : LLVFSFileBlock) s',
    removeFileBlock b s = Returned b' s'
    /\ mLength b' = BLOCK_LENGTH_INVALID /\ mSize b' = 0
    /\ mLocks b' = mLocks b /\ fbSpec b' = fbSpec b
    /\ mAccessTime b' = mAccessTime b
    /\ mFileBlocks s' = mFileBlocks s
    /\ llog s' = llog s /\ mDataFP s' = mDataFP s
    /\ vfs_ok (set_mFileBlocks (<[k := b']> (mFileBlocks s')) s').
Proof.
  intros (Hv & Hro & Hok & Hdir) Hl.
  destruct (Hdir _ _ Hl) as (Hkey & Hlen & Hpos & Hpair).
  (* what is left to show once the free lists are known *)
  assert (Hrest : forall (b1 : LLVFSFileBlock) s2,
    fbSpec b1 = fbSpec b ->
    isValid s2 = true -> mReadOnly s2 = false -> free_lists_ok s2 ->
    mFileBlocks s2 = mFileBlocks s ->
    (forall F : LLVFSBlock, 0 < mLength F -> clear_of_free s F ->
       (0 < mLength b ->
        mLocation F + mLength F <= mLocation b
        \/ mLocation b + mLength b <= mLocation F) ->
       clear_of_free s2 F) ->
    vfs_ok (set_mFileBlocks
              (<[k := set_mIndexLocation (-1)
                        (set_mLength BLOCK_LENGTH_INVALID
                           (set_mSize 0 (set_mLocation 0 b1)))]>
                 (mFileBlocks s2)) s2)).
  { intros b1 s2 Hsp Hv2 Hro2 Hok2 Hfb2 Hcov.
    split; [exact Hv2|]. split; [exact Hro2|]. split; [exact Hok2|].
    intros k1 c Hc. cbn in Hc. rewrite Hfb2 in Hc.
    destruct (decide (k1 = k)) as [->|Hne].
    - rewrite lookup_insert_eq in Hc. inversion Hc; subst c. cbn.
      split; [rewrite Hsp; exact Hkey|].
      split; [right; reflexivity|].
      unfold BLOCK_LENGTH_INVALID. split; [lia|]. intros; lia.
    - rewrite lookup_insert_ne in Hc by congruence.
      destruct (Hdir _ _ Hc) as (Hkey1 & Hlen1 & Hpos1 & Hpair1).
      split; [exact Hkey1|]. split; [exact Hlen1|]. split.
      + intros Hp. destruct (Hpos1 Hp) as (H0 & Hend & Hclear).
        split; [exact H0|]. split; [exact Hend|].
        change (clear_of_free s2 c). apply Hcov; [exact Hp|exact Hclear|].
        intros Hbp. destruct (Hpair1 k b ltac:(congruence) Hl Hp Hbp); lia.
      + intros k2 c2 Hne2 Hc2 Hp Hp2. cbn in Hc2. rewrite Hfb2 in Hc2.
        destruct (decide (k2 = k)) as [->|Hne3].
        * rewrite lookup_insert_eq in Hc2. inversion Hc2; subst c2.
          cbn in Hp2. unfold BLOCK_LENGTH_INVALID in Hp2. lia.
        * rewrite lookup_insert_ne in Hc2 by congruence.
          apply (Hpair1 k2 c2 Hne2 Hc2 Hp Hp2). }
  unfold removeFileBlock.
  destruct Hlen as [Hlen|Hlen].
  - (* a live record *)
    destruct (sync_runs s b true Hv Hro ltac:(lia)) as (slot & holes & file & Hsync).
    mstep Hsync.
    set (b1 := set_mIndexLocation slot b).
    set (s1 := set_mIndexFP file (set_mIndexHoles holes s)).
    change (mLength b1) with (mLength b). change (mLocation b1) with (mLocation b).
    destruct (Z.gtb_spec (mLength b) 0); [|lia].
    destruct (Hpos Hlen) as (Hloc0 & Hend & Hclear).
    destruct (free_extent_ok s1 (mLocation b) (mLength b)) as
      (s2 & Hrun & Hok2 & Hsame & _ & Hcov); [exact Hok|lia|lia|lia|exact Hclear|].
    destruct Hsame as (Hsv & Hsro & Hsfb & Hsh & Hslc & Hsif & Hsdf & Hslog).
    mstep Hrun. unfold ret.
    eexists _, s2. split; [reflexivity|]. cbn.
    repeat (split; [reflexivity|]).
    split; [exact Hsfb|]. split; [exact Hslog|]. split; [exact Hsdf|].
    apply Hrest; auto.
    + rewrite (isValid_same _ _ Hsv). exact Hv.
    + rewrite Hsro. exact Hro.
  - (* a dummy *)
    mstep (sync_dummy s b true Hv Hro Hlen).
    rewrite Hlen. cbn [Z.gtb Z.compare BLOCK_LENGTH_INVALID].
    rewrite bind_ret. unfold ret.
    eexists _, s. split; [reflexivity|]. cbn.
    repeat (split; [reflexivity|]).
    apply Hrest; auto.
Qed.

(** ** Eviction *)

Lemma sum_lengths_agree s s' l :
  (forall k, k ∈ l -> mFileBlocks s' !! k = mFileBlocks s !! k) ->
  sum_lengths s' l = sum_lengths s l.
Proof.
  induction l as [|k r IH]; intros Hag; [reflexivity|].
  cbn [sum_lengths foldr]. fold (sum_lengths s' r). fold (sum_lengths s r).
  unfold length_of. rewrite Hag by left.
  rewrite IH; [reflexivity|]. intros k' Hk'. apply Hag. right. exact Hk'.
Qed.

Lemma evicted_agree s1 s2 s' k :
  mFileBlocks s2 !! k = mFileBlocks s1 !! k -> evicted s2 s' k -> evicted s1 s' k.
Proof.
  intros Hag (b & b' & H1 & Hrest). exists b, b'. rewrite <- Hag. auto.
Qed.

(** One removal of the LRU loops: [removeFileBlock] on the record of [k],
    stored back under [k]. *)
Lemma evict_one_ok s k (b : LLVFSFileBlock) {B} (cont : M B) :
  vfs_ok s -> mFileBlocks s !! k = Some b ->
  exists s',
    (file_block <- removeFileBlock b ;; put_block k file_block ;;; cont) s
    = cont s'
    /\ vfs_ok s'
    /\ evicted s s' k
    /\ (forall k', k' <> k -> mFileBlocks s' !! k' = mFileBlocks s !! k')
    /\ llog s' = llog s /\ mDataFP s' = mDataFP s.
Proof.
  intros Hok Hl.
  destruct (removeFileBlock_ok s k b Hok Hl)
    as (b' & s1 & Hrun & Hlen & Hsz & Hlk & Hsp & Hat & Hfb & Hlog & Hdf & Hok').
  exists (set_mFileBlocks (<[k := b']> (mFileBlocks s1)) s1).
  split; [mstep Hrun; rewrite bind_put_block; reflexivity|].
  split; [exact Hok'|]. split.
  - exists b, b'. cbn. rewrite lookup_insert_eq. auto 10.
  - split; [|split; [exact Hlog|exact Hdf]].
    intros k' Hne. cbn. rewrite lookup_insert_ne by congruence.
    rewrite Hfb. reflexivity.
Qed.

(** The aggressive loop takes files off the head of the list while the
    bytes cleaned up so far are below the target. *)
Lemma lru_cleanup_ok target l : forall cleaned_up s,
  vfs_ok s -> NoDup l ->
  (forall k, k ∈ l -> 0 < length_of s k) ->
  0 <= cleaned_up -> target < 2 ^ 31 ->
  exists removed rest s',
    lru_cleanup target cleaned_up l s = Returned rest s'
    /\ l = removed ++ rest
    /\ vfs_ok s'
    /\ (forall k, k ∈ removed -> evicted s s' k)
    /\ (forall k, k ∉ removed -> mFileBlocks s' !! k = mFileBlocks s !! k)
    /\ (rest <> [] -> target <= cleaned_up + sum_lengths s removed)
    /\ (forall pre x suf, removed = pre ++ x :: suf ->
          cleaned_up + sum_lengths s pre < target)
    /\ llog s' = llog s /\ mDataFP s' = mDataFP s.
Proof.
  induction l as [|k r IH]; intros c s Hok Hnd Hpos Hc Ht.
  - exists [], [], s. cbn. split; [reflexivity|]. split; [reflexivity|].
    split; [exact Hok|]. split; [intros k Hk; inversion Hk|].
    split; [reflexivity|]. split; [congruence|].
    split; [|split; reflexivity].
    intros pre x suf E. destruct pre; discriminate.
  - cbn [lru_cleanup]. destruct (Z.ltb_spec c target) as [Hlt|Hge].
    + apply NoDup_cons in Hnd as [Hk Hnd].
      pose proof (Hpos k ltac:(left)) as Hkpos. unfold length_of in Hkpos.
      destruct (mFileBlocks s !! k) as [b|] eqn:Hl; [|lia].
      assert (Hder : lru_deref k s = Returned b s).
      { unfold lru_deref, find_block, bind, get, ret. rewrite Hl. reflexivity. }
      mstep Hder.
      destruct Hok as (Hv & Hro & Hfl & Hdir).
      destruct (Hdir _ _ Hl) as (_ & _ & Hb & _).
      destruct (Hb Hkpos) as (Hloc0 & Hend & _).
      rewrite (wrapU32_id (c + mLength b)) by (unfold inU32; lia).
      destruct (evict_one_ok s k b
                  (lru_cleanup target (c + mLength b) r)
                  (conj Hv (conj Hro (conj Hfl Hdir))) Hl)
        as (s2 & Hrun & Hok2 & Hev & Hothers & Hlog2 & Hdf2).
      rewrite Hrun.
      destruct (IH (c + mLength b) s2 Hok2 Hnd) as
        (removed & rest & s' & Hrun' & Hsplit & Hok' & Hevs & Hrest & Hsum & Hpre & Hlog' & Hdf');
        [|lia|exact Ht|].
      { intros k' Hk'. unfold length_of. rewrite Hothers.
        - apply (Hpos k'). right. exact Hk'.
        - intros ->. contradiction. }
      assert (Hkr : k ∉ removed).
      { intros Hin. apply Hk. rewrite Hsplit, elem_of_app. auto. }
      assert (Hsame : forall k', k' ∈ removed ->
                mFileBlocks s2 !! k' = mFileBlocks s !! k').
      { intros k' Hk'. apply Hothers. intros ->. contradiction. }
      exists (k :: removed), rest, s'.
      split; [exact Hrun'|]. split; [rewrite Hsplit; reflexivity|].
      split; [exact Hok'|]. split; [|split; [|split; [|split]]].
      * intros k' Hk'. apply elem_of_cons in Hk' as [->|Hk'].
        -- destruct Hev as (b0 & b' & H0 & H1 & Hprops).
           exists b0, b'. rewrite (Hrest k Hkr). auto.
        -- apply (evicted_agree s s2); [apply Hsame; exact Hk'|apply Hevs; exact Hk'].
      * intros k' Hk'. rewrite not_elem_of_cons in Hk'. destruct Hk' as [Hne Hnr].
        rewrite (Hrest k' Hnr). apply Hothers. exact Hne.
      * intros Hne. specialize (Hsum Hne).
        cbn [sum_lengths foldr]. fold (sum_lengths s removed).
        unfold length_of at 1. rewrite Hl.
        rewrite (sum_lengths_agree s s2 removed Hsame) in Hsum. lia.
      * intros pre x suf E. destruct pre as [|p pre].
        -- cbn. lia.
        -- inversion E; subst p. specialize (Hpre pre x suf H1).
           cbn [sum_lengths foldr]. fold (sum_lengths s pre).
           unfold length_of at 1. rewrite Hl.
           rewrite (sum_lengths_agree s s2 pre) in Hpre; [lia|].
           intros k' Hk'. apply Hsame. rewrite H1, elem_of_app. auto.
      * split; congruence.
    + exists [], (k :: r), s. unfold ret.
      split; [reflexivity|]. split; [reflexivity|].
      split; [exact Hok|]. split; [intros k' Hk'; inversion Hk'|].
      split; [reflexivity|]. split; [cbn; lia|].
      split; [|split; reflexivity].
      intros pre x suf E. destruct pre; discriminate.
Qed.

Lemma vfs_ok_log s v : vfs_ok s -> vfs_ok (set_llog v s).
Proof. intros H. exact H. Qed.

Lemma lru_deref_some s k (b : LLVFSFileBlock) :
  mFileBlocks s !! k = Some b -> lru_deref k s = Returned b s.
Proof.
  intros Hl. unfold lru_deref, find_block, bind, get, ret. rewrite Hl. reflexivity.
Qed.

Lemma bind_lllog {B} lvl msg (k : M B) s :
  (lllog lvl msg ;;; k) s = k (set_llog (llog s ++ [(lvl, msg)]) s).
Proof. reflexivity. Qed.

(** The oldest file is big enough: it alone is removed. *)
Lemma lru_evict_head s size immune k rest (b : LLVFSFileBlock) :
  vfs_ok s -> mFileBlocks s !! k = Some b ->
  size <= mLength b -> Some k <> immune ->
  exists s',
    lru_evict size immune (k :: rest) s = Returned (Some rest) s'
    /\ vfs_ok s'
    /\ evicted s s' k
    /\ (forall k', k' <> k -> mFileBlocks s' !! k' = mFileBlocks s !! k')
    /\ mDataFP s' = mDataFP s.
Proof.
  intros Hok Hl Hbig Himm. unfold lru_evict.
  mstep (lru_deref_some s k b Hl).
  destruct (Z.geb_spec (mLength b) size); [|lia].
  rewrite bool_decide_eq_false_2 by exact Himm. cbn [negb andb].
  unfold llinfos. rewrite bind_lllog.
  destruct (evict_one_ok (set_llog (llog s ++ [(LLINFOS, "LRU: Removing"%string)]) s)
              k b (ret (Some rest)) (vfs_ok_log _ _ Hok) Hl)
    as (s' & Hrun & Hok' & Hev & Hothers & _ & Hdf).
  exists s'. split; [exact Hrun|]. split; [exact Hok'|].
  split; [exact Hev|]. split; [exact Hothers|exact Hdf].
Qed.

(** The oldest file is too small: files are removed from the head of the
    list until the greater of the request and [VFS_CLEANUP_SIZE] has been
    cleaned up, or the list is used up. *)
Lemma lru_evict_aggressive s size immune k rest (b : LLVFSFileBlock) :
  vfs_ok s -> NoDup (k :: rest) ->
  (forall k', k' ∈ k :: rest -> 0 < length_of s k') ->
  mFileBlocks s !! k = Some b -> mLength b < size -> size < 2 ^ 31 ->
  exists removed remaining s',
    lru_evict size immune (k :: rest) s = Returned (Some remaining) s'
    /\ k :: rest = removed ++ remaining
    /\ removed <> []
    /\ vfs_ok s'
    /\ (forall k', k' ∈ removed -> evicted s s' k')
    /\ (forall k', k' ∉ removed -> mFileBlocks s' !! k' = mFileBlocks s !! k')
    /\ (remaining <> [] ->
        Z.max size VFS_CLEANUP_SIZE <= sum_lengths s removed)
    /\ (forall pre x suf, removed = pre ++ x :: suf ->
          sum_lengths s pre < Z.max size VFS_CLEANUP_SIZE)
    /\ mDataFP s' = mDataFP s.
Proof.
  intros Hok Hnd Hpos Hl Hsmall Hsz. unfold lru_evict.
  mstep (lru_deref_some s k b Hl).
  destruct (Z.geb_spec (mLength b) size); [lia|]. cbn [andb].
  unfold llinfos. rewrite !bind_lllog.
  set (s0 := set_llog _ _).
  assert (Htarget : wrapU32 (if size >? VFS_CLEANUP_SIZE then size else VFS_CLEANUP_SIZE)
                    = Z.max size VFS_CLEANUP_SIZE).
  { unfold VFS_CLEANUP_SIZE in *.
    destruct (Z.gtb_spec size 5242880); rewrite wrapU32_small; lia. }
  rewrite Htarget.
  destruct (lru_cleanup_ok (Z.max size VFS_CLEANUP_SIZE) (k :: rest) 0 s0)
    as (removed & remaining & s' & Hrun & Hsplit & Hok' & Hev & Hothers & Hsum & Hpre & _ & Hdf);
    [exact Hok|exact Hnd|exact Hpos|lia|unfold VFS_CLEANUP_SIZE; lia|].
  mstep Hrun. unfold ret.
  exists removed, remaining, s'.
  split; [reflexivity|]. split; [exact Hsplit|].
  split.
  { intros ->. cbn in Hsplit. subst remaining.
    specialize (Hsum ltac:(discriminate)). cbn in Hsum.
    unfold VFS_CLEANUP_SIZE in Hsum. lia. }
  split; [exact Hok'|]. split; [exact Hev|]. split; [exact Hothers|].
  split; [intros Hne; specialize (Hsum Hne); change (sum_lengths s0 removed) with (sum_lengths s removed) in Hsum; lia|].
  split; [|exact Hdf].
  intros pre x suf E. specialize (Hpre pre x suf E).
  change (sum_lengths s0 pre) with (sum_lengths s pre) in Hpre. lia.
Qed.

(** The loop of [findFreeBlock] returns: with a free block of at least
    [size] bytes, or with nothing when every file of the list has been
    removed and there is still no such block. *)
Lemma findFreeBlock_loop_ok size immune : forall fuel l s,
  (length l < fuel)%nat ->
  vfs_ok s -> NoDup l ->
  (forall k, k ∈ l -> 0 < length_of s k) ->
  (forall k, k ∈ l -> Some k <> immune) ->
  size < 2 ^ 31 ->
  exists r s',
    findFreeBlock_loop fuel size immune l s = Returned r s'
    /\ vfs_ok s'
    /\ find_by_length size s' = r
    /\ (r = None -> forall k, k ∈ l -> evicted s s' k)
    /\ (forall k, k ∉ l -> mFileBlocks s' !! k = mFileBlocks s !! k)
    /\ mDataFP s' = mDataFP s.
Proof.
  induction fuel as [|fuel IH]; intros l s Hfuel Hok Hnd Hpos Himm Hsz; [lia|].
  cbn [findFreeBlock_loop]. unfold bind at 1. unfold get.
  destruct (find_by_length size s) as [p|] eqn:Hfind.
  { exists (Some p), s. unfold ret. split; [reflexivity|]. split; [exact Hok|].
    split; [exact Hfind|]. split; [discriminate|]. split; reflexivity. }
  destruct l as [|k rest].
  - (* No more files to delete, and still not enough room! *)
    cbn [lru_evict]. unfold llwarns. rewrite bind_bind, bind_lllog, bind_ret.
    unfold ret. eexists None, _. split; [reflexivity|].
    split; [apply vfs_ok_log; exact Hok|]. split; [exact Hfind|].
    split; [intros _ k Hk; inversion Hk|]. split; reflexivity.
  - pose proof (Hpos k ltac:(left)) as Hkpos. unfold length_of in Hkpos.
    destruct (mFileBlocks s !! k) as [b|] eqn:Hl; [|lia].
    pose proof Hnd as Hnd'. apply NoDup_cons in Hnd' as [Hk Hndr].
    destruct (Z.le_gt_cases size (mLength b)) as [Hbig|Hsmall].
    + destruct (lru_evict_head s size immune k rest b Hok Hl Hbig (Himm k ltac:(left)))
        as (s1 & Hrun & Hok1 & Hev & Hothers & Hdf1).
      mstep Hrun.
      destruct (IH rest s1) as (r & s' & Hrun' & Hok' & Hfind' & Hnone & Hrest & Hdf');
        [cbn in Hfuel; lia|exact Hok1|exact Hndr| | |exact Hsz|].
      { intros k' Hk'. unfold length_of. rewrite Hothers.
        - apply (Hpos k'). right. exact Hk'.
        - intros ->. contradiction. }
      { intros k' Hk'. apply Himm. right. exact Hk'. }
      exists r, s'. split; [exact Hrun'|]. split; [exact Hok'|].
      split; [exact Hfind'|]. split; [|split; [|congruence]].
      * intros Hr k' Hk'. apply elem_of_cons in Hk' as [->|Hk'].
        -- destruct Hev as (b0 & b' & H0 & H1 & Hprops).
           exists b0, b'. rewrite (Hrest k Hk). auto.
        -- apply (evicted_agree s s1).
           ++ apply Hothers. intros ->. contradiction.
           ++ apply Hnone; assumption.
      * intros k' Hk'. rewrite not_elem_of_cons in Hk'. destruct Hk' as [Hne Hnr].
        rewrite (Hrest k' Hnr). apply Hothers. exact Hne.
    + destruct (lru_evict_aggressive s size immune k rest b Hok Hnd Hpos Hl
                  ltac:(lia) Hsz)
        as (removed & remaining & s1 & Hrun & Hsplit & Hne & Hok1 & Hev & Hothers & _ & _ & Hdf1).
      mstep Hrun.
      rewrite Hsplit in Hnd, Hfuel.
      pose proof Hnd as Hnd2. apply NoDup_app in Hnd2 as (_ & Hdisj & Hndrem).
      destruct (IH remaining s1) as (r & s' & Hrun' & Hok' & Hfind' & Hnone & Hrest & Hdf');
        [|exact Hok1|exact Hndrem| | |exact Hsz|].
      { rewrite length_app in Hfuel. destruct removed; [congruence|]. cbn in Hfuel. lia. }
      { intros k' Hk'. unfold length_of. rewrite Hothers.
        - apply (Hpos k'). rewrite Hsplit, elem_of_app. auto.
        - intros Hin. exact (Hdisj _ Hin Hk'). }
      { intros k' Hk'. apply Himm. rewrite Hsplit, elem_of_app. auto. }
      exists r, s'. split; [exact Hrun'|]. split; [exact Hok'|].
      split; [exact Hfind'|]. split; [|split; [|congruence]].
      * intros Hr k' Hk'. rewrite Hsplit in Hk'. apply elem_of_app in Hk' as [Hk'|Hk'].
        -- destruct (Hev k' Hk') as (b0 & b' & H0 & H1 & Hprops).
           exists b0, b'. rewrite (Hrest k'); [auto|].
           intros Hin. exact (Hdisj _ Hk' Hin).
        -- apply (evicted_agree s s1).
           ++ apply Hothers. intros Hin. exact (Hdisj _ Hin Hk').
           ++ apply Hnone; assumption.
      * intros k' Hk'. rewrite Hsplit in Hk'.
        rewrite not_elem_of_app in Hk'. destruct Hk' as [Hnr Hnm].
        rewrite (Hrest k' Hnm). apply Hothers. exact Hnr.
Qed.

Lemma dir_ok_keys s :
  dir_ok s ->
  forall k (b : LLVFSFileBlock), mFileBlocks s !! k = Some b -> fbSpec b = k.
Proof. intros Hdir k b Hl. destruct (Hdir k b Hl) as [H _]. exact H. Qed.

(** [findFreeBlock] returns: with a free block of at least [size] bytes,
    or with nothing when every evictable file has been removed and there
    is still no such block. *)
Lemma findFreeBlock_ok s size immune :
  vfs_ok s -> size < 2 ^ 31 ->
  exists r s',
    findFreeBlock size immune s = Returned r s'
    /\ vfs_ok s'
    /\ find_by_length size s' = r
    /\ (r = None -> forall k, evictable s immune k -> evicted s s' k)
    /\ (forall k, ~ evictable s immune k ->
          mFileBlocks s' !! k = mFileBlocks s !! k)
    /\ mDataFP s' = mDataFP s.
Proof.
  intros Hok Hsz. pose proof Hok as (Hv & Hro & Hfl & Hdir).
  unfold findFreeBlock. mstep (check_valid_ok s Hv).
  unfold bind at 1. unfold get.
  destruct (find_by_length size s) as [p|] eqn:Hfind.
  { exists (Some p), s. unfold ret. split; [reflexivity|]. split; [exact Hok|].
    split; [exact Hfind|]. split; [discriminate|]. split; reflexivity. }
  destruct (build_lru_list_spec immune s (dir_ok_keys s Hdir)) as (Hmem & _ & Hnd).
  destruct (findFreeBlock_loop_ok size immune
              (S (length (build_lru_list immune s))) (build_lru_list immune s) s)
    as (r & s' & Hrun & Hok' & Hfind' & Hnone & Hrest & Hdf);
    [lia|exact Hok|exact Hnd| | |exact Hsz|].
  { intros k Hk. apply Hmem in Hk as (b & Hl & Hpos & _).
    unfold length_of. rewrite Hl. exact Hpos. }
  { intros k Hk. apply Hmem in Hk as (b & _ & _ & _ & _ & _ & Himm). exact Himm. }
  exists r, s'. split; [exact Hrun|]. split; [exact Hok'|].
  split; [exact Hfind'|]. split; [|split; [|exact Hdf]].
  - intros Hr k Hk. apply Hnone; [exact Hr|apply Hmem; exact Hk].
  - intros k Hk. apply Hrest. rewrite Hmem. exact Hk.
Qed.





(** * Further properties of the code *)

(** ** Rounding and byte order *)

Lemma land_block_mask x : 0 <= x -> Z.land x FILE_BLOCK_MASK = x mod 1024.
Proof.
  intros _. change FILE_BLOCK_MASK with (Z.ones 10).
  rewrite Z.land_ones by lia. reflexivity.
Qed.

Lemma land_lnot_block_mask x :
  Z.land x (Z.lnot FILE_BLOCK_MASK) = x / 1024 * 1024.
Proof.
  change FILE_BLOCK_MASK with (Z.ones 10).
  rewrite <- Z.ldiff_land, Z.ldiff_ones_r by lia.
  rewrite Z.shiftl_mul_pow2, Z.shiftr_div_pow2 by lia. reflexivity.
Qed.

Lemma round_to_block_in_range (max_size : Z) :
  0 < max_size <= 2 ^ 31 - 1024 -> 0 < round_to_block max_size < 2 ^ 31.
Proof.
  intros Hm. unfold round_to_block.
  rewrite land_block_mask by lia. rewrite land_lnot_block_mask.
  change FILE_BLOCK_MASK with 1023.
  destruct (Z.eqb_spec (max_size mod 1024) 0) as [E|E]; [lia|].
  rewrite wrapS32_small by lia.
  Z.div_mod_to_equations. lia.
Qed.

(** The rounding of [setMaxSize] gives the least multiple of 1024 that is
    not below the size asked for, as long as that multiple fits in an
    S32; above that the sum wraps and the rounded size is negative. *)
Theorem round_to_block_bounds (max_size : Z) :
  0 < max_size < 2 ^ 31 ->
  (max_size <= 2 ^ 31 - 1024 ->
   round_to_block max_size mod 1024 = 0
   /\ max_size <= round_to_block max_size < max_size + 1024)
  /\ (2 ^ 31 - 1024 < max_size -> round_to_block max_size < 0).
Proof.
  intros Hm. unfold round_to_block.
  rewrite land_block_mask by lia. rewrite land_lnot_block_mask.
  change FILE_BLOCK_MASK with 1023.
  split.
  - intros Hle. destruct (Z.eqb_spec (max_size mod 1024) 0) as [E|E].
    + split; [exact E|lia].
    + rewrite wrapS32_small by lia.
      split.
      * rewrite Z.mod_mul by lia. reflexivity.
      * Z.div_mod_to_equations. lia.
  - intros Hgt. destruct (Z.eqb_spec (max_size mod 1024) 0) as [E|E].
    + exfalso. Z.div_mod_to_equations. lia.
    + unfold wrapS32, wrapS.
      change (2 ^ (32 - 1)) with 2147483648. change (2 ^ 32) with 4294967296.
      assert (Hw : (max_size + 1023 + 2147483648) mod 4294967296
                   = max_size + 1023 + 2147483648 - 4294967296).
      { symmetry. apply Z.mod_unique with (q := 1); lia. }
      rewrite Hw.
      Z.div_mod_to_equations. lia.
Qed.

(** The byte swap of big-endian hosts is its own inverse. *)
Theorem swizzle_involution (x y : Z) :
  inU32 x -> 0 <= y < 2 ^ 16 ->
  swizzle32 (swizzle32 x) = x /\ swizzle16 (swizzle16 y) = y.
Proof.
  intros Hx Hy. split.
  - pose proof (bytes_le_isByte 4 x) as Hb.
    assert (Hv : le_value (bytes_le 4 x) = x).
    { rewrite le_value_bytes_le. apply Z.mod_small. unfold inU32 in Hx. lia. }
    cbn [bytes_le] in Hb, Hv.
    set (a := x mod 256) in *. set (b := x / 256 mod 256) in *.
    set (c := x / 256 / 256 mod 256) in *.
    set (d := x / 256 / 256 / 256 mod 256) in *.
    apply Forall_cons in Hb as [Ha Hb]. apply Forall_cons in Hb as [Hb' Hb].
    apply Forall_cons in Hb as [Hc Hb]. apply Forall_cons in Hb as [Hd _].
    rewrite <- Hv at 1.
    rewrite swizzle32_bytes by assumption.
    rewrite swizzle32_bytes by assumption. exact Hv.
  - pose proof (bytes_le_isByte 2 y) as Hb.
    assert (Hv : le_value (bytes_le 2 y) = y).
    { rewrite le_value_bytes_le. apply Z.mod_small. lia. }
    cbn [bytes_le] in Hb, Hv.
    set (a := y mod 256) in *. set (b := y / 256 mod 256) in *.
    apply Forall_cons in Hb as [Ha Hb]. apply Forall_cons in Hb as [Hb' _].
    rewrite <- Hv at 1.
    rewrite swizzle16_bytes by assumption.
    rewrite swizzle16_bytes by assumption. exact Hv.
Qed.

(** ** Locks *)

Lemma lock_get_set a l v : lock_get (lock_set a l v) l = v.
Proof. destruct l; reflexivity. Qed.

Lemma lock_get_set_ne a l l' v : l <> l' -> lock_get (lock_set a l v) l' = lock_get a l'.
Proof. destruct l, l'; intros H; try reflexivity; contradiction. Qed.

Lemma lock_set_set a l v w : lock_set (lock_set a l v) l w = lock_set a l w.
Proof. destruct l; reflexivity. Qed.

Lemma lock_set_get a l : lock_set a l (lock_get a l) = a.
Proof. destruct a, l; reflexivity. Qed.

Lemma set_mLocks_same (b : LLVFSFileBlock) : set_mLocks (mLocks b) b = b.
Proof. destruct b. reflexivity. Qed.

Lemma set_mLocks_set_mLocks a a' (b : LLVFSFileBlock) :
  set_mLocks a (set_mLocks a' b) = set_mLocks a b.
Proof. reflexivity. Qed.

Lemma wrapS32_succ_pred v : - 2 ^ 31 <= v < 2 ^ 31 - 1 ->
  wrapS32 (v + 1) = v + 1 /\ wrapS32 (v + 1 - 1) = v.
Proof.
  intros H. split.
  - apply wrapS32_id. unfold inS32. lia.
  - replace (v + 1 - 1) with v by lia. apply wrapS32_id. unfold inS32. lia.
Qed.

Lemma incLock_run s file_id file_type lock now :
  incLock file_id file_type lock now s
  = let spec := mkSpec file_id file_type in
    let block :=
      match mFileBlocks s !! spec with
      | Some block => block
      | None => new_LLVFSFileBlock file_id file_type 0 BLOCK_LENGTH_INVALID now
      end in
    Returned tt
      (set_mLockCounts
         (lock_set (mLockCounts s) lock
            (wrapS32 (lock_get (mLockCounts s) lock + 1)))
         (set_mFileBlocks
            (<[spec := set_mLocks
                         (lock_set (mLocks block) lock
                            (wrapS32 (lock_get (mLocks block) lock + 1)))
                         block]> (mFileBlocks s)) s)).
Proof.
  unfold incLock, bind, find_block, get, ret, put_block, modify. cbn.
  destruct (mFileBlocks s !! _); reflexivity.
Qed.

Lemma decLock_run s file_id file_type lock (block : LLVFSFileBlock) :
  mFileBlocks s !! mkSpec file_id file_type = Some block ->
  0 < lock_get (mLocks block) lock ->
  decLock file_id file_type lock s
  = Returned tt
      (set_mLockCounts
         (lock_set (mLockCounts s) lock
            (wrapS32 (lock_get (mLockCounts s) lock - 1)))
         (set_mFileBlocks
            (<[mkSpec file_id file_type :=
                 set_mLocks
                   (lock_set (mLocks block) lock
                      (wrapS32 (lock_get (mLocks block) lock - 1)))
                   block]> (mFileBlocks s)) s)).
Proof.
  intros Hl Hpos.
  unfold decLock, bind, find_block, get, ret, put_block, modify. cbn.
  rewrite Hl. destruct (Z.gtb_spec (lock_get (mLocks block) lock) 0); [|lia].
  reflexivity.
Qed.

(** [incLock] followed by [decLock] on the same key and kind of lock.  A
    record that was there is as before, and so are the global counts.  For
    a key with no record [incLock] makes a dummy record, and [decLock]
    leaves that record in the directory with its counters at zero. *)
Theorem incLock_then_decLock (s : LLVFS) (file_id : LLUUID) (file_type : Z)
    (lock : EVFSLock) (now : Z) :
  let spec := mkSpec file_id file_type in
  - 2 ^ 31 <= lock_get (mLockCounts s) lock < 2 ^ 31 - 1 ->
  (forall block : LLVFSFileBlock,
     mFileBlocks s !! spec = Some block ->
     0 <= lock_get (mLocks block) lock < 2 ^ 31 - 1 ->
     exists s1,
       incLock file_id file_type lock now s = Returned tt s1
       /\ isLocked file_id file_type lock s1 = true
       /\ decLock file_id file_type lock s1 = Returned tt s)
  /\ (mFileBlocks s !! spec = None ->
      exists s1,
        incLock file_id file_type lock now s = Returned tt s1
        /\ isLocked file_id file_type lock s1 = true
        /\ decLock file_id file_type lock s1
           = Returned tt
               (set_mFileBlocks
                  (<[spec := new_LLVFSFileBlock file_id file_type 0
                               BLOCK_LENGTH_INVALID now]> (mFileBlocks s)) s)).
Proof.
  intros spec Hglobal.
  destruct (wrapS32_succ_pred _ Hglobal) as [Hg1 Hg2].
  split.
  - intros block Hl Hcount.
    assert (Hc : - 2 ^ 31 <= lock_get (mLocks block) lock < 2 ^ 31 - 1) by lia.
    destruct (wrapS32_succ_pred _ Hc) as [Hb1 Hb2].
    eexists. split; [|split].
    + rewrite incLock_run. cbn zeta. fold spec. rewrite Hl. reflexivity.
    + unfold isLocked. cbn [mFileBlocks set_mLockCounts set_mFileBlocks].
      fold spec. rewrite lookup_insert_eq. cbn [mLocks set_mLocks].
      rewrite lock_get_set, Hb1. apply Z.gtb_lt. lia.
    + erewrite decLock_run;
        [|cbn [mFileBlocks set_mLockCounts set_mFileBlocks]; fold spec;
          apply lookup_insert_eq
         |cbn [mLocks set_mLocks]; rewrite lock_get_set, Hb1; lia].
      cbn [mFileBlocks mLockCounts set_mLockCounts set_mFileBlocks mLocks set_mLocks].
      rewrite !lock_get_set, !lock_set_set, Hb1, Hg1.
      replace (lock_get (mLocks block) lock + 1 - 1)
        with (lock_get (mLocks block) lock) by lia.
      replace (lock_get (mLockCounts s) lock + 1 - 1)
        with (lock_get (mLockCounts s) lock) by lia.
      rewrite !wrapS32_id by (unfold inS32; lia).
      rewrite !lock_set_get. fold spec. rewrite insert_insert_eq.
      rewrite set_mLocks_set_mLocks, set_mLocks_same.
      rewrite (insert_id _ _ _ Hl). destruct s; reflexivity.
  - intros Hl.
    assert (H0 : lock_get no_locks lock = 0) by (destruct lock; reflexivity).
    eexists. split; [|split].
    + rewrite incLock_run. cbn zeta. fold spec. rewrite Hl. reflexivity.
    + unfold isLocked. cbn [mFileBlocks set_mLockCounts set_mFileBlocks].
      fold spec. rewrite lookup_insert_eq.
      cbn [mLocks set_mLocks new_LLVFSFileBlock].
      rewrite lock_get_set, H0. reflexivity.
    + erewrite decLock_run;
        [|cbn [mFileBlocks set_mLockCounts set_mFileBlocks]; fold spec;
          apply lookup_insert_eq
         |cbn [mLocks set_mLocks new_LLVFSFileBlock];
          rewrite lock_get_set, H0; reflexivity].
      cbn [mFileBlocks mLockCounts set_mLockCounts set_mFileBlocks mLocks
           set_mLocks new_LLVFSFileBlock].
      rewrite !lock_get_set, !lock_set_set, H0, Hg1.
      replace (lock_get (mLockCounts s) lock + 1 - 1)
        with (lock_get (mLockCounts s) lock) by lia.
      rewrite (wrapS32_id (lock_get _ _)) by (unfold inS32; lia).
      rewrite lock_set_get. fold spec. rewrite insert_insert_eq.
      change (wrapS32 (wrapS32 (0 + 1) - 1)) with 0.
      replace (lock_set no_locks lock 0) with no_locks
        by (destruct lock; reflexivity).
      destruct s; reflexivity.
Qed.

(** The sum of the counters of the blocks when a record is stored. *)
Lemma sum_locks_insert lock s k (b : LLVFSFileBlock) :
  sum_locks lock (set_mFileBlocks (<[k := b]> (mFileBlocks s)) s)
  = sum_locks lock s
    - match mFileBlocks s !! k with
      | Some old => lock_get (mLocks old) lock
      | None => 0
      end
    + lock_get (mLocks b) lock.
Proof.
  unfold sum_locks. cbn [mFileBlocks set_mFileBlocks].
  set (f := fun (_ : LLVFSFileSpecifier) (block : LLVFSFileBlock) acc =>
              lock_get (mLocks block) lock + acc).
  assert (Hcomm : forall (m : gmap LLVFSFileSpecifier LLVFSFileBlock)
                         j1 j2 z1 z2 y,
            j1 <> j2 -> m !! j1 = Some z1 -> m !! j2 = Some z2 ->
            f j1 z1 (f j2 z2 y) = f j2 z2 (f j1 z1 y)).
  { intros. unfold f. lia. }
  rewrite <- (insert_delete_eq (mFileBlocks s)).
  rewrite (map_fold_insert_L f 0 k b (delete k (mFileBlocks s)));
    [|apply Hcomm|apply lookup_delete_eq].
  destruct (mFileBlocks s !! k) as [old|] eqn:Hl.
  - rewrite (map_fold_delete_L f 0 k old (mFileBlocks s)); [|apply Hcomm|exact Hl].
    unfold f. lia.
  - rewrite (delete_id _ _ Hl). unfold f. lia.
Qed.

(** [incLock] keeps the global count of a kind of lock equal to the sum of
    the counters of the blocks, and so does [decLock] on a record whose
    counter is positive. *)
Theorem lock_counts_agree_kept (s : LLVFS) (file_id : LLUUID) (file_type : Z)
    (lock : EVFSLock) (now : Z) :
  let spec := mkSpec file_id file_type in
  lock_counts_agree lock s ->
  - 2 ^ 31 < lock_get (mLockCounts s) lock < 2 ^ 31 - 1 ->
  (forall block : LLVFSFileBlock,
     mFileBlocks s !! spec = Some block ->
     - 2 ^ 31 < lock_get (mLocks block) lock < 2 ^ 31 - 1) ->
  (exists s',
     incLock file_id file_type lock now s = Returned tt s'
     /\ lock_counts_agree lock s')
  /\ (forall block : LLVFSFileBlock,
        mFileBlocks s !! spec = Some block ->
        0 < lock_get (mLocks block) lock ->
        exists s',
          decLock file_id file_type lock s = Returned tt s'
          /\ lock_counts_agree lock s').
Proof.
  intros spec Hagree Hglobal Hblock. unfold lock_counts_agree in *.
  split.
  - eexists. split; [apply incLock_run|].
    cbn zeta. cbn [mLockCounts set_mLockCounts]. rewrite lock_get_set.
    rewrite wrapS32_id by (unfold inS32; lia).
    change (sum_locks lock (set_mLockCounts ?a ?t)) with (sum_locks lock t).
    rewrite sum_locks_insert. fold spec.
    destruct (mFileBlocks s !! spec) as [block|] eqn:Hl.
    + cbn [mLocks set_mLocks]. rewrite lock_get_set.
      specialize (Hblock block eq_refl).
      rewrite wrapS32_id by (unfold inS32; lia). lia.
    + cbn [mLocks set_mLocks new_LLVFSFileBlock].
      rewrite lock_get_set.
      replace (lock_get no_locks lock) with 0 by (destruct lock; reflexivity).
      change (wrapS32 (0 + 1)) with 1. lia.
  - intros block Hl Hpos. eexists. split; [apply (decLock_run _ _ _ _ _ Hl Hpos)|].
    cbn [mLockCounts set_mLockCounts]. rewrite lock_get_set.
    rewrite wrapS32_id by (unfold inS32; lia).
    change (sum_locks lock (set_mLockCounts ?a ?t)) with (sum_locks lock t).
    rewrite sum_locks_insert. fold spec. rewrite Hl.
    cbn [mLocks set_mLocks]. rewrite lock_get_set.
    specialize (Hblock block Hl).
    rewrite wrapS32_id by (unfold inS32; lia). lia.
Qed.

(** ** The data file *)

Lemma dwrite_lookup_outside buf : forall pos file off,
  off < pos \/ pos + Z.of_nat (length buf) <= off ->
  dwrite pos buf file !! off = file !! off.
Proof.
  induction buf as [|b r IH]; intros pos file off H; [reflexivity|].
  cbn [dwrite]. cbn [length] in H.
  rewrite IH by lia. apply lookup_insert_ne. lia.
Qed.

Lemma dread_length n : forall pos file, length (dread pos n file) = n.
Proof. induction n; intros; cbn; [reflexivity|]. rewrite IHn. reflexivity. Qed.

Lemma dread_ext n : forall pos f1 f2,
  (forall off, pos <= off < pos + Z.of_nat n -> f1 !! off = f2 !! off) ->
  dread pos n f1 = dread pos n f2.
Proof.
  induction n as [|n IH]; intros pos f1 f2 H; [reflexivity|].
  cbn [dread]. rewrite (H pos) by lia. f_equal. apply IH.
  intros off Hoff. apply H. lia.
Qed.

Lemma dread_dwrite buf : forall pos file,
  dread pos (length buf) (dwrite pos buf file) = buf.
Proof.
  induction buf as [|b r IH]; intros pos file; [reflexivity|].
  cbn [length dread dwrite].
  rewrite dwrite_lookup_outside by lia. rewrite lookup_insert_eq.
  cbn. f_equal. apply IH.
Qed.

Lemma data_end_above (file : gmap Z Z) :
  0 <= data_end file
  /\ forall pos v, file !! pos = Some v -> pos < data_end file.
Proof.
  unfold data_end.
  apply (map_fold_weak_ind
           (fun size (m : gmap Z Z) =>
              0 <= size /\ forall pos v, m !! pos = Some v -> pos < size)).
  - split; [lia|]. intros pos v H. apply lookup_empty_Some in H. contradiction.
  - intros i x m r _ [H0 IH]. split; [lia|].
    intros pos v H. apply lookup_insert_Some in H as [[<- _]|[_ H]]; [lia|].
    specialize (IH _ _ H). lia.
Qed.

Lemma dwrite_lookup_inside buf : forall pos file off,
  pos <= off < pos + Z.of_nat (length buf) ->
  exists v, dwrite pos buf file !! off = Some v.
Proof.
  induction buf as [|b r IH]; intros pos file off H; cbn [length] in H; [lia|].
  cbn [dwrite]. destruct (Z.eq_dec off pos) as [->|Hne].
  - exists b. rewrite dwrite_lookup_outside by lia. apply lookup_insert_eq.
  - apply IH. lia.
Qed.

Lemma data_end_dwrite buf pos file :
  buf <> [] -> pos + Z.of_nat (length buf) <= data_end (dwrite pos buf file).
Proof.
  intros Hbuf.
  assert (0 < Z.of_nat (length buf)) by (destruct buf; [congruence|cbn; lia]).
  destruct (dwrite_lookup_inside buf pos file (pos + Z.of_nat (length buf) - 1))
    as [v Hv]; [lia|].
  apply (proj2 (data_end_above _)) in Hv. lia.
Qed.

Lemma fread_length pos n file :
  Z.of_nat (length (fread pos n file))
  = Z.max 0 (Z.min (Z.of_nat n) (data_end file - pos)).
Proof. unfold fread. rewrite dread_length. lia. Qed.

Lemma fread_dread pos n file :
  fread pos n file = dread pos (length (fread pos n file)) file.
Proof. unfold fread. rewrite dread_length. reflexivity. Qed.

Lemma fread_full pos n file :
  pos + Z.of_nat n <= data_end file -> fread pos n file = dread pos n file.
Proof. intros H. unfold fread. f_equal. lia. Qed.

Lemma storeData_in_range s file_id file_type buffer location length now
    (block : LLVFSFileBlock) :
  let spec := mkSpec file_id file_type in
  let loc := store_position block location in
  let n := Z.min length (mLength block - loc) in
  isValid s = true -> mReadOnly s = false ->
  mFileBlocks s !! spec = Some block ->
  0 < mLength block ->
  0 <= mLocation block -> mLocation block + mLength block < 2 ^ 31 ->
  0 <= loc <= mLength block ->
  0 <= length < 2 ^ 31 ->
  (Z.to_nat length <= List.length buffer)%nat ->
  0 <= mSize block < 2 ^ 31 ->
  exists s' (block' : LLVFSFileBlock),
    storeData file_id file_type buffer location length now s = Returned n s'
    /\ mFileBlocks s' !! spec = Some block'
    /\ fbBlock block' = fbBlock block
    /\ fbSpec block' = fbSpec block
    /\ mSize block' = Z.max (mSize block) (loc + n)
    /\ mLocks block' = mLocks block
    /\ mAccessTime block' = now
    /\ mDataFP s'
       = dwrite (mLocation block + loc) (take (Z.to_nat n) buffer) (mDataFP s)
    /\ (forall k, k <> spec -> mFileBlocks s' !! k = mFileBlocks s !! k)
    /\ isValid s' = true /\ mReadOnly s' = false
    /\ blocks s' = blocks s
    /\ mFreeBlocksByLocation s' = mFreeBlocksByLocation s
    /\ mFreeBlocksByLength s' = mFreeBlocksByLength s
    /\ mLockCounts s' = mLockCounts s.
Proof.
  intros spec loc n Hv Hro Hl Hlen Hloc0 Hend Hloc Hlength Hbuf Hsize.
  unfold storeData.
  mstep (check_valid_ok s Hv).
  unfold bind at 1. unfold get at 1. rewrite Hro. rewrite bind_ret.
  unfold find_block. rewrite bind_bind. unfold bind at 1. unfold get at 1.
  rewrite bind_ret. fold spec. rewrite Hl.
  fold (store_position block location). fold loc.
  rewrite bind_put_block.
  cbn [mLength set_mAccessTime fbBlock mLocation mSize].
  destruct (Z.eqb_spec (mLength block) BLOCK_LENGTH_INVALID) as [E|_];
    [unfold BLOCK_LENGTH_INVALID in E; lia|].
  destruct (Z.gtb_spec loc (mLength block)); [lia|].
  rewrite (wrapS32_small (mLength block - loc)) by lia.
  rewrite (wrapU32_small (loc + mLocation block)) by lia.
  set (s1 := set_mFileBlocks (<[spec:=set_mAccessTime now block]> (mFileBlocks s)) s).
  assert (Hrest : forall len lg, len = n -> 0 <= len <= length ->
    exists s' (block' : LLVFSFileBlock),
      (modify (fun s => set_mDataFP
                 (dwrite (loc + mLocation block) (take (Z.to_nat len) buffer)
                    (mDataFP s)) s) ;;;
       (if negb (Z.of_nat (List.length (take (Z.to_nat len) buffer)) =? len)
        then llwarns "VFS Write Error" else ret tt) ;;;
       block <- lru_deref spec ;;
       if wrapS32 (loc + len) >? mSize block then
         let block := set_mSize
                        (wrapS32 (loc + Z.of_nat (List.length (take (Z.to_nat len) buffer))))
                        block in
         put_block spec block ;;;
         block <- sync block false ;;
         put_block spec block ;;;
         ret (Z.of_nat (List.length (take (Z.to_nat len) buffer)))
       else ret (Z.of_nat (List.length (take (Z.to_nat len) buffer))))
        (set_llog lg s1)
      = Returned n s'
      /\ mFileBlocks s' !! spec = Some block'
      /\ fbBlock block' = fbBlock block
      /\ fbSpec block' = fbSpec block
      /\ mSize block' = Z.max (mSize block) (loc + n)
      /\ mLocks block' = mLocks block
      /\ mAccessTime block' = now
      /\ mDataFP s'
         = dwrite (mLocation block + loc) (take (Z.to_nat n) buffer) (mDataFP s)
      /\ (forall k, k <> spec -> mFileBlocks s' !! k = mFileBlocks s !! k)
      /\ isValid s' = true /\ mReadOnly s' = false
      /\ blocks s' = blocks s
      /\ mFreeBlocksByLocation s' = mFreeBlocksByLocation s
      /\ mFreeBlocksByLength s' = mFreeBlocksByLength s
      /\ mLockCounts s' = mLockCounts s).
  { intros len lg -> Hn.
    assert (Htake : Z.of_nat (List.length (take (Z.to_nat n) buffer)) = n).
    { rewrite length_take. lia. }
    rewrite Htake.
    unfold bind at 1. unfold modify at 1.
    rewrite Z.eqb_refl. cbn [negb]. rewrite bind_ret.
    set (s2 := set_mDataFP _ (set_llog lg s1)).
    assert (Hl2 : mFileBlocks s2 !! spec = Some (set_mAccessTime now block)).
    { unfold s2, s1. cbn. apply lookup_insert_eq. }
    mstep (lru_deref_some _ _ _ Hl2).
    cbn [mSize set_mAccessTime].
    rewrite (wrapS32_small (loc + n)) by lia.
    destruct (Z.gtb_spec (loc + n) (mSize block)) as [Hgt|Hle].
    - cbv zeta. rewrite bind_put_block.
      set (b3 := set_mSize (loc + n) (set_mAccessTime now block)).
      set (s3 := set_mFileBlocks _ s2).
      destruct (sync_runs s3 b3 false) as (slot & holes & file & Hsync);
        [exact Hv|exact Hro|cbn; lia|].
      mstep Hsync. rewrite bind_put_block.
      eexists _, _. split; [reflexivity|].
      cbn. rewrite lookup_insert_eq. split; [reflexivity|].
      split_and!; try reflexivity; try assumption.
      + cbn. lia.
      + f_equal. lia.
      + intros k Hk. rewrite !lookup_insert_ne by congruence. reflexivity.
    - eexists _, _. split; [reflexivity|].
      split; [exact Hl2|].
      split_and!; try reflexivity; try assumption.
      + cbn. lia.
      + unfold s2. cbn. f_equal. lia.
      + intros k Hk. unfold s2, s1. cbn. apply lookup_insert_ne. congruence. }
  destruct (Z.gtb_spec length (mLength block - loc)) as [Hgt|Hle].
  - rewrite bind_bind. unfold llwarns at 1. rewrite bind_lllog, bind_ret.
    destruct (Hrest (mLength block - loc)
                (llog s1 ++ [(LLWARNS, "VFS: Truncating write to virtual file"%string)]))
      as (s' & block' & Hrun & Hall); [unfold n; lia|lia|].
    exists s', block'. split; [exact Hrun|exact Hall].
  - rewrite bind_ret.
    destruct (Hrest length (llog s1)) as (s' & block' & Hrun & Hall);
      [unfold n; lia|lia|].
    exists s', block'. split; [|exact Hall].
    rewrite <- Hrun. f_equal; unfold s1; destruct s; reflexivity.
Qed.

Lemma getData_in_range s file_id file_type location length now
    (block : LLVFSFileBlock) :
  let spec := mkSpec file_id file_type in
  let n := Z.min length (mSize block - location) in
  let bytes := fread (mLocation block + location) (Z.to_nat n) (mDataFP s) in
  isValid s = true ->
  mFileBlocks s !! spec = Some block ->
  0 <= location <= mSize block -> 0 <= length ->
  0 <= mLocation block -> mLocation block + mSize block < 2 ^ 31 ->
  getData file_id file_type location length now s
  = Returned (Z.of_nat (List.length bytes), bytes)
      (set_mFileBlocks (<[spec := set_mAccessTime now block]> (mFileBlocks s)) s).
Proof.
  intros spec n bytes Hv Hl Hloc Hlen Hloc0 Hend.
  unfold getData.
  mstep (check_valid_ok s Hv).
  unfold find_block. rewrite bind_bind. unfold bind at 1. unfold get at 1.
  rewrite bind_ret. fold spec. rewrite Hl.
  rewrite bind_put_block. cbn [mSize set_mAccessTime mLocation fbBlock].
  destruct (Z.gtb_spec location (mSize block)); [lia|].
  rewrite (wrapS32_small (mSize block - location)) by lia.
  rewrite (wrapS32_small (location + mLocation block)) by lia.
  replace (if length >? mSize block - location
           then mSize block - location else length) with n
    by (unfold n; destruct (Z.gtb_spec length (mSize block - location)); lia).
  destruct (Z.ltb_spec n 0); [unfold n in *; lia|].
  destruct (Z.ltb_spec (location + mLocation block) 0); [lia|].
  cbn [orb].
  unfold bind, get, ret. cbn [mDataFP set_mFileBlocks].
  replace (location + mLocation block) with (mLocation block + location) by lia.
  fold bytes. rewrite wrapS32_small; [reflexivity|].
  pose proof (fread_length (mLocation block + location) (Z.to_nat n) (mDataFP s))
    as Hcount.
  fold bytes in Hcount. unfold n in *. lia.
Qed.

(** [storeData] on a live file writes inside the extent of the file
    only.  The count is cut down to what the reserved length leaves behind
    the position, that many bytes of the buffer land in the data file, and
    the size of the file grows to the end of the write when that is larger.
    The reserved extent, the locks, the other records and the free lists
    stay as they are. *)
Theorem storeData_confined (s : LLVFS) (file_id : LLUUID) (file_type : Z)
    (buffer : list Z) (location length now : Z) (block : LLVFSFileBlock) :
  let spec := mkSpec file_id file_type in
  let loc := store_position block location in
  let n := Z.min length (mLength block - loc) in
  isValid s = true -> mReadOnly s = false ->
  mFileBlocks s !! spec = Some block ->
  0 < mLength block ->
  0 <= mLocation block -> mLocation block + mLength block < 2 ^ 31 ->
  0 <= loc <= mLength block ->
  0 <= length < 2 ^ 31 ->
  (Z.to_nat length <= List.length buffer)%nat ->
  0 <= mSize block < 2 ^ 31 ->
  exists s' (block' : LLVFSFileBlock),
    storeData file_id file_type buffer location length now s = Returned n s'
    /\ (forall off, ~ in_extent block off -> mDataFP s' !! off = mDataFP s !! off)
    /\ dread (mLocation block + loc) (Z.to_nat n) (mDataFP s')
       = take (Z.to_nat n) buffer
    /\ mFileBlocks s' !! spec = Some block'
    /\ mLocation block' = mLocation block
    /\ mLength block' = mLength block
    /\ mSize block' = Z.max (mSize block) (loc + n)
    /\ mLocks block' = mLocks block
    /\ (forall k, k <> spec -> mFileBlocks s' !! k = mFileBlocks s !! k)
    /\ free_extents s' = free_extents s.
Proof.
  intros spec loc n Hv Hro Hl Hlen Hloc0 Hend Hloc Hlength Hbuf Hsize.
  destruct (storeData_in_range s file_id file_type buffer location length now
              block Hv Hro Hl Hlen Hloc0 Hend Hloc Hlength Hbuf Hsize)
    as (s' & block' & Hrun & Hl' & Hblock & _ & Hsize' & Hlocks & _ & Hdata
        & Hothers & _ & _ & Hb & Hbl & _).
  fold spec loc n in Hrun, Hl', Hsize', Hdata, Hothers.
  assert (Hn : Z.of_nat (List.length (take (Z.to_nat n) buffer)) = n).
  { rewrite length_take. unfold n. lia. }
  exists s', block'. split; [exact Hrun|]. split; [|split; [|split]].
  - intros off Hoff. rewrite Hdata. apply dwrite_lookup_outside.
    rewrite Hn. unfold in_extent in Hoff. unfold n. lia.
  - rewrite Hdata.
    rewrite <- (dread_dwrite (take (Z.to_nat n) buffer)
                  (mLocation block + loc) (mDataFP s)) at 2.
    rewrite length_take. f_equal. unfold n. lia.
  - exact Hl'.
  - rewrite Hblock. split; [reflexivity|]. split; [reflexivity|].
    split; [exact Hsize'|]. split; [exact Hlocks|]. split; [exact Hothers|].
    unfold free_extents. rewrite Hb, Hbl. reflexivity.
Qed.

(** What [storeData] wrote at a position, [getData] at that position
    reads back. *)
Theorem storeData_then_getData (s : LLVFS) (file_id : LLUUID) (file_type : Z)
    (buffer : list Z) (location length now now' : Z) (block : LLVFSFileBlock) :
  let spec := mkSpec file_id file_type in
  let n := Z.min length (mLength block - location) in
  isValid s = true -> mReadOnly s = false ->
  mFileBlocks s !! spec = Some block ->
  0 < mLength block ->
  0 <= mLocation block -> mLocation block + mLength block < 2 ^ 31 ->
  0 <= location <= mLength block ->
  0 <= length < 2 ^ 31 ->
  (Z.to_nat length <= List.length buffer)%nat ->
  0 <= mSize block <= mLength block ->
  exists s1 s2,
    storeData file_id file_type buffer location length now s = Returned n s1
    /\ getData file_id file_type location n now' s1
       = Returned (n, take (Z.to_nat n) buffer) s2.
Proof.
  intros spec n Hv Hro Hl Hlen Hloc0 Hend Hloc Hlength Hbuf Hsize.
  assert (Hpos : store_position block location = location).
  { unfold store_position. destruct (Z.eqb_spec location (-1)); [lia|reflexivity]. }
  destruct (storeData_in_range s file_id file_type buffer location length now
              block Hv Hro Hl Hlen Hloc0 Hend) as
    (s1 & block' & Hrun & Hl' & Hblock & _ & Hsize' & _ & _ & Hdata & _ & Hv1 & _);
    [rewrite Hpos; lia|lia|exact Hbuf|lia|].
  rewrite Hpos in Hrun, Hsize', Hdata. fold n in Hrun, Hsize', Hdata.
  assert (Hn : Z.of_nat (List.length (take (Z.to_nat n) buffer)) = n).
  { rewrite length_take. unfold n. lia. }
  assert (Hloc' : mLocation block' = mLocation block) by (rewrite Hblock; reflexivity).
  eexists s1, _. split; [exact Hrun|].
  rewrite (getData_in_range s1 file_id file_type location n now' block' Hv1 Hl');
    [|unfold n in *; lia|unfold n; lia|lia|unfold n in *; lia].
  replace (Z.min n (mSize block' - location)) with n by (unfold n in *; lia).
  rewrite Hloc', Hdata.
  assert (Hlen' : List.length (take (Z.to_nat n) buffer) = Z.to_nat n).
  { rewrite length_take. unfold n. lia. }
  assert (Hfull : fread (mLocation block + location) (Z.to_nat n)
                    (dwrite (mLocation block + location)
                       (take (Z.to_nat n) buffer) (mDataFP s))
                  = take (Z.to_nat n) buffer).
  { destruct (Z.to_nat n) as [|m] eqn:En.
    - unfold fread. rewrite Nat.min_0_l. reflexivity.
    - rewrite fread_full.
      + rewrite <- Hlen' at 1. apply dread_dwrite.
      + rewrite <- Hlen' at 1. apply data_end_dwrite.
        intros E. rewrite E in Hlen'. discriminate. }
  rewrite Hfull, Hlen'. f_equal. f_equal. unfold n in *. lia.
Qed.

(** [getData] never reads past the used size of a file, nor past the end
    of the data file.  For a key with no record it reads nothing and
    changes nothing; for a position behind the used size it reads nothing
    and logs a warning.  Otherwise the count it returns is the smallest of
    the count asked for, the distance from the position to the used size,
    and the distance from the position to the end of the data file, and
    the bytes are those of the data file at the position.  It changes the
    access time of the record and nothing else. *)
Theorem getData_bounds (s : LLVFS) (file_id : LLUUID) (file_type : Z)
    (location length now : Z) :
  let spec := mkSpec file_id file_type in
  isValid s = true ->
  (mFileBlocks s !! spec = None ->
   getData file_id file_type location length now s = Returned (0, []) s)
  /\ (forall block : LLVFSFileBlock,
        mFileBlocks s !! spec = Some block ->
        let touched :=
          set_mFileBlocks (<[spec := set_mAccessTime now block]> (mFileBlocks s)) s in
        (mSize block < location ->
         getData file_id file_type location length now s
         = Returned (0, [])
             (set_llog (llog s ++ [(LLWARNS, "VFS: Attempt to read location"%string)])
                touched))
        /\ (0 <= location <= mSize block -> 0 <= length ->
            0 <= mLocation block -> mLocation block + mSize block < 2 ^ 31 ->
            let pos := mLocation block + location in
            let in_file := data_end (mDataFP s) - pos in
            let count :=
              Z.max 0 (Z.min (Z.min length (mSize block - location)) in_file) in
            getData file_id file_type location length now s
            = Returned (count, dread pos (Z.to_nat count) (mDataFP s)) touched)).
Proof.
  intros spec Hv. split.
  - intros Hl. unfold getData. mstep (check_valid_ok s Hv).
    unfold find_block. rewrite bind_bind. unfold bind at 1. unfold get at 1.
    rewrite bind_ret. fold spec. rewrite Hl. reflexivity.
  - intros block Hl touched. split.
    + intros Hbehind. unfold getData. mstep (check_valid_ok s Hv).
      unfold find_block. rewrite bind_bind. unfold bind at 1. unfold get at 1.
      rewrite bind_ret. fold spec. rewrite Hl.
      rewrite bind_put_block. cbn [mSize set_mAccessTime].
      destruct (Z.gtb_spec location (mSize block)); [|lia].
      reflexivity.
    + intros Hloc Hlen Hloc0 Hend pos in_file count.
      rewrite (getData_in_range s file_id file_type location length now block
                 Hv Hl Hloc Hlen Hloc0 Hend).
      fold spec touched pos.
      set (n := Z.min length (mSize block - location)).
      pose proof (fread_length pos (Z.to_nat n) (mDataFP s)) as Hcount.
      assert (Hc : Z.of_nat (List.length (fread pos (Z.to_nat n) (mDataFP s)))
                   = count).
      { rewrite Hcount. unfold count, in_file, n. lia. }
      rewrite (fread_dread pos (Z.to_nat n) (mDataFP s)) at 2.
      rewrite <- Hc. rewrite Nat2Z.id. reflexivity.
Qed.

(** ** Allocation *)

(** The entries of the length index from the first key that is at least
    [size] on are the free blocks of at least [size] bytes. *)
Lemma lower_bound_lengths s size a b :
  free_lists_ok s ->
  lower_bound size (mFreeBlocksByLength s) = (a, b) ->
  forall e fb,
    e ∈ mFreeBlocksByLocation s -> blocks s !! snd e = Some fb ->
    size <= mLength fb -> (mLength fb, snd e) ∈ b.
Proof.
  intros Hok Hlb e fb He Hfb Hsize.
  destruct (lower_bound_spec _ _ _ _ Hlb) as (HN & Ha & _).
  destruct e as [k p]. cbn [snd] in *.
  pose proof (length_entry_of_location _ _ _ k p fb Hok He Hfb) as Hin.
  rewrite HN in Hin. apply elem_of_app in Hin as [Hin|Hin]; [|exact Hin].
  rewrite Forall_forall in Ha. specialize (Ha _ Hin). cbn in Ha. lia.
Qed.

(** [checkAvailable] says whether some free block has at least the size
    asked for.  When one has, [findFreeBlock] returns a free block of at
    least that size which is no longer than any other free block of at
    least that size, and it removes no file: the state is as before. *)
Theorem findFreeBlock_best_fit (s : LLVFS) (size : Z)
    (immune : option LLVFSFileSpecifier) :
  isValid s = true -> free_lists_ok s ->
  (checkAvailable size s = true <->
   exists e fb, e ∈ mFreeBlocksByLocation s /\ blocks s !! snd e = Some fb
                /\ size <= mLength fb)
  /\ (checkAvailable size s = true ->
      exists p fb,
        findFreeBlock size immune s = Returned (Some p) s
        /\ p ∈ map snd (mFreeBlocksByLocation s)
        /\ blocks s !! p = Some fb
        /\ size <= mLength fb
        /\ forall e fq,
             e ∈ mFreeBlocksByLocation s -> blocks s !! snd e = Some fq ->
             size <= mLength fq -> mLength fb <= mLength fq).
Proof.
  intros Hv Hok.
  destruct (lower_bound size (mFreeBlocksByLength s)) as [a b] eqn:Hlb.
  destruct (lower_bound_spec _ _ _ _ Hlb) as (HN & Ha & Hb).
  pose proof (lower_bound_lengths s size a b Hok Hlb) as Hall.
  destruct Hok as [He Hg Hlen Hsorted Hnd Hsame].
  assert (Hhead : forall k p rest, b = (k, p) :: rest ->
            exists fb, p ∈ map snd (mFreeBlocksByLocation s)
                       /\ blocks s !! p = Some fb /\ mLength fb = k /\ size <= k).
  { intros k p rest ->. cbn in Hb.
    assert (Hin : (k, p) ∈ mFreeBlocksByLength s).
    { rewrite HN. apply elem_of_app. right. left. }
    rewrite Forall_forall in Hlen. destruct (Hlen _ Hin) as (fb & Hfb & Hk).
    exists fb. split; [|auto].
    apply Hsame. apply (elem_of_snd _ _ Hin). }
  split; [split|].
  - unfold checkAvailable. rewrite Hlb. cbn [snd].
    destruct b as [|[k p] rest]; [discriminate|]. intros _.
    destruct (Hhead k p rest eq_refl) as (fb & Hp & Hfb & Hk & Hsize).
    apply elem_of_snd_inv in Hp as [k' Hp].
    exists (k', p), fb. cbn. split; [exact Hp|]. split; [exact Hfb|lia].
  - intros (e & fb & Hin & Hfb & Hsize).
    unfold checkAvailable. rewrite Hlb. cbn [snd].
    pose proof (Hall e fb Hin Hfb Hsize) as Hinb.
    destruct b; [apply elem_of_nil in Hinb; contradiction|reflexivity].
  - unfold checkAvailable. rewrite Hlb. cbn [snd].
    destruct b as [|[k p] rest] eqn:Eb; [discriminate|]. intros _.
    destruct (Hhead k p rest eq_refl) as (fb & Hp & Hfb & Hk & Hsize).
    exists p, fb. split; [|split; [exact Hp|split; [exact Hfb|split; [lia|]]]].
    + unfold findFreeBlock. mstep (check_valid_ok s Hv).
      unfold bind, get, ret, find_by_length. rewrite Hlb. reflexivity.
    + intros e fq Hin Hfq Hsz.
      pose proof (Hall e fq Hin Hfq Hsz) as Hinb.
      rewrite HN in Hsorted. apply StronglySorted_app_1_r in Hsorted.
      apply elem_of_cons in Hinb as [Heq|Hinb].
      * injection Heq as -> _. lia.
      * apply StronglySorted_inv in Hsorted as [_ Hle].
        rewrite Forall_forall in Hle. specialize (Hle _ Hinb).
        unfold key_le in Hle. cbn in Hle. lia.
Qed.

(** [findFreeBlock] keeps the file system consistent and removes nothing
    that is locked: a record with a counter of any kind that is not zero,
    and the record of the immune key, are after the call what they were
    before, and the data file is not written to. *)
Theorem findFreeBlock_spares_locked (s : LLVFS) (size : Z)
    (immune : option LLVFSFileSpecifier) :
  vfs_ok s -> size < 2 ^ 31 ->
  exists r s',
    findFreeBlock size immune s = Returned r s'
    /\ vfs_ok s'
    /\ mDataFP s' = mDataFP s
    /\ (forall k (b : LLVFSFileBlock) lock,
          mFileBlocks s !! k = Some b -> lock_get (mLocks b) lock <> 0 ->
          mFileBlocks s' !! k = Some b)
    /\ (forall k, immune = Some k -> mFileBlocks s' !! k = mFileBlocks s !! k)
    /\ (forall k, mFileBlocks s !! k = None -> mFileBlocks s' !! k = None).
Proof.
  intros Hok Hsize.
  destruct (findFreeBlock_ok s size immune Hok Hsize)
    as (r & s' & Hrun & Hok' & _ & _ & Hkeep & Hdata).
  exists r, s'. split; [exact Hrun|]. split; [exact Hok'|].
  split; [exact Hdata|]. split; [|split].
  - intros k b lock Hl Hlock. rewrite <- Hl. apply Hkeep.
    intros (b' & Hl' & _ & Hr & Ha & Ho & _).
    rewrite Hl in Hl'. injection Hl' as <-.
    destruct lock; congruence.
  - intros k ->. apply Hkeep.
    intros (b' & _ & _ & _ & _ & _ & Hne). congruence.
  - intros k Hl. rewrite <- Hl. apply Hkeep.
    intros (b' & Hl' & _). congruence.
Qed.

(** ** Removing files *)

Lemma getExists_run s file_id file_type now :
  isValid s = true ->
  getExists file_id file_type now s
  = match (mFileBlocks s !! mkSpec file_id file_type : option LLVFSFileBlock) with
    | Some block =>
        Returned (mLength (fbBlock block) >? 0)
          (set_mFileBlocks
             (<[mkSpec file_id file_type := set_mAccessTime now block]>
                (mFileBlocks s)) s)
    | None => Returned false s
    end.
Proof.
  intros Hv. unfold getExists. mstep (check_valid_ok s Hv).
  unfold find_block. rewrite bind_bind. unfold bind at 1. unfold get at 1.
  rewrite bind_ret. destruct (mFileBlocks s !! _); reflexivity.
Qed.

(** [removeFile] of a key with no record only logs a warning.  For a key
    with a record it leaves a dummy record that keeps the locks, keeps the
    file system consistent, leaves the other records and the data file as
    they are, and [getExists] on the key then returns false. *)
Theorem removeFile_removes (s : LLVFS) (file_id : LLUUID) (file_type now : Z) :
  let spec := mkSpec file_id file_type in
  vfs_ok s ->
  (mFileBlocks s !! spec = None ->
   removeFile file_id file_type s
   = Returned tt
       (set_llog (llog s ++ [(LLWARNS,
          "VFS: attempting to remove nonexistent file"%string)]) s))
  /\ (forall block : LLVFSFileBlock,
        mFileBlocks s !! spec = Some block ->
        exists s' s'',
          removeFile file_id file_type s = Returned tt s'
          /\ vfs_ok s'
          /\ evicted s s' spec
          /\ (forall k, k <> spec -> mFileBlocks s' !! k = mFileBlocks s !! k)
          /\ mDataFP s' = mDataFP s
          /\ (forall lock, isLocked file_id file_type lock s'
                           = isLocked file_id file_type lock s)
          /\ getExists file_id file_type now s' = Returned false s'').
Proof.
  intros spec Hok. pose proof Hok as (Hv & Hro & _ & Hdir).
  assert (Hstart : forall k : option LLVFSFileBlock -> M unit,
    (check_valid ;;;
     s0 <- get ;;
     (if mReadOnly s0 then llerrs "Attempt to write to read-only VFS" else ret tt) ;;;
     it <- find_block spec ;; k it) s
    = k (mFileBlocks s !! spec) s).
  { intros k. mstep (check_valid_ok s Hv).
    unfold bind at 1. unfold get at 1. rewrite Hro. rewrite bind_ret.
    unfold find_block. rewrite bind_bind. unfold bind at 1. unfold get at 1.
    rewrite bind_ret. reflexivity. }
  split.
  - intros Hl. unfold removeFile. fold spec. rewrite Hstart, Hl. reflexivity.
  - intros block Hl. unfold removeFile. fold spec. rewrite Hstart, Hl.
    destruct (removeFileBlock_ok s spec block Hok Hl)
      as (b' & s1 & Hrun & Hlen & Hsize & Hlocks & Hspec & Htime & Hfiles
          & _ & Hdata & Hok').
    mstep Hrun.
    set (s' := set_mFileBlocks (<[spec := b']> (mFileBlocks s1)) s1) in *.
    assert (Hl' : mFileBlocks s' !! spec = Some b') by apply lookup_insert_eq.
    exists s'. eexists. split; [reflexivity|]. split; [exact Hok'|].
    split; [|split; [|split; [|split]]].
    + exists block, b'. auto 10.
    + intros k Hk. unfold s'. cbn. rewrite lookup_insert_ne by congruence.
      rewrite Hfiles. reflexivity.
    + exact Hdata.
    + intros lock. unfold isLocked. fold spec. rewrite Hl', Hl, Hlocks.
      reflexivity.
    + rewrite getExists_run by (destruct Hok' as (H & _); exact H).
      fold spec. rewrite Hl', Hlen. reflexivity.
Qed.

(** ** Creating files *)

(** An element of the extents of a list of entries that are all well
    formed is the extent of the block of one of the entries. *)
Lemma elem_of_extents_of h l x :
  Forall (entry_ok h) l ->
  (x ∈ extents_of h l <->
   exists e fb, e ∈ l /\ h !! snd e = Some fb
                /\ x = (mLocation fb, mLength fb)).
Proof.
  intros He. rewrite Forall_forall in He. unfold extents_of.
  rewrite list_elem_of_In, in_map_iff. split.
  - intros (e & Hx & Hin). apply list_elem_of_In in Hin.
    destruct (He _ Hin) as (fb & Hfb & _).
    exists e, fb. rewrite Hfb in Hx. auto.
  - intros (e & fb & Hin & Hfb & ->). exists e.
    rewrite Hfb. split; [reflexivity|]. apply list_elem_of_In. exact Hin.
Qed.

Lemma clear_of_free_extents s (F : LLVFSBlock) :
  free_lists_ok s ->
  (clear_of_free s F <->
   forall x, x ∈ free_extents s ->
     fst x + snd x <= mLocation F \/ mLocation F + mLength F <= fst x).
Proof.
  intros [He _ _ _ _ _]. unfold clear_of_free, free_extents. split.
  - intros Hc x Hx. apply (elem_of_extents_of _ _ _ He) in Hx
      as (e & fb & Hin & Hfb & ->). cbn. apply (Hc e fb Hin Hfb).
  - intros Hc e fb Hin Hfb.
    apply (Hc (mLocation fb, mLength fb)).
    apply (elem_of_extents_of _ _ _ He). exists e, fb. auto.
Qed.

(** The free block that the search by length finds. *)
Lemma find_by_length_some s size p :
  free_lists_ok s -> find_by_length size s = Some p ->
  exists fb a b,
    blocks s !! p = Some fb /\ size <= mLength fb
    /\ mFreeBlocksByLocation s = a ++ (mLocation fb, p) :: b.
Proof.
  intros Hok Hfind. unfold find_by_length in Hfind.
  destruct (lower_bound size (mFreeBlocksByLength s)) as [a0 b0] eqn:Hlb.
  destruct (lower_bound_spec _ _ _ _ Hlb) as (HN & _ & Hb). cbn in Hfind.
  destruct b0 as [|[k q] rest]; [discriminate|]. injection Hfind as ->.
  cbn in Hb.
  pose proof Hok as [He _ Hlen _ _ Hsame].
  assert (Hin : (k, p) ∈ mFreeBlocksByLength s)
    by (rewrite HN; apply elem_of_app; right; left).
  rewrite Forall_forall in Hlen. destruct (Hlen _ Hin) as (fb & Hfb & Hk).
  cbn in Hfb, Hk.
  assert (Hp : p ∈ map snd (mFreeBlocksByLocation s))
    by (apply Hsame; apply (elem_of_snd _ _ Hin)).
  apply elem_of_snd_inv in Hp as [k' Hp].
  rewrite Forall_forall in He. destruct (He _ Hp) as (fb' & Hfb' & Hk' & _).
  cbn in Hfb', Hk'. rewrite Hfb in Hfb'. injection Hfb' as <-. subst k'.
  destruct (location_split _ _ _ _ _ Hok Hp) as (a & b & HL & _).
  exists fb, a, b. split; [exact Hfb|]. split; [lia|exact HL].
Qed.

(** A record placed at the front of a free block, once [useFreeSpace] has
    taken its length from that block, leaves the file system consistent. *)
Lemma vfs_ok_allocate s p fb a b spec (blk : LLVFSFileBlock) len used :
  vfs_ok s ->
  mFreeBlocksByLocation s = a ++ (mLocation fb, p) :: b ->
  blocks s !! p = Some fb ->
  0 < len <= mLength fb ->
  (forall d : LLVFSFileBlock,
     mFileBlocks s !! spec = Some d -> mLength d = BLOCK_LENGTH_INVALID) ->
  fbSpec blk = spec -> mLocation blk = mLocation fb -> mLength blk = len ->
  free_lists_ok used ->
  mValid used = mValid s -> mReadOnly used = mReadOnly s ->
  mFileBlocks used = <[spec := blk]> (mFileBlocks s) ->
  free_extents used
  = extents_of (blocks s) a
    ++ (if mLength fb =? len then []
        else [(mLocation fb + len, mLength fb - len)])
    ++ extents_of (blocks s) b ->
  vfs_ok used.
Proof.
  intros (Hv & Hro & Hok & Hdir) HL Hfb Hlen Hdummy Hkey Hloc Hblen
    Hoku Hvu Hrou Hfiles Hext.
  pose proof Hok as [He Hg _ _ _ _].
  assert (HeL := He). rewrite HL in HeL.
  apply Forall_app in HeL as [Hea HeL]. apply Forall_cons in HeL as [Hep Heb].
  destruct Hep as (fb' & Hfb' & _ & Hk0 & Hpos & Hend). cbn in Hfb', Hk0, Hend.
  rewrite Hfb in Hfb'. injection Hfb' as <-.
  assert (Hinp : (mLocation fb, p) ∈ mFreeBlocksByLocation s)
    by (rewrite HL; apply elem_of_app; right; left).
  (* the free extents that are left lie inside the old ones *)
  assert (Hsub : forall x, x ∈ free_extents used ->
            (x ∈ free_extents s /\ (fst x + snd x <= mLocation fb
                                    \/ mLocation fb + mLength fb <= fst x))
            \/ (fst x = mLocation fb + len
                /\ snd x = mLength fb - len /\ len < mLength fb)).
  { intros x Hx. rewrite Hext in Hx. rewrite HL in Hg.
    unfold free_extents. rewrite HL, extents_of_app, extents_of_cons.
    cbn [snd]. rewrite Hfb.
    apply elem_of_app in Hx as [Hx|Hx]; [|apply elem_of_app in Hx as [Hx|Hx]].
    - left. split; [apply elem_of_app; left; exact Hx|].
      apply (elem_of_extents_of _ _ _ Hea) in Hx as (e & fe & Hin & Hfe & ->).
      pose proof (StronglySorted_app_1_elem_of _ _ _ e (mLocation fb, p) Hg Hin
                    ltac:(left) _ Hfe) as Hlt.
      cbn in *. lia.
    - right. destruct (Z.eqb_spec (mLength fb) len) as [E|E];
        [apply elem_of_nil in Hx; contradiction|].
      apply list_elem_of_singleton in Hx as ->. cbn. lia.
    - left. split; [apply elem_of_app; right; right; exact Hx|].
      apply (elem_of_extents_of _ _ _ Heb) in Hx as (e & fe & Hin & Hfe & ->).
      apply StronglySorted_app_1_r in Hg.
      apply StronglySorted_inv in Hg as [_ Hall].
      rewrite Forall_forall in Hall. specialize (Hall _ Hin _ Hfb).
      rewrite Forall_forall in Heb. destruct (Heb _ Hin) as (fe' & Hfe' & Hke & _).
      rewrite Hfe in Hfe'. injection Hfe' as <-.
      cbn in *. lia. }
  (* a live record of [s] stays clear of the free extents *)
  assert (Hold : forall c : LLVFSFileBlock,
            0 < mLength c -> clear_of_free s c -> clear_of_free used c).
  { intros c Hc Hclear. apply (clear_of_free_extents used c Hoku).
    intros x Hx. destruct (Hsub x Hx) as [[Hin _]|(H1 & H2 & H3)].
    - apply (proj1 (clear_of_free_extents s c Hok) Hclear x Hin).
    - pose proof (Hclear _ _ Hinp Hfb) as Hc'. cbn in Hc'. lia. }
  split; [unfold isValid in *; rewrite Hvu; exact Hv|].
  split; [rewrite Hrou; exact Hro|]. split; [exact Hoku|].
  intros k1 c Hc. rewrite Hfiles in Hc.
  destruct (decide (k1 = spec)) as [->|Hne].
  - rewrite lookup_insert_eq in Hc. injection Hc as <-.
    split; [exact Hkey|]. split; [left; lia|]. split.
    + intros _. split; [lia|]. split; [lia|].
      apply (clear_of_free_extents used blk Hoku).
      intros x Hx. destruct (Hsub x Hx) as [[_ Hin]|(H1 & H2 & H3)]; lia.
    + intros k2 c2 Hne2 Hc2 _ Hp2. rewrite Hfiles in Hc2.
      rewrite lookup_insert_ne in Hc2 by congruence.
      destruct (Hdir _ _ Hc2) as (_ & _ & Hpos2 & _).
      destruct (Hpos2 Hp2) as (_ & _ & Hclear2).
      pose proof (Hclear2 _ _ Hinp Hfb) as Hc'. cbn in Hc'. lia.
  - rewrite lookup_insert_ne in Hc by congruence.
    destruct (Hdir _ _ Hc) as (Hkey1 & Hlen1 & Hpos1 & Hpair1).
    split; [exact Hkey1|]. split; [exact Hlen1|]. split.
    + intros Hp. destruct (Hpos1 Hp) as (H0 & Hend1 & Hclear).
      split; [exact H0|]. split; [exact Hend1|]. apply Hold; assumption.
    + intros k2 c2 Hne2 Hc2 Hp Hp2. rewrite Hfiles in Hc2.
      destruct (decide (k2 = spec)) as [->|Hne3].
      * rewrite lookup_insert_eq in Hc2. injection Hc2 as <-.
        destruct (Hpos1 Hp) as (_ & _ & Hclear).
        pose proof (Hclear _ _ Hinp Hfb) as Hc'. cbn in Hc'. lia.
      * rewrite lookup_insert_ne in Hc2 by congruence.
        apply (Hpair1 k2 c2 Hne2 Hc2 Hp Hp2).
Qed.

Lemma findFreeBlock_immediate s size immune p :
  isValid s = true -> find_by_length size s = Some p ->
  findFreeBlock size immune s = Returned (Some p) s.
Proof.
  intros Hv Hfind. unfold findFreeBlock. mstep (check_valid_ok s Hv).
  unfold bind, get, ret. rewrite Hfind. reflexivity.
Qed.

Lemma checkAvailable_find_by_length size s :
  checkAvailable size s = bool_decide (find_by_length size s <> None).
Proof.
  unfold checkAvailable, find_by_length.
  destruct (snd (lower_bound size (mFreeBlocksByLength s))) as [|[k p] r];
    reflexivity.
Qed.

(** The end of the paths of [setMaxSize] that put a record at the front of
    a free block that [findFreeBlock] returned. *)
Lemma allocate_tail s p fb a b spec (blk : LLVFSFileBlock) len now :
  vfs_ok s ->
  mFreeBlocksByLocation s = a ++ (mLocation fb, p) :: b ->
  blocks s !! p = Some fb ->
  0 < len <= mLength fb ->
  (forall d : LLVFSFileBlock,
     mFileBlocks s !! spec = Some d -> mLength d = BLOCK_LENGTH_INVALID) ->
  fbSpec blk = spec -> mLocation blk = mLocation fb -> mLength blk = len ->
  exists s' slot,
    (put_block spec blk ;;;
     useFreeSpace p len ;;;
     put_block spec (set_mAccessTime now blk) ;;;
     block <- sync (set_mAccessTime now blk) false ;;
     put_block spec block ;;;
     ret true) s = Returned true s'
    /\ vfs_ok s'
    /\ mFileBlocks s'
       = <[spec := set_mIndexLocation slot (set_mAccessTime now blk)]>
           (mFileBlocks s)
    /\ free_extents s'
       = extents_of (blocks s) a
         ++ (if mLength fb =? len then []
             else [(mLocation fb + len, mLength fb - len)])
         ++ extents_of (blocks s) b
    /\ mDataFP s' = mDataFP s /\ llog s' = llog s
    /\ mLockCounts s' = mLockCounts s.
Proof.
  intros Hok HL Hfb Hlen Hdummy Hkey Hloc Hblen.
  pose proof Hok as (Hv & Hro & Hfl & Hdir).
  rewrite bind_put_block.
  set (s1 := set_mFileBlocks (<[spec:=blk]> (mFileBlocks s)) s).
  assert (Hfl1 : free_lists_ok s1) by exact Hfl.
  destruct (useFreeSpace_ok s1 p (mLocation fb) fb len a b Hfl1 HL Hfb Hlen)
    as (used & Hrun & Hoku & Hsame & Hext).
  destruct Hsame as (Hsv & Hsro & Hsfb & Hsh & Hslc & Hsif & Hsdf & Hslog).
  mstep Hrun. rewrite bind_put_block.
  set (blk2 := set_mAccessTime now blk).
  set (s2 := set_mFileBlocks (<[spec:=blk2]> (mFileBlocks used)) used).
  destruct (sync_runs s2 blk2 false) as (slot & holes & file & Hsync).
  { unfold s2. change (isValid used = true). rewrite (isValid_same _ _ Hsv). exact Hv. }
  { unfold s2. change (mReadOnly used = false). rewrite Hsro. exact Hro. }
  { cbn. lia. }
  mstep Hsync. rewrite bind_put_block.
  eexists _, slot. split; [reflexivity|].
  assert (Hfiles :
    <[spec:=set_mIndexLocation slot blk2]> (<[spec:=blk2]> (mFileBlocks used))
    = <[spec:=set_mIndexLocation slot blk2]> (mFileBlocks s)).
  { rewrite Hsfb. unfold s1. cbn. rewrite !insert_insert_eq. reflexivity. }
  split; [|split; [exact Hfiles|split; [exact Hext|]]].
  - apply (vfs_ok_allocate s p fb a b spec (set_mIndexLocation slot blk2) len);
      try assumption.
  - cbn. split; [exact Hsdf|]. split; [exact Hslog|exact Hslc].
Qed.

(** [setMaxSize] for a key with no record and a size from 1 to
    2^31 - 1024, the sizes whose rounded length does not wrap.  The call
    returns, the file system stays consistent and the data file is not
    written to.  When it
    returns true the directory holds a record for the key with the rounded
    length reserved, no bytes used and no locks.  When it returns false
    there is still no record for the key, and no free block of the rounded
    length.  When a free block of the rounded length exists beforehand the
    call returns true and leaves every other record as it is. *)
Theorem setMaxSize_creates (s : LLVFS) (file_id : LLUUID)
    (file_type max_size now : Z) :
  let spec := mkSpec file_id file_type in
  let new_length := round_to_block max_size in
  vfs_ok s -> 0 < max_size <= 2 ^ 31 - 1024 ->
  mFileBlocks s !! spec = None ->
  exists r s',
    setMaxSize file_id file_type max_size now s = Returned r s'
    /\ vfs_ok s'
    /\ mDataFP s' = mDataFP s
    /\ (r = true ->
        exists block' : LLVFSFileBlock,
          mFileBlocks s' !! spec = Some block'
          /\ fbSpec block' = spec
          /\ mLength block' = new_length /\ mSize block' = 0
          /\ mLocks block' = no_locks /\ mAccessTime block' = now)
    /\ (r = false ->
        mFileBlocks s' !! spec = None /\ checkAvailable new_length s' = false)
    /\ (checkAvailable new_length s = true ->
        r = true
        /\ forall k, k <> spec -> mFileBlocks s' !! k = mFileBlocks s !! k).
Proof.
  intros spec new_length Hok Hrange Hl.
  assert (Hmax : 0 < max_size) by lia.
  assert (Hnew : 0 < new_length < 2 ^ 31)
    by (apply round_to_block_in_range; exact Hrange).
  pose proof Hok as (Hv & Hro & Hfl & Hdir).
  destruct (findFreeBlock_ok s new_length None Hok ltac:(lia))
    as (found & s1 & Hfind & Hok1 & Hfound & _ & Hkeep & Hdata).
  pose proof Hok1 as (Hv1 & Hro1 & Hfl1 & Hdir1).
  assert (Hl1 : mFileBlocks s1 !! spec = None).
  { rewrite <- Hl. apply Hkeep. intros (b' & Hb' & _). congruence. }
  assert (Hstart :
    setMaxSize file_id file_type max_size now s
    = (found <- findFreeBlock new_length None ;;
       match found with
       | Some free_block =>
           fb <- deref free_block ;;
           let block := new_LLVFSFileBlock file_id file_type (mLocation fb)
                          new_length now in
           s <- get ;;
           let inserted := bool_decide (mFileBlocks s !! spec = None) in
           (if inserted then put_block spec block else ret tt) ;;;
           useFreeSpace free_block new_length ;;;
           let block := set_mAccessTime now block in
           (if inserted then put_block spec block else ret tt) ;;;
           block <- sync block false ;;
           (if inserted then put_block spec block else ret tt) ;;;
           ret true
       | None =>
           llwarns "VFS: No space for new virtual file" ;;;
           llinfos "dumpStatistics" ;;;
           ret false
       end) s).
  { unfold setMaxSize.
    mstep (check_valid_ok s Hv).
    unfold bind at 1. unfold get at 1. rewrite Hro. rewrite bind_ret.
    destruct (Z.leb_spec max_size 0); [lia|].
    unfold find_block. rewrite bind_bind. unfold bind at 1. unfold get at 1.
    rewrite bind_ret. fold spec. rewrite Hl. fold new_length. reflexivity. }
  rewrite Hstart. clear Hstart. mstep Hfind.
  destruct found as [p|].
  - destruct (find_by_length_some s1 new_length p Hfl1 Hfound)
      as (fb & a & b & Hfb & Hsize & HL).
    mstep (deref_some _ _ _ Hfb). cbv zeta.
    unfold bind at 1. unfold get at 1. rewrite Hl1.
    rewrite bool_decide_eq_true_2 by reflexivity.
    set (blk := new_LLVFSFileBlock file_id file_type (mLocation fb) new_length now).
    destruct (allocate_tail s1 p fb a b spec blk new_length now Hok1 HL Hfb)
      as (s' & slot & Hrun & Hok' & Hfiles & _ & Hdata' & _);
      [lia|intros d Hd; congruence|reflexivity|reflexivity|reflexivity|].
    exists true, s'. split; [exact Hrun|]. split; [exact Hok'|].
    split; [congruence|]. split; [|split].
    + intros _. eexists. split; [rewrite Hfiles; apply lookup_insert_eq|].
      cbn. auto.
    + discriminate.
    + intros Havail. split; [reflexivity|].
      rewrite checkAvailable_find_by_length in Havail.
      apply bool_decide_eq_true_1 in Havail.
      destruct (find_by_length new_length s) as [q|] eqn:Hq; [|congruence].
      rewrite (findFreeBlock_immediate s new_length None q Hv Hq) in Hfind.
      injection Hfind as _ <-.
      intros k Hk. rewrite Hfiles. apply lookup_insert_ne. congruence.
  - unfold llwarns, llinfos. rewrite !bind_lllog. unfold ret.
    eexists false, _. split; [reflexivity|].
    split; [apply vfs_ok_log, vfs_ok_log; exact Hok1|].
    split; [exact Hdata|]. split; [discriminate|]. split.
    + intros _. split; [exact Hl1|].
      rewrite checkAvailable_find_by_length.
      apply bool_decide_eq_false_2. cbn.
      change (~ find_by_length new_length s1 <> None). rewrite Hfound. auto.
    + intros Havail. exfalso.
      rewrite checkAvailable_find_by_length in Havail.
      apply bool_decide_eq_true_1 in Havail.
      destruct (find_by_length new_length s) as [q|] eqn:Hq; [|congruence].
      rewrite (findFreeBlock_immediate s new_length None q Hv Hq) in Hfind.
      discriminate.
Qed.

(** [setMaxSize] for a key whose record is a dummy, as [incLock] and
    [removeFile] leave them, and a size from 1 to 2^31 - 1024, the sizes
    whose rounded length does not wrap.  The call returns and the file
    system stays consistent.  When it returns true the record has the rounded length
    reserved and still has its locks; when it returns false the record is
    as before and there is no free block of the rounded length. *)
Theorem setMaxSize_revives_dummy (s : LLVFS) (file_id : LLUUID)
    (file_type max_size now : Z) (block : LLVFSFileBlock) :
  let spec := mkSpec file_id file_type in
  let new_length := round_to_block max_size in
  vfs_ok s -> 0 < max_size <= 2 ^ 31 - 1024 ->
  mFileBlocks s !! spec = Some block ->
  mLength block = BLOCK_LENGTH_INVALID ->
  exists r s',
    setMaxSize file_id file_type max_size now s = Returned r s'
    /\ vfs_ok s'
    /\ mDataFP s' = mDataFP s
    /\ (r = true ->
        exists block' : LLVFSFileBlock,
          mFileBlocks s' !! spec = Some block'
          /\ mLength block' = new_length /\ mSize block' = mSize block
          /\ mLocks block' = mLocks block /\ mAccessTime block' = now)
    /\ (r = false ->
        mFileBlocks s' !! spec = Some block
        /\ checkAvailable new_length s' = false).
Proof.
  intros spec new_length Hok Hrange Hl Hdummy.
  assert (Hmax : 0 < max_size) by lia.
  assert (Hnew : 0 < new_length < 2 ^ 31)
    by (apply round_to_block_in_range; exact Hrange).
  pose proof Hok as (Hv & Hro & Hfl & Hdir).
  destruct (findFreeBlock_ok s new_length None Hok ltac:(lia))
    as (found & s1 & Hfind & Hok1 & Hfound & _ & Hkeep & Hdata).
  pose proof Hok1 as (Hv1 & Hro1 & Hfl1 & Hdir1).
  assert (Hl1 : mFileBlocks s1 !! spec = Some block).
  { rewrite <- Hl. apply Hkeep. intros (b' & Hb' & Hpos & _).
    rewrite Hl in Hb'. injection Hb' as <-.
    unfold BLOCK_LENGTH_INVALID in Hdummy. lia. }
  assert (Hstart :
    setMaxSize file_id file_type max_size now s
    = (found <- findFreeBlock new_length None ;;
       match found with
       | Some free_block =>
           block <- lru_deref spec ;;
           fb <- deref free_block ;;
           let block := set_mLength new_length
                          (set_mLocation (mLocation fb) block) in
           put_block spec block ;;;
           useFreeSpace free_block new_length ;;;
           let block := set_mAccessTime now block in
           put_block spec block ;;;
           block <- sync block false ;;
           put_block spec block ;;;
           ret true
       | None =>
           llwarns "VFS: No space for new virtual file" ;;;
           llinfos "dumpStatistics" ;;;
           ret false
       end) s).
  { unfold setMaxSize.
    mstep (check_valid_ok s Hv).
    unfold bind at 1. unfold get at 1. rewrite Hro. rewrite bind_ret.
    destruct (Z.leb_spec max_size 0); [lia|].
    unfold find_block. rewrite bind_bind. unfold bind at 1. unfold get at 1.
    rewrite bind_ret. fold spec. rewrite Hl. fold new_length.
    rewrite Hdummy. reflexivity. }
  rewrite Hstart. clear Hstart. mstep Hfind.
  destruct found as [p|].
  - destruct (find_by_length_some s1 new_length p Hfl1 Hfound)
      as (fb & a & b & Hfb & Hsize & HL).
    mstep (lru_deref_some _ _ _ Hl1).
    mstep (deref_some _ _ _ Hfb). cbv zeta.
    set (blk := set_mLength new_length (set_mLocation (mLocation fb) block)).
    destruct (Hdir _ _ Hl) as (Hkey & _).
    destruct (allocate_tail s1 p fb a b spec blk new_length now Hok1 HL Hfb)
      as (s' & slot & Hrun & Hok' & Hfiles & _ & Hdata' & _);
      [lia|intros d Hd; congruence|exact Hkey|reflexivity|reflexivity|].
    exists true, s'. split; [exact Hrun|]. split; [exact Hok'|].
    split; [congruence|]. split; [|discriminate].
    intros _. eexists. split; [rewrite Hfiles; apply lookup_insert_eq|].
    cbn. auto.
  - unfold llwarns, llinfos. rewrite !bind_lllog. unfold ret.
    eexists false, _. split; [reflexivity|].
    split; [apply vfs_ok_log, vfs_ok_log; exact Hok1|].
    split; [exact Hdata|]. split; [discriminate|].
    intros _. split; [exact Hl1|].
    rewrite checkAvailable_find_by_length.
    apply bool_decide_eq_false_2. cbn.
    change (~ find_by_length new_length s1 <> None). rewrite Hfound. auto.
Qed.

(** ** Refused and trivial calls *)

(** [setMaxSize] with a size that is not positive returns false and only
    logs a warning; with a size that rounds to the length the record has,
    it returns true and only stamps the access time. *)
Theorem setMaxSize_trivial (s : LLVFS) (file_id : LLUUID)
    (file_type max_size now : Z) :
  let spec := mkSpec file_id file_type in
  isValid s = true -> mReadOnly s = false ->
  (max_size <= 0 ->
   setMaxSize file_id file_type max_size now s
   = Returned false
       (set_llog (llog s ++ [(LLWARNS,
          "VFS: Attempt to assign size to vfile"%string)]) s))
  /\ (forall block : LLVFSFileBlock,
        mFileBlocks s !! spec = Some block ->
        0 < max_size -> 0 < mLength block ->
        round_to_block max_size = mLength block ->
        setMaxSize file_id file_type max_size now s
        = Returned true
            (set_mFileBlocks
               (<[spec := set_mAccessTime now block]> (mFileBlocks s)) s)).
Proof.
  intros spec Hv Hro. split.
  - intros Hmax. unfold setMaxSize.
    mstep (check_valid_ok s Hv).
    unfold bind at 1. unfold get at 1. rewrite Hro. rewrite bind_ret.
    destruct (Z.leb_spec max_size 0); [|lia]. reflexivity.
  - intros block Hl Hmax Hlen Hround. unfold setMaxSize.
    mstep (check_valid_ok s Hv).
    unfold bind at 1. unfold get at 1. rewrite Hro. rewrite bind_ret.
    destruct (Z.leb_spec max_size 0); [lia|].
    unfold find_block. rewrite bind_bind. unfold bind at 1. unfold get at 1.
    rewrite bind_ret. fold spec. rewrite Hl.
    destruct (Z.gtb_spec (mLength block) 0); [|lia].
    rewrite bind_put_block. cbn [mLength set_mAccessTime fbBlock].
    rewrite Hround, Z.eqb_refl. reflexivity.
Qed.

(** On a VFS that is not valid every public operation stops at the error
    stream, and on a read-only VFS every operation that writes does; where
    that stream does not return, nothing but the log has changed. *)
Theorem invalid_or_read_only_refused (s : LLVFS) (file_id new_id : LLUUID)
    (file_type new_type max_size location length now : Z) (buffer : list Z) :
  llerrs_returns = false ->
  let refused (msg : string) : LLVFS :=
    set_llog (llog s ++ [(LLERRS, msg)]) s in
  (isValid s = false ->
   let s' := refused "Attempting to use invalid VFS!"%string in
   getExists file_id file_type now s = Crashed s'
   /\ getSize file_id file_type now s = Crashed s'
   /\ getMaxSize file_id file_type now s = Crashed s'
   /\ setMaxSize file_id file_type max_size now s = Crashed s'
   /\ renameFile file_id file_type new_id new_type now s = Crashed s'
   /\ removeFile file_id file_type s = Crashed s'
   /\ getData file_id file_type location length now s = Crashed s'
   /\ storeData file_id file_type buffer location length now s = Crashed s')
  /\ (isValid s = true -> mReadOnly s = true ->
      let s' := refused "Attempt to write to read-only VFS"%string in
      setMaxSize file_id file_type max_size now s = Crashed s'
      /\ renameFile file_id file_type new_id new_type now s = Crashed s'
      /\ removeFile file_id file_type s = Crashed s'
      /\ storeData file_id file_type buffer location length now s = Crashed s').
Proof.
  intros Hfatal refused. split.
  - intros Hv s'.
    assert (Hcheck : check_valid s = Crashed s').
    { unfold check_valid, bind, get, llerrs. rewrite Hv, Hfatal. reflexivity. }
    unfold getExists, getSize, getMaxSize, setMaxSize, renameFile, removeFile,
      getData, storeData.
    rewrite !(bind_crashed _ _ _ _ Hcheck). auto 10.
  - intros Hv Hro s'.
    assert (Hguard : forall B (k : M B),
      (check_valid ;;;
       s0 <- get ;;
       (if mReadOnly s0 then llerrs "Attempt to write to read-only VFS"
        else ret tt) ;;;
       k) s = Crashed s').
    { intros B k. mstep (check_valid_ok s Hv).
      unfold bind at 1. unfold get at 1.
      rewrite Hro, bind_llerrs, Hfatal. reflexivity. }
    unfold setMaxSize, renameFile, removeFile, storeData.
    split_and!; apply Hguard.
Qed.

(** ** Renaming *)

(** The free lists are all that the invariant reads besides the
    directory. *)
Lemma clear_of_free_same s s' (c : LLVFSBlock) :
  blocks s' = blocks s ->
  mFreeBlocksByLocation s' = mFreeBlocksByLocation s ->
  clear_of_free s c -> clear_of_free s' c.
Proof. unfold clear_of_free. intros -> ->. auto. Qed.

(** The directory after a record has moved from [old] to [new]. *)
Lemma vfs_ok_rename s s' old new (src src' : LLVFSFileBlock) :
  vfs_ok s -> mFileBlocks s !! old = Some src -> old <> new ->
  fbBlock src' = fbBlock src -> fbSpec src' = new ->
  mValid s' = mValid s -> mReadOnly s' = mReadOnly s ->
  blocks s' = blocks s ->
  mFreeBlocksByLocation s' = mFreeBlocksByLocation s ->
  mFreeBlocksByLength s' = mFreeBlocksByLength s ->
  mFileBlocks s' !! new = Some src' -> mFileBlocks s' !! old = None ->
  (forall k, k <> new -> k <> old -> mFileBlocks s' !! k = mFileBlocks s !! k) ->
  vfs_ok s'.
Proof.
  intros (Hv & Hro & Hfl & Hdir) Hsrc Hne Hblock Hkey Hsv Hsro Hsb HsL HsN
    Hnew Hold Hrest.
  destruct (Hdir _ _ Hsrc) as (_ & Hlen & Hpos & Hpair).
  split; [rewrite (isValid_same _ _ Hsv); exact Hv|].
  split; [rewrite Hsro; exact Hro|].
  split; [unfold free_lists_ok; rewrite Hsb, HsL, HsN; exact Hfl|].
  intros k1 c Hc.
  destruct (decide (k1 = new)) as [->|Hn1].
  - rewrite Hnew in Hc. injection Hc as <-.
    split; [exact Hkey|]. rewrite Hblock.
    split; [exact Hlen|]. split.
    + intros Hp. destruct (Hpos Hp) as (H0 & Hend & Hclear).
      split; [exact H0|]. split; [exact Hend|].
      apply (clear_of_free_same s s' _ Hsb HsL Hclear).
    + intros k2 c2 Hne2 Hc2 Hp Hp2.
      destruct (decide (k2 = old)) as [->|Ho2]; [congruence|].
      rewrite Hrest in Hc2 by congruence.
      apply (Hpair k2 c2 ltac:(congruence) Hc2 Hp Hp2).
  - destruct (decide (k1 = old)) as [->|Ho1]; [congruence|].
    rewrite Hrest in Hc by assumption.
    destruct (Hdir _ _ Hc) as (Hkey1 & Hlen1 & Hpos1 & Hpair1).
    split; [exact Hkey1|]. split; [exact Hlen1|]. split.
    + intros Hp. destruct (Hpos1 Hp) as (H0 & Hend & Hclear).
      split; [exact H0|]. split; [exact Hend|].
      apply (clear_of_free_same s s' _ Hsb HsL Hclear).
    + intros k2 c2 Hne2 Hc2 Hp Hp2.
      destruct (decide (k2 = new)) as [->|Hn2].
      * rewrite Hnew in Hc2. injection Hc2 as <-. rewrite Hblock in *.
        apply (Hpair1 old src ltac:(congruence) Hsrc Hp Hp2).
      * destruct (decide (k2 = old)) as [->|Ho2]; [congruence|].
        rewrite Hrest in Hc2 by assumption.
        apply (Hpair1 k2 c2 Hne2 Hc2 Hp Hp2).
Qed.

Lemma bind_congr {A B} (m m' : M A) (k : A -> M B) s :
  m s = m' s -> bind m k s = bind m' k s.
Proof. intros H. unfold bind. rewrite H. reflexivity. Qed.

(** The loop over the kinds of lock, for a record that holds none. *)
Lemma rename_locks_run {B} (src dest : LLVFSFileBlock)
    (k : LLVFSFileBlock -> M B) s :
  mLocks dest = no_locks ->
  (dest_block <- rename_lock src VFSLOCK_OPEN dest ;;
   dest_block <- rename_lock src VFSLOCK_READ dest_block ;;
   dest_block <- rename_lock src VFSLOCK_APPEND dest_block ;;
   k dest_block) s
  = k (set_mLocks (mLocks src) dest) s.
Proof.
  intros Hnone. unfold rename_lock, bind, ret. rewrite Hnone. cbn.
  destruct (mLocks src). reflexivity.
Qed.

(** The end of [renameFile], from the point where the new key has no
    record any more. *)
Lemma rename_tail s old new (src : LLVFSFileBlock) now :
  vfs_ok s -> mFileBlocks s !! old = Some src -> old <> new ->
  mFileBlocks s !! new = None ->
  exists s' slot,
    (src_block <- lru_deref old ;;
     let src_block := set_mAccessTime now (set_fbSpec new src_block) in
     modify (fun s => set_mFileBlocks (delete old (mFileBlocks s)) s) ;;;
     s <- get ;;
     let inserted := bool_decide (mFileBlocks s !! new = None) in
     (if inserted then put_block new src_block else ret tt) ;;;
     src_block <- sync src_block false ;;
     (if inserted then put_block new src_block else ret tt)) s
    = Returned tt s'
    /\ vfs_ok s'
    /\ mFileBlocks s'
       = <[new := set_mIndexLocation slot
                    (set_mAccessTime now (set_fbSpec new src))]>
           (delete old (mFileBlocks s))
    /\ mDataFP s' = mDataFP s /\ free_extents s' = free_extents s
    /\ mLockCounts s' = mLockCounts s.
Proof.
  intros Hok Hsrc Hne Hnew. pose proof Hok as (Hv & Hro & Hfl & Hdir).
  destruct (Hdir _ _ Hsrc) as (_ & Hlen & _).
  mstep (lru_deref_some _ _ _ Hsrc). cbv zeta.
  unfold bind at 1. unfold modify at 1.
  unfold bind at 1. unfold get at 1.
  cbn [mFileBlocks set_mFileBlocks].
  rewrite lookup_delete_ne by assumption. rewrite Hnew.
  rewrite bool_decide_eq_true_2 by reflexivity.
  rewrite bind_put_block.
  set (src1 := set_mAccessTime now (set_fbSpec new src)).
  match goal with |- context [bind _ _ ?t] => set (s2 := t) end.
  destruct (sync_runs s2 src1 false) as (slot & holes & file & Hsync);
    [exact Hv|exact Hro|cbn; unfold BLOCK_LENGTH_INVALID in Hlen; lia|].
  mstep Hsync. unfold put_block, modify.
  eexists _, slot. split; [reflexivity|].
  split; [|split; [|auto]].
  - apply (vfs_ok_rename s _ old new src (set_mIndexLocation slot src1));
      auto.
    + apply lookup_insert_eq.
    + cbn. rewrite !lookup_insert_ne by congruence. apply lookup_delete_eq.
    + intros k Hk1 Hk2. cbn. rewrite !lookup_insert_ne by congruence.
      apply lookup_delete_ne. congruence.
  - cbn. rewrite insert_insert_eq. reflexivity.
Qed.

(** [renameFile].  With no record under the old key it only logs a
    warning.  Otherwise, for a new key that differs from the old one and
    whose record, if there is one, holds no locks: the record of the old
    key takes the place of whatever was under the new key, with its
    extent, its size and its own locks, the old key has no record any
    more, and the file system stays consistent. *)
Theorem renameFile_moves (s : LLVFS) (file_id : LLUUID) (file_type : Z)
    (new_id : LLUUID) (new_type now : Z) :
  let old_spec := mkSpec file_id file_type in
  let new_spec := mkSpec new_id new_type in
  vfs_ok s ->
  (mFileBlocks s !! old_spec = None ->
   renameFile file_id file_type new_id new_type now s
   = Returned tt
       (set_llog (llog s ++ [(LLWARNS,
          "VFS: Attempt to rename nonexistent vfile"%string)]) s))
  /\ (forall src : LLVFSFileBlock,
        mFileBlocks s !! old_spec = Some src ->
        old_spec <> new_spec ->
        (forall dest : LLVFSFileBlock,
           mFileBlocks s !! new_spec = Some dest -> mLocks dest = no_locks) ->
        exists s' (block' : LLVFSFileBlock),
          renameFile file_id file_type new_id new_type now s = Returned tt s'
          /\ vfs_ok s'
          /\ mFileBlocks s' !! old_spec = None
          /\ mFileBlocks s' !! new_spec = Some block'
          /\ fbSpec block' = new_spec
          /\ mLocation block' = mLocation src
          /\ mLength block' = mLength src
          /\ mSize block' = mSize src
          /\ mLocks block' = mLocks src
          /\ mAccessTime block' = now
          /\ (forall k, k <> old_spec -> k <> new_spec ->
                mFileBlocks s' !! k = mFileBlocks s !! k)
          /\ mDataFP s' = mDataFP s).
Proof.
  intros old_spec new_spec Hok. pose proof Hok as (Hv & Hro & Hfl & Hdir).
  assert (Hstart : forall k : option LLVFSFileBlock -> M unit,
    (check_valid ;;;
     s0 <- get ;;
     (if mReadOnly s0 then llerrs "Attempt to write to read-only VFS" else ret tt) ;;;
     it <- find_block old_spec ;; k it) s
    = k (mFileBlocks s !! old_spec) s).
  { intros k. mstep (check_valid_ok s Hv).
    unfold bind at 1. unfold get at 1. rewrite Hro. rewrite bind_ret.
    unfold find_block. rewrite bind_bind. unfold bind at 1. unfold get at 1.
    rewrite bind_ret. reflexivity. }
  split.
  - intros Hl. unfold renameFile. fold old_spec new_spec.
    rewrite Hstart, Hl. reflexivity.
  - intros src Hsrc Hne Hdest. unfold renameFile. fold old_spec new_spec.
    rewrite Hstart, Hsrc.
    unfold find_block at 1. rewrite bind_bind. unfold bind at 1. unfold get at 1.
    rewrite bind_ret.
    destruct (mFileBlocks s !! new_spec) as [dest|] eqn:Hnew.
    + (* the new key has a record: purge it, then delete it *)
      specialize (Hdest dest eq_refl).
      destruct (removeFileBlock_ok s new_spec dest Hok Hnew)
        as (b' & s1 & Hrun & _ & _ & Hlocks & _ & _ & Hfiles & _ & Hdata & Hok1).
      rewrite bind_bind. mstep Hrun. rewrite bind_put_block.
      set (s1' := set_mFileBlocks (<[new_spec := b']> (mFileBlocks s1)) s1) in *.
      unfold find_block at 1. rewrite bind_bind. unfold bind at 1. unfold get at 1.
      rewrite bind_ret.
      assert (Hnew1 : mFileBlocks s1' !! new_spec = Some b') by apply lookup_insert_eq.
      assert (Hsrc1 : mFileBlocks s1' !! old_spec = Some src).
      { unfold s1'. cbn. rewrite lookup_insert_ne by congruence.
        rewrite Hfiles. exact Hsrc. }
      rewrite Hnew1.
      rewrite bind_bind. mstep (lru_deref_some _ _ _ Hsrc1).
      erewrite bind_congr
        by (apply rename_locks_run; rewrite Hlocks; exact Hdest).
      rewrite bind_bind, bind_put_block.
      unfold bind at 1. unfold modify at 1.
      match goal with |- context [bind _ _ ?t] => set (s2 := t) end.
      assert (Hok2 : vfs_ok s2).
      { destruct Hok1 as (Hv1 & Hro1 & Hfl1 & Hdir1).
        split; [exact Hv1|]. split; [exact Hro1|]. split; [exact Hfl1|].
        intros k c Hc. unfold s2 in Hc. cbn in Hc.
        apply lookup_delete_Some in Hc as [Hk Hc].
        rewrite lookup_insert_ne in Hc by congruence.
        assert (Hc1 : mFileBlocks s1' !! k = Some c) by exact Hc.
        destruct (Hdir1 _ _ Hc1) as (Hkey1 & Hlen1 & Hpos1 & Hpair1).
        split; [exact Hkey1|]. split; [exact Hlen1|]. split; [exact Hpos1|].
        intros k2 c2 Hne2 Hc2 Hp Hp2. cbn in Hc2.
        apply lookup_delete_Some in Hc2 as [Hk2 Hc2].
        rewrite lookup_insert_ne in Hc2 by congruence.
        apply (Hpair1 k2 c2 Hne2 Hc2 Hp Hp2). }
      assert (Hsrc2 : mFileBlocks s2 !! old_spec = Some src).
      { unfold s2. cbn. rewrite lookup_delete_ne by congruence.
        rewrite lookup_insert_ne by congruence. exact Hsrc1. }
      assert (Hnew2 : mFileBlocks s2 !! new_spec = None).
      { unfold s2. cbn. apply lookup_delete_eq. }
      destruct (rename_tail s2 old_spec new_spec src now Hok2 Hsrc2 Hne Hnew2)
        as (s' & slot & Htail & Hok' & Hfiles' & Hdata' & _).
      eexists s', _. split; [exact Htail|]. split; [exact Hok'|].
      rewrite Hfiles'.
      split; [rewrite lookup_insert_ne by congruence; apply lookup_delete_eq|].
      split; [apply lookup_insert_eq|].
      cbn. split_and!; try reflexivity.
      * intros k Hk1 Hk2. rewrite lookup_insert_ne by congruence.
        rewrite lookup_delete_ne by congruence.
        unfold s2. cbn. rewrite lookup_delete_ne by congruence.
        rewrite !lookup_insert_ne by congruence. rewrite Hfiles. reflexivity.
      * rewrite Hdata'. exact Hdata.
    + rewrite bind_ret.
      unfold find_block at 1. rewrite bind_bind. unfold bind at 1. unfold get at 1.
      rewrite bind_ret, Hnew, bind_ret.
      destruct (rename_tail s old_spec new_spec src now Hok Hsrc Hne Hnew)
        as (s' & slot & Htail & Hok' & Hfiles' & Hdata' & _).
      eexists s', _. split; [exact Htail|]. split; [exact Hok'|].
      rewrite Hfiles'.
      split; [rewrite lookup_insert_ne by congruence; apply lookup_delete_eq|].
      split; [apply lookup_insert_eq|].
      cbn. split_and!; try reflexivity.
      * intros k Hk1 Hk2. rewrite lookup_insert_ne by congruence.
        apply lookup_delete_ne. congruence.
      * exact Hdata'.
Qed.

(** ** The index file *)

Lemma pwrite_drop pos buf file :
  0 <= pos ->
  drop (Z.to_nat pos) (pwrite pos buf file)
  = buf ++ drop (Z.to_nat pos + length buf) file.
Proof.
  intros Hpos. unfold pwrite.
  rewrite drop_app_length'; [reflexivity|].
  rewrite length_take, length_app, repeat_length. lia.
Qed.

Lemma pwrite_lookup_outside pos buf file (i : nat) :
  0 <= pos -> (i < length file)%nat ->
  Z.of_nat i < pos \/ pos + Z.of_nat (length buf) <= Z.of_nat i ->
  pwrite pos buf file !! i = file !! i.
Proof.
  intros Hpos Hi Hout. unfold pwrite.
  assert (Hlen : length (take (Z.to_nat pos)
                           (file ++ repeat 0 (Z.to_nat pos - length file)))
                 = Z.to_nat pos).
  { rewrite length_take, length_app, repeat_length. lia. }
  destruct Hout as [Hlt|Hge].
  - rewrite lookup_app_l by lia.
    rewrite lookup_take_lt by lia. apply lookup_app_l. exact Hi.
  - rewrite lookup_app_r by lia. rewrite Hlen.
    rewrite lookup_app_r by lia.
    rewrite lookup_drop. f_equal. lia.
Qed.

(** Where [sync] writes a record that stays, in one formula: the position
    is the index location the record ends up with. *)
Lemma sync_written s (block : LLVFSFileBlock) :
  isValid s = true -> mReadOnly s = false ->
  mLength block <> BLOCK_LENGTH_INVALID -> mLength block <> 0 ->
  0 <= mIndexLocation block \/ mIndexLocation block = -1 ->
  Forall (fun hole => 0 <= hole) (mIndexHoles s) ->
  Z.of_nat (length (mIndexFP s)) < 2 ^ 31 ->
  exists slot holes,
    0 <= slot
    /\ sync block false s
       = Returned (set_mIndexLocation slot block)
           (set_mIndexFP
              (pwrite slot (serialize (set_mIndexLocation slot block))
                 (mIndexFP s))
              (set_mIndexHoles holes s)).
Proof.
  intros Hv Hro Hlen H0 Hloc Hholes Hsize. unfold sync.
  mstep (check_valid_ok s Hv).
  unfold bind at 1. unfold get at 1. rewrite Hro.
  destruct (Z.eqb_spec (mLength block) BLOCK_LENGTH_INVALID); [contradiction|].
  destruct (Z.eqb_spec (mLength block) 0); [contradiction|].
  rewrite bind_ret. unfold bind at 1. unfold get at 1.
  destruct (Z.eqb_spec (-1) (mIndexLocation block)) as [E|E].
  - destruct (mIndexHoles s) as [|hole rest] eqn:Hh.
    + exists (Z.of_nat (length (mIndexFP s))), [].
      split; [lia|].
      unfold bind, get, ret, modify. cbn.
      rewrite wrapS32_small by lia.
      destruct s; cbn in *; subst; reflexivity.
    + apply Forall_cons in Hholes as [Hhole _].
      exists hole, rest. split; [exact Hhole|].
      unfold bind, get, ret, modify. cbn. reflexivity.
  - exists (mIndexLocation block), (mIndexHoles s).
    split; [lia|].
    unfold bind, get, ret, modify. cbn.
    rewrite set_mIndexLocation_same. destruct s; reflexivity.
Qed.

(** What [sync] writes for a record that passes the sanity check of the
    constructor, the replay of the index file reads back: the record at
    that offset goes into the directory with the same extent, key, size,
    access time and index location, and with no locks.  The bytes of the
    index file outside the 34 bytes of the slot are as before. *)
Theorem sync_then_replay (s : LLVFS) (block : LLVFSFileBlock)
    (data_size now : Z) (st : index_replay) :
  isValid s = true -> mReadOnly s = false ->
  block_fields_ok block ->
  sane_block data_size block = true ->
  0 <= mIndexLocation block \/ mIndexLocation block = -1 ->
  Forall (fun hole => 0 <= hole) (mIndexHoles s) ->
  Z.of_nat (length (mIndexFP s)) < 2 ^ 31 ->
  exists slot s',
    sync block false s = Returned (set_mIndexLocation slot block) s'
    /\ 0 <= slot
    /\ (forall i : nat,
          (i < length (mIndexFP s))%nat ->
          Z.of_nat i < slot \/ slot + 34 <= Z.of_nat i ->
          mIndexFP s' !! i = mIndexFP s !! i)
    /\ (slot < 2 ^ 31 ->
        let restored :=
          mkFileBlock (fbBlock block) (fbSpec block) (mSize block) slot
                      (mAccessTime block) no_locks in
        exists st',
          replay_record data_size now (mIndexFP s') slot st = ReplayDone st'
          /\ rFileBlocks st'
             = match rFileBlocks st !! fbSpec block with
               | Some _ => rFileBlocks st
               | None => <[fbSpec block := restored]> (rFileBlocks st)
               end
          /\ rIndexHoles st' = rIndexHoles st).
Proof.
  intros Hv Hro Hfields Hsane Hloc Hholes Hsize.
  assert (Hlen : 0 < mLength block).
  { unfold sane_block in Hsane. rewrite !andb_true_iff in Hsane.
    destruct Hsane as [[[[[[[H _] _] _] _] _] _] _]. lia. }
  destruct (sync_written s block Hv Hro) as (slot & holes & Hslot & Hrun);
    [unfold BLOCK_LENGTH_INVALID; lia|lia|assumption..|].
  assert (Hfields' : block_fields_ok (set_mIndexLocation slot block)) by exact Hfields.
  rewrite (serialize_layout _ Hfields') in Hrun.
  change (record_layout (set_mIndexLocation slot block))
    with (record_layout block) in Hrun.
  assert (Hrl : length (record_layout block) = 34%nat).
  { apply record_layout_length. destruct Hfields as (_ & _ & _ & H & _). exact H. }
  eexists slot, _. split; [exact Hrun|]. split; [exact Hslot|]. split.
  - intros i Hi Hout. cbn [mIndexFP set_mIndexFP].
    apply pwrite_lookup_outside; [exact Hslot|exact Hi|]. rewrite Hrl. lia.
  - intros Hs31 restored. unfold replay_record.
    cbn [mIndexFP set_mIndexFP].
    rewrite pwrite_drop by exact Hslot.
    rewrite (deserialize_layout _ block _ _ Hfields).
    rewrite wrapS32_small by lia.
    unfold default_LLVFSFileBlock, new_LLVFSFileBlock. cbn [mLocks].
    replace (mkFileBlock (mkBlock (mLocation block) (mLength block))
               (mkSpec (mFileID block) (mFileType block)) (mSize block) slot
               (mAccessTime block) no_locks) with restored
      by (unfold restored; destruct block as [[] [] ? ? ? ?]; reflexivity).
    unfold classify_record.
    replace (sane_block data_size restored) with (sane_block data_size block)
      by reflexivity.
    rewrite Hsane. eexists. split; [reflexivity|]. split; reflexivity.
Qed.

(** The slot that [sync] clears when a record is removed is a hole for the
    replay of the index file. *)
Theorem sync_remove_then_replay (s : LLVFS) (block : LLVFSFileBlock)
    (data_size now : Z) (st : index_replay) :
  isValid s = true -> mReadOnly s = false ->
  mLength block <> BLOCK_LENGTH_INVALID -> mLength block <> 0 ->
  0 <= mIndexLocation block < 2 ^ 31 ->
  exists s',
    sync block true s = Returned block s'
    /\ mIndexHoles s' = mIndexHoles s ++ [mIndexLocation block]
    /\ replay_record data_size now (mIndexFP s') (mIndexLocation block) st
       = ReplayDone
           (mkReplay (rFileBlocks st) (files_by_loc st)
                     (rIndexHoles st ++ [mIndexLocation block])).
Proof.
  intros Hv Hro Hlen H0 Hloc.
  eexists. split; [|split].
  - unfold sync. mstep (check_valid_ok s Hv).
    unfold bind at 1. unfold get at 1. rewrite Hro.
    destruct (Z.eqb_spec (mLength block) BLOCK_LENGTH_INVALID); [contradiction|].
    destruct (Z.eqb_spec (mLength block) 0); [contradiction|].
    rewrite bind_ret. unfold bind at 1. unfold get at 1.
    destruct (Z.eqb_spec (-1) (mIndexLocation block)); [lia|].
    unfold bind, get, ret, modify. cbn.
    rewrite set_mIndexLocation_same. reflexivity.
  - reflexivity.
  - cbn [mIndexFP set_mIndexFP]. unfold replay_record.
    rewrite pwrite_drop by lia.
    set (zero := mkFileBlock (mkBlock 0 0) (mkSpec (repeat 0 16) 0) 0 0 0 no_locks).
    assert (Hz : block_fields_ok zero).
    { unfold block_fields_ok, inU32, inS32, inS16. cbn. repeat split; lia. }
    change (repeat 0 (Z.to_nat SERIAL_SIZE)) with (record_layout zero).
    rewrite (deserialize_layout _ zero _ _ Hz).
    rewrite wrapS32_small by lia. reflexivity.
Qed.

(** ** The free lists once more *)

Lemma erase_first_none p l : p ∉ map snd l -> erase_first p l = None.
Proof.
  induction l as [|[k q] r IH]; intros Hp; [reflexivity|].
  cbn [erase_first]. cbn in Hp. rewrite not_elem_of_cons in Hp.
  destruct Hp as [Hne Hp]. destruct (decide (q = p)); [congruence|].
  rewrite IH by exact Hp. reflexivity.
Qed.

(** [eraseBlock] takes a free block out of both indexes and leaves the
    other entries where they are.  For a block that the length index does
    not hold, [eraseBlockLength] ends on the error stream and the indexes
    are as before. *)
Theorem eraseBlock_both_indexes (s : LLVFS) (p : ptr) (b : LLVFSBlock) :
  blocks s !! p = Some b ->
  (free_lists_ok s -> p ∈ map snd (mFreeBlocksByLocation s) ->
   exists s',
     eraseBlock p s = Returned tt s'
     /\ mFreeBlocksByLocation s' = remove_ptr p (mFreeBlocksByLocation s)
     /\ mFreeBlocksByLength s' = remove_ptr p (mFreeBlocksByLength s)
     /\ blocks s' = blocks s
     /\ (p ∉ map snd (mFreeBlocksByLocation s'))
     /\ (p ∉ map snd (mFreeBlocksByLength s')))
  /\ (p ∉ map snd (mFreeBlocksByLength s) ->
      eraseBlockLength p s = llerrs "eraseBlock could not find block" s).
Proof.
  intros Hb. split.
  - intros Hok Hp. pose proof Hok as [He Hg _ _ Hnd Hsame].
    apply elem_of_snd_inv in Hp as [k Hin].
    pose proof (length_entry_of_location _ _ _ _ _ _ Hok Hin Hb) as HinN.
    assert (Hk : mLocation b = k).
    { rewrite Forall_forall in He. destruct (He _ Hin) as (b' & Hb' & Hk' & _).
      cbn in Hb', Hk'. rewrite Hb in Hb'. injection Hb' as <-. exact Hk'. }
    eexists. split; [apply (eraseBlock_ok s p b Hb Hnd HinN)|].
    cbn. rewrite Hk, (map_erase_remove_ptr _ _ _ _ He Hg Hin).
    split; [reflexivity|]. split; [reflexivity|]. split; [reflexivity|].
    rewrite !elem_of_snd_remove_ptr. tauto.
  - intros Hp. unfold eraseBlockLength.
    mstep (deref_some _ _ _ Hb). unfold bind at 1. unfold get at 1.
    destruct (lower_bound (mLength b) (mFreeBlocksByLength s)) as [a0 b0] eqn:Hlb.
    destruct (lower_bound_spec _ _ _ _ Hlb) as (HN & _ & _).
    rewrite erase_first_none; [reflexivity|].
    intros Hin. apply Hp. rewrite HN, map_app, elem_of_app. right. exact Hin.
Qed.

(** [useFreeSpace] takes [length] bytes from the front of a free block:
    the block goes when that is all of it, and otherwise begins [length]
    bytes later and is that much shorter.  The other free extents, and
    everything outside the free lists, are as before. *)
Theorem useFreeSpace_takes_front (s : LLVFS) (p : ptr) (fb : LLVFSBlock)
    (length : Z) (a b : list (Z * ptr)) :
  free_lists_ok s ->
  mFreeBlocksByLocation s = a ++ (mLocation fb, p) :: b ->
  blocks s !! p = Some fb ->
  0 < length <= mLength fb ->
  exists s',
    useFreeSpace p length s = Returned tt s'
    /\ free_lists_ok s'
    /\ same_outside_free_lists s s'
    /\ free_extents s
       = extents_of (blocks s) a
         ++ [(mLocation fb, mLength fb)] ++ extents_of (blocks s) b
    /\ free_extents s'
       = extents_of (blocks s) a
         ++ (if mLength fb =? length then []
             else [(mLocation fb + length, mLength fb - length)])
         ++ extents_of (blocks s) b.
Proof.
  intros Hok HL Hfb Hlen.
  destruct (useFreeSpace_ok s p (mLocation fb) fb length a b Hok HL Hfb Hlen)
    as (s' & Hrun & Hok' & Hsame & Hext).
  exists s'. split; [exact Hrun|]. split; [exact Hok'|].
  split; [exact Hsame|]. split; [|exact Hext].
  unfold free_extents. rewrite HL, extents_of_app, extents_of_cons.
  cbn [snd]. rewrite Hfb. reflexivity.
Qed.

(** ** Order of the blocks in the scratch list of the constructor *)

(** [insertFirstLL] compares by location and then by length: a strict
    total order on blocks. *)
Theorem insertFirstLL_strict_total (a b c : LLVFSBlock) :
  insertFirstLL a a = false
  /\ (insertFirstLL a b = true -> insertFirstLL b a = false)
  /\ (insertFirstLL a b = true -> insertFirstLL b c = true ->
      insertFirstLL a c = true)
  /\ (insertFirstLL a b = false -> insertFirstLL b a = false -> a = b).
Proof.
  assert (Hspec : forall x y : LLVFSBlock,
            insertFirstLL x y = true <->
            mLocation x < mLocation y
            \/ (mLocation x = mLocation y /\ mLength x < mLength y)).
  { intros x y. unfold insertFirstLL.
    destruct (Z.eqb_spec (mLocation x) (mLocation y)); cbn [negb].
    - rewrite Z.ltb_lt. lia.
    - rewrite Z.ltb_lt. lia. }
  assert (Hfalse : forall x y : LLVFSBlock,
            insertFirstLL x y = false <->
            ~ (mLocation x < mLocation y
               \/ (mLocation x = mLocation y /\ mLength x < mLength y))).
  { intros x y. rewrite <- Hspec. destruct (insertFirstLL x y); split; congruence. }
  rewrite !Hspec, !Hfalse.
  split; [lia|]. split; [lia|]. split; [lia|].
  intros H1 H2. destruct a, b. cbn in *. f_equal; lia.
Qed.

(** ** Writes that are turned away *)

(** [storeData] for a key with no record returns 0 and changes nothing.
    For a position behind the reserved length it logs a warning, writes
    nothing and returns the count that was asked for. *)
Theorem storeData_turned_away (s : LLVFS) (file_id : LLUUID) (file_type : Z)
    (buffer : list Z) (location length now : Z) :
  let spec := mkSpec file_id file_type in
  isValid s = true -> mReadOnly s = false ->
  (mFileBlocks s !! spec = None ->
   storeData file_id file_type buffer location length now s = Returned 0 s)
  /\ (forall block : LLVFSFileBlock,
        mFileBlocks s !! spec = Some block ->
        mLength block <> BLOCK_LENGTH_INVALID ->
        mLength block < store_position block location ->
        storeData file_id file_type buffer location length now s
        = Returned length
            (set_llog (llog s ++ [(LLWARNS,
               "VFS: Attempt to write to location"%string)])
               (set_mFileBlocks
                  (<[spec := set_mAccessTime now block]> (mFileBlocks s)) s))).
Proof.
  intros spec Hv Hro.
  assert (Hstart : forall k : option LLVFSFileBlock -> M Z,
    (check_valid ;;;
     s0 <- get ;;
     (if mReadOnly s0 then llerrs "Attempt to write to read-only VFS" else ret tt) ;;;
     it <- find_block spec ;; k it) s
    = k (mFileBlocks s !! spec) s).
  { intros k. mstep (check_valid_ok s Hv).
    unfold bind at 1. unfold get at 1. rewrite Hro. rewrite bind_ret.
    unfold find_block. rewrite bind_bind. unfold bind at 1. unfold get at 1.
    rewrite bind_ret. reflexivity. }
  split.
  - intros Hl. unfold storeData. fold spec. rewrite Hstart, Hl. reflexivity.
  - intros block Hl Hlen Hbehind. unfold storeData. fold spec.
    rewrite Hstart, Hl. fold (store_position block location).
    rewrite bind_put_block. cbn [mLength set_mAccessTime fbBlock].
    destruct (Z.eqb_spec (mLength block) BLOCK_LENGTH_INVALID); [contradiction|].
    destruct (Z.gtb_spec (store_position block location) (mLength block)); [|lia].
    reflexivity.
Qed.

(** ** Resizing keeps the file system consistent *)

(** A record whose extent is cut down to its front part, once the tail is
    in the free lists. *)
Lemma vfs_ok_shrink s s' spec (block block' : LLVFSFileBlock) :
  vfs_ok s -> mFileBlocks s !! spec = Some block ->
  0 < mLength block ->
  mLocation block' = mLocation block ->
  0 < mLength block' <= mLength block ->
  fbSpec block' = spec ->
  free_lists_ok s' ->
  mValid s' = mValid s -> mReadOnly s' = mReadOnly s ->
  mFileBlocks s' = <[spec := block']> (mFileBlocks s) ->
  (forall F : LLVFSBlock,
     0 < mLength F -> clear_of_free s F ->
     (mLocation F + mLength F <= mLocation block + mLength block'
      \/ mLocation block + mLength block <= mLocation F) ->
     clear_of_free s' F) ->
  vfs_ok s'.
Proof.
  intros (Hv & Hro & Hfl & Hdir) Hl Hpos Hloc Hlen Hkey Hfl' Hsv Hsro Hfiles Hcov.
  destruct (Hdir _ _ Hl) as (_ & _ & Hext & Hpair).
  destruct (Hext Hpos) as (Hloc0 & Hend & Hclear).
  split; [rewrite (isValid_same _ _ Hsv); exact Hv|].
  split; [rewrite Hsro; exact Hro|]. split; [exact Hfl'|].
  intros k1 c Hc. rewrite Hfiles in Hc.
  destruct (decide (k1 = spec)) as [->|Hne].
  - rewrite lookup_insert_eq in Hc. injection Hc as <-.
    split; [exact Hkey|]. split; [left; lia|]. split.
    + intros _. split; [lia|]. split; [lia|].
      apply Hcov; [lia| |lia].
      intros e fb Hin Hfb. destruct (Hclear e fb Hin Hfb); lia.
    + intros k2 c2 Hne2 Hc2 _ Hp2. rewrite Hfiles in Hc2.
      rewrite lookup_insert_ne in Hc2 by congruence.
      destruct (Hpair k2 c2 Hne2 Hc2 Hpos Hp2); lia.
  - rewrite lookup_insert_ne in Hc by congruence.
    destruct (Hdir _ _ Hc) as (Hkey1 & Hlen1 & Hpos1 & Hpair1).
    split; [exact Hkey1|]. split; [exact Hlen1|]. split.
    + intros Hp. destruct (Hpos1 Hp) as (H0 & Hend1 & Hclear1).
      split; [exact H0|]. split; [exact Hend1|].
      apply Hcov; [exact Hp|exact Hclear1|].
      destruct (Hpair1 spec block ltac:(congruence) Hl Hp Hpos); lia.
    + intros k2 c2 Hne2 Hc2 Hp Hp2. rewrite Hfiles in Hc2.
      destruct (decide (k2 = spec)) as [->|Hne3].
      * rewrite lookup_insert_eq in Hc2. injection Hc2 as <-.
        destruct (Hpair1 spec block ltac:(congruence) Hl Hp Hpos); lia.
      * rewrite lookup_insert_ne in Hc2 by congruence.
        apply (Hpair1 k2 c2 Hne2 Hc2 Hp Hp2).
Qed.

(** A record that has grown over the front of the free block behind it. *)
Lemma vfs_ok_grow s used p fb a b spec (block block' : LLVFSFileBlock) inc :
  vfs_ok s -> mFileBlocks s !! spec = Some block ->
  0 < mLength block ->
  mFreeBlocksByLocation s = a ++ (mLocation fb, p) :: b ->
  blocks s !! p = Some fb ->
  mLocation fb = mLocation block + mLength block ->
  0 < inc <= mLength fb ->
  mLocation block' = mLocation block ->
  mLength block' = mLength block + inc ->
  fbSpec block' = spec ->
  free_lists_ok used ->
  mValid used = mValid s -> mReadOnly used = mReadOnly s ->
  mFileBlocks used = <[spec := block']> (mFileBlocks s) ->
  free_extents used
  = extents_of (blocks s) a
    ++ (if mLength fb =? inc then []
        else [(mLocation fb + inc, mLength fb - inc)])
    ++ extents_of (blocks s) b ->
  vfs_ok used.
Proof.
  intros (Hv & Hro & Hok & Hdir) Hl Hpos HL Hfb Hadj Hinc Hloc Hlen Hkey
    Hoku Hvu Hrou Hfiles Hext.
  destruct (Hdir _ _ Hl) as (_ & _ & Hextent & Hpair).
  destruct (Hextent Hpos) as (Hloc0 & Hend & Hclear).
  pose proof Hok as [He Hg _ _ _ _].
  assert (HeL := He). rewrite HL in HeL.
  apply Forall_app in HeL as [Hea HeL]. apply Forall_cons in HeL as [Hep Heb].
  destruct Hep as (fb' & Hfb' & _ & Hk0 & Hfpos & Hfend). cbn in Hfb', Hk0, Hfend.
  rewrite Hfb in Hfb'. injection Hfb' as <-.
  assert (Hinp : (mLocation fb, p) ∈ mFreeBlocksByLocation s)
    by (rewrite HL; apply elem_of_app; right; left).
  assert (Hsub : forall x, x ∈ free_extents used ->
            (x ∈ free_extents s /\ 0 < snd x
             /\ (fst x + snd x <= mLocation fb
                 \/ mLocation fb + mLength fb <= fst x))
            \/ (fst x = mLocation fb + inc
                /\ snd x = mLength fb - inc /\ inc < mLength fb)).
  { intros x Hx. rewrite Hext in Hx. rewrite HL in Hg.
    unfold free_extents. rewrite HL, extents_of_app, extents_of_cons.
    cbn [snd]. rewrite Hfb.
    apply elem_of_app in Hx as [Hx|Hx]; [|apply elem_of_app in Hx as [Hx|Hx]].
    - left. split; [apply elem_of_app; left; exact Hx|].
      apply (elem_of_extents_of _ _ _ Hea) in Hx as (e & fe & Hin & Hfe & ->).
      pose proof (StronglySorted_app_1_elem_of _ _ _ e (mLocation fb, p) Hg Hin
                    ltac:(left) _ Hfe) as Hlt.
      rewrite Forall_forall in Hea. destruct (Hea _ Hin) as (fe' & Hfe' & _ & _ & Hfp & _).
      rewrite Hfe in Hfe'. injection Hfe' as <-.
      cbn in *. lia.
    - right. destruct (Z.eqb_spec (mLength fb) inc) as [E|E];
        [apply elem_of_nil in Hx; contradiction|].
      apply list_elem_of_singleton in Hx as ->. cbn. lia.
    - left. split; [apply elem_of_app; right; right; exact Hx|].
      apply (elem_of_extents_of _ _ _ Heb) in Hx as (e & fe & Hin & Hfe & ->).
      apply StronglySorted_app_1_r in Hg.
      apply StronglySorted_inv in Hg as [_ Hall].
      rewrite Forall_forall in Hall. specialize (Hall _ Hin _ Hfb).
      rewrite Forall_forall in Heb.
      destruct (Heb _ Hin) as (fe' & Hfe' & Hke & _ & Hfp & _).
      rewrite Hfe in Hfe'. injection Hfe' as <-.
      cbn in *. lia. }
  assert (Hold : forall c : LLVFSBlock,
            0 < mLength c -> clear_of_free s c -> clear_of_free used c).
  { intros c Hc Hclearc. apply (clear_of_free_extents used c Hoku).
    intros x Hx. destruct (Hsub x Hx) as [(Hin & _)|(H1 & H2 & H3)].
    - apply (proj1 (clear_of_free_extents s c Hok) Hclearc x Hin).
    - pose proof (Hclearc _ _ Hinp Hfb) as Hc'. cbn in Hc'. lia. }
  split; [rewrite (isValid_same _ _ Hvu); exact Hv|].
  split; [rewrite Hrou; exact Hro|]. split; [exact Hoku|].
  intros k1 c Hc. rewrite Hfiles in Hc.
  destruct (decide (k1 = spec)) as [->|Hne].
  - rewrite lookup_insert_eq in Hc. injection Hc as <-.
    split; [exact Hkey|]. split; [left; lia|]. split.
    + intros _. split; [lia|]. split; [lia|].
      apply (clear_of_free_extents used block' Hoku).
      intros x Hx.
      destruct (Hsub x Hx) as [(Hin & Hxp & Hapart)|(H1 & H2 & H3)]; [|lia].
      pose proof (proj1 (clear_of_free_extents s block Hok) Hclear x Hin). lia.
    + intros k2 c2 Hne2 Hc2 _ Hp2. rewrite Hfiles in Hc2.
      rewrite lookup_insert_ne in Hc2 by congruence.
      destruct (Hdir _ _ Hc2) as (_ & _ & Hpos2 & _).
      destruct (Hpos2 Hp2) as (_ & _ & Hclear2).
      pose proof (Hclear2 _ _ Hinp Hfb) as Hc'. cbn in Hc'.
      destruct (Hpair k2 c2 Hne2 Hc2 Hpos Hp2); lia.
  - rewrite lookup_insert_ne in Hc by congruence.
    destruct (Hdir _ _ Hc) as (Hkey1 & Hlen1 & Hpos1 & Hpair1).
    split; [exact Hkey1|]. split; [exact Hlen1|]. split.
    + intros Hp. destruct (Hpos1 Hp) as (H0 & Hend1 & Hclear1).
      split; [exact H0|]. split; [exact Hend1|]. apply Hold; assumption.
    + intros k2 c2 Hne2 Hc2 Hp Hp2. rewrite Hfiles in Hc2.
      destruct (decide (k2 = spec)) as [->|Hne3].
      * rewrite lookup_insert_eq in Hc2. injection Hc2 as <-.
        destruct (Hpos1 Hp) as (_ & _ & Hclear1).
        pose proof (Hclear1 _ _ Hinp Hfb) as Hc'. cbn in Hc'.
        destruct (Hpair1 spec block ltac:(congruence) Hl Hp Hpos); lia.
      * rewrite lookup_insert_ne in Hc2 by congruence.
        apply (Hpair1 k2 c2 Hne2 Hc2 Hp Hp2).
Qed.

(** [setMaxSize] that shrinks a file whose used bytes fit in the new
    length: the call returns true, the file system stays consistent, the
    record keeps its location, its used size and its locks, and neither
    the other records nor the data file change. *)
Theorem setMaxSize_shrink_consistent (s : LLVFS) (file_id : LLUUID)
    (file_type max_size now : Z) (block : LLVFSFileBlock) :
  let spec := mkSpec file_id file_type in
  let new_length := round_to_block max_size in
  vfs_ok s -> 0 < max_size ->
  mFileBlocks s !! spec = Some block ->
  0 < new_length < mLength block ->
  mSize block <= new_length ->
  exists s' (block' : LLVFSFileBlock),
    setMaxSize file_id file_type max_size now s = Returned true s'
    /\ vfs_ok s'
    /\ mFileBlocks s' !! spec = Some block'
    /\ mLocation block' = mLocation block
    /\ mLength block' = new_length
    /\ mSize block' = mSize block
    /\ mLocks block' = mLocks block
    /\ (forall k, k <> spec -> mFileBlocks s' !! k = mFileBlocks s !! k)
    /\ mDataFP s' = mDataFP s.
Proof.
  intros spec new_length Hok Hmax Hl Hnew Hfits.
  pose proof Hok as (Hv & Hro & Hfl & Hdir).
  destruct (Hdir _ _ Hl) as (Hkey & _ & Hext & _).
  destruct (Hext ltac:(lia)) as (Hloc0 & Hend & Hclear).
  set (stamped :=
    set_mFileBlocks (<[spec := set_mAccessTime now block]> (mFileBlocks s)) s).
  assert (Hoka : free_lists_ok stamped) by exact Hfl.
  destruct (free_extent_ok stamped (mLocation block + new_length)
              (mLength block - new_length) Hoka)
    as (freed & Hrun & Hokf & Hsame & Hk & Hcov); [lia|lia|lia| |].
  { intros e fb Hin Hfb. destruct (Hclear e fb Hin Hfb); lia. }
  destruct Hsame as (Hsv & Hsro & Hsfb & Hsh & Hslc & Hsif & Hsdf & Hslog).
  set (block1 := set_mLength new_length (set_mAccessTime now block)).
  set (s2 := set_mFileBlocks (<[spec:=block1]> (mFileBlocks freed)) freed).
  destruct (sync_runs s2 block1 false) as (slot & holes & file & Hsync).
  { unfold s2. change (isValid freed = true). rewrite (isValid_same _ _ Hsv). exact Hv. }
  { unfold s2. change (mReadOnly freed = false). rewrite Hsro. exact Hro. }
  { cbn. lia. }
  eexists _, (set_mIndexLocation slot block1). split.
  - unfold setMaxSize.
    mstep (check_valid_ok s Hv).
    unfold bind at 1. unfold get at 1. rewrite Hro. rewrite bind_ret.
    destruct (Z.leb_spec max_size 0); [lia|].
    unfold find_block. rewrite bind_bind. unfold bind at 1. unfold get at 1.
    rewrite bind_ret. fold spec. rewrite Hl. fold new_length.
    destruct (Z.gtb_spec (mLength block) 0); [|lia].
    rewrite bind_put_block. fold stamped.
    cbn [mLength set_mAccessTime fbBlock mLocation].
    destruct (Z.eqb_spec new_length (mLength block)); [lia|].
    destruct (Z.ltb_spec new_length (mLength block)); [|lia].
    rewrite wrapU32_small by lia. rewrite wrapS32_small by lia.
    rewrite Hk. cbv zeta. fold block1.
    rewrite bind_put_block. fold s2.
    cbn [mLength mSize block1 set_mLength set_mAccessTime fbBlock].
    destruct (Z.ltb_spec new_length (mSize block)); [lia|].
    rewrite bind_ret, bind_put_block.
    replace (set_mFileBlocks (<[spec:=block1]> (mFileBlocks s2)) s2) with s2
      by (unfold s2; cbn; rewrite insert_insert_eq; reflexivity).
    mstep Hsync. rewrite bind_put_block. reflexivity.
  - assert (Hfiles :
      <[spec:=set_mIndexLocation slot block1]> (<[spec:=block1]> (mFileBlocks freed))
      = <[spec:=set_mIndexLocation slot block1]> (mFileBlocks s)).
    { rewrite Hsfb. unfold stamped. cbn. rewrite !insert_insert_eq. reflexivity. }
    split; [|split; [cbn; rewrite Hfiles; apply lookup_insert_eq|]].
    + apply (vfs_ok_shrink s _ spec block (set_mIndexLocation slot block1));
        [exact Hok|exact Hl|lia|reflexivity|cbn; lia|exact Hkey|exact Hokf
        |exact Hsv|exact Hsro|exact Hfiles|].
      intros F HF HFclear HFapart.
        apply (clear_of_free_same freed); [reflexivity|reflexivity|].
        apply Hcov; [exact HF|exact HFclear|]. cbn in HFapart. lia.
    + cbn. split; [reflexivity|]. split; [reflexivity|].
      split; [reflexivity|]. split; [reflexivity|]. split; [|exact Hsdf].
      intros k Hk'. rewrite Hfiles. apply lookup_insert_ne. congruence.
Qed.

(** [setMaxSize] that grows a file into the free block right behind it:
    the call returns true, the file system stays consistent, the record
    keeps its location, its used size and its locks, and neither the other
    records nor the data file change. *)
Theorem setMaxSize_grow_in_place_consistent (s : LLVFS) (file_id : LLUUID)
    (file_type max_size now : Z) (block : LLVFSFileBlock) :
  let spec := mkSpec file_id file_type in
  let new_length := round_to_block max_size in
  vfs_ok s -> 0 < max_size ->
  mFileBlocks s !! spec = Some block ->
  0 < mLength block < new_length -> new_length < 2 ^ 31 ->
  can_grow_in_place s block (wrapS32 (new_length - mLength block)) = true ->
  exists s' (block' : LLVFSFileBlock),
    setMaxSize file_id file_type max_size now s = Returned true s'
    /\ vfs_ok s'
    /\ mFileBlocks s' !! spec = Some block'
    /\ mLocation block' = mLocation block
    /\ mLength block' = new_length
    /\ mSize block' = mSize block
    /\ mLocks block' = mLocks block
    /\ (forall k, k <> spec -> mFileBlocks s' !! k = mFileBlocks s !! k)
    /\ mDataFP s' = mDataFP s.
Proof.
  intros spec new_length Hok Hmax Hl Hnew Hnew31 Hgrow.
  pose proof Hok as (Hv & Hro & Hfl & Hdir).
  destruct (Hdir _ _ Hl) as (Hkey & _ & Hext & _).
  destruct (Hext ltac:(lia)) as (Hloc0 & Hend & Hclear).
  set (size_increase := new_length - mLength block) in *.
  rewrite (wrapS32_small size_increase) in Hgrow by (unfold size_increase; lia).
  unfold can_grow_in_place in Hgrow.
  destruct (upper_bound (mLocation block) (mFreeBlocksByLocation s))
    as [before after] eqn:Hub.
  destruct (upper_bound_spec _ _ _ _ Hub) as (HL & _ & _).
  cbn [snd] in Hgrow. destruct after as [|[k p] rest]; [discriminate|].
  destruct (blocks s !! p) as [fb|] eqn:Hfb; [|discriminate].
  apply andb_true_iff in Hgrow as [Hadj Hfit].
  rewrite wrapU32_small in Hadj by lia.
  apply Z.eqb_eq in Hadj. apply Z.geb_le in Hfit.
  pose proof Hfl as [He _ _ _ _ _]. rewrite Forall_forall in He.
  assert (Hin : (k, p) ∈ mFreeBlocksByLocation s)
    by (rewrite HL, elem_of_app; right; left).
  destruct (He _ Hin) as (fb' & Hfb' & Hk & Hk0 & Hpos & Hfend).
  cbn in Hfb', Hk, Hk0, Hfend.
  rewrite Hfb in Hfb'. injection Hfb' as <-. subst k.
  set (stamped :=
    set_mFileBlocks (<[spec := set_mAccessTime now block]> (mFileBlocks s)) s).
  assert (Hoka : free_lists_ok stamped) by exact Hfl.
  destruct (useFreeSpace_ok stamped p (mLocation fb) fb size_increase before rest
              Hoka HL Hfb ltac:(unfold size_increase; lia))
    as (used & Hrun & Hoku & Hsame & Hextents).
  destruct Hsame as (Hsv & Hsro & Hsfb & Hsh & Hslc & Hsif & Hsdf & Hslog).
  set (block1 := set_mLength new_length (set_mAccessTime now block)).
  set (s2 := set_mFileBlocks (<[spec:=block1]> (mFileBlocks used)) used).
  destruct (sync_runs s2 block1 false) as (slot & holes & file & Hsync).
  { unfold s2. change (isValid used = true). rewrite (isValid_same _ _ Hsv). exact Hv. }
  { unfold s2. change (mReadOnly used = false). rewrite Hsro. exact Hro. }
  { cbn. lia. }
  eexists _, (set_mIndexLocation slot block1). split.
  - unfold setMaxSize.
    mstep (check_valid_ok s Hv).
    unfold bind at 1. unfold get at 1. rewrite Hro. rewrite bind_ret.
    destruct (Z.leb_spec max_size 0); [lia|].
    unfold find_block. rewrite bind_bind. unfold bind at 1. unfold get at 1.
    rewrite bind_ret. fold spec. rewrite Hl. fold new_length.
    destruct (Z.gtb_spec (mLength block) 0); [|lia].
    rewrite bind_put_block. fold stamped.
    cbn [mLength set_mAccessTime fbBlock mLocation].
    destruct (Z.eqb_spec new_length (mLength block)); [lia|].
    destruct (Z.ltb_spec new_length (mLength block)); [lia|].
    fold size_increase.
    rewrite (wrapS32_small size_increase) by (unfold size_increase; lia).
    unfold bind at 1. unfold get at 1.
    change (mFreeBlocksByLocation stamped) with (mFreeBlocksByLocation s).
    rewrite Hub. cbn [snd].
    rewrite bind_bind.
    assert (Hfbs : blocks stamped !! p = Some fb) by exact Hfb.
    mstep (deref_some _ _ _ Hfbs).
    rewrite wrapU32_small by lia.
    destruct (Z.eqb_spec (mLocation fb) (mLocation block + mLength block)); [|lia].
    destruct (Z.geb_spec (mLength fb) size_increase); [|lia].
    cbn [andb].
    rewrite bind_bind. mstep Hrun.
    replace (wrapS32 (mLength block + size_increase)) with new_length
      by (unfold size_increase; rewrite wrapS32_small; lia).
    fold block1.
    rewrite bind_bind, bind_put_block. fold s2.
    rewrite bind_bind. mstep Hsync.
    rewrite bind_bind, bind_put_block, bind_ret.
    reflexivity.
  - assert (Hfiles :
      <[spec:=set_mIndexLocation slot block1]> (<[spec:=block1]> (mFileBlocks used))
      = <[spec:=set_mIndexLocation slot block1]> (mFileBlocks s)).
    { rewrite Hsfb. unfold stamped. cbn. rewrite !insert_insert_eq. reflexivity. }
    split; [|split; [cbn; rewrite Hfiles; apply lookup_insert_eq|]].
    + apply (vfs_ok_grow s _ p fb before rest spec block
               (set_mIndexLocation slot block1) size_increase);
        [exact Hok|exact Hl|lia|exact HL|exact Hfb|exact Hadj
        |unfold size_increase; lia|reflexivity
        |cbn; unfold size_increase; lia|exact Hkey|exact Hoku
        |exact Hsv|exact Hsro|exact Hfiles|exact Hextents].
    + cbn. split; [reflexivity|]. split; [reflexivity|].
      split; [reflexivity|]. split; [reflexivity|]. split; [|exact Hsdf].
      intros k Hk'. rewrite Hfiles. apply lookup_insert_ne. congruence.
Qed.

(** ** Moving a file *)

(** Freeing an extent that no free block touches: a new block goes into
    both indexes and nothing merges. *)
Lemma free_apart_extent s loc len :
  free_lists_ok s ->
  0 <= loc -> 0 < len -> loc + len < 2 ^ 31 ->
  apart (blocks s) (mFreeBlocksByLocation s) loc len ->
  let q := fresh (dom (blocks s)) in
  let s3 :=
    set_mFreeBlocksByLength
      (multimap_insert len q (mFreeBlocksByLength s))
      (set_mFreeBlocksByLocation
         (map_insert loc q (mFreeBlocksByLocation s))
         (set_blocks (<[q := mkBlock loc len]> (blocks s)) s)) in
  blocks s !! q = None
  /\ (q ∉ map snd (mFreeBlocksByLocation s))
  /\ free_lists_ok s3
  /\ (forall e, e ∈ mFreeBlocksByLocation s -> e ∈ mFreeBlocksByLocation s3)
  /\ forall B (k : M B),
       (free_block <- new_LLVFSBlock loc len ;;
        addFreeBlock free_block ;;; k) s = k s3.
Proof.
  intros Hok Hloc Hlen Hend Hapart q s3.
  assert (Hfresh : blocks s !! q = None).
  { apply not_elem_of_dom. apply is_fresh. }
  assert (Hnotin : q ∉ map snd (mFreeBlocksByLocation s)).
  { intros Hin. apply elem_of_snd_inv in Hin as [k Hk].
    destruct Hok as [He _ _ _ _ _]. rewrite Forall_forall in He.
    destruct (He _ Hk) as (b & Hb & _). cbn in Hb. congruence. }
  set (s1 := set_blocks (<[q:=mkBlock loc len]> (blocks s)) s).
  assert (Hagree : forall r, r ∈ map snd (mFreeBlocksByLocation s) ->
            <[q:=mkBlock loc len]> (blocks s) !! r = blocks s !! r).
  { intros r Hr. apply lookup_insert_ne. intros ->. contradiction. }
  assert (Hok1 : free_lists_ok s1).
  { unfold free_lists_ok, s1. cbn. eapply lists_ok_heap; [exact Hok|exact Hagree]. }
  assert (Hq1 : blocks s1 !! q = Some (mkBlock loc len)) by apply lookup_insert_eq.
  assert (Hapart1 : apart (blocks s1) (mFreeBlocksByLocation s1) loc len).
  { intros e fb Hin Hfb. unfold s1 in Hin, Hfb. cbn in Hin, Hfb.
    rewrite Hagree in Hfb by (apply elem_of_snd; exact Hin).
    apply (Hapart e fb Hin Hfb). }
  split; [exact Hfresh|]. split; [exact Hnotin|]. split; [|split].
  - unfold free_lists_ok, s3. cbn.
    apply (lists_ok_replace (blocks s)); auto; apply lookup_insert_eq.
  - intros e Hin. unfold s3. cbn.
    destruct (lists_ok_insert _ _ _ q loc len Hok1 Hnotin Hq1 Hloc Hlen Hend
                Hapart1) as (_ & a & b & HLab & Hins & _).
    cbn in HLab, Hins. rewrite Hins. rewrite HLab in Hin.
    apply elem_of_app in Hin as [H|H]; apply elem_of_app; [left|right; right];
      exact H.
  - intros B k.
    unfold new_LLVFSBlock at 1. rewrite !bind_bind.
    unfold bind at 1. unfold get at 1. fold q.
    unfold store at 1. rewrite bind_bind. unfold bind at 1. unfold modify at 1.
    fold s1. rewrite bind_ret.
    mstep (addFreeBlock_apart s1 q loc len Hok1 Hq1 Hapart1 Hloc Hlen Hend).
    reflexivity.
Qed.

(** The state after a live file has been taken out of its extent and the
    extent, which no free block touches, has been freed. *)
Lemma vfs_ok_freed_apart s s' spec (block d : LLVFSFileBlock) q :
  vfs_ok s -> mFileBlocks s !! spec = Some block -> 0 < mLength block ->
  blocks s !! q = None ->
  mValid s' = mValid s -> mReadOnly s' = mReadOnly s ->
  blocks s' = <[q := mkBlock (mLocation block) (mLength block)]> (blocks s) ->
  mFreeBlocksByLocation s'
  = map_insert (mLocation block) q (mFreeBlocksByLocation s) ->
  free_lists_ok s' ->
  mFileBlocks s' = <[spec := d]> (mFileBlocks s) ->
  fbSpec d = spec -> mLength d = BLOCK_LENGTH_INVALID ->
  vfs_ok s'.
Proof.
  intros (Hv & Hro & Hfl & Hdir) Hl Hpos Hq Hsv Hsro Hsb HsL Hfl' Hfiles
    Hkey Hdummy.
  pose proof Hfl as [He _ _ _ _ _]. rewrite Forall_forall in He.
  split; [rewrite (isValid_same _ _ Hsv); exact Hv|].
  split; [rewrite Hsro; exact Hro|]. split; [exact Hfl'|].
  intros k1 c Hc. rewrite Hfiles in Hc.
  destruct (decide (k1 = spec)) as [->|Hne].
  - rewrite lookup_insert_eq in Hc. injection Hc as <-.
    split; [exact Hkey|]. split; [right; exact Hdummy|].
    unfold BLOCK_LENGTH_INVALID in Hdummy. split; [lia|intros; lia].
  - rewrite lookup_insert_ne in Hc by congruence.
    destruct (Hdir _ _ Hc) as (Hkey1 & Hlen1 & Hpos1 & Hpair1).
    split; [exact Hkey1|]. split; [exact Hlen1|]. split.
    + intros Hp. destruct (Hpos1 Hp) as (H0 & Hend1 & Hclear1).
      split; [exact H0|]. split; [exact Hend1|].
      intros e fb Hin Hfb. rewrite HsL in Hin. rewrite Hsb in Hfb.
      apply elem_of_map_insert in Hin as [->|Hin].
      * cbn in Hfb. rewrite lookup_insert_eq in Hfb. injection Hfb as <-.
        cbn. destruct (Hpair1 spec block ltac:(congruence) Hl Hp Hpos); lia.
      * rewrite lookup_insert_ne in Hfb.
        -- apply (Hclear1 e fb Hin Hfb).
        -- intros Heq. destruct (He _ Hin) as (b0 & Hb0 & _).
           rewrite <- Heq in Hb0. congruence.
    + intros k2 c2 Hne2 Hc2 Hp Hp2. rewrite Hfiles in Hc2.
      destruct (decide (k2 = spec)) as [->|Hne3].
      * rewrite lookup_insert_eq in Hc2. injection Hc2 as <-.
        unfold BLOCK_LENGTH_INVALID in Hdummy. lia.
      * rewrite lookup_insert_ne in Hc2 by congruence.
        apply (Hpair1 k2 c2 Hne2 Hc2 Hp Hp2).
Qed.

(** With no free block next to the file there is nothing to grow into. *)
Lemma apart_cannot_grow s (block : LLVFSBlock) inc :
  free_lists_ok s ->
  0 <= mLocation block -> 0 < mLength block ->
  mLocation block + mLength block < 2 ^ 31 ->
  apart (blocks s) (mFreeBlocksByLocation s) (mLocation block) (mLength block) ->
  can_grow_in_place s block inc = false.
Proof.
  intros Hok Hloc Hlen Hend Hapart. unfold can_grow_in_place.
  destruct (upper_bound (mLocation block) (mFreeBlocksByLocation s))
    as [before after] eqn:Hub.
  destruct (upper_bound_spec _ _ _ _ Hub) as (HL & _ & _). cbn [snd].
  destruct after as [|[k p] rest]; [reflexivity|].
  destruct (blocks s !! p) as [fb|] eqn:Hfb; [|reflexivity].
  assert (Hin : (k, p) ∈ mFreeBlocksByLocation s)
    by (rewrite HL, elem_of_app; right; left).
  pose proof (Hapart _ _ Hin Hfb) as Hgap.
  rewrite wrapU32_small by lia.
  destruct (Z.eqb_spec (mLocation fb) (mLocation block + mLength block)) as [E|E];
    [|reflexivity].
  destruct Hok as [He _ _ _ _ _]. rewrite Forall_forall in He.
  destruct (He _ Hin) as (fb' & Hfb' & _ & _ & Hfpos & _). cbn in Hfb'.
  rewrite Hfb in Hfb'. injection Hfb' as <-. lia.
Qed.

Lemma bind_at {A B} (m k0 : M A) (rest : A -> M B) s s' :
  m s = k0 s' -> bind m rest s = bind k0 rest s'.
Proof. intros H. unfold bind. rewrite H. reflexivity. Qed.

Lemma dread_dwrite_app a : forall b pos file,
  dread pos (length a) (dwrite pos (a ++ b) file) = a.
Proof.
  induction a as [|x r IH]; intros b pos file; [reflexivity|].
  cbn [length dread dwrite app].
  rewrite dwrite_lookup_outside by lia. rewrite lookup_insert_eq.
  cbn. f_equal. apply IH.
Qed.

Lemma moved_length (n : nat) (read : list Z) :
  (length read <= n)%nat ->
  length (read ++ map uninitialized (seq (length read) (n - length read))) = n.
Proof. intros H. rewrite length_app, length_map, length_seq. lia. Qed.

(** [setMaxSize] that has to move a file: no free block touches the file,
    and some free block has the rounded length.  The call returns true and
    the file system stays consistent.  The record has the rounded length,
    its used size and its locks.  The used bytes that the data file holds
    at the old location are at the new location afterwards: all of them
    when the data file reaches the end of the used part of the file.  The
    other records are as before and so are the bytes in their extents. *)
Theorem setMaxSize_moves_file (s : LLVFS) (file_id : LLUUID)
    (file_type max_size now : Z) (block : LLVFSFileBlock) :
  let spec := mkSpec file_id file_type in
  let new_length := round_to_block max_size in
  vfs_ok s -> 0 < max_size ->
  mFileBlocks s !! spec = Some block ->
  0 < mLength block < new_length -> new_length < 2 ^ 31 ->
  0 <= mSize block <= mLength block ->
  apart (blocks s) (mFreeBlocksByLocation s) (mLocation block) (mLength block) ->
  checkAvailable new_length s = true ->
  exists s' (block' : LLVFSFileBlock),
    setMaxSize file_id file_type max_size now s = Returned true s'
    /\ vfs_ok s'
    /\ mFileBlocks s' !! spec = Some block'
    /\ mLength block' = new_length
    /\ mSize block' = mSize block
    /\ mLocks block' = mLocks block
    /\ (let read :=
          fread (mLocation block) (Z.to_nat (mSize block)) (mDataFP s) in
        dread (mLocation block') (length read) (mDataFP s') = read)
    /\ (mLocation block + mSize block <= data_end (mDataFP s) ->
        dread (mLocation block') (Z.to_nat (mSize block)) (mDataFP s')
        = dread (mLocation block) (Z.to_nat (mSize block)) (mDataFP s))
    /\ (forall k, k <> spec -> mFileBlocks s' !! k = mFileBlocks s !! k)
    /\ (forall k (c : LLVFSFileBlock) off,
          k <> spec -> mFileBlocks s !! k = Some c -> 0 < mLength c ->
          in_extent c off -> mDataFP s' !! off = mDataFP s !! off).
Proof.
  intros spec new_length Hok Hmax Hl Hnew Hnew31 Hsize Hapart Havail.
  pose proof Hok as (Hv & Hro & Hfl & Hdir).
  destruct (Hdir _ _ Hl) as (Hkey & _ & Hext & Hpair).
  destruct (Hext ltac:(lia)) as (Hloc0 & Hend & Hclear).
  (* the free block that will be used *)
  rewrite checkAvailable_find_by_length in Havail.
  apply bool_decide_eq_true_1 in Havail.
  destruct (find_by_length new_length s) as [p|] eqn:Hfind; [|congruence].
  clear Havail.
  destruct (find_by_length_some s new_length p Hfl Hfind)
    as (fb & a0 & b0 & Hfb & Hfbsize & HL0).
  assert (Hinp : (mLocation fb, p) ∈ mFreeBlocksByLocation s)
    by (rewrite HL0; apply elem_of_app; right; left).
  pose proof Hfl as [He _ _ _ _ _]. rewrite Forall_forall in He.
  destruct (He _ Hinp) as (fb' & Hfb' & _ & Hfloc0 & Hfpos & Hfend).
  cbn in Hfb', Hfloc0, Hfend. rewrite Hfb in Hfb'. injection Hfb' as <-.
  set (b1 := set_mAccessTime now block).
  set (stamped := set_mFileBlocks (<[spec := b1]> (mFileBlocks s)) s).
  (* the old extent becomes a free block *)
  assert (Hfls : free_lists_ok stamped) by exact Hfl.
  destruct (free_apart_extent stamped (mLocation block) (mLength block) Hfls
              Hloc0 ltac:(lia) Hend Hapart)
    as (Hq & Hqnotin & Hfl3 & Hkeep & Hfree).
  set (q := fresh (dom (blocks stamped))) in *.
  cbv zeta in Hfl3, Hkeep, Hfree.
  match type of Hfl3 with free_lists_ok ?t => set (s3 := t) in * end.
  assert (Hpq : p <> q).
  { intros ->. change (blocks s !! q = None) in Hq. congruence. }
  assert (Hfb3 : blocks s3 !! p = Some fb).
  { unfold s3. cbn. rewrite lookup_insert_ne by congruence. exact Hfb. }
  (* the copy of the used bytes *)
  set (read := fread (mLocation block) (Z.to_nat (mSize block)) (mDataFP s)).
  set (moved := read ++ map uninitialized
                          (seq (length read) (Z.to_nat (mSize block) - length read))).
  assert (Hshort : (length read <= Z.to_nat (mSize block))%nat).
  { pose proof (fread_length (mLocation block) (Z.to_nat (mSize block)) (mDataFP s))
      as Hr. fold read in Hr. lia. }
  assert (Hmoved : length moved = Z.to_nat (mSize block))
    by (apply moved_length; exact Hshort).
  set (data4 := if mSize block >? 0
                then dwrite (mLocation fb) moved (mDataFP s)
                else mDataFP s).
  set (s4 := set_mDataFP data4 s3).
  assert (Hfb4 : blocks s4 !! p = Some fb) by exact Hfb3.
  set (block2 := set_mLength new_length (set_mLocation (mLocation fb) b1)).
  set (s5 := set_mFileBlocks (<[spec := block2]> (mFileBlocks s4)) s4).
  assert (Hfl5 : free_lists_ok s5) by exact Hfl3.
  assert (Hin3 : (mLocation fb, p) ∈ mFreeBlocksByLocation s5)
    by (apply (Hkeep _ Hinp)).
  destruct (location_split _ _ _ _ _ Hfl5 Hin3) as (a' & b' & HL5 & _).
  destruct (useFreeSpace_ok s5 p (mLocation fb) fb new_length a' b' Hfl5 HL5
              Hfb4 ltac:(lia)) as (used & Huse & Hoku & Hsame & Hextents).
  destruct Hsame as (Hsv & Hsro & Hsfb & Hsh & Hslc & Hsif & Hsdf & Hslog).
  destruct (sync_runs used block2 false) as (slot & holes & file & Hsync).
  { rewrite (isValid_same _ _ Hsv). exact Hv. }
  { rewrite Hsro. exact Hro. }
  { cbn. lia. }
  eexists _, (set_mIndexLocation slot block2). split.
  - unfold setMaxSize.
    mstep (check_valid_ok s Hv).
    unfold bind at 1. unfold get at 1. rewrite Hro. rewrite bind_ret.
    destruct (Z.leb_spec max_size 0); [lia|].
    unfold find_block. rewrite bind_bind. unfold bind at 1. unfold get at 1.
    rewrite bind_ret. fold spec. rewrite Hl. fold new_length.
    destruct (Z.gtb_spec (mLength block) 0); [|lia].
    rewrite bind_put_block. fold b1 stamped.
    change (mLength b1) with (mLength block).
    change (mLocation b1) with (mLocation block).
    destruct (Z.eqb_spec new_length (mLength block)); [lia|].
    destruct (Z.ltb_spec new_length (mLength block)); [lia|].
    unfold bind at 1. unfold get at 1.
    change (mFreeBlocksByLocation stamped) with (mFreeBlocksByLocation s).
    pose proof (apart_cannot_grow s block (wrapS32 (new_length - mLength block))
                  Hfl Hloc0 ltac:(lia) Hend Hapart) as Hcg.
    unfold can_grow_in_place in Hcg.
    assert (Hgrown : forall k : bool -> M bool,
      (grown <- match snd (upper_bound (mLocation block) (mFreeBlocksByLocation s)) with
                | (_, free_block) :: _ =>
                    fb <- deref free_block ;;
                    if (mLocation fb =? wrapU32 (mLocation block + mLength block))
                       && (mLength fb >=? wrapS32 (new_length - mLength block)) then
                      useFreeSpace free_block (wrapS32 (new_length - mLength block)) ;;;
                      (let block0 := set_mLength
                           (wrapS32 (mLength block + wrapS32 (new_length - mLength block)))
                           b1 in
                       put_block spec block0 ;;;
                       block1 <- sync block0 false ;;
                       put_block spec block1 ;;; ret true)
                    else ret false
                | [] => ret false
                end ;; k grown) stamped = k false stamped).
    { intros k.
      destruct (snd (upper_bound (mLocation block) (mFreeBlocksByLocation s)))
        as [|[kf fp] rest] eqn:Hub; [reflexivity|].
      assert (Hin : (kf, fp) ∈ mFreeBlocksByLocation s).
      { destruct (upper_bound (mLocation block) (mFreeBlocksByLocation s))
          as [x y] eqn:E.
        destruct (upper_bound_spec _ _ _ _ E) as (-> & _ & _). cbn in Hub. subst y.
        rewrite elem_of_app. right. left. }
      destruct (He _ Hin) as (fb0 & Hfb0 & _). cbn in Hfb0.
      rewrite Hfb0 in Hcg.
      rewrite bind_bind.
      assert (Hfbs : blocks stamped !! fp = Some fb0) by exact Hfb0.
      mstep (deref_some _ _ _ Hfbs).
      rewrite Hcg. rewrite bind_ret. reflexivity. }
    rewrite Hgrown. clear Hgrown Hcg.
    mstep (findFreeBlock_immediate stamped new_length (Some spec) p Hv Hfind).
    assert (Hls : mFileBlocks stamped !! spec = Some b1) by apply lookup_insert_eq.
    mstep (lru_deref_some _ _ _ Hls).
    change (mLength b1) with (mLength block).
    change (mLocation b1) with (mLocation block).
    change (mSize b1) with (mSize block).
    destruct (Z.gtb_spec (mLength block) 0); [|lia].
    erewrite bind_at by (apply Hfree).
    assert (Hmove : forall rest : M bool,
      ((if mSize block >? 0
        then fb0 <- deref p ;;
             move_file_data (mLocation block) (mLocation fb0) (mSize block)
        else ret tt) ;;; rest) s3 = rest s4).
    { intros rest. unfold s4, data4.
      destruct (Z.gtb_spec (mSize block) 0).
      - rewrite bind_bind. mstep (deref_some _ _ _ Hfb3).
        unfold move_file_data, bind, modify. reflexivity.
      - rewrite bind_ret. reflexivity. }
    rewrite Hmove. clear Hmove.
    mstep (deref_some _ _ _ Hfb4). cbv zeta. fold block2.
    rewrite bind_put_block. fold s5.
    mstep Huse. mstep Hsync. rewrite bind_put_block. reflexivity.
  - (* the state with the file taken out, before the free block is used *)
    set (dummy := set_mLength BLOCK_LENGTH_INVALID b1).
    set (base := set_mFileBlocks (<[spec := dummy]> (mFileBlocks s)) s4).
    assert (Hbase : vfs_ok base).
    { apply (vfs_ok_freed_apart s base spec block dummy q); auto; try reflexivity.
      lia. }
    assert (Hfiles :
      <[spec:=set_mIndexLocation slot block2]> (mFileBlocks used)
      = <[spec:=set_mIndexLocation slot block2]> (mFileBlocks base)).
    { rewrite Hsfb. unfold s5, s4, s3, stamped, base. cbn.
      rewrite !insert_insert_eq. reflexivity. }
    assert (Hwritten : forall off,
              off < mLocation fb \/ mLocation fb + mLength fb <= off ->
              data4 !! off = mDataFP s !! off).
    { intros off Hoff. unfold data4.
      destruct (Z.gtb_spec (mSize block) 0); [|reflexivity].
      apply dwrite_lookup_outside. rewrite Hmoved. lia. }
    split; [|split; [cbn; rewrite Hfiles; apply lookup_insert_eq|]].
    + apply (vfs_ok_allocate base p fb a' b' spec
               (set_mIndexLocation slot block2) new_length);
        [exact Hbase|exact HL5|exact Hfb4|lia
        |intros d Hd; unfold base in Hd; cbn in Hd;
         rewrite lookup_insert_eq in Hd; injection Hd as <-; reflexivity
        |exact Hkey|reflexivity|reflexivity|exact Hoku|exact Hsv|exact Hsro
        |exact Hfiles|exact Hextents].
    + cbn. split; [reflexivity|]. split; [reflexivity|].
      split; [reflexivity|].
      assert (Hread : dread (mLocation fb) (length read) data4 = read).
      { unfold data4.
        destruct (Z.gtb_spec (mSize block) 0) as [Hpos|Hzero].
        - apply dread_dwrite_app.
        - replace (length read) with 0%nat by lia.
          destruct read; [reflexivity|cbn in Hshort; lia]. }
      split; [|split; [|split]].
      * rewrite Hsdf. exact Hread.
      * intros Hfull. rewrite Hsdf. change (mDataFP s5) with data4.
        assert (Hall : read = dread (mLocation block) (Z.to_nat (mSize block))
                                (mDataFP s)).
        { unfold read. apply fread_full. lia. }
        assert (Hlenr : length read = Z.to_nat (mSize block))
          by (rewrite Hall; apply dread_length).
        rewrite <- Hall, <- Hlenr. exact Hread.
      * intros k Hk. rewrite Hfiles. unfold base. cbn.
        rewrite !lookup_insert_ne by congruence. reflexivity.
      * intros k c off Hk Hc Hcpos Hoff. rewrite Hsdf. unfold s5, s4. cbn.
        apply Hwritten.
        destruct (Hdir _ _ Hc) as (_ & _ & Hcext & _).
        destruct (Hcext Hcpos) as (_ & _ & Hcclear).
        pose proof (Hcclear _ _ Hinp Hfb) as Hdis. cbn in Hdis.
        unfold in_extent in Hoff. lia.
Qed.

(** ** Accounting of the free space *)

Lemma free_space_app h a b :
  foldr (fun e acc => snd e + acc) 0 (extents_of h a ++ b)
  = foldr (fun e acc => snd e + acc) 0 (extents_of h a)
    + foldr (fun e acc => snd e + acc) 0 b.
Proof.
  induction (extents_of h a) as [|x l IH]; cbn; [reflexivity|]. rewrite IH. lia.
Qed.

(** For a size from 1 to 2^31 - 1024, the sizes whose rounded length does
    not wrap: when a free block of the rounded length exists, [setMaxSize]
    for a key with no record takes exactly the rounded length out of the
    free space, and the new record lies at the start of what was one of
    the free blocks. *)
Theorem setMaxSize_create_accounting (s : LLVFS) (file_id : LLUUID)
    (file_type max_size now : Z) :
  let spec := mkSpec file_id file_type in
  let new_length := round_to_block max_size in
  vfs_ok s -> 0 < max_size <= 2 ^ 31 - 1024 ->
  mFileBlocks s !! spec = None ->
  checkAvailable new_length s = true ->
  exists s' (block' : LLVFSFileBlock) e fb,
    setMaxSize file_id file_type max_size now s = Returned true s'
    /\ mFileBlocks s' !! spec = Some block'
    /\ e ∈ mFreeBlocksByLocation s /\ blocks s !! snd e = Some fb
    /\ mLocation block' = mLocation fb
    /\ mLength block' = new_length
    /\ new_length <= mLength fb
    /\ free_space s' = free_space s - new_length.
Proof.
  intros spec new_length Hok Hrange Hl Havail.
  assert (Hmax : 0 < max_size) by lia.
  assert (Hnew : 0 < new_length < 2 ^ 31)
    by (apply round_to_block_in_range; exact Hrange).
  pose proof Hok as (Hv & Hro & Hfl & Hdir).
  rewrite checkAvailable_find_by_length in Havail.
  apply bool_decide_eq_true_1 in Havail.
  destruct (find_by_length new_length s) as [p|] eqn:Hfind; [|congruence].
  clear Havail.
  destruct (find_by_length_some s new_length p Hfl Hfind)
    as (fb & a & b & Hfb & Hsize & HL).
  set (blk := new_LLVFSFileBlock file_id file_type (mLocation fb) new_length now).
  destruct (allocate_tail s p fb a b spec blk new_length now Hok HL Hfb)
    as (s' & slot & Hrun & _ & Hfiles & Hext & _);
    [lia|intros d Hd; congruence|reflexivity|reflexivity|reflexivity|].
  exists s', (set_mIndexLocation slot (set_mAccessTime now blk)),
    (mLocation fb, p), fb.
  split; [|split; [rewrite Hfiles; apply lookup_insert_eq|]].
  - unfold setMaxSize.
    mstep (check_valid_ok s Hv).
    unfold bind at 1. unfold get at 1. rewrite Hro. rewrite bind_ret.
    destruct (Z.leb_spec max_size 0); [lia|].
    unfold find_block. rewrite bind_bind. unfold bind at 1. unfold get at 1.
    rewrite bind_ret. fold spec. rewrite Hl. fold new_length.
    mstep (findFreeBlock_immediate s new_length None p Hv Hfind).
    mstep (deref_some _ _ _ Hfb). cbv zeta.
    unfold bind at 1. unfold get at 1. rewrite Hl.
    rewrite bool_decide_eq_true_2 by reflexivity. exact Hrun.
  - split; [rewrite HL; apply elem_of_app; right; left|].
    split; [exact Hfb|]. split; [reflexivity|]. split; [reflexivity|].
    split; [exact Hsize|].
    unfold free_space. rewrite Hext.
    unfold free_extents. rewrite HL, extents_of_app, extents_of_cons.
    cbn [snd]. rewrite Hfb. rewrite !free_space_app.
    destruct (Z.eqb_spec (mLength fb) new_length); cbn; lia.
Qed.

(** ** The replay of the index file as a whole *)




End VFS.

(** * The model on concrete states *)

Arguments Returned {A} _ _.
Arguments Crashed {A} _.

(** Case analysis on a lookup in a map that is written as a sequence of
    inserts. *)
Ltac lookup_cases H :=
  repeat (apply lookup_insert_Some in H as [[<- <-]|[? H]]);
  try (apply lookup_empty_Some in H; contradiction).

(** The free lists of concrete states. *)
Lemma free_lists_ok_empty (h : gmap ptr LLVFSBlock) : lists_ok h [] [].
Proof.
  split; try constructor.
  - intros H; exact H.
  - intros H; exact H.
Defined.

Lemma free_lists_ok_single (h : gmap ptr LLVFSBlock) (p : ptr) (b : LLVFSBlock) :
  h !! p = Some b -> 0 <= mLocation b -> 0 < mLength b ->
  mLocation b + mLength b < 2 ^ 31 ->
  lists_ok h [(mLocation b, p)] [(mLength b, p)].
Proof.
  intros Hp H0 H1 H2. split.
  - apply Forall_cons_2; [|apply Forall_nil_2].
    exists b. cbn. auto.
  - repeat constructor.
  - apply Forall_cons_2; [|apply Forall_nil_2].
    exists b. cbn. auto.
  - repeat constructor.
  - cbn. apply NoDup_singleton.
  - intros q. reflexivity.
Defined.

Lemma vfs_ok_four_assets : vfs_ok four_assets.
Proof.
  split; [reflexivity|]. split; [reflexivity|]. split.
  - apply free_lists_ok_empty.
  - intros k b H. unfold four_assets in H. cbn [mFileBlocks] in H.
    assert (Hclear : clear_of_free four_assets b).
    { intros e fb He. cbn in He. apply elem_of_nil in He. contradiction. }
    lookup_cases H.
    all: split; [reflexivity|]; split; [left; cbn; lia|];
      split; [intros _; split; [cbn; lia|split; [cbn; lia|exact Hclear]]|].
    all: intros k' b' Hne H' _ _; unfold four_assets in H';
      cbn [mFileBlocks] in H'; lookup_cases H'; cbn; try lia; congruence.
Defined.

Lemma free_lists_ok_one_asset : free_lists_ok one_asset.
Proof.
  apply (free_lists_ok_single _ 1%positive (mkBlock 8192 1040384));
    [reflexivity|cbn; lia ..].
Defined.

Lemma clear_of_free_one_asset :
  clear_of_free one_asset (file_at 1 0 8192 6000 1 0).
Proof.
  intros e fb He Hfb. cbn in He. apply list_elem_of_singleton in He. subst e.
  vm_compute in Hfb. injection Hfb as <-. cbn. lia.
Defined.

(** ** The theorems at concrete inputs *)


Lemma replay_record_failed_check_witness :
  replay_record true 22 16384 0 record_without_size 0 replay_start
  = ReplayDone (mkReplay ∅ [] [0]).
Proof.
  apply (replay_record_failed_check true 22 16384 0 record_without_size 0
           replay_start).
  - vm_compute. reflexivity.
  - right. vm_compute. discriminate.
Defined.


Lemma setMaxSize_grow_in_place_witness :
  exists s' (block' : LLVFSFileBlock),
    setMaxSize true true zero_filled (asset_id 1) 0 12288 2 one_asset = Returned true s'
    /\ mFileBlocks s' !! asset_key 1 = Some block'
    /\ mLocation block' = 0
    /\ mLength block' = 12288
    /\ mSize block' = 6000
    /\ free_extents s' = [(12288, 1036288)]
    /\ free_lists_ok s'
    /\ mDataFP s' = mDataFP one_asset.
Proof.
  apply (setMaxSize_grow_in_place true true zero_filled one_asset (asset_id 1) 0 12288 2
           (file_at 1 0 8192 6000 1 0) [] [] 8192 1%positive
           (mkBlock 8192 1040384)).
  - reflexivity.
  - reflexivity.
  - lia.
  - reflexivity.
  - vm_compute. split; reflexivity.
  - exact free_lists_ok_one_asset.
  - cbn. lia.
  - reflexivity.
  - reflexivity.
  - reflexivity.
  - vm_compute. discriminate.
Defined.

Lemma setMaxSize_shrink_witness :
  exists s' (block' : LLVFSFileBlock),
    setMaxSize true true zero_filled (asset_id 1) 0 4096 2 one_asset = Returned true s'
    /\ mFileBlocks s' !! asset_key 1 = Some block'
    /\ mLocation block' = 0
    /\ mLength block' = 4096
    /\ mSize block' = 4096
    /\ llog s' = [(LLERRS, "Truncating virtual file"%string)].
Proof.
  assert (H0 : 0 < 4096) by lia.
  assert (H1 : 0 < round_to_block 4096 < 8192) by (vm_compute; split; reflexivity).
  assert (H2 : 0 <= 0) by lia.
  assert (H3 : 0 + 8192 < 2 ^ 31) by lia.
  destruct (setMaxSize_shrink true true zero_filled one_asset (asset_id 1) 0 4096 2
              (file_at 1 0 8192 6000 1 0) eq_refl eq_refl H0 eq_refl H1
              free_lists_ok_one_asset H2 H3 clear_of_free_one_asset)
    as (freed & _ & _ & _ & H).
  assert (H4 : round_to_block 4096 < 6000) by (vm_compute; reflexivity).
  destruct (H H4) as (s' & block' & Hrun & Hl & Hloc & Hlen & Hsize & _ & _ & _ & Hlog).
  exists s', block'. repeat split; assumption.
Defined.

Lemma sync_slot_allocation_witness :
  sync true true (file_at 5 0 4096 0 5 (-1)) false four_assets
  = Returned (file_at 5 0 4096 0 5 136)
      (set_mIndexFP
         (mIndexFP four_assets ++ serialize true (file_at 5 0 4096 0 5 136))
         four_assets).
Proof.
  assert (H1 : mLength (file_at 5 0 4096 0 5 (-1)) <> BLOCK_LENGTH_INVALID)
    by (vm_compute; discriminate).
  assert (H2 : mLength (file_at 5 0 4096 0 5 (-1)) <> 0)
    by (vm_compute; discriminate).
  pose proof (sync_slot_allocation true true four_assets
                (file_at 5 0 4096 0 5 (-1)) false eq_refl eq_refl)
    as [_ H].
  destruct (H H1 H2) as (_ & _ & Happend).
  exact (Happend eq_refl eq_refl).
Defined.

Lemma serialize_deserialize_roundtrip_witness :
  let b := file_at 1 0 8192 6000 1 0 in
  serialize true b = record_layout b
  /\ length (serialize true b) = 34%nat
  /\ let d := deserialize true (default_LLVFSFileBlock 0) (serialize true b) 0 in
     mLocation d = 0 /\ mLength d = 8192
     /\ mAccessTime d = 1 /\ mFileID d = asset_id 1
     /\ mFileType d = 0 /\ mSize d = 6000.
Proof.
  apply (serialize_deserialize_roundtrip true (file_at 1 0 8192 6000 1 0)
           (default_LLVFSFileBlock 0) 0).
  unfold block_fields_ok, inU32, inS32, inS16. cbn.
  repeat split; try lia; reflexivity.
Defined.

Lemma storeData_dummy_ignored_witness :
  exists s',
    storeData true true (asset_id 1) 0 [1; 2; 3] 0 3 8 locked_dummy
    = Returned 3 s'
    /\ mDataFP s' = mDataFP locked_dummy
    /\ mFileBlocks s'
       = <[asset_key 1 := set_mAccessTime 8 dummy_of_asset_1]>
           (mFileBlocks locked_dummy)
    /\ mIndexFP s' = mIndexFP locked_dummy.
Proof.
  destruct (storeData_dummy_ignored true true locked_dummy (asset_id 1) 0
              [1; 2; 3] 0 3 8 dummy_of_asset_1 eq_refl eq_refl eq_refl eq_refl)
    as (s' & Hrun & Hdata & Hfiles & Hindex & _).
  exists s'. repeat split; assumption.
Defined.

Lemma getMaxSize_returns_length_witness :
  getMaxSize true (asset_id 1) 0 8 four_assets
  = Returned 4096
      (set_mFileBlocks
         (<[asset_key 1 := file_at 1 0 4096 0 8 0]> (mFileBlocks four_assets))
         four_assets)
  /\ getMaxSize true (asset_id 9) 0 8 four_assets = Returned 0 four_assets.
Proof.
  pose proof (getMaxSize_returns_length true four_assets (asset_id 1) 0 8 eq_refl)
    as [Hpresent _].
  pose proof (getMaxSize_returns_length true four_assets (asset_id 9) 0 8 eq_refl)
    as [_ Habsent].
  split.
  - exact (proj1 (Hpresent (file_at 1 0 4096 0 1 0) eq_refl)).
  - exact (Habsent eq_refl).
Defined.

Lemma decLock_absent_or_zero_witness :
  decLock (asset_id 1) 0 VFSLOCK_READ (presized 16384)
  = Returned tt (presized 16384)
  /\ exists s',
       decLock (asset_id 1) 0 VFSLOCK_READ four_assets = Returned tt s'
       /\ mFileBlocks s' = mFileBlocks four_assets
       /\ lock_get (mLockCounts s') VFSLOCK_READ = -1
       /\ lock_get (mLockCounts s') VFSLOCK_READ < sum_locks VFSLOCK_READ s'.
Proof.
  split.
  - apply (decLock_absent_or_zero (presized 16384) (asset_id 1) 0 VFSLOCK_READ).
    reflexivity.
  - pose proof (decLock_absent_or_zero four_assets (asset_id 1) 0 VFSLOCK_READ)
      as [_ H].
    destruct (H (file_at 1 0 4096 0 1 0) eq_refl eq_refl)
      as (s' & Hrun & Hfiles & _ & Hcount & _ & Hbelow).
    exists s'. split; [exact Hrun|]. split; [exact Hfiles|].
    split; [exact Hcount|].
    assert (H1 : inS32 (lock_get (mLockCounts four_assets) VFSLOCK_READ - 1))
      by (unfold inS32; cbn; lia).
    assert (H2 : lock_get (mLockCounts four_assets) VFSLOCK_READ
                 = sum_locks VFSLOCK_READ four_assets)
      by (vm_compute; reflexivity).
    exact (Hbelow H1 H2).
Defined.

(** ** Where the code departs from the design document *)

(** Against C2 as the design document has it: a record with length 1024
    and size 0 fails the sanity check and is not all zero, yet the replay
    takes it for a hole in the index and goes on; neither file is
    removed. *)
Lemma replay_record_hole_with_length :
  let block := deserialize true (default_LLVFSFileBlock 0) record_without_size 0 in
  sane_block 22 16384 block = false
  /\ mLength block = 1024
  /\ mSize block = 0
  /\ replay_record true 22 16384 0 record_without_size 0 replay_start
     = ReplayDone (mkReplay ∅ [] [0])
  /\ replay_record true 22 16384 0 record_without_size 0 replay_start
     <> ReplayRemoved true true VFSVALID_BAD_CORRUPT.
Proof.
  vm_compute. repeat split; try reflexivity. discriminate.
Qed.



(** Against C5 as the design document has it: cutting a file of 6000
    bytes down to 4096 goes to the error stream, not to the warning
    stream; where the error stream does not return, [setMaxSize] does not
    return either. *)
Lemma setMaxSize_truncation_is_an_error :
  (exists s',
     setMaxSize true true zero_filled (asset_id 1) 0 4096 2 one_asset = Returned true s'
     /\ llog s' = [(LLERRS, "Truncating virtual file"%string)]
     /\ Forall (fun e => fst e <> LLWARNS) (llog s'))
  /\ (exists s',
        setMaxSize true false zero_filled (asset_id 1) 0 4096 2 one_asset = Crashed s'
        /\ llog s' = [(LLERRS, "Truncating virtual file"%string)]).
Proof.
  split.
  - eexists. split; [vm_compute; reflexivity|]. split; [vm_compute; reflexivity|].
    apply Forall_cons_2; [discriminate|apply Forall_nil_2].
  - eexists. split; vm_compute; reflexivity.
Qed.

(** Against C9 as the design document has it: after [incLock] on a key
    with no record the directory holds a dummy record for it, and
    [getMaxSize] returns its length, which is -1. *)
Lemma getMaxSize_of_dummy_is_negative :
  incLock (asset_id 1) 0 VFSLOCK_READ 7 (presized 16384)
  = Returned tt locked_dummy
  /\ exists s',
       getMaxSize true (asset_id 1) 0 8 locked_dummy = Returned (-1) s'.
Proof.
  split; [vm_compute; reflexivity|].
  eexists. vm_compute. reflexivity.
Qed.

(** ** The further properties at concrete inputs *)

Lemma dir_ok_no_live_files s :
  (forall k (b : LLVFSFileBlock), mFileBlocks s !! k = Some b ->
     fbSpec b = k /\ mLength b = BLOCK_LENGTH_INVALID) ->
  dir_ok s.
Proof.
  intros H k b Hl. destruct (H k b Hl) as [Hk Hlen].
  split; [exact Hk|]. split; [right; exact Hlen|].
  unfold BLOCK_LENGTH_INVALID in Hlen.
  split; [intros; lia|intros; lia].
Defined.

Lemma vfs_ok_presized : vfs_ok (presized 16384).
Proof.
  split; [reflexivity|]. split; [reflexivity|]. split.
  - apply (free_lists_ok_single _ 1%positive (mkBlock 0 16384));
      [reflexivity|cbn; lia ..].
  - apply dir_ok_no_live_files. intros k b H.
    unfold presized in H. cbn [mFileBlocks] in H.
    apply lookup_empty_Some in H. contradiction.
Defined.

Lemma vfs_ok_locked_dummy : vfs_ok locked_dummy.
Proof.
  split; [reflexivity|]. split; [reflexivity|]. split.
  - apply (free_lists_ok_single _ 1%positive (mkBlock 0 16384));
      [reflexivity|cbn; lia ..].
  - apply dir_ok_no_live_files. intros k b H.
    unfold locked_dummy in H. cbn [mFileBlocks] in H. lookup_cases H.
    split; reflexivity.
Defined.

Lemma vfs_ok_one_asset : vfs_ok one_asset.
Proof.
  split; [reflexivity|]. split; [reflexivity|].
  split; [exact free_lists_ok_one_asset|].
  intros k b H. unfold one_asset in H. cbn [mFileBlocks] in H. lookup_cases H.
  split; [reflexivity|]. split; [left; cbn; lia|]. split.
  - intros _. split; [cbn; lia|]. split; [cbn; lia|].
    exact clear_of_free_one_asset.
  - intros k' b' Hne H'. unfold one_asset in H'. cbn [mFileBlocks] in H'.
    lookup_cases H'. congruence.
Defined.

Lemma round_to_block_bounds_witness :
  round_to_block 5000 mod 1024 = 0
  /\ 5000 <= round_to_block 5000 < 5000 + 1024.
Proof.
  assert (H : 0 < 5000 < 2 ^ 31) by lia.
  assert (H' : 5000 <= 2 ^ 31 - 1024) by lia.
  exact (proj1 (round_to_block_bounds 5000 H) H').
Defined.

Lemma swizzle_involution_witness :
  swizzle32 (swizzle32 305419896) = 305419896
  /\ swizzle16 (swizzle16 4660) = 4660.
Proof.
  apply swizzle_involution.
  - unfold inU32. lia.
  - lia.
Defined.

Lemma incLock_then_decLock_witness :
  exists s1,
    incLock (asset_id 1) 0 VFSLOCK_READ 9 four_assets = Returned tt s1
    /\ isLocked (asset_id 1) 0 VFSLOCK_READ s1 = true
    /\ decLock (asset_id 1) 0 VFSLOCK_READ s1 = Returned tt four_assets.
Proof.
  assert (H : - 2 ^ 31 <= lock_get (mLockCounts four_assets) VFSLOCK_READ
              < 2 ^ 31 - 1) by (cbn; lia).
  pose proof (incLock_then_decLock four_assets (asset_id 1) 0 VFSLOCK_READ 9 H)
    as [Hpresent _].
  apply (Hpresent (file_at 1 0 4096 0 1 0)); [reflexivity|cbn; lia].
Defined.

Lemma lock_counts_agree_kept_witness :
  exists s',
    incLock (asset_id 1) 0 VFSLOCK_READ 9 four_assets = Returned tt s'
    /\ lock_counts_agree VFSLOCK_READ s'.
Proof.
  assert (H0 : lock_counts_agree VFSLOCK_READ four_assets)
    by (vm_compute; reflexivity).
  assert (H1 : - 2 ^ 31 < lock_get (mLockCounts four_assets) VFSLOCK_READ
               < 2 ^ 31 - 1) by (cbn; lia).
  assert (H2 : forall block : LLVFSFileBlock,
             mFileBlocks four_assets !! mkSpec (asset_id 1) 0 = Some block ->
             - 2 ^ 31 < lock_get (mLocks block) VFSLOCK_READ < 2 ^ 31 - 1).
  { intros block H. vm_compute in H. injection H as <-. cbn. lia. }
  exact (proj1 (lock_counts_agree_kept four_assets (asset_id 1) 0 VFSLOCK_READ 9
                  H0 H1 H2)).
Defined.

Lemma storeData_confined_witness :
  exists s' (block' : LLVFSFileBlock),
    storeData true true (asset_id 1) 0 [7; 8; 9] 6000 3 2 one_asset
    = Returned 3 s'
    /\ (forall off, ~ in_extent (file_at 1 0 8192 6000 1 0) off ->
          mDataFP s' !! off = mDataFP one_asset !! off)
    /\ dread 6000 3 (mDataFP s') = [7; 8; 9]
    /\ mFileBlocks s' !! asset_key 1 = Some block'
    /\ mLocation block' = 0
    /\ mLength block' = 8192
    /\ mSize block' = 6003
    /\ mLocks block' = no_locks
    /\ (forall k, k <> asset_key 1 ->
          mFileBlocks s' !! k = mFileBlocks one_asset !! k)
    /\ free_extents s' = free_extents one_asset.
Proof.
  apply (storeData_confined true true one_asset (asset_id 1) 0 [7; 8; 9] 6000 3 2
           (file_at 1 0 8192 6000 1 0)).
  - reflexivity.
  - reflexivity.
  - reflexivity.
  - cbn. lia.
  - cbn. lia.
  - cbn. lia.
  - vm_compute. split; discriminate.
  - lia.
  - cbn. lia.
  - cbn. lia.
Defined.

Lemma storeData_then_getData_witness :
  exists s1 s2,
    storeData true true (asset_id 1) 0 [7; 8; 9] 100 3 2 one_asset
    = Returned 3 s1
    /\ getData true (asset_id 1) 0 100 3 3 s1 = Returned (3, [7; 8; 9]) s2.
Proof.
  apply (storeData_then_getData true true one_asset (asset_id 1) 0 [7; 8; 9]
           100 3 2 3 (file_at 1 0 8192 6000 1 0)).
  - reflexivity.
  - reflexivity.
  - reflexivity.
  - cbn. lia.
  - cbn. lia.
  - cbn. lia.
  - cbn. lia.
  - lia.
  - cbn. lia.
  - cbn. lia.
Defined.

Lemma getData_bounds_witness :
  sane_block 22 4480 (file_at 1 4096 4096 4096 1 0) = true
  /\ data_end (mDataFP past_the_end) = 4480
  /\ getData true (asset_id 9) 0 0 10 5 past_the_end
     = Returned (0, []) past_the_end
  /\ getData true (asset_id 1) 0 0 4096 5 past_the_end
     = Returned (384, dread 4096 384 (mDataFP past_the_end))
         (set_mFileBlocks
            (<[asset_key 1 := file_at 1 4096 4096 4096 5 0]>
               (mFileBlocks past_the_end))
            past_the_end)
  /\ getData true (asset_id 1) 0 381 100 5 past_the_end
     = Returned (3, [7; 8; 9])
         (set_mFileBlocks
            (<[asset_key 1 := file_at 1 4096 4096 4096 5 0]>
               (mFileBlocks past_the_end))
            past_the_end).
Proof.
  pose proof (getData_bounds true past_the_end (asset_id 9) 0 0 10 5 eq_refl)
    as [Habsent _].
  pose proof (getData_bounds true past_the_end (asset_id 1) 0 0 4096 5 eq_refl)
    as [_ Hwhole].
  pose proof (getData_bounds true past_the_end (asset_id 1) 0 381 100 5 eq_refl)
    as [_ Htail].
  split; [reflexivity|]. split; [reflexivity|].
  split; [exact (Habsent eq_refl)|].
  destruct (Hwhole (file_at 1 4096 4096 4096 1 0) eq_refl) as [_ Hin1].
  destruct (Htail (file_at 1 4096 4096 4096 1 0) eq_refl) as [_ Hin2].
  split; [apply Hin1; cbn; lia|apply Hin2; cbn; lia].
Defined.

Lemma findFreeBlock_best_fit_witness :
  checkAvailable 4096 one_asset = true
  /\ exists p fb,
       findFreeBlock true true 4096 None one_asset = Returned (Some p) one_asset
       /\ blocks one_asset !! p = Some fb
       /\ 4096 <= mLength fb.
Proof.
  pose proof (findFreeBlock_best_fit true true one_asset 4096 None eq_refl
                free_lists_ok_one_asset) as [_ H].
  split; [reflexivity|].
  destruct (H eq_refl) as (p & fb & Hrun & _ & Hfb & Hsize & _).
  exists p, fb. auto.
Defined.

Lemma findFreeBlock_spares_locked_witness :
  exists r s',
    findFreeBlock true true 12288 (Some (asset_key 2)) four_assets
    = Returned r s'
    /\ vfs_ok s'
    /\ mFileBlocks s' !! asset_key 2 = mFileBlocks four_assets !! asset_key 2.
Proof.
  assert (H : 12288 < 2 ^ 31) by lia.
  destruct (findFreeBlock_spares_locked true true four_assets 12288
              (Some (asset_key 2)) vfs_ok_four_assets H)
    as (r & s' & Hrun & Hok & _ & _ & Himmune & _).
  exists r, s'. split; [exact Hrun|]. split; [exact Hok|].
  apply Himmune. reflexivity.
Defined.

Lemma removeFile_removes_witness :
  exists s' s'',
    removeFile true true (asset_id 1) 0 four_assets = Returned tt s'
    /\ vfs_ok s'
    /\ getExists true (asset_id 1) 0 9 s' = Returned false s''.
Proof.
  pose proof (removeFile_removes true true four_assets (asset_id 1) 0 9
                vfs_ok_four_assets) as [_ H].
  destruct (H (file_at 1 0 4096 0 1 0) eq_refl)
    as (s' & s'' & Hrun & Hok & _ & _ & _ & _ & Hex).
  exists s', s''. auto.
Defined.

Lemma setMaxSize_creates_witness :
  exists r s',
    setMaxSize true true zero_filled (asset_id 1) 0 4000 1 (presized 16384) = Returned r s'
    /\ vfs_ok s'
    /\ r = true.
Proof.
  assert (H0 : 0 < 4000 <= 2 ^ 31 - 1024) by lia.
  destruct (setMaxSize_creates true true zero_filled (presized 16384) (asset_id 1) 0 4000 1
              vfs_ok_presized H0 eq_refl)
    as (r & s' & Hrun & Hok & _ & _ & _ & Havail).
  exists r, s'. split; [exact Hrun|]. split; [exact Hok|].
  apply Havail. reflexivity.
Defined.

Lemma setMaxSize_revives_dummy_witness :
  exists r s',
    setMaxSize true true zero_filled (asset_id 1) 0 4000 8 locked_dummy = Returned r s'
    /\ vfs_ok s'
    /\ (r = true ->
        exists block' : LLVFSFileBlock,
          mFileBlocks s' !! asset_key 1 = Some block'
          /\ mLength block' = 4096
          /\ mLocks block' = mkLocks 0 1 0).
Proof.
  assert (H0 : 0 < 4000 <= 2 ^ 31 - 1024) by lia.
  destruct (setMaxSize_revives_dummy true true zero_filled locked_dummy (asset_id 1) 0 4000 8
              dummy_of_asset_1 vfs_ok_locked_dummy H0 eq_refl eq_refl)
    as (r & s' & Hrun & Hok & _ & Htrue & _).
  exists r, s'. split; [exact Hrun|]. split; [exact Hok|].
  intros Hr. destruct (Htrue Hr) as (block' & Hl & Hlen & _ & Hlocks & _).
  exists block'. auto.
Defined.

Lemma setMaxSize_trivial_witness :
  setMaxSize true true zero_filled (asset_id 1) 0 0 9 four_assets
  = Returned false
      (set_llog [(LLWARNS, "VFS: Attempt to assign size to vfile"%string)]
         four_assets)
  /\ setMaxSize true true zero_filled (asset_id 1) 0 4000 9 four_assets
     = Returned true
         (set_mFileBlocks
            (<[asset_key 1 := file_at 1 0 4096 0 9 0]> (mFileBlocks four_assets))
            four_assets).
Proof.
  pose proof (setMaxSize_trivial true true zero_filled four_assets (asset_id 1) 0 0 9
                eq_refl eq_refl) as [Hzero _].
  pose proof (setMaxSize_trivial true true zero_filled four_assets (asset_id 1) 0 4000 9
                eq_refl eq_refl) as [_ Hsame].
  split.
  - apply Hzero. lia.
  - apply (Hsame (file_at 1 0 4096 0 1 0)); [reflexivity|lia|cbn; lia|reflexivity].
Defined.

Lemma invalid_or_read_only_refused_witness :
  removeFile true false (asset_id 1) 0 read_only_assets
  = Crashed
      (set_llog [(LLERRS, "Attempt to write to read-only VFS"%string)]
         read_only_assets).
Proof.
  pose proof (invalid_or_read_only_refused true false zero_filled read_only_assets
                (asset_id 1) (asset_id 2) 0 0 4096 0 3 9 [1; 2; 3] eq_refl)
    as [_ H].
  destruct (H eq_refl eq_refl) as (_ & _ & Hremove & _).
  exact Hremove.
Defined.

Lemma renameFile_moves_witness :
  exists s' (block' : LLVFSFileBlock),
    renameFile true true (asset_id 1) 0 (asset_id 2) 0 9 four_assets
    = Returned tt s'
    /\ vfs_ok s'
    /\ mFileBlocks s' !! asset_key 1 = None
    /\ mFileBlocks s' !! asset_key 2 = Some block'
    /\ mLocation block' = 0 /\ mLength block' = 4096.
Proof.
  pose proof (renameFile_moves true true four_assets (asset_id 1) 0 (asset_id 2)
                0 9 vfs_ok_four_assets) as [_ H].
  assert (Hne : mkSpec (asset_id 1) 0 <> mkSpec (asset_id 2) 0) by discriminate.
  assert (Hdest : forall dest : LLVFSFileBlock,
            mFileBlocks four_assets !! mkSpec (asset_id 2) 0 = Some dest ->
            mLocks dest = no_locks).
  { intros dest Hd. vm_compute in Hd. injection Hd as <-. reflexivity. }
  destruct (H (file_at 1 0 4096 0 1 0) eq_refl Hne Hdest)
    as (s' & block' & Hrun & Hok & Hold & Hnew & _ & Hloc & Hlen & _).
  exists s', block'. auto 10.
Defined.

Lemma sync_then_replay_witness :
  exists slot s',
    sync true true (file_at 5 0 4096 100 5 (-1)) false four_assets
    = Returned (file_at 5 0 4096 100 5 slot) s'
    /\ 0 <= slot
    /\ (slot < 2 ^ 31 ->
        exists st',
          replay_record true 22 16384 0 (mIndexFP s') slot replay_start
          = ReplayDone st'
          /\ rFileBlocks st'
             = <[asset_key 5 := file_at 5 0 4096 100 5 slot]> ∅
          /\ rIndexHoles st' = []).
Proof.
  assert (Hfields : block_fields_ok (file_at 5 0 4096 100 5 (-1))).
  { unfold block_fields_ok, inU32, inS32, inS16. cbn.
    repeat split; try lia; reflexivity. }
  assert (Hloc : 0 <= mIndexLocation (file_at 5 0 4096 100 5 (-1))
                 \/ mIndexLocation (file_at 5 0 4096 100 5 (-1)) = -1)
    by (right; reflexivity).
  assert (Hholes : Forall (fun hole => 0 <= hole) (mIndexHoles four_assets))
    by apply Forall_nil_2.
  assert (Hsize : Z.of_nat (length (mIndexFP four_assets)) < 2 ^ 31)
    by (vm_compute; reflexivity).
  destruct (sync_then_replay true 22 true four_assets
              (file_at 5 0 4096 100 5 (-1)) 16384 0 replay_start
              eq_refl eq_refl Hfields eq_refl Hloc Hholes Hsize)
    as (slot & s' & Hrun & Hslot & _ & Hreplay).
  exists slot, s'. split; [exact Hrun|]. split; [exact Hslot|].
  intros Hs. exact (Hreplay Hs).
Defined.

Lemma sync_remove_then_replay_witness :
  exists s',
    sync true true (file_at 2 4096 4096 0 2 34) true four_assets
    = Returned (file_at 2 4096 4096 0 2 34) s'
    /\ mIndexHoles s' = [34]
    /\ replay_record true 22 16384 0 (mIndexFP s') 34 replay_start
       = ReplayDone (mkReplay ∅ [] [34]).
Proof.
  apply (sync_remove_then_replay true 22 true four_assets
           (file_at 2 4096 4096 0 2 34) 16384 0 replay_start).
  - reflexivity.
  - reflexivity.
  - vm_compute. discriminate.
  - vm_compute. discriminate.
  - cbn. lia.
Defined.

Lemma vfs_ok_two_assets : vfs_ok two_assets.
Proof.
  split; [reflexivity|]. split; [reflexivity|]. split.
  - apply (free_lists_ok_single _ 1%positive (mkBlock 8192 1040384));
      [reflexivity|cbn; lia ..].
  - intros k b H. unfold two_assets in H. cbn [mFileBlocks] in H.
    lookup_cases H.
    all: split; [reflexivity|]; split; [left; cbn; lia|]; split.
    all: try (intros _; split; [cbn; lia|]; split; [cbn; lia|];
              intros e fb He Hfb; cbn in He;
              apply list_elem_of_singleton in He; subst e;
              vm_compute in Hfb; injection Hfb as <-; cbn; lia).
    all: intros k' b' Hne H' _ _; unfold two_assets in H';
      cbn [mFileBlocks] in H'; lookup_cases H'; cbn; try lia; congruence.
Defined.

Lemma eraseBlock_both_indexes_witness :
  exists s',
    eraseBlock true 1%positive one_asset = Returned tt s'
    /\ mFreeBlocksByLocation s' = remove_ptr 1%positive (mFreeBlocksByLocation one_asset)
    /\ mFreeBlocksByLength s' = remove_ptr 1%positive (mFreeBlocksByLength one_asset)
    /\ blocks s' = blocks one_asset
    /\ (1%positive ∉ map snd (mFreeBlocksByLocation s'))
    /\ (1%positive ∉ map snd (mFreeBlocksByLength s')).
Proof.
  assert (Hb : blocks one_asset !! 1%positive = Some (mkBlock 8192 1040384))
    by reflexivity.
  apply (proj1 (eraseBlock_both_indexes true one_asset 1%positive _ Hb)).
  - exact free_lists_ok_one_asset.
  - cbn. apply list_elem_of_singleton. reflexivity.
Defined.

Lemma useFreeSpace_takes_front_witness :
  exists s',
    useFreeSpace true 1%positive 4096 one_asset = Returned tt s'
    /\ free_lists_ok s'
    /\ free_extents s' = [(12288, 1036288)].
Proof.
  assert (Hlen : 0 < 4096 <= mLength (mkBlock 8192 1040384)) by (cbn; lia).
  destruct (useFreeSpace_takes_front true one_asset 1%positive
              (mkBlock 8192 1040384) 4096 [] [] free_lists_ok_one_asset
              eq_refl eq_refl Hlen)
    as (s' & Hrun & Hok & _ & _ & Hext).
  exists s'. split; [exact Hrun|]. split; [exact Hok|]. exact Hext.
Defined.

Lemma storeData_turned_away_witness :
  storeData true true (asset_id 2) 0 [1; 2; 3] 0 3 5 one_asset
  = Returned 0 one_asset.
Proof.
  apply (proj1 (storeData_turned_away true true one_asset (asset_id 2) 0
                  [1; 2; 3] 0 3 5 eq_refl eq_refl)).
  reflexivity.
Defined.

Lemma setMaxSize_shrink_consistent_witness :
  exists s' (block' : LLVFSFileBlock),
    setMaxSize true true zero_filled (asset_id 1) 0 6100 2 one_asset = Returned true s'
    /\ vfs_ok s'
    /\ mFileBlocks s' !! asset_key 1 = Some block'
    /\ mLength block' = 6144
    /\ mSize block' = 6000.
Proof.
  assert (H0 : 0 < 6100) by lia.
  assert (H1 : 0 < round_to_block 6100 < mLength (file_at 1 0 8192 6000 1 0))
    by (vm_compute; split; reflexivity).
  assert (H2 : mSize (file_at 1 0 8192 6000 1 0) <= round_to_block 6100)
    by (vm_compute; discriminate).
  destruct (setMaxSize_shrink_consistent true true zero_filled one_asset (asset_id 1) 0
              6100 2 (file_at 1 0 8192 6000 1 0) vfs_ok_one_asset H0 eq_refl
              H1 H2)
    as (s' & block' & Hrun & Hok & Hl & _ & Hlen & Hsize & _).
  exists s', block'. auto.
Defined.

Lemma setMaxSize_grow_in_place_consistent_witness :
  exists s' (block' : LLVFSFileBlock),
    setMaxSize true true zero_filled (asset_id 1) 0 12288 2 one_asset = Returned true s'
    /\ vfs_ok s'
    /\ mFileBlocks s' !! asset_key 1 = Some block'
    /\ mLocation block' = 0
    /\ mLength block' = 12288.
Proof.
  assert (H0 : 0 < 12288) by lia.
  assert (H1 : 0 < mLength (file_at 1 0 8192 6000 1 0) < round_to_block 12288)
    by (vm_compute; split; reflexivity).
  assert (H2 : round_to_block 12288 < 2 ^ 31) by (vm_compute; reflexivity).
  destruct (setMaxSize_grow_in_place_consistent true true zero_filled one_asset (asset_id 1)
              0 12288 2 (file_at 1 0 8192 6000 1 0) vfs_ok_one_asset H0 eq_refl
              H1 H2 eq_refl)
    as (s' & block' & Hrun & Hok & Hl & Hloc & Hlen & _).
  exists s', block'. auto.
Defined.

Lemma setMaxSize_moves_file_witness :
  exists s' (block' : LLVFSFileBlock),
    setMaxSize true true zero_filled (asset_id 1) 0 8192 5 two_assets = Returned true s'
    /\ vfs_ok s'
    /\ mFileBlocks s' !! asset_key 1 = Some block'
    /\ mLength block' = 8192
    /\ mSize block' = 4
    /\ dread (mLocation block') 4 (mDataFP s') = [11; 22; 33; 44]
    /\ mFileBlocks s' !! asset_key 2 = mFileBlocks two_assets !! asset_key 2.
Proof.
  assert (H0 : 0 < 8192) by lia.
  assert (H1 : 0 < mLength (file_at 1 0 4096 4 1 0) < round_to_block 8192)
    by (vm_compute; split; reflexivity).
  assert (H2 : round_to_block 8192 < 2 ^ 31) by (vm_compute; reflexivity).
  assert (H3 : 0 <= mSize (file_at 1 0 4096 4 1 0)
               <= mLength (file_at 1 0 4096 4 1 0))
    by (vm_compute; split; discriminate).
  assert (H4 : apart (blocks two_assets) (mFreeBlocksByLocation two_assets)
                 (mLocation (file_at 1 0 4096 4 1 0))
                 (mLength (file_at 1 0 4096 4 1 0))).
  { intros e fb He Hfb. cbn in He. apply list_elem_of_singleton in He. subst e.
    vm_compute in Hfb. injection Hfb as <-. cbn. lia. }
  destruct (setMaxSize_moves_file true true zero_filled two_assets (asset_id 1) 0 8192 5
              (file_at 1 0 4096 4 1 0) vfs_ok_two_assets H0 eq_refl
              H1 H2 H3 H4 eq_refl)
    as (s' & block' & Hrun & Hok & Hl & Hlen & Hsize & _ & _ & Hdata & Hothers & _).
  exists s', block'. split; [exact Hrun|]. split; [exact Hok|].
  split; [exact Hl|]. split; [exact Hlen|]. split; [exact Hsize|].
  split; [|apply Hothers; vm_compute; discriminate].
  apply Hdata. vm_compute. discriminate.
Defined.

Lemma setMaxSize_create_accounting_witness :
  exists s' (block' : LLVFSFileBlock),
    setMaxSize true true zero_filled (asset_id 2) 0 4000 3 one_asset = Returned true s'
    /\ mFileBlocks s' !! asset_key 2 = Some block'
    /\ mLength block' = 4096
    /\ free_space s' = free_space one_asset - 4096.
Proof.
  assert (H0 : 0 < 4000 <= 2 ^ 31 - 1024) by lia.
  destruct (setMaxSize_create_accounting true true zero_filled one_asset (asset_id 2) 0
              4000 3 vfs_ok_one_asset H0 eq_refl eq_refl)
    as (s' & block' & e & fb & Hrun & Hl & _ & _ & _ & Hlen & _ & Hfree).
  exists s', block'. auto.
Defined.

